(** * A shallow embedding of the chess rule engine of [chess_core.py]

    The engine is the Python class [GameOps] and its six subclasses
    ([Pawn], [Rook], [Knight], [Bishop], [Queen], [King]).  Pieces are
    Python objects held in the class-level list [GameOps.pieces]; the board
    [board_objects] is an 8x8 numpy array of references to them.  Here an
    object reference is the index of the piece in the registry, the mutable
    class attributes form the record [Game], and every method is a function in
    a state-and-exception monad over [Game]. *)

From Stdlib Require Import ZArith List String Ascii Bool Lia Arith.
Import ListNotations.
Open Scope string_scope.
Open Scope list_scope.
Open Scope Z_scope.

(** ** Python exceptions and results *)

Inductive exn : Type :=
| IndexError | AttributeError | TypeError | KeyError | UnboundLocalError
| ValueError
| OutOfFuel.   (* not a Python exception: the recursion bound of the model *)

Inductive Res (A : Type) : Type :=
| Ok (a : A)
| Raise (e : exn).
Arguments Ok {A} a.
Arguments Raise {A} e.

Definition res_bind {A B} (r : Res A) (k : A -> Res B) : Res B :=
  match r with Ok a => k a | Raise e => Raise e end.

(** ** Python sequence indexing

    [l[i]] on a list or on one axis of a numpy array: a negative index counts
    from the end, anything outside [-len, len) raises [IndexError]. *)

Definition py_index (len i : Z) : Res nat :=
  if (0 <=? i) && (i <? len) then Ok (Z.to_nat i)
  else if (- len <=? i) && (i <? 0) then Ok (Z.to_nat (i + len))
  else Raise IndexError.

Definition py_nth {A} (l : list A) (i : Z) : Res A :=
  res_bind (py_index (Z.of_nat (List.length l)) i)
    (fun n => match nth_error l n with Some a => Ok a | None => Raise IndexError end).

Fixpoint list_set {A} (l : list A) (n : nat) (a : A) : list A :=
  match l, n with
  | [], _ => []
  | _ :: t, O => a :: t
  | h :: t, S n' => h :: list_set t n' a
  end.

Definition py_set {A} (l : list A) (i : Z) (a : A) : Res (list A) :=
  res_bind (py_index (Z.of_nat (List.length l)) i) (fun n => Ok (list_set l n a)).

(** ** Strings *)

(** [sub in s] for Python strings. *)
Fixpoint str_in (sub s : string) : bool :=
  String.prefix sub s ||
  match s with
  | EmptyString => false
  | String _ s' => str_in sub s'
  end.

(** [str.upper()].  The strings of the model are strings of 8-bit characters;
    among the 7-bit ones [upper] changes the letters a-z, and no other
    character is turned into a letter A-Z or a digit. *)
Definition upper_ascii (c : ascii) : ascii :=
  let n := nat_of_ascii c in
  if (97 <=? n)%nat && (n <=? 122)%nat then ascii_of_nat (n - 32) else c.

Fixpoint upper (s : string) : string :=
  match s with
  | EmptyString => EmptyString
  | String c s' => String (upper_ascii c) (upper s')
  end.

(** [str(n)] for the small non-negative counters the engine prints. *)
Fixpoint str_of_nat_aux (fuel n : nat) (acc : string) : string :=
  match fuel with
  | O => acc
  | S f =>
      let d := String (ascii_of_nat (48 + n mod 10)) acc in
      if (n <? 10)%nat then d else str_of_nat_aux f (n / 10) d
  end.

Definition str_of_Z (z : Z) : string :=
  if z <? 0 then String.append "-" (str_of_nat_aux (S (Z.to_nat (- z))) (Z.to_nat (- z)) "")
  else str_of_nat_aux (S (Z.to_nat z)) (Z.to_nat z) "".

(** ** CoordinateCodec: [get_field_names], [index2label], [label2index] *)

Definition column_chars : list string := ["A"; "B"; "C"; "D"; "E"; "F"; "G"; "H"].
Definition row_chars : list string := ["1"; "2"; "3"; "4"; "5"; "6"; "7"; "8"].

Definition get_field_names (row_chars column_chars : list string) : list (list string) :=
  map (fun row => map (fun col => String.append col row) column_chars) row_chars.

(** [GameOps.field_names], created once by the first constructor call. *)
Definition field_names : list (list string) := get_field_names row_chars column_chars.

Definition Idx : Type := (Z * Z)%type.

(** [arr[idx]] for a two-dimensional numpy array and an index pair. *)
Definition np_get {A} (arr : list (list A)) (idx : Idx) : Res A :=
  res_bind (py_nth arr (fst idx)) (fun row => py_nth row (snd idx)).

Definition index2label (field_idx : Idx) : Res string := np_get field_names field_idx.

(** What numpy reads of a string: an array of strings stores them padded with
    NUL characters to a fixed width, so a string ends where its trailing NUL
    characters begin. *)
Fixpoint np_str (s : string) : string :=
  match s with
  | EmptyString => EmptyString
  | String c t =>
      match np_str t with
      | EmptyString => if Ascii.eqb c Ascii.zero then EmptyString else String c EmptyString
      | t' => String c t'
      end
  end.

(** [x == label] on the elements of an array of strings: the padded buffers
    are compared, so trailing NUL characters on either side do not count. *)
Definition np_str_eqb (x label : string) : bool := String.eqb (np_str x) (np_str label).

(** [np.where(arr == label)]: the positions of the matches, row by row. *)
Fixpoint where_row (row : list string) (label : string) (i j : Z) : list Idx :=
  match row with
  | [] => []
  | x :: t => (if np_str_eqb x label then [(i, j)] else []) ++ where_row t label i (j + 1)
  end.

Fixpoint where_rows (arr : list (list string)) (label : string) (i : Z) : list Idx :=
  match arr with
  | [] => []
  | row :: t => where_row row label i 0 ++ where_rows t label (i + 1)
  end.

Definition np_where (arr : list (list string)) (label : string) : list Idx :=
  where_rows arr label 0.

(** [field_idx[0][0]], [field_idx[1][0]] raise [IndexError] when nothing matched. *)
Definition label2index (label : string) : Res Idx :=
  match np_where field_names label with
  | [] => Raise IndexError
  | ij :: _ => Ok ij
  end.

(** A label that is exactly a file in A-H followed by a rank in 1-8. *)
Definition valid_label (l : string) : Prop :=
  exists c r, In c column_chars /\ In r row_chars /\ l = String.append c r.

(** A label that numpy reads as a label of the board: a file and a rank,
    followed by any number of NUL characters. *)
Definition np_label (l : string) : Prop := valid_label (np_str l).

Definition valid_index (ij : Idx) : Prop :=
  0 <= fst ij <= 7 /\ 0 <= snd ij <= 7.


(** ** Pieces

    [cls] is the Python class of the object.  [img_file] and [checks] are
    left out: the first is only read by the GUI, the second is never read.
    A move vector is the two-element list the code builds with
    [list(get_move_step(...))]; [en_passant_idx = None] stands for the
    initial [(None, None)]. *)

Inductive PieceClass : Type := Pawn | Rook | Knight | Bishop | Queen | King.

Definition PieceClass_eqb (a b : PieceClass) : bool :=
  match a, b with
  | Pawn, Pawn | Rook, Rook | Knight, Knight
  | Bishop, Bishop | Queen, Queen | King, King => true
  | _, _ => false
  end.

Definition Vec : Type := (Z * Z)%type.

Record Piece : Type := mkPiece {
  cls : PieceClass;
  name : string;
  short_name : string;
  color : Z;
  is_alive : bool;
  current_field : string;
  last_field : string;
  field_idx : option Idx;
  possible_moves : list Vec;
  receive_en_passant : bool;
  perform_en_passant : bool;
  en_passant_idx : option Idx;
  move_idx : Z
}.

Definition set_is_alive (v : bool) (p : Piece) : Piece :=
  mkPiece (cls p) (name p) (short_name p) (color p) v (current_field p) (last_field p)
    (field_idx p) (possible_moves p) (receive_en_passant p) (perform_en_passant p)
    (en_passant_idx p) (move_idx p).
Definition set_current_field (v : string) (p : Piece) : Piece :=
  mkPiece (cls p) (name p) (short_name p) (color p) (is_alive p) v (last_field p)
    (field_idx p) (possible_moves p) (receive_en_passant p) (perform_en_passant p)
    (en_passant_idx p) (move_idx p).
Definition set_last_field (v : string) (p : Piece) : Piece :=
  mkPiece (cls p) (name p) (short_name p) (color p) (is_alive p) (current_field p) v
    (field_idx p) (possible_moves p) (receive_en_passant p) (perform_en_passant p)
    (en_passant_idx p) (move_idx p).
Definition set_field_idx (v : option Idx) (p : Piece) : Piece :=
  mkPiece (cls p) (name p) (short_name p) (color p) (is_alive p) (current_field p) (last_field p)
    v (possible_moves p) (receive_en_passant p) (perform_en_passant p)
    (en_passant_idx p) (move_idx p).
Definition set_possible_moves (v : list Vec) (p : Piece) : Piece :=
  mkPiece (cls p) (name p) (short_name p) (color p) (is_alive p) (current_field p) (last_field p)
    (field_idx p) v (receive_en_passant p) (perform_en_passant p)
    (en_passant_idx p) (move_idx p).
Definition set_receive_en_passant (v : bool) (p : Piece) : Piece :=
  mkPiece (cls p) (name p) (short_name p) (color p) (is_alive p) (current_field p) (last_field p)
    (field_idx p) (possible_moves p) v (perform_en_passant p)
    (en_passant_idx p) (move_idx p).
Definition set_perform_en_passant (v : bool) (p : Piece) : Piece :=
  mkPiece (cls p) (name p) (short_name p) (color p) (is_alive p) (current_field p) (last_field p)
    (field_idx p) (possible_moves p) (receive_en_passant p) v
    (en_passant_idx p) (move_idx p).
Definition set_en_passant_idx (v : option Idx) (p : Piece) : Piece :=
  mkPiece (cls p) (name p) (short_name p) (color p) (is_alive p) (current_field p) (last_field p)
    (field_idx p) (possible_moves p) (receive_en_passant p) (perform_en_passant p)
    v (move_idx p).
Definition set_move_idx (v : Z) (p : Piece) : Piece :=
  mkPiece (cls p) (name p) (short_name p) (color p) (is_alive p) (current_field p) (last_field p)
    (field_idx p) (possible_moves p) (receive_en_passant p) (perform_en_passant p)
    (en_passant_idx p) v.

(** ** The game state

    The class attributes of [GameOps] that the rules read or write, with the
    two attributes of the attached GUI object the engine writes
    ([board_gui.valid_move], [board_gui.kill]).  A reference to a piece is its
    position in [pieces]; the registry only ever grows at its end, so a
    position names the same object for good.  [current_color] keeps the
    ['num'] entry of the dictionary; the two string entries follow from it. *)

Definition Ref : Type := nat.
Definition Board : Type := list (list (option Ref)).

Record Game : Type := mkGame {
  pieces : list Piece;
  board_objects : Board;
  move_count : Z;
  current_color : Z;
  was_checked : list bool;
  is_rochade : bool;
  is_rochade_gui : bool;
  rochade_rook : option Ref;
  rochade_rook_move_to : option string;
  promotion_counter : list (string * Z);
  promote_piece : option Ref;
  is_checkmate : bool;
  gui_valid_move : bool;
  gui_kill : option Ref
}.

Definition set_pieces (v : list Piece) (s : Game) : Game :=
  mkGame v (board_objects s) (move_count s) (current_color s) (was_checked s)
    (is_rochade s) (is_rochade_gui s) (rochade_rook s) (rochade_rook_move_to s)
    (promotion_counter s) (promote_piece s) (is_checkmate s) (gui_valid_move s) (gui_kill s).
Definition set_board_objects (v : Board) (s : Game) : Game :=
  mkGame (pieces s) v (move_count s) (current_color s) (was_checked s)
    (is_rochade s) (is_rochade_gui s) (rochade_rook s) (rochade_rook_move_to s)
    (promotion_counter s) (promote_piece s) (is_checkmate s) (gui_valid_move s) (gui_kill s).
Definition set_move_count (v : Z) (s : Game) : Game :=
  mkGame (pieces s) (board_objects s) v (current_color s) (was_checked s)
    (is_rochade s) (is_rochade_gui s) (rochade_rook s) (rochade_rook_move_to s)
    (promotion_counter s) (promote_piece s) (is_checkmate s) (gui_valid_move s) (gui_kill s).
Definition set_current_color (v : Z) (s : Game) : Game :=
  mkGame (pieces s) (board_objects s) (move_count s) v (was_checked s)
    (is_rochade s) (is_rochade_gui s) (rochade_rook s) (rochade_rook_move_to s)
    (promotion_counter s) (promote_piece s) (is_checkmate s) (gui_valid_move s) (gui_kill s).
Definition set_was_checked (v : list bool) (s : Game) : Game :=
  mkGame (pieces s) (board_objects s) (move_count s) (current_color s) v
    (is_rochade s) (is_rochade_gui s) (rochade_rook s) (rochade_rook_move_to s)
    (promotion_counter s) (promote_piece s) (is_checkmate s) (gui_valid_move s) (gui_kill s).
Definition set_is_rochade (v : bool) (s : Game) : Game :=
  mkGame (pieces s) (board_objects s) (move_count s) (current_color s) (was_checked s)
    v (is_rochade_gui s) (rochade_rook s) (rochade_rook_move_to s)
    (promotion_counter s) (promote_piece s) (is_checkmate s) (gui_valid_move s) (gui_kill s).
Definition set_is_rochade_gui (v : bool) (s : Game) : Game :=
  mkGame (pieces s) (board_objects s) (move_count s) (current_color s) (was_checked s)
    (is_rochade s) v (rochade_rook s) (rochade_rook_move_to s)
    (promotion_counter s) (promote_piece s) (is_checkmate s) (gui_valid_move s) (gui_kill s).
Definition set_rochade_rook (v : option Ref) (s : Game) : Game :=
  mkGame (pieces s) (board_objects s) (move_count s) (current_color s) (was_checked s)
    (is_rochade s) (is_rochade_gui s) v (rochade_rook_move_to s)
    (promotion_counter s) (promote_piece s) (is_checkmate s) (gui_valid_move s) (gui_kill s).
Definition set_rochade_rook_move_to (v : option string) (s : Game) : Game :=
  mkGame (pieces s) (board_objects s) (move_count s) (current_color s) (was_checked s)
    (is_rochade s) (is_rochade_gui s) (rochade_rook s) v
    (promotion_counter s) (promote_piece s) (is_checkmate s) (gui_valid_move s) (gui_kill s).
Definition set_promotion_counter (v : list (string * Z)) (s : Game) : Game :=
  mkGame (pieces s) (board_objects s) (move_count s) (current_color s) (was_checked s)
    (is_rochade s) (is_rochade_gui s) (rochade_rook s) (rochade_rook_move_to s)
    v (promote_piece s) (is_checkmate s) (gui_valid_move s) (gui_kill s).
Definition set_promote_piece (v : option Ref) (s : Game) : Game :=
  mkGame (pieces s) (board_objects s) (move_count s) (current_color s) (was_checked s)
    (is_rochade s) (is_rochade_gui s) (rochade_rook s) (rochade_rook_move_to s)
    (promotion_counter s) v (is_checkmate s) (gui_valid_move s) (gui_kill s).
Definition set_is_checkmate (v : bool) (s : Game) : Game :=
  mkGame (pieces s) (board_objects s) (move_count s) (current_color s) (was_checked s)
    (is_rochade s) (is_rochade_gui s) (rochade_rook s) (rochade_rook_move_to s)
    (promotion_counter s) (promote_piece s) v (gui_valid_move s) (gui_kill s).
Definition set_gui_valid_move (v : bool) (s : Game) : Game :=
  mkGame (pieces s) (board_objects s) (move_count s) (current_color s) (was_checked s)
    (is_rochade s) (is_rochade_gui s) (rochade_rook s) (rochade_rook_move_to s)
    (promotion_counter s) (promote_piece s) (is_checkmate s) v (gui_kill s).
Definition set_gui_kill (v : option Ref) (s : Game) : Game :=
  mkGame (pieces s) (board_objects s) (move_count s) (current_color s) (was_checked s)
    (is_rochade s) (is_rochade_gui s) (rochade_rook s) (rochade_rook_move_to s)
    (promotion_counter s) (promote_piece s) (is_checkmate s) (gui_valid_move s) v.

(** ** The state-and-exception monad of the methods *)

Definition M (A : Type) : Type := Game -> Res (A * Game).

Definition ret {A} (a : A) : M A := fun s => Ok (a, s).
Definition bind {A B} (m : M A) (k : A -> M B) : M B :=
  fun s => match m s with
           | Ok (a, s') => k a s'
           | Raise e => Raise e
           end.
Definition raise {A} (e : exn) : M A := fun _ => Raise e.
Definition lift {A} (r : Res A) : M A :=
  fun s => match r with Ok a => Ok (a, s) | Raise e => Raise e end.
Definition gets {A} (f : Game -> A) : M A := fun s => Ok (f s, s).
Definition modify (f : Game -> Game) : M unit := fun s => Ok (tt, f s).

Declare Scope monad_scope.
Delimit Scope monad_scope with monad.
Notation "x <- m ;; k" := (bind m (fun x => k))
  (at level 61, m at next level, right associativity) : monad_scope.
Notation "' pat <- m ;; k" := (bind m (fun x => match x with pat => k end))
  (at level 61, pat pattern, m at next level, right associativity) : monad_scope.
Notation "m ;; k" := (bind m (fun _ => k))
  (at level 61, right associativity) : monad_scope.
Open Scope monad_scope.

(** Attribute access [obj.attr]: [None.attr] raises [AttributeError].  A
    reference outside the registry does not exist in Python; it is reported
    as [AttributeError] too and never arises from
    references read out of the registry or the board. *)

Definition piece_of (r : Ref) : M Piece :=
  fun s => match nth_error (pieces s) r with
           | Some p => Ok (p, s)
           | None => Raise AttributeError
           end.

Definition attr {A} (o : option Ref) (f : Piece -> A) : M A :=
  match o with
  | None => raise AttributeError
  | Some r => p <- piece_of r ;; ret (f p)
  end.

Definition upd_piece (r : Ref) (f : Piece -> Piece) : M unit :=
  fun s => match nth_error (pieces s) r with
           | Some p => Ok (tt, set_pieces (list_set (pieces s) r (f p)) s)
           | None => Raise AttributeError
           end.

(** ** The board array

    [arr[idx] = v] and [arr[idx]] for the 8x8 object array.  An index that
    is [None] (the [field_idx] of a captured piece) is numpy's [newaxis]: the
    assignment then broadcasts [v] over the whole array, and the read yields a
    view of the array, which is no piece: every use of such a read in the
    engine accesses an attribute of the result at once and raises
    [AttributeError], as it does for an empty cell, so the read is modelled as
    the empty cell. *)

Definition np_set {A} (arr : list (list A)) (idx : Idx) (v : A) : Res (list (list A)) :=
  res_bind (py_nth arr (fst idx)) (fun row =>
  res_bind (py_set row (snd idx) v) (fun row' =>
  py_set arr (fst idx) row')).

Definition board_set (b : Board) (idx : option Idx) (v : option Ref) : Res Board :=
  match idx with
  | None => Ok (map (map (fun _ => v)) b)
  | Some ij => np_set b ij v
  end.

Definition board_get (b : Board) (idx : option Idx) : Res (option Ref) :=
  match idx with
  | None => Ok None
  | Some ij => np_get b ij
  end.

Definition set_board (idx : option Idx) (v : option Ref) : M unit :=
  b <- gets board_objects ;;
  b' <- lift (board_set b idx v) ;;
  modify (set_board_objects b').

Definition get_board (idx : option Idx) : M (option Ref) :=
  b <- gets board_objects ;;
  lift (board_get b idx).

(** [GameOps.codes] *)
Definition code_invalid : Z := 0.
Definition code_empty : Z := 1.
Definition code_opponent : Z := 2.

(** ** Move vectors and paths *)

(** [GameOps.get_move_step] *)
Definition get_move_step (self : Ref) (move_to : string) : M Vec :=
  move_to_idx <- lift (label2index move_to) ;;
  p <- piece_of self ;;
  match field_idx p with
  | None => raise TypeError
  | Some f => ret (fst move_to_idx - fst f, snd move_to_idx - snd f)
  end.

(** [int(field_idx[i] + move_vector[i] / step_count)]: the true quotient,
    truncated toward zero. *)
Definition int_step (f v step_count : Z) : Z := Z.quot (f * step_count + v) step_count.

Fixpoint intermediate_loop (n : nat) (field_idx : Idx) (move_vector : Vec) (step_count : Z)
  : Res (list string) :=
  match n with
  | O => Ok []
  | S n' =>
      let field_idx' := (int_step (fst field_idx) (fst move_vector) step_count,
                         int_step (snd field_idx) (snd move_vector) step_count) in
      res_bind (index2label field_idx') (fun l =>
      res_bind (intermediate_loop n' field_idx' move_vector step_count) (fun ls =>
      Ok (l :: ls)))
  end.

(** [GameOps.get_intermediate_field_names] *)
Definition get_intermediate_field_names (self : Ref) (move_to : string) : M (list string) :=
  p <- piece_of self ;;
  move_vector <- get_move_step self move_to ;;
  let step_count := Z.max (Z.abs (fst move_vector)) (Z.abs (snd move_vector)) in
  match field_idx p with
  | None => raise TypeError
  | Some f =>
      intermediate_steps <- lift (intermediate_loop (Z.to_nat step_count) f move_vector step_count) ;;
      if str_in "Knight" (name p) then ret [move_to] else ret intermediate_steps
  end.

(** [GameOps.is_diagonal], [is_straight] *)
Definition is_diagonal (move_vector : Vec) : bool :=
  (Z.abs (fst move_vector) =? Z.abs (snd move_vector)) && negb (fst move_vector =? 0).

Definition is_straight (move_vector : Vec) : bool :=
  negb (Bool.eqb (negb (fst move_vector =? 0)) (negb (snd move_vector =? 0))).

Definition Vec_eqb (a b : Vec) : bool := (fst a =? fst b) && (snd a =? snd b).

(** [v in l] on lists of vectors *)
Definition vec_in (v : Vec) (l : list Vec) : bool := existsb (Vec_eqb v) l.

(** ** Requests *)

Inductive RequestError : Type :=
| NoError                      (* the empty string *)
| ErrorStr (msg : string)
| ErrorTuple (msg : string).   (* the one-element tuple the trailing comma builds *)

Definition truthy (e : RequestError) : bool :=
  match e with NoError => false | _ => true end.

(** [GameOps.invalid_request] *)
Definition invalid_request (self : Ref) (move_to : string) : M RequestError :=
  p <- piece_of self ;;
  mc <- gets move_count ;;
  let e1 := if negb (mc mod 2 =? color p - 1)
            then ErrorStr (String.append "TurnError: It is "
                   (String.append (if color p =? 2 then "white" else "black") "'s turn"))
            else NoError in
  let e2 := if negb (is_alive p)
            then ErrorStr (String.append "PieceError: "
                   (String.append (short_name p) " was already killed"))
            else e1 in
  let e3 := match np_where field_names move_to with
            | [] => ErrorTuple "FieldError: The Field does not exist! Try another value"
            | _ => e2
            end in
  ret e3.

(** [GameOps.check_field] *)
Definition check_field (self : Ref) (field_to_check : string) (piece_color : Z)
    (board_objects : Board) (is_test : bool) : M Z :=
  field_idx <- lift (label2index field_to_check) ;;
  cell <- lift (np_get board_objects field_idx) ;;
  match cell with
  | Some q =>
      field_color <- attr (Some q) color ;;
      if piece_color =? field_color then ret code_invalid else ret code_opponent
  | None =>
      p <- piece_of self ;;
      if perform_en_passant p then ret code_opponent else ret code_empty
  end.

(** ** Candidate vectors: [move_types] of the six classes *)

Module PawnMoves.
Definition normal_moves : list Vec := [(1, 0)].
Definition special_moves : list Vec := [(2, 0)].
Definition kill_moves : list Vec := [(1, -1); (1, 1)].
End PawnMoves.

Module KnightMoves.
Definition normal_moves : list Vec :=
  [(2, -1); (2, 1); (1, 2); (-1, 2); (-2, -1); (-2, 1); (1, -2); (-1, -2)].
End KnightMoves.

Module KingMoves.
Definition normal_moves : list Vec :=
  [(1, 0); (1, 1); (0, 1); (-1, 1); (-1, 0); (-1, -1); (0, -1); (1, -1)].
Definition rochade : list Vec := [(0, -2); (0, 2)].
End KingMoves.

(** [l[-2:]] *)
Definition last_two {A} (l : list A) : list A := skipn (List.length l - 2) l.

(** [l[:-1]] *)
Definition but_last {A} (l : list A) : list A := removelast l.

(** [l[-1]] *)
Definition last_elt {A} (l : list A) : Res A :=
  match rev l with
  | [] => Raise IndexError
  | x :: _ => Ok x
  end.

(** [Pawn.move_types] *)
Definition Pawn_move_types (self : Ref) (move_to : string) (is_test : bool) : M unit :=
  p <- piece_of self ;;
  let moves1 := if move_idx p =? 0
                then PawnMoves.normal_moves ++ PawnMoves.special_moves ++ PawnMoves.kill_moves
                else PawnMoves.normal_moves ++ PawnMoves.kill_moves in
  let moves2 := if color p =? 2
                then map (fun m => (- fst m, - snd m)) moves1
                else moves1 in
  upd_piece self (set_possible_moves moves2) ;;
  let kill_moves := last_two moves2 in
  move_vector <- get_move_step self move_to ;;
  move_to_idx <- lift (label2index move_to) ;;
  upd_piece self (set_perform_en_passant false) ;;
  (if (Z.abs (fst move_vector) =? 2) && negb is_test
   then upd_piece self (set_receive_en_passant true)
   else ret tt) ;;
  move_valid <-
    (if vec_in move_vector kill_moves then
       target <- get_board (Some move_to_idx) ;;
       match target with
       | None =>
           f <- (match field_idx p with Some f => ret f | None => raise TypeError end) ;;
           let en_passant_idx := (fst f, snd move_to_idx) in
           en_passant_piece <- get_board (Some en_passant_idx) ;;
           match en_passant_piece with
           | Some q =>
               qp <- piece_of q ;;
               if PieceClass_eqb (cls qp) Pawn then
                 if receive_en_passant qp && negb (color qp =? color p) then
                   upd_piece self (set_perform_en_passant true) ;;
                   upd_piece self (set_en_passant_idx (Some en_passant_idx)) ;;
                   ret true
                 else ret false
               else ret false
           | None => ret false
           end
       | Some _ => ret true
       end
     else
       target <- get_board (Some move_to_idx) ;;
       match target with
       | Some _ => ret false
       | None => ret true
       end) ;;
  if negb move_valid then upd_piece self (set_possible_moves []) else ret tt.

(** [Rook.move_types] *)
Definition Rook_move_types (self : Ref) (move_to : string) (is_test : bool) : M unit :=
  move_vector <- get_move_step self move_to ;;
  if is_straight move_vector
  then upd_piece self (set_possible_moves [move_vector])
  else ret tt.

(** [Knight.move_types] *)
Definition Knight_move_types (self : Ref) (move_to : string) (is_test : bool) : M unit :=
  upd_piece self (set_possible_moves KnightMoves.normal_moves).

(** [Bishop.move_types] *)
Definition Bishop_move_types (self : Ref) (move_to : string) (is_test : bool) : M unit :=
  move_vector <- get_move_step self move_to ;;
  if is_diagonal move_vector
  then upd_piece self (set_possible_moves [move_vector])
  else ret tt.

(** [Queen.move_types] *)
Definition Queen_move_types (self : Ref) (move_to : string) (is_test : bool) : M unit :=
  move_vector <- get_move_step self move_to ;;
  if is_diagonal move_vector || is_straight move_vector
  then upd_piece self (set_possible_moves [move_vector])
  else ret tt.

(** The loop of [King.check_rochade] over the living rooks of the king's
    color, in registry order.  The condition is the source's
    [(move_h > 0 and '2' in rook.name) or (move_h < 0 and '1' in rook.name)
    and rook.move_idx == 0], in which [and] binds tighter than [or]. *)
Definition rochade_rook_ok (move_h : Z) (rook : Piece) : bool :=
  ((0 <? move_h) && str_in "2" (name rook))
  || (((move_h <? 0) && str_in "1" (name rook)) && (move_idx rook =? 0)).

Fixpoint find_rochade_rook (ps : list Piece) (i : Ref) (self_color move_h : Z) : option Ref :=
  match ps with
  | [] => None
  | p :: t =>
      if (str_in "Rook" (name p) && (color p =? self_color) && is_alive p)
         && rochade_rook_ok move_h p
      then Some i
      else find_rochade_rook t (S i) self_color move_h
  end.

(** [King.check_rochade] *)
Definition check_rochade (self : Ref) (move_vector : Vec) (is_test : bool)
  : M (bool * option Ref) :=
  p <- piece_of self ;;
  let move_h := snd move_vector in
  cond <-
    (if vec_in move_vector KingMoves.rochade then
       wc <- gets was_checked ;;
       checked <- lift (py_nth wc (color p - 1)) ;;
       ret (negb checked && negb is_test)
     else ret false) ;;
  if (cond : bool) then
    ps <- gets pieces ;;
    match find_rochade_rook ps O (color p) move_h with
    | Some rook => ret (true, Some rook)
    | None => ret (false, None)
    end
  else ret (false, None).

(** [King.set_rochade] *)
Definition set_rochade (self : Ref) (move_vector : Vec) (rook_rochade : option Ref) : M unit :=
  modify (set_is_rochade true) ;;
  modify (set_is_rochade_gui true) ;;
  modify (set_rochade_rook rook_rochade) ;;
  p <- piece_of self ;;
  match field_idx p with
  | None => raise TypeError
  | Some f =>
      let rochade_idx := (fst f, snd f + Z.quot (snd move_vector) 2) in
      l <- lift (index2label rochade_idx) ;;
      modify (set_rochade_rook_move_to (Some l))
  end.

(** [King.move_types] *)
Definition King_move_types (self : Ref) (move_to : string) (is_test : bool) : M unit :=
  upd_piece self (set_possible_moves KingMoves.normal_moves) ;;
  p <- piece_of self ;;
  if move_idx p =? 0 then
    move_vector <- get_move_step self move_to ;;
    '(is_roch, rook_rochade) <- check_rochade self move_vector is_test ;;
    if (is_roch : bool) then
      upd_piece self (set_possible_moves (KingMoves.normal_moves ++ [move_vector])) ;;
      set_rochade self move_vector rook_rochade
    else ret tt
  else ret tt.

(** Dynamic dispatch of [self.move_types] on the class of [self]. *)
Definition move_types (self : Ref) (move_to : string) (is_test : bool) : M unit :=
  p <- piece_of self ;;
  match cls p with
  | Pawn => Pawn_move_types self move_to is_test
  | Rook => Rook_move_types self move_to is_test
  | Knight => Knight_move_types self move_to is_test
  | Bishop => Bishop_move_types self move_to is_test
  | Queen => Queen_move_types self move_to is_test
  | King => King_move_types self move_to is_test
  end.

(** ** MoveExecutor: [kill_piece], [resurrect_piece], [move_piece], [redo_move] *)

(** [GameOps.kill_piece] *)
Definition kill_piece (self : Ref) (enemy : option Ref) (replace : bool) : M unit :=
  (if negb replace then
     f <- attr enemy field_idx ;;
     set_board f None
   else ret tt) ;;
  match enemy with
  | None => raise AttributeError
  | Some e =>
      upd_piece e (set_is_alive false) ;;
      upd_piece e (set_current_field "Out of field") ;;
      upd_piece e (set_field_idx None)
  end.

(** [GameOps.resurrect_piece] *)
Definition resurrect_piece (self : Ref) (enemy : option Ref) : M unit :=
  match enemy with
  | None => raise AttributeError
  | Some e =>
      upd_piece e (set_is_alive true) ;;
      p <- piece_of self ;;
      upd_piece e (set_current_field (current_field p)) ;;
      p <- piece_of self ;;
      upd_piece e (set_field_idx (field_idx p))
  end.

(** [GameOps.check_pawn2x] *)
Definition check_pawn2x (self : Ref) : M bool :=
  p <- piece_of self ;;
  ret (PieceClass_eqb (cls p) Pawn
       && (str_in "1" (current_field p) || str_in "8" (current_field p))).

(** The body of [GameOps.move_piece]; [rook_move] is the recursive call on
    the castling rook, made with [do_rochade=False]. *)
Definition move_piece_body (rook_move : M unit)
    (self : Ref) (move_to : string) (move_validity : Z) (do_rochade : bool) : M Board :=
  mate_board <- gets board_objects ;;
  p <- piece_of self ;;
  set_board (field_idx p) None ;;
  upd_piece self (set_last_field (current_field p)) ;;
  upd_piece self (set_current_field move_to) ;;
  idx <- lift (label2index move_to) ;;
  upd_piece self (set_field_idx (Some idx)) ;;
  (if move_validity =? code_opponent then
     if perform_en_passant p then
       enemy <- get_board (en_passant_idx p) ;;
       kill_piece self enemy false
     else
       enemy <- get_board (Some idx) ;;
       kill_piece self enemy false
   else ret tt) ;;
  p' <- piece_of self ;;
  set_board (field_idx p') (Some self) ;;
  (if do_rochade then rook_move else ret tt) ;;
  promote <- check_pawn2x self ;;
  (if promote then modify (set_promote_piece (Some self))
   else modify (set_promote_piece None)) ;;
  ret mate_board.

(** [GameOps.move_piece] *)
Definition move_piece (self : Ref) (move_to : string) (move_validity : Z) (do_rochade : bool)
  : M Board :=
  move_piece_body
    (rook <- gets rochade_rook ;;
     rook_to <- gets rochade_rook_move_to ;;
     match rook with
     | None => raise AttributeError
     | Some r =>
         (* [label2index(None)] finds no field *)
         let rook_to' := match rook_to with Some l => l | None => "" end in
         _ <- move_piece_body (raise OutOfFuel) r rook_to' code_empty false ;;
         ret tt
     end)
    self move_to move_validity do_rochade.

(** The cells in the order of [np.ndenumerate] *)
Definition all_indices : list Idx :=
  flat_map (fun i => map (fun j => (Z.of_nat i, Z.of_nat j)) (seq 0 8)) (seq 0 8).

(** The loop of [redo_move] over the cells *)
Fixpoint restore_loop (idxs : list Idx) (mate_board : Board) : M unit :=
  match idxs with
  | [] => ret tt
  | index :: rest =>
      cell <- lift (np_get mate_board index) ;;
      set_board (Some index) cell ;;
      cell' <- get_board (Some index) ;;
      (match cell' with
       | Some q =>
           upd_piece q (set_field_idx (Some index)) ;;
           l <- lift (np_get field_names index) ;;
           upd_piece q (set_current_field l)
       | None => ret tt
       end) ;;
      restore_loop rest mate_board
  end.

(** [GameOps.redo_move] *)
Definition redo_move (self : Ref) (mate_board : Board) (move_validity : Z)
    (is_test : bool) (reset_rochade : bool) : M unit :=
  (if move_validity =? code_opponent then
     p <- piece_of self ;;
     enemy <- lift (board_get mate_board (field_idx p)) ;;
     resurrect_piece self enemy
   else ret tt) ;;
  p <- piece_of self ;;
  upd_piece self (set_current_field (last_field p)) ;;
  idx <- lift (label2index (last_field p)) ;;
  upd_piece self (set_field_idx (Some idx)) ;;
  restore_loop all_indices mate_board ;;
  (if reset_rochade then
     modify (set_is_rochade_gui false) ;; modify (set_is_rochade false)
   else ret tt) ;;
  (if negb is_test then
     modify (set_gui_valid_move false) ;; modify (set_gui_kill None)
   else ret tt).

(** [GameOps.reset_en_passant] *)
Fixpoint reset_en_passant_loop (refs : list Ref) (self : Ref) : M unit :=
  match refs with
  | [] => ret tt
  | r :: rest =>
      (if negb (Nat.eqb r self) then upd_piece r (set_receive_en_passant false) else ret tt) ;;
      reset_en_passant_loop rest self
  end.

Definition reset_en_passant (self : Ref) : M unit :=
  ps <- gets pieces ;;
  reset_en_passant_loop (seq 0 (List.length ps)) self.

(** [GameOps.check_color_move] on a color given as a string or a number *)
Definition check_color_move (color : Z) (move_count : Z) : bool :=
  color - 1 =? move_count mod 2.

(** [GameOps.move_counter] *)
Definition move_counter (self : Ref) : M unit :=
  p <- piece_of self ;;
  upd_piece self (set_move_idx (move_idx p + 1)) ;;
  mc <- gets move_count ;;
  modify (set_move_count (mc + 1)) ;;
  roch <- gets is_rochade ;;
  (if (roch : bool) then
     rook <- gets rochade_rook ;;
     m <- attr rook move_idx ;;
     match rook with
     | Some r => upd_piece r (set_move_idx (m + 1))
     | None => raise AttributeError
     end
   else ret tt) ;;
  mc' <- gets move_count ;;
  let color_idx := if check_color_move 1 mc' then 0 else 1 in
  c <- lift (py_nth [1; 2] color_idx) ;;
  modify (set_current_color c).

(** ** LegalityChecker and CheckDetector

    [check_move] calls [check_through_check], which calls [check_check],
    which calls [check_move] again on the opposing pieces.  The three bodies
    take the function they call as a parameter and the knot is tied by
    recursion on a bound [fuel]. *)

Definition find_king (ps : list Piece) (c : Z) : option string :=
  option_map current_field
    (find (fun p => PieceClass_eqb (cls p) King && (color p =? c)) ps).

Fixpoint check_check_loop (check_move : Ref -> string -> Z -> bool -> M (Z * string))
    (refs : list Ref) (c : Z) (move_to : option string) : M bool :=
  match refs with
  | [] => ret false
  | r :: rest =>
      p <- piece_of r ;;
      if negb (color p =? c) && is_alive p then
        match move_to with
        | None => raise UnboundLocalError
        | Some mt =>
            '(move_validity, _) <- check_move r mt (color p) true ;;
            if negb (move_validity =? code_invalid) then ret true
            else check_check_loop check_move rest c move_to
        end
      else check_check_loop check_move rest c move_to
  end.

(** [GameOps.check_check] *)
Definition check_check_body (check_move : Ref -> string -> Z -> bool -> M (Z * string))
    (c : Z) (is_test : bool) : M bool :=
  ps <- gets pieces ;;
  check_check_loop check_move (seq 0 (List.length ps)) c (find_king ps c).

(** [GameOps.check_through_check] *)
Fixpoint check_through_check_body (check_check : Z -> bool -> M bool)
    (self : Ref) (steps : list string) : M (Z * string) :=
  match steps with
  | [] => ret (code_empty, "")
  | step :: rest =>
      modify (set_is_rochade false) ;; modify (set_is_rochade_gui false) ;;
      mate_board <- move_piece self step code_empty false ;;
      p <- piece_of self ;;
      is_check <- check_check (color p) false ;;
      redo_move self mate_board code_empty false is_check ;;
      if (is_check : bool) then ret (code_invalid, "Rochade through check")
      else
        modify (set_is_rochade_gui true) ;; modify (set_is_rochade true) ;;
        check_through_check_body check_check self rest
  end.

Fixpoint intermediate_ok (self : Ref) (steps : list string) (c : Z) (is_test : bool)
  : M (option string) :=
  match steps with
  | [] => ret None
  | step :: rest =>
      b <- gets board_objects ;;
      v <- check_field self step c b is_test ;;
      if negb (v =? code_empty) then ret (Some step)
      else intermediate_ok self rest c is_test
  end.

(** [GameOps.check_move] *)
Definition check_move_body (check_through_check : Ref -> list string -> M (Z * string))
    (self : Ref) (move_to : string) (c : Z) (is_test : bool) : M (Z * string) :=
  move_types self move_to is_test ;;
  step <- get_move_step self move_to ;;
  p <- piece_of self ;;
  if negb (vec_in step (possible_moves p)) then
    ret (code_invalid,
         String.append "MoveError: "
           (String.append (short_name p) (String.append " cannot move to " move_to)))
  else
    steps <- get_intermediate_field_names self move_to ;;
    blocked <- intermediate_ok self (but_last steps) c is_test ;;
    match blocked with
    | Some step =>
        ret (code_invalid,
             String.append "Intermediate step to " (String.append step " is invalid"))
    | None =>
        roch <- gets is_rochade ;;
        through <- (if (roch : bool) then check_through_check self (but_last steps)
                    else ret (code_invalid, "")) ;;
        if roch && (fst through =? code_invalid) then ret through
        else
          let info_text := if (roch : bool) then snd through else "" in
          dest <- lift (last_elt steps) ;;
          b <- gets board_objects ;;
          end_code <- check_field self dest c b is_test ;;
          if end_code =? code_invalid then ret (end_code, info_text)
          else if end_code =? code_empty then
            modify (set_gui_valid_move true) ;;
            ret (end_code,
                 String.append (short_name p) (String.append " moves to " dest))
          else if end_code =? code_opponent then
            p' <- piece_of self ;;
            enemy_idx <- (if perform_en_passant p' then ret (en_passant_idx p')
                          else i <- lift (label2index dest) ;; ret (Some i)) ;;
            enemy <- get_board enemy_idx ;;
            enemy_short_name <- attr enemy short_name ;;
            modify (set_gui_valid_move true) ;;
            (if negb is_test then modify (set_gui_kill enemy) else ret tt) ;;
            ret (end_code,
                 String.append (short_name p)
                   (String.append " kills "
                      (String.append enemy_short_name (String.append " on " dest))))
          else raise ValueError
    end.

Fixpoint check_move (fuel : nat) : Ref -> string -> Z -> bool -> M (Z * string) :=
  match fuel with
  | O => fun _ _ _ _ => raise OutOfFuel
  | S f => check_move_body (check_through_check_body (check_check_body (check_move f)))
  end.

Definition check_check (fuel : nat) : Z -> bool -> M bool :=
  check_check_body (check_move fuel).

Definition check_through_check (fuel : nat) : Ref -> list string -> M (Z * string) :=
  check_through_check_body (check_check fuel).

(** ** MoveOrchestrator and CheckmateDetector *)

(** The two nested loops of [check_checkmate]: the squares in the order of
    [np.ndenumerate(field_names)] for one piece, then the pieces. *)
Fixpoint escape_loop_fields (execute_move : Ref -> string -> bool -> M bool)
    (piece : Ref) (fields : list string) : M bool :=
  match fields with
  | [] => ret false
  | move_to :: rest =>
      escapes_check <- execute_move piece move_to true ;;
      if (escapes_check : bool) then
        p <- piece_of piece ;;
        wc <- gets was_checked ;;
        wc' <- lift (py_set wc (color p - 1) true) ;;
        modify (set_was_checked wc') ;;
        ret true
      else escape_loop_fields execute_move piece rest
  end.

Fixpoint escape_loop_pieces (execute_move : Ref -> string -> bool -> M bool)
    (refs : list Ref) (c : Z) : M bool :=
  match refs with
  | [] => ret false
  | r :: rest =>
      p <- piece_of r ;;
      if (color p =? c) && is_alive p then
        escaped <- escape_loop_fields execute_move r (List.concat field_names) ;;
        if (escaped : bool) then ret true
        else escape_loop_pieces execute_move rest c
      else escape_loop_pieces execute_move rest c
  end.

(** [GameOps.check_checkmate] *)
Definition check_checkmate_body (check_check : Z -> bool -> M bool)
    (execute_move : Ref -> string -> bool -> M bool) (self : Ref) (c : Z) : M unit :=
  in_check <- check_check c false ;;
  if negb in_check then ret tt
  else
    ps <- gets pieces ;;
    escaped <- escape_loop_pieces execute_move (seq 0 (List.length ps)) c ;;
    if (escaped : bool) then ret tt
    else modify (set_is_checkmate true).

(** [GameOps.execute_move].  [board_gui.promotion_choice] only opens the
    dialog whose button later calls [promote_pawn]; it leaves the state of
    the engine alone. *)
Definition execute_move_body
    (check_move : Ref -> string -> Z -> bool -> M (Z * string))
    (check_check : Z -> bool -> M bool)
    (check_checkmate : Ref -> Z -> M unit)
    (self : Ref) (move_to : string) (is_test : bool) : M bool :=
  p <- piece_of self ;;
  '(move_validity, info_text) <- check_move self move_to (color p) is_test ;;
  if move_validity =? code_invalid then ret false
  else
    roch <- gets is_rochade ;;
    mate_board <- move_piece self move_to move_validity roch ;;
    in_check <- check_check (color p) is_test ;;
    if (in_check : bool) then
      redo_move self mate_board move_validity is_test true ;;
      ret false
    else if is_test then
      redo_move self mate_board move_validity is_test true ;;
      ret true
    else
      _ <- check_pawn2x self ;;
      move_counter self ;;
      let opponent_color := if color p =? 1 then 2 else 1 in
      check_checkmate self opponent_color ;;
      ret true.

Fixpoint execute_move (fuel : nat) : Ref -> string -> bool -> M bool :=
  match fuel with
  | O => fun _ _ _ => raise OutOfFuel
  | S f =>
      execute_move_body (check_move fuel) (check_check fuel)
        (check_checkmate_body (check_check fuel) (execute_move f))
  end.

Definition check_checkmate (fuel : nat) : Ref -> Z -> M unit :=
  check_checkmate_body (check_check fuel) (execute_move fuel).

(** [GameOps.move] *)
Definition move (fuel : nat) (self : Ref) (move_to : string) : M unit :=
  let move_to := upper move_to in
  request_error <- invalid_request self move_to ;;
  if truthy request_error then ret tt
  else
    _ <- execute_move fuel self move_to false ;;
    reset_en_passant self.

(** ** Construction, promotion and snapshots *)

(** The class a name of the module's global namespace stands for
    ([globals()[class_name]]); any other name is a [KeyError]. *)
Definition class_of_name (class_name : string) : Res PieceClass :=
  if String.eqb class_name "Pawn" then Ok Pawn
  else if String.eqb class_name "Rook" then Ok Rook
  else if String.eqb class_name "Knight" then Ok Knight
  else if String.eqb class_name "Bishop" then Ok Bishop
  else if String.eqb class_name "Queen" then Ok Queen
  else if String.eqb class_name "King" then Ok King
  else Raise KeyError.

(** [GameOps.__init__]: the new object is appended to the registry and gets
    its attributes; the reference of the new object is returned. *)
Definition init_piece (c : PieceClass) (name short_name : string) (color : Z)
    (current_field : string) : M Ref :=
  idx <- lift (label2index current_field) ;;
  ps <- gets pieces ;;
  modify (set_pieces (ps ++ [mkPiece c name short_name color true current_field current_field
                               (Some idx) [] false false None 0])) ;;
  ret (List.length ps).

(** [GameOps.obj_from_string] for a class of this module *)
Definition obj_from_string (class_name : string)
    (params : string * string * Z * string) : M Ref :=
  c <- lift (class_of_name class_name) ;;
  let '(name_long, name_short, color, field) := params in
  init_piece c name_long name_short color field.

Definition is_space (c : ascii) : bool :=
  let n := nat_of_ascii c in (n =? 32)%nat || ((9 <=? n)%nat && (n <=? 13)%nat).

Fixpoint take_word (s : string) : string :=
  match s with
  | EmptyString => EmptyString
  | String c s' => if is_space c then EmptyString else String c (take_word s')
  end.

(** [s.split()[0]] *)
Fixpoint first_word (s : string) : Res string :=
  match s with
  | EmptyString => Raise IndexError
  | String c s' => if is_space c then first_word s' else Ok (take_word s)
  end.

(** [GameOps.instantiate_pieces] on the rows of the roster file: long name,
    short name, color and start field of each piece. *)
Fixpoint instantiate_pieces (piece_specs : list (string * string * Z * string)) : M unit :=
  match piece_specs with
  | [] => ret tt
  | piece :: rest =>
      piece_type <- lift (first_word (fst (fst (fst piece)))) ;;
      _ <- obj_from_string piece_type piece ;;
      instantiate_pieces rest
  end.

(** [GameOps.initialize_board] *)
Fixpoint initialize_board_loop (ps : list Piece) (i : Ref) (board_frame : Board) : Res Board :=
  match ps with
  | [] => Ok board_frame
  | piece :: rest =>
      res_bind (board_set board_frame (field_idx piece) (Some i))
        (initialize_board_loop rest (S i))
  end.

Definition initialize_board (ps : list Piece) : Res Board :=
  initialize_board_loop ps O (repeat (repeat None 8%nat) 8%nat).

(** The class attributes as the class statement sets them, before any piece
    exists, with an attached GUI whose flags are cleared. *)
Definition blank_game : Game :=
  mkGame [] (repeat (repeat None 8%nat) 8%nat) 0 1 [false; false] false false None None
    [("Queen", 0); ("Rook", 2); ("Knight", 2); ("Bishop", 2)] None false false None.

(** Start of a game: the pieces of the roster are created, the board is
    filled from them and registered with [initialize_game]. *)
Definition new_game (piece_specs : list (string * string * Z * string)) : Res Game :=
  match instantiate_pieces piece_specs blank_game with
  | Raise e => Raise e
  | Ok (_, s) =>
      res_bind (initialize_board (pieces s)) (fun b => Ok (set_board_objects b s))
  end.

(** [d[k]] and [d[k] += 1] on the promotion counter *)
Fixpoint dict_get (d : list (string * Z)) (k : string) : Res Z :=
  match d with
  | [] => Raise KeyError
  | (k', v) :: t => if String.eqb k' k then Ok v else dict_get t k
  end.

Fixpoint dict_set (d : list (string * Z)) (k : string) (v : Z) : list (string * Z) :=
  match d with
  | [] => [(k, v)]
  | (k', v') :: t => if String.eqb k' k then (k', v) :: t else (k', v') :: dict_set t k v
  end.

Definition first_char (s : string) : string :=
  match s with
  | EmptyString => EmptyString
  | String c _ => String c EmptyString
  end.

(** [GameOps.promote_pawn]; [check_checkmate] is the method of the engine
    above.  The image bookkeeping of the GUI and [save_state] are left out. *)
Definition promote_pawn_body (check_checkmate : Ref -> Z -> M unit)
    (pawn : option Ref) (to_class : string) : M unit :=
  pc <- gets promotion_counter ;;
  n <- lift (dict_get pc to_class) ;;
  modify (set_promotion_counter (dict_set pc to_class (n + 1))) ;;
  pawn_color <- attr pawn color ;;
  let color_text := if pawn_color =? 1 then "White" else "Black" in
  let name_long := String.append to_class (String.append " " color_text) in
  let letter_first := if negb (String.eqb to_class "Knight") then first_char to_class else "N" in
  pc' <- gets promotion_counter ;;
  n' <- lift (dict_get pc' to_class) ;;
  let name_short :=
    String.append letter_first
      (String.append "_" (String.append (first_char color_text) (str_of_Z n'))) in
  pawn_field <- attr pawn current_field ;;
  new_piece <- obj_from_string to_class (name_long, name_short, pawn_color, pawn_field) ;;
  pawn_idx <- attr pawn field_idx ;;
  set_board pawn_idx (Some new_piece) ;;
  match pawn with
  | None => raise AttributeError
  | Some pw =>
      kill_piece pw pawn true ;;
      let color_opponent := if pawn_color =? 1 then 2 else 1 in
      check_checkmate new_piece color_opponent
  end.

Definition promote_pawn (fuel : nat) (pawn : option Ref) (to_class : string) : M unit :=
  promote_pawn_body (check_checkmate fuel) pawn to_class.

(** The button of the promotion dialog: [GameBoard.click_promotion] *)
Definition click_promotion (fuel : nat) (piece_type : string) : M unit :=
  pawn <- gets promote_piece ;;
  promote_pawn fuel pawn piece_type.

(** What the GUI does after [move] when [valid_move] is set
    ([GameBoard.second_board_click]) *)
Definition after_move : M unit :=
  valid <- gets gui_valid_move ;;
  if (valid : bool) then
    roch <- gets is_rochade_gui ;;
    (if (roch : bool) then modify (set_is_rochade_gui false) ;; modify (set_is_rochade false)
     else ret tt) ;;
    modify (set_gui_valid_move false) ;;
    modify (set_gui_kill None)
  else ret tt.

(** [GameOps.get_global_vars] and [set_global_vars].  A snapshot is pickled
    at once, so it holds the values of the moment; [rochade_field_idx] is
    never assigned and stays [None]. *)
Record GlobalVars : Type := mkGlobalVars {
  gv_pieces : list Piece;
  gv_move_count : Z;
  gv_was_checked : list bool;
  gv_is_rochade : bool;
  gv_is_rochade_gui : bool;
  gv_rochade_rook : option Ref;
  gv_rochade_rook_move_to : option string;
  gv_promotion_counter : list (string * Z);
  gv_is_checkmate : bool
}.

Definition get_global_vars (s : Game) : GlobalVars :=
  mkGlobalVars (pieces s) (move_count s) (was_checked s) (is_rochade s) (is_rochade_gui s)
    (rochade_rook s) (rochade_rook_move_to s) (promotion_counter s) (is_checkmate s).

Definition set_global_vars (state : GlobalVars) : M unit :=
  modify (set_pieces (gv_pieces state)) ;;
  modify (set_move_count (gv_move_count state)) ;;
  modify (set_was_checked (gv_was_checked state)) ;;
  modify (set_is_rochade (gv_is_rochade state)) ;;
  modify (set_is_rochade_gui (gv_is_rochade_gui state)) ;;
  modify (set_rochade_rook (gv_rochade_rook state)) ;;
  modify (set_rochade_rook_move_to (gv_rochade_rook_move_to state)) ;;
  modify (set_promotion_counter (gv_promotion_counter state)) ;;
  modify (set_is_checkmate (gv_is_checkmate state)).

(** One entry of the save file, and the reload of one entry.

    [save_state] pickles the board and the class attributes of
    [get_global_vars]; what unpickling gives back is a copy of the values of
    the moment in which board, registry and [rochade_rook] still refer to the
    same pieces.  [save_state] here is that entry.  The file, the key
    [move_count - 1] under which the entry is filed, and the bookkeeping of
    [GameBoard] around it ([final_move], [redo_move], the test of
    [state_count] and the cache [_saved_states]) are not modelled.

    [load_states] is the part of [GameBoard.load_states] that writes an entry
    freshly read from the file into the game: [set_global_vars] and the copy
    of the board, cell by cell.  A reference held outside the entry
    ([promote_piece], the [kill] of the GUI) is an index into the registry
    here and so names the reloaded piece; in the program it stays the object
    of before the reload. *)
Record Snapshot : Type := mkSnapshot {
  snap_board : Board;
  snap_globalVars : GlobalVars
}.

Definition save_state (s : Game) : Snapshot :=
  mkSnapshot (board_objects s) (get_global_vars s).

Definition load_states (state : Snapshot) : M unit :=
  set_global_vars (snap_globalVars state) ;;
  modify (set_board_objects (snap_board state)).

(** ** Running the engine on concrete games *)

Definition result_of {A} (r : Res (A * Game)) : Res A :=
  match r with Ok (a, _) => Ok a | Raise e => Raise e end.

Definition state_of {A} (r : Res (A * Game)) : Res Game :=
  match r with Ok (_, s) => Ok s | Raise e => Raise e end.

(** A call on the state an earlier computation produced, and a look at a
    state *)
Definition starting {A} (r : Res Game) (m : M A) : Res (A * Game) :=
  match r with Ok s => m s | Raise e => Raise e end.

Definition query {A} (r : Res Game) (f : Game -> A) : Res A :=
  match r with Ok s => Ok (f s) | Raise e => Raise e end.

(** The calls of a list, one after the other *)
Fixpoint play (calls : list (M unit)) : M unit :=
  match calls with
  | [] => ret tt
  | m :: rest => m ;; play rest
  end.

(** A request of the GUI: [move], then the clean-up of
    [second_board_click].  Five levels of recursion are enough for every
    call chain of the engine. *)
Definition click (self : Ref) (move_to : string) : M unit :=
  move 5 self move_to ;; after_move.

Definition piece_at (s : Game) (r : Ref) : option Piece := nth_error (pieces s) r.

(** Modelled from the spec: the roster file [piece_specs.csv] is not part
    of the sources.  The spec asks for a roster of kind, color and start
    label; the standard chess set-up is used, with long names that start with
    the class name, as [instantiate_pieces] requires, and that number the
    pieces of a kind, as [check_rochade] reads them ('1' queenside rook, '2'
    kingside rook). *)
Definition standard_roster : list (string * string * Z * string) :=
  [("Rook White 1", "R_W1", 1, "A1"); ("Knight White 1", "N_W1", 1, "B1");
   ("Bishop White 1", "B_W1", 1, "C1"); ("Queen White", "Q_W", 1, "D1");
   ("King White", "K_W", 1, "E1"); ("Bishop White 2", "B_W2", 1, "F1");
   ("Knight White 2", "N_W2", 1, "G1"); ("Rook White 2", "R_W2", 1, "H1");
   ("Pawn White 1", "P_W1", 1, "A2"); ("Pawn White 2", "P_W2", 1, "B2");
   ("Pawn White 3", "P_W3", 1, "C2"); ("Pawn White 4", "P_W4", 1, "D2");
   ("Pawn White 5", "P_W5", 1, "E2"); ("Pawn White 6", "P_W6", 1, "F2");
   ("Pawn White 7", "P_W7", 1, "G2"); ("Pawn White 8", "P_W8", 1, "H2");
   ("Rook Black 1", "R_B1", 2, "A8"); ("Knight Black 1", "N_B1", 2, "B8");
   ("Bishop Black 1", "B_B1", 2, "C8"); ("Queen Black", "Q_B", 2, "D8");
   ("King Black", "K_B", 2, "E8"); ("Bishop Black 2", "B_B2", 2, "F8");
   ("Knight Black 2", "N_B2", 2, "G8"); ("Rook Black 2", "R_B2", 2, "H8");
   ("Pawn Black 1", "P_B1", 2, "A7"); ("Pawn Black 2", "P_B2", 2, "B7");
   ("Pawn Black 3", "P_B3", 2, "C7"); ("Pawn Black 4", "P_B4", 2, "D7");
   ("Pawn Black 5", "P_B5", 2, "E7"); ("Pawn Black 6", "P_B6", 2, "F7");
   ("Pawn Black 7", "P_B7", 2, "G7"); ("Pawn Black 8", "P_B8", 2, "H7")].

(** References of the standard roster *)
Definition R_W2 : Ref := 7%nat.
Definition K_W : Ref := 4%nat.
Definition P_W1 : Ref := 8%nat.
Definition P_W5 : Ref := 12%nat.
Definition N_B1 : Ref := 17%nat.
Definition P_B4 : Ref := 27%nat.

(** A game that starts with a pinned black rook: white king E1 and rook H1
    on their squares, white queen A5, white pawn H2, black king H5, black
    rook G5 between queen and king. *)
Definition pinned_rook_roster : list (string * string * Z * string) :=
  [("King White", "K_W", 1, "E1"); ("Rook White 2", "R_W2", 1, "H1");
   ("Queen White", "Q_W", 1, "A5"); ("Pawn White 8", "P_W8", 1, "H2");
   ("King Black", "K_B", 2, "H5"); ("Rook Black 1", "R_B1", 2, "G5")].

(** Kings and the white kingside rook only *)
Definition rook_endgame_roster : list (string * string * Z * string) :=
  [("King White", "K_W", 1, "E1"); ("Rook White 2", "R_W2", 1, "H1");
   ("King Black", "K_B", 2, "E8")].

(** Kings and a white pawn one step before promotion *)
Definition promotion_roster : list (string * string * Z * string) :=
  [("King White", "K_W", 1, "E1"); ("Pawn White 1", "P_W1", 1, "A7");
   ("King Black", "K_B", 2, "H5")].

(** Kings, a white pawn on E5 and a black pawn on D7 *)
Definition en_passant_roster : list (string * string * Z * string) :=
  [("King White", "K_W", 1, "E1"); ("Pawn White 5", "P_W5", 1, "E5");
   ("King Black", "K_B", 2, "E8"); ("Pawn Black 4", "P_B4", 2, "D7")].

(** ** States the engine reaches

    A game starts from a roster; then the GUI calls [move] and its clean-up,
    the promotion dialog calls [promote_pawn], and undo and redo reload a
    snapshot that [save_state] took of an earlier state.  Only calls that
    return are steps: after an uncaught exception the game is broken. *)
Inductive reachable : Game -> Prop :=
| reach_new (roster : list (string * string * Z * string)) (s : Game) :
    new_game roster = Ok s -> reachable s
| reach_move (s s' : Game) (fuel : nat) (self : Ref) (move_to : string) :
    reachable s -> move fuel self move_to s = Ok (tt, s') -> reachable s'
| reach_after_move (s s' : Game) :
    reachable s -> after_move s = Ok (tt, s') -> reachable s'
| reach_promotion (s s' : Game) (fuel : nat) (piece_type : string) :
    reachable s -> click_promotion fuel piece_type s = Ok (tt, s') -> reachable s'
| reach_load (s t s' : Game) :
    reachable s -> reachable t -> load_states (save_state t) s = Ok (tt, s') -> reachable s'.

(** ** Views of a state used in the statements *)

(** What makes a registry entry the same Python object: class and names *)
Definition ident (p : Piece) : PieceClass * string * string * Z :=
  (cls p, name p, short_name p, color p).

(** Liveness and position of a piece *)
Definition placement (p : Piece) : bool * string * option Idx :=
  (is_alive p, current_field p, field_idx p).

(** A piece with the scratch fields of the legality check blanked *)
Definition without_scratch (p : Piece) : Piece :=
  set_possible_moves [] (set_perform_en_passant false (set_en_passant_idx None p)).

(** A piece with [last_field] blanked *)
Definition without_last_field (p : Piece) : Piece := set_last_field "" p.

(** The global variables of the rules other than the castling flags, the
    promotion marker and the GUI flags *)
Definition rule_globals (s : Game)
  : Z * Z * list bool * option Ref * option string * list (string * Z) * bool :=
  (move_count s, current_color s, was_checked s, rochade_rook s,
   rochade_rook_move_to s, promotion_counter s, is_checkmate s).

(** The 8x8 shape of the board array *)
Definition board_shape (b : Board) : Prop :=
  List.length b = 8%nat /\ Forall (fun row => List.length row = 8%nat) b.

(** Every occupied cell holds a living piece that knows it stands there. *)
Definition board_consistent (s : Game) : Prop :=
  forall idx r, valid_index idx -> np_get (board_objects s) idx = Ok (Some r) ->
    exists p, piece_at s r = Some p /\ is_alive p = true /\
              field_idx p = Some idx /\ index2label idx = Ok (current_field p).

(** ** The operations on the registry

    Every method of the engine that writes to pieces, as a call that can be
    put in a sequence. *)
Inductive GameOp : Type :=
| Create (class_name : string) (params : string * string * Z * string)
| Move (fuel : nat) (self : Ref) (move_to : string)
| AfterMove
| Promote (fuel : nat) (pawn : option Ref) (to_class : string)
| Kill (self : Ref) (enemy : option Ref) (replace : bool)
| Resurrect (self : Ref) (enemy : option Ref)
| Trial (self : Ref) (move_to : string) (move_validity : Z) (do_rochade : bool)
| Revert (self : Ref) (mate_board : Board) (move_validity : Z) (is_test reset_rochade : bool)
| Execute (fuel : nat) (self : Ref) (move_to : string) (is_test : bool)
| Checkmate (fuel : nat) (self : Ref) (c : Z).

Definition run_op (op : GameOp) : M unit :=
  match op with
  | Create class_name params => _ <- obj_from_string class_name params ;; ret tt
  | Move fuel self move_to => move fuel self move_to
  | AfterMove => after_move
  | Promote fuel pawn to_class => promote_pawn fuel pawn to_class
  | Kill self enemy replace => kill_piece self enemy replace
  | Resurrect self enemy => resurrect_piece self enemy
  | Trial self move_to v do_rochade => _ <- move_piece self move_to v do_rochade ;; ret tt
  | Revert self mate_board v is_test reset => redo_move self mate_board v is_test reset
  | Execute fuel self move_to is_test => _ <- execute_move fuel self move_to is_test ;; ret tt
  | Checkmate fuel self c => check_checkmate fuel self c
  end.

(** The state a computation ends in, or the blank game if it raises *)
Definition final_state (r : Res Game) : Game :=
  match r with Ok s => s | Raise _ => blank_game end.

(** Start and end of a short game with a promotion and a capture *)
Definition promotion_game : list GameOp :=
  [Move 5 1%nat "A8"; AfterMove; Promote 5 (Some 1%nat) "Queen";
   Move 5 2%nat "G5"; AfterMove; Kill 3%nat (Some 2%nat) false].

Definition promotion_start : Game :=
  Eval vm_compute in final_state (new_game promotion_roster).

Definition promotion_end : Game :=
  Eval vm_compute in
    final_state (state_of (play (map run_op promotion_game) promotion_start)).

Definition standard_start : Game :=
  Eval vm_compute in final_state (new_game standard_roster).

(** ** Predicates of the program logic *)

(** A candidate list without the zero vector *)
Definition no_zero (l : list Vec) : Prop := ~ In (0, 0) l.

(** An update of a piece that keeps what identifies the object and its
    candidate list *)
Definition benign (f : Piece -> Piece) : Prop :=
  forall p, ident (f p) = ident p /\ possible_moves (f p) = possible_moves p.

(** A computation that, when it returns, has kept the invariant [Inv] of
    registry and board *)
Definition preserves (Inv : list Piece -> Board -> Prop) {A} (m : M A) : Prop :=
  forall s a s', m s = Ok (a, s') ->
    Inv (pieces s) (board_objects s) -> Inv (pieces s') (board_objects s').

(** The registry invariants of the development: no stored candidate list
    holds the zero vector; the registry [ps] continues the registry [ps0]. *)
Definition moves_nonzero (ps : list Piece) : Prop :=
  Forall (fun p => no_zero (possible_moves p)) ps.

Definition continues (ps0 ps : list Piece) : Prop :=
  exists extra, map ident ps = map ident ps0 ++ extra.

Definition same_objects (ps0 ps : list Piece) : Prop :=
  map ident ps = map ident ps0.

(** The computation [m] returns from [s], with a result and in a state that
    satisfy [Q]. *)
Definition wp {A} (m : M A) (Q : A -> Game -> Prop) (s : Game) : Prop :=
  exists a s', m s = Ok (a, s') /\ Q a s'.

(** Registry and board of a state the engine can work on *)
Definition sound (ps : list Piece) (b : Board) : Prop :=
  moves_nonzero ps /\ board_shape b.

(** Nothing but the scratch fields of the legality check and the GUI's
    [valid_move] differs between the two states. *)
Definition scratch_only (s s' : Game) : Prop :=
  map without_scratch (pieces s') = map without_scratch (pieces s) /\
  set_pieces [] (set_gui_valid_move false s') = set_pieces [] (set_gui_valid_move false s).

(** ** Concrete states of the promotion game *)

(** After the pawn has reached A8 *)
Definition promotion_pending : Game :=
  Eval vm_compute in
    final_state (state_of (play (map run_op [Move 5 1%nat "A8"; AfterMove]) promotion_start)).

(** After the promotion to a queen *)
Definition promotion_done : Game :=
  Eval vm_compute in
    final_state (state_of (promote_pawn 5 (Some 1%nat) "Queen" promotion_pending)).

(** After the black king has stepped to G5 *)
Definition promotion_reply : Game :=
  Eval vm_compute in
    final_state (state_of (play (map run_op [Move 5 2%nat "G5"; AfterMove]) promotion_done)).

(** ** States on which the check detector can run *)

Definition valid_indexb (ij : Idx) : bool :=
  (0 <=? fst ij) && (fst ij <=? 7) && (0 <=? snd ij) && (snd ij <=? 7).

Definition valid_labelb (l : string) : bool :=
  match label2index l with Ok _ => true | Raise _ => false end.

Definition board_shapeb (b : Board) : bool :=
  Nat.eqb (List.length b) 8 && forallb (fun row => Nat.eqb (List.length row) 8) b.

(** Every reference on the board is a reference into the registry. *)
Definition board_refs_okb (s : Game) : bool :=
  forallb (forallb (fun cell : option Ref =>
                      match cell with
                      | Some r => Nat.ltb r (List.length (pieces s))
                      | None => true
                      end))
          (board_objects s).

(** A piece that [check_move] can be asked about: it stands on the board,
    its stored candidate list holds no zero vector, its color is one of the
    two colors, and only a pawn carries an en-passant marker. *)
Definition attacker_readyb (p : Piece) : bool :=
  match field_idx p with Some idx => valid_indexb idx | None => false end
  && negb (vec_in (0, 0) (possible_moves p))
  && ((color p =? 1) || (color p =? 2))
  && (PieceClass_eqb (cls p) Pawn || negb (perform_en_passant p)).

(** The state in which [check_check] is asked about the color [c]: no
    castling is pending, the board has its shape and refers to registered
    pieces, the king of [c] stands on a field, and every living piece of the
    other color can be asked. *)
Definition check_ready (c : Z) (s : Game) : bool :=
  negb (is_rochade s)
  && board_shapeb (board_objects s)
  && board_refs_okb s
  && Nat.eqb (List.length (was_checked s)) 2
  && match find_king (pieces s) c with
     | Some l => valid_labelb l
     | None => false
     end
  && forallb (fun p => (color p =? c) || negb (is_alive p) || attacker_readyb p) (pieces s).

Definition board_refs_ok (s : Game) : Prop :=
  forall idx r, np_get (board_objects s) idx = Ok (Some r) ->
    exists q, nth_error (pieces s) r = Some q.

Definition attacker_ready (p : Piece) : Prop :=
  (exists idx, field_idx p = Some idx /\ valid_index idx) /\
  no_zero (possible_moves p) /\
  (color p = 1 \/ color p = 2) /\
  (cls p <> Pawn -> perform_en_passant p = false).

(** [s'] is [s] but for the scratch fields of the piece [self] and the GUI
    flag [valid_move]. *)
Definition touches_scratch (self : Ref) (s s' : Game) : Prop :=
  (forall r, r <> self -> nth_error (pieces s') r = nth_error (pieces s) r) /\
  option_map without_scratch (nth_error (pieces s') self)
  = option_map without_scratch (nth_error (pieces s) self) /\
  set_pieces [] (set_gui_valid_move false s') = set_pieces [] (set_gui_valid_move false s).

(** ** Boards that agree with the registry, as a test *)

Definition cell_consistentb (s : Game) (idx : Idx) (cell : option Ref) : bool :=
  match cell with
  | None => true
  | Some r =>
      match nth_error (pieces s) r with
      | Some q =>
          is_alive q
          && match field_idx q with Some f => Vec_eqb f idx | None => false end
          && match index2label idx with
             | Ok l => String.eqb l (current_field q)
             | Raise _ => false
             end
      | None => false
      end
  end.

Definition board_consistentb (s : Game) : bool :=
  forallb (fun idx => match np_get (board_objects s) idx with
                      | Ok cell => cell_consistentb s idx cell
                      | Raise _ => false
                      end)
          all_indices.

(** Kings and a rook of each color on the open A file *)
Definition rook_duel_roster : list (string * string * Z * string) :=
  [("King White", "K_W", 1, "E1"); ("Rook White 1", "R_W1", 1, "A1");
   ("King Black", "K_B", 2, "E8"); ("Rook Black 1", "R_B1", 2, "A8")].

Definition rook_duel_start : Game :=
  Eval vm_compute in final_state (new_game rook_duel_roster).

(** ** Further methods of [GameOps] *)

(** [GameOps.is_vertical], [is_horizontal] *)
Definition is_vertical (move_vector : Vec) : bool :=
  negb (fst move_vector =? 0) && (snd move_vector =? 0).

Definition is_horizontal (move_vector : Vec) : bool :=
  (fst move_vector =? 0) && negb (snd move_vector =? 0).

(** The [color] argument of [check_color_move]: a number, or one of the
    strings of [GameOps.colors]. *)
Inductive ColorArg : Type :=
| ColorNum (c : Z)
| ColorStr (c : string).

(** [GameOps.check_color_move] with the conversion of a string argument:
    ['w'] and ['white'] are 1, every other string is 2. *)
Definition check_color_move_arg (color : ColorArg) (move_count : Z) : bool :=
  let c := match color with
           | ColorStr c => if String.eqb c "w" || String.eqb c "white" then 1 else 2
           | ColorNum c => c
           end in
  check_color_move c move_count.

(** The object the constructor call of [instantiate_pieces] makes from a row
    of the roster: the class is the first word of the long name
    ([obj_from_string]), the attributes are those [__init__] sets. *)
Definition make_piece (row : string * string * Z * string) : Res Piece :=
  let '(name_long, name_short, color, field) := row in
  res_bind (first_word name_long) (fun piece_type =>
  res_bind (class_of_name piece_type) (fun c =>
  res_bind (label2index field) (fun idx =>
  Ok (mkPiece c name_long name_short color true field field (Some idx) []
        false false None 0)))).

(** ** The vectors of a class

    What the [move_types] of a class can put into [possible_moves]: the
    steps of a pawn of the color (forward one or two, or one forward to either
    side), straight vectors for a rook, diagonal ones for a bishop, both for a
    queen, the eight jumps of a knight, and the eight steps of a king with the
    two castling vectors. *)
Definition class_vector_of (c : PieceClass) (col : Z) (v : Vec) : bool :=
  match c with
  | Pawn =>
      vec_in v (if col =? 2
                then map (fun m => (- fst m, - snd m))
                       (PawnMoves.normal_moves ++ PawnMoves.special_moves
                        ++ PawnMoves.kill_moves)
                else PawnMoves.normal_moves ++ PawnMoves.special_moves
                     ++ PawnMoves.kill_moves)
  | Rook => is_straight v
  | Knight => vec_in v KnightMoves.normal_moves
  | Bishop => is_diagonal v
  | Queen => is_diagonal v || is_straight v
  | King => vec_in v KingMoves.normal_moves || vec_in v KingMoves.rochade
  end.

Definition class_vector (p : Piece) (v : Vec) : bool :=
  class_vector_of (cls p) (color p) v.

(** Every stored candidate list holds vectors of the class of its piece. *)
Definition moves_fit (ps : list Piece) : Prop :=
  Forall (fun p => forallb (class_vector p) (possible_moves p) = true) ps.

(** A computation that, when it returns, has written to the registry of
    pieces only: board, counters and flags are those of the state it started
    from. *)
Definition registry_only {A} (m : M A) : Prop :=
  forall s a s', m s = Ok (a, s') -> s' = set_pieces (pieces s') s.

(** ** The course of the game

    The class attributes that record how far the game has got: the move
    counter, the color to move, the marks of the colors that were in check,
    the checkmate mark and the promotion counters. *)
Definition progress (s : Game) : Z * Z * list bool * bool * list (string * Z) :=
  (move_count s, current_color s, was_checked s, is_checkmate s, promotion_counter s).

(** A computation that, when it returns, has left the course of the game as
    it was. *)
Definition keeps_progress {A} (m : M A) : Prop :=
  forall s a s', m s = Ok (a, s') -> progress s' = progress s.

(** Marks that are set stay set. *)
Definition rises (wc wc' : list bool) : Prop :=
  Forall2 (fun a b => a = true -> b = true) wc wc'.

(** A computation that, when it returns, has not moved the counter, the
    color to move or the promotion counters, and has cleared no mark. *)
Definition only_marks {A} (m : M A) : Prop :=
  forall s a s', m s = Ok (a, s') ->
    move_count s' = move_count s /\ current_color s' = current_color s /\
    promotion_counter s' = promotion_counter s /\
    rises (was_checked s) (was_checked s') /\
    (is_checkmate s = true -> is_checkmate s' = true).

(** ** The steps of a pawn

    The conditions under which [Pawn.move_types] keeps the vector from the
    field [f] of the pawn [p] to the field [idx]: one step forward onto an
    empty field; two steps forward onto an empty field when the pawn has not
    moved; or one step forward to either side, onto an occupied field or,
    the field being empty, past a pawn of another color that can be taken en
    passant. *)
Definition pawn_step_allowed (s : Game) (p : Piece) (f idx : Idx) : Prop :=
  let v := (fst idx - fst f, snd idx - snd f) in
  let fwd := if color p =? 2 then -1 else 1 in
  (v = (fwd, 0) /\ np_get (board_objects s) idx = Ok None) \/
  (v = (2 * fwd, 0) /\ move_idx p = 0 /\ np_get (board_objects s) idx = Ok None) \/
  ((v = (fwd, -1) \/ v = (fwd, 1)) /\
   ((exists r, np_get (board_objects s) idx = Ok (Some r)) \/
    (np_get (board_objects s) idx = Ok None /\
     exists q qp, np_get (board_objects s) (fst f, snd idx) = Ok (Some q) /\
                  piece_at s q = Some qp /\ cls qp = Pawn /\
                  receive_en_passant qp = true /\ color qp <> color p))).

(** The state [s'] is the state [s] with the entry [p'] for the piece [self]. *)
Definition entry_changed (s : Game) (self : Ref) (s' : Game) (p' : Piece) : Prop :=
  s' = set_pieces (list_set (pieces s) self p') s.

(** * Properties *)

(** ** CoordinateCodec *)

Lemma in_field_names (l : string) :
  In l (List.concat field_names) <-> valid_label l.
Proof.
  unfold field_names, get_field_names, valid_label.
  rewrite in_concat. split.
  - intros [row [Hrow Hl]].
    apply in_map_iff in Hrow. destruct Hrow as [r [<- Hr]].
    apply in_map_iff in Hl. destruct Hl as [c [<- Hc]].
    exists c, r. auto.
  - intros [c [r [Hc [Hr ->]]]].
    exists (map (fun col => String.append col r) column_chars). split.
    + apply in_map_iff. exists r. auto.
    + apply in_map_iff. exists c. auto.
Qed.

Lemma np_str_idem (s : string) : np_str (np_str s) = np_str s.
Proof.
  induction s as [|c t IH]; [reflexivity|].
  cbn [np_str]. destruct (np_str t) as [|a t'] eqn:E.
  - destruct (Ascii.eqb c Ascii.zero) eqn:Ec; [reflexivity|].
    cbn [np_str]. rewrite Ec. reflexivity.
  - cbn [np_str] in *. rewrite IH. reflexivity.
Qed.

(** A character other than NUL is in a string exactly when it is in what
    numpy reads of it. *)
Lemma str_in_np_str (a : ascii) (s : string) :
  a <> Ascii.zero ->
  str_in (String a EmptyString) (np_str s) = str_in (String a EmptyString) s.
Proof.
  intros Ha. induction s as [|c t IH]; [reflexivity|].
  assert (Hnil : forall u, String.prefix EmptyString u = true) by (intros [|? ?]; reflexivity).
  cbn [np_str]. destruct (np_str t) as [|b t'] eqn:E.
  - assert (Ht : str_in (String a EmptyString) t = false) by (rewrite <- IH; reflexivity).
    cbn [str_in]. rewrite Ht. cbn [String.prefix].
    destruct (Ascii.eqb c Ascii.zero) eqn:Ec.
    + apply Ascii.eqb_eq in Ec. subst c.
      destruct (ascii_dec a Ascii.zero) as [E0|E0]; [contradiction|]. reflexivity.
    + cbn [str_in String.prefix]. rewrite !Hnil. reflexivity.
  - cbn [str_in] in *. rewrite IH. cbn [String.prefix]. rewrite !Hnil. reflexivity.
Qed.

(** The labels of the board hold no NUL character. *)
Lemma np_str_field_names : map (map np_str) field_names = field_names.
Proof. vm_compute. reflexivity. Qed.

Lemma where_row_nil (row : list string) (l : string) (i j : Z) :
  where_row row l i j = [] <-> ~ In (np_str l) (map np_str row).
Proof.
  revert j. induction row as [|x t IH]; intros j; simpl.
  - tauto.
  - unfold np_str_eqb. destruct (String.eqb_spec (np_str x) (np_str l)) as [E|Hne]; simpl.
    + split; [discriminate | intros H; exfalso; apply H; auto].
    + rewrite IH. split; [intros H [E|E]; auto | intros H E; apply H; auto].
Qed.

Lemma where_rows_nil (arr : list (list string)) (l : string) (i : Z) :
  where_rows arr l i = [] <-> ~ In (np_str l) (List.concat (map (map np_str) arr)).
Proof.
  revert i. induction arr as [|row t IH]; intros i; simpl.
  - tauto.
  - rewrite in_app_iff. split.
    + intros H. apply app_eq_nil in H. destruct H as [H1 H2].
      apply where_row_nil in H1. apply IH in H2. tauto.
    + intros H.
      assert (H1 : where_row row l i 0 = []) by (apply where_row_nil; tauto).
      assert (H2 : where_rows t l (i + 1) = []) by (apply IH; tauto).
      rewrite H1, H2. reflexivity.
Qed.

(** Nothing matches exactly when the label, read up to its trailing NUL
    characters, is not a label of the board. *)
Lemma np_where_nil (l : string) :
  np_where field_names l = [] <-> ~ valid_label (np_str l).
Proof.
  unfold np_where. rewrite where_rows_nil, np_str_field_names, in_field_names. tauto.
Qed.

Lemma label2index_raises (l : string) :
  label2index l = Raise IndexError <-> ~ valid_label (np_str l).
Proof.
  rewrite <- np_where_nil. unfold label2index.
  destruct (np_where field_names l); split; intros H; try reflexivity; discriminate.
Qed.

Lemma where_row_np_str (row : list string) (l : string) (i j : Z) :
  where_row row (np_str l) i j = where_row row l i j.
Proof.
  revert j. induction row as [|x t IH]; intros j; simpl; [reflexivity|].
  unfold np_str_eqb. rewrite np_str_idem, IH. reflexivity.
Qed.

(** A label and its reading up to the trailing NUL characters find the same
    field. *)
Lemma label2index_np_str (l : string) : label2index (np_str l) = label2index l.
Proof.
  unfold label2index, np_where. generalize 0. induction field_names as [|row t IH]; intros i.
  - reflexivity.
  - cbn [where_rows]. rewrite where_row_np_str.
    destruct (where_row row l i 0); [|reflexivity]. cbn [app]. apply IH.
Qed.

Lemma valid_label_cases (L : string) :
  valid_label L ->
  exists ij, label2index L = Ok ij /\ index2label ij = Ok L /\ valid_index ij.
Proof.
  intros [c [r [Hc [Hr ->]]]].
  unfold column_chars in Hc. unfold row_chars in Hr. simpl in Hc, Hr.
  repeat (destruct Hc as [<-|Hc]; [|try contradiction]);
    repeat (destruct Hr as [<-|Hr]; [|try contradiction]);
    (eexists; split; [reflexivity | split; [reflexivity | unfold valid_index; simpl; lia]]).
Qed.

(** A label of the board is read as it stands. *)
Lemma np_str_valid (L : string) : valid_label L -> np_str L = L.
Proof.
  intros [c [r [Hc [Hr ->]]]].
  unfold column_chars in Hc. unfold row_chars in Hr. simpl in Hc, Hr.
  repeat (destruct Hc as [<-|Hc]; [|try contradiction]);
    repeat (destruct Hr as [<-|Hr]; [|try contradiction]); reflexivity.
Qed.

Lemma valid_np_label (L : string) : valid_label L -> np_label L.
Proof. intros H. unfold np_label. rewrite (np_str_valid L H). exact H. Qed.

(** A label that numpy reads as a label of the board is found on it. *)
Lemma np_label_cases (L : string) :
  np_label L -> exists ij, label2index L = Ok ij /\ valid_index ij.
Proof.
  intros H. destruct (valid_label_cases _ H) as [ij [H1 [_ H3]]].
  rewrite label2index_np_str in H1. eauto.
Qed.

Lemma valid_index_cases (i j : Z) :
  0 <= i <= 7 -> 0 <= j <= 7 ->
  exists L, index2label (i, j) = Ok L /\ label2index L = Ok (i, j) /\ valid_label L.
Proof.
  intros Hi Hj.
  assert (Ei : i = 0 \/ i = 1 \/ i = 2 \/ i = 3 \/ i = 4 \/ i = 5 \/ i = 6 \/ i = 7) by lia.
  assert (Ej : j = 0 \/ j = 1 \/ j = 2 \/ j = 3 \/ j = 4 \/ j = 5 \/ j = 6 \/ j = 7) by lia.
  clear Hi Hj.
  repeat (destruct Ei as [->|Ei]); try subst i;
    repeat (destruct Ej as [->|Ej]); try subst j;
    (eexists; split; [reflexivity | split; [reflexivity |]];
     apply in_field_names; vm_compute; tauto).
Qed.

(** C9: [index2label (label2index L) = L] for every valid label [L], and
    [label2index (index2label (i, j)) = (i, j)] for every index pair in
    [0..7] x [0..7]. *)
Theorem codec_round_trip :
  forall (L : string) (i j : Z),
    (valid_label L ->
     exists ij, label2index L = Ok ij /\ index2label ij = Ok L) /\
    (0 <= i <= 7 -> 0 <= j <= 7 ->
     exists L', index2label (i, j) = Ok L' /\ label2index L' = Ok (i, j)).
Proof.
  intros L i j. split.
  - intros H. destruct (valid_label_cases L H) as [ij [H1 [H2 _]]]. eauto.
  - intros Hi Hj. destruct (valid_index_cases i j Hi Hj) as [L' [H1 [H2 _]]]. eauto.
Qed.

Lemma valid_label_E4 : valid_label "E4".
Proof. exists "E", "4". unfold column_chars, row_chars. simpl. tauto. Qed.

Lemma codec_round_trip_witness :
  (exists ij, label2index "E4" = Ok ij /\ index2label ij = Ok "E4") /\
  (exists L', index2label (3, 4) = Ok L' /\ label2index L' = Ok (3, 4)).
Proof.
  destruct (codec_round_trip "E4" 3 4) as [H1 H2].
  split; [apply H1; exact valid_label_E4 | apply H2; lia].
Defined.

(** ** The engine on concrete games *)

Example fools_mate :
  query (state_of (starting (new_game standard_roster)
           (play [click 13%nat "F3"; click 28%nat "E5"; click 14%nat "G4"; click 19%nat "H4"])))
        (fun s => (move_count s, is_checkmate s))
  = Ok (4, true).
Proof. vm_compute. reflexivity. Qed.

(** C1: a committed move can leave the mover's own king in check.  White
    castles kingside in the game that starts from [pinned_rook_roster]: the
    king was not in check before, the move is committed (the move count
    advances, the king stands on G1, the rook on F1), and [check_check] on the
    state [move] returns finds the white king in check by the rook on G5. *)
Theorem castling_commits_into_check :
  let s0 := new_game pinned_rook_roster in
  let s1 := state_of (starting s0 (move 5 0%nat "G1")) in
  result_of (starting s0 (check_check 5 1 false)) = Ok false /\
  query s0 move_count = Ok 0 /\
  query s1 move_count = Ok 1 /\
  query s1 (fun s => option_map placement (piece_at s 0%nat)) = Ok (Some (true, "G1", Some (0, 6))) /\
  query s1 (fun s => option_map placement (piece_at s 1%nat)) = Ok (Some (true, "F1", Some (0, 5))) /\
  query s1 (fun s => option_map placement (piece_at s 5%nat)) = Ok (Some (true, "G5", Some (4, 6))) /\
  result_of (starting s1 (check_check 5 1 false)) = Ok true /\
  result_of (starting (state_of (starting s1 after_move)) (check_check 5 1 false)) = Ok true.
Proof. vm_compute. repeat split; reflexivity. Qed.

(** C3: the kingside test of [check_rochade] does not read the move count
    of the rook (the queenside test does), and in a game where the kingside
    rook has moved away and back, castling kingside is offered and carried
    out. *)
Theorem castling_offered_with_moved_rook :
  (forall rook, rochade_rook_ok 2 rook = str_in "2" (name rook)) /\
  (forall rook, rochade_rook_ok (-2) rook = str_in "1" (name rook) && (move_idx rook =? 0)) /\
  let s := state_of (starting (new_game rook_endgame_roster)
             (play [click 1%nat "H2"; click 2%nat "D8"; click 1%nat "H1"; click 2%nat "E8"])) in
  query s (fun s => option_map move_idx (piece_at s 1%nat)) = Ok (Some 2) /\
  query s (fun s => option_map move_idx (piece_at s 0%nat)) = Ok (Some 0) /\
  result_of (starting s (check_rochade 0%nat (0, 2) false)) = Ok (true, Some 1%nat) /\
  query (state_of (starting s (King_move_types 0%nat "G1" false)))
        (fun s => option_map (fun p => vec_in (0, 2) (possible_moves p)) (piece_at s 0%nat))
    = Ok (Some true) /\
  let s' := state_of (starting s (move 5 0%nat "G1")) in
  query s' (fun s => option_map placement (piece_at s 0%nat)) = Ok (Some (true, "G1", Some (0, 6))) /\
  query s' (fun s => option_map placement (piece_at s 1%nat)) = Ok (Some (true, "F1", Some (0, 5))) /\
  query s' move_count = Ok 5.
Proof.
  split; [|split].
  - intros rook. unfold rochade_rook_ok. simpl. apply orb_false_r.
  - intros rook. unfold rochade_rook_ok. simpl. reflexivity.
  - vm_compute. repeat split; reflexivity.
Qed.

(** C4: a rejected request sets [receive_en_passant].  In the start
    position the request A2 to C4 is no pawn move and is rejected, yet the flag
    of the pawn is set.  In a second game the white E pawn walks to E4 in
    single steps, asks for E6 (rejected), steps to E5, and is then captured
    en passant by the black pawn on D5. *)
Theorem rejected_request_sets_en_passant_flag :
  let s0 := new_game standard_roster in
  let s1 := state_of (starting s0 (move 5 P_W1 "C4")) in
  result_of (starting s0 (check_move 5 P_W1 "C4" 1 false))
    = Ok (code_invalid, "MoveError: P_W1 cannot move to C4") /\
  query s0 (fun s => option_map receive_en_passant (piece_at s P_W1)) = Ok (Some false) /\
  query s1 move_count = Ok 0 /\
  query s1 (fun s => option_map placement (piece_at s P_W1)) = Ok (Some (true, "A2", Some (1, 0))) /\
  query s1 (fun s => option_map receive_en_passant (piece_at s P_W1)) = Ok (Some true) /\
  let t0 := state_of (starting s0
              (play [click P_W5 "E3"; click P_B4 "D6"; click P_W5 "E4"; click P_B4 "D5"])) in
  let t1 := state_of (starting t0 (click P_W5 "E6")) in
  let t2 := state_of (starting t1 (click P_W5 "E5")) in
  let t3 := state_of (starting t2 (click P_B4 "E4")) in
  query t1 move_count = Ok 4 /\
  query t1 (fun s => option_map placement (piece_at s P_W5)) = Ok (Some (true, "E4", Some (3, 4))) /\
  query t1 (fun s => option_map receive_en_passant (piece_at s P_W5)) = Ok (Some true) /\
  query t2 (fun s => option_map receive_en_passant (piece_at s P_W5)) = Ok (Some true) /\
  query t3 move_count = Ok 6 /\
  query t3 (fun s => option_map placement (piece_at s P_W5)) = Ok (Some (false, "Out of field", None)) /\
  query t3 (fun s => option_map placement (piece_at s P_B4)) = Ok (Some (true, "E4", Some (3, 4))).
Proof. vm_compute. repeat split; reflexivity. Qed.

(** C5: the flags are also cleared after a rejected request.  After the
    white pawn's advance E2 to E4 the black pawn on D4 may capture it en
    passant; if black first asks for the knight move B8 to B6, which is
    rejected, the flag is gone and the same capture, still on the half-move
    that follows the advance, is rejected. *)
Theorem rejected_request_closes_en_passant_window :
  let s := state_of (starting (new_game standard_roster)
             (play [click P_W1 "A3"; click P_B4 "D5"; click P_W1 "A4"; click P_B4 "D4";
                    click P_W5 "E4"])) in
  query s move_count = Ok 5 /\
  query s (fun s => option_map receive_en_passant (piece_at s P_W5)) = Ok (Some true) /\
  let a := state_of (starting s (move 5 P_B4 "E3")) in
  query a move_count = Ok 6 /\
  query a (fun s => option_map placement (piece_at s P_W5)) = Ok (Some (false, "Out of field", None)) /\
  query a (fun s => option_map placement (piece_at s P_B4)) = Ok (Some (true, "E3", Some (2, 4))) /\
  let b := state_of (starting s (move 5 N_B1 "B6")) in
  query b move_count = Ok 5 /\
  query b (fun s => option_map placement (piece_at s N_B1)) = Ok (Some (true, "B8", Some (7, 1))) /\
  query b (fun s => option_map receive_en_passant (piece_at s P_W5)) = Ok (Some false) /\
  result_of (starting b (check_move 5 P_B4 "E3" 2 false))
    = Ok (code_invalid, "MoveError: P_B4 cannot move to E3") /\
  let b' := state_of (starting b (move 5 P_B4 "E3")) in
  query b' move_count = Ok 5 /\
  query b' (fun s => option_map placement (piece_at s P_W5)) = Ok (Some (true, "E4", Some (3, 4))) /\
  query b' (fun s => option_map placement (piece_at s P_B4)) = Ok (Some (true, "D4", Some (3, 3))).
Proof. vm_compute. repeat split; reflexivity. Qed.

(** Counterexample to C2 as stated: a reverted castling trial does not give
    back the castling flags it started with, and a reverted trial of a pawn
    that reaches the last rank leaves the promotion marker set. *)
Lemma trial_revert_changes_game_state :
  let s := state_of (starting (new_game rook_endgame_roster)
             (King_move_types 0%nat "G1" false)) in
  let s' := state_of (starting s
              (mate_board <- move_piece 0%nat "G1" code_empty true ;;
               redo_move 0%nat mate_board code_empty true true)) in
  query s (fun s => (is_rochade s, is_rochade_gui s)) = Ok (true, true) /\
  query s' (fun s => (is_rochade s, is_rochade_gui s)) = Ok (false, false) /\
  let t := new_game promotion_roster in
  let t' := state_of (starting t
              (mate_board <- move_piece 1%nat "A8" code_empty false ;;
               redo_move 1%nat mate_board code_empty true true)) in
  query t promote_piece = Ok None /\
  query t' promote_piece = Ok (Some 1%nat).
Proof. vm_compute. repeat split; reflexivity. Qed.

(** The en-passant trial cannot be reverted at all: [redo_move] looks for
    the captured pawn on the landing square of the old board, finds [None]
    and raises. *)
Example en_passant_trial_revert_raises :
  let s := state_of (starting (new_game en_passant_roster)
             (play [click 0%nat "D1"; click 3%nat "D5"])) in
  let s' := state_of (starting s (check_move 5 1%nat "D6" 1 false)) in
  result_of (starting s (check_move 5 1%nat "D6" 1 false))
    = Ok (code_opponent, "P_W5 kills P_B4 on D6") /\
  result_of (starting s'
     (mate_board <- move_piece 1%nat "D6" code_opponent false ;;
      redo_move 1%nat mate_board code_opponent true true))
    = Raise AttributeError.
Proof. vm_compute. split; reflexivity. Qed.

(** Counterexample to C7 as stated: in the start position [check_check]
    for white returns [false] and leaves the candidate list of the black
    knight on B8 changed. *)
Lemma check_check_writes_scratch_fields :
  let s := new_game standard_roster in
  let s' := state_of (starting s (check_check 5 1 false)) in
  result_of (starting s (check_check 5 1 false)) = Ok false /\
  query s (fun s => option_map possible_moves (piece_at s N_B1)) = Ok (Some []) /\
  query s' (fun s => option_map possible_moves (piece_at s N_B1))
    = Ok (Some KnightMoves.normal_moves).
Proof. vm_compute. repeat split; reflexivity. Qed.

(** Counterexample to C8 as stated: the label "e4" is not a file in A-H
    followed by a rank in 1-8, [label2index] raises on it, and yet the request
    to move the pawn from E2 to "e4" is carried out. *)
Lemma lowercase_label_is_accepted :
  ~ valid_label "e4" /\
  label2index "e4" = Raise IndexError /\
  let s := new_game standard_roster in
  let s' := state_of (starting s (move 5 P_W5 "e4")) in
  query s' move_count = Ok 1 /\
  query s' (fun s => option_map placement (piece_at s P_W5)) = Ok (Some (true, "E4", Some (3, 4))).
Proof.
  split; [change (~ valid_label (np_str "e4")); apply label2index_raises; reflexivity|].
  vm_compute. repeat split; reflexivity.
Qed.

(** A label followed by a NUL character is no file in A-H followed by a rank
    in 1-8 either, and numpy finds the field all the same: [label2index]
    returns the position of E4, and the request to move the pawn from E2 to
    that label is carried out; the pawn keeps the label as it was passed. *)
Example nul_padded_label_is_accepted :
  let e4 := String "E" (String "4" (String Ascii.zero EmptyString)) in
  let s := new_game standard_roster in
  let s' := state_of (starting s (move 5 P_W5 (String "e" (String "4" (String Ascii.zero EmptyString))))) in
  ~ valid_label e4 /\
  label2index e4 = Ok (3, 4) /\
  query s' move_count = Ok 1 /\
  query s' (fun s => option_map placement (piece_at s P_W5)) = Ok (Some (true, e4, Some (3, 4))).
Proof.
  cbv zeta. split.
  - intros [c [r [Hc [Hr E]]]].
    unfold column_chars in Hc. unfold row_chars in Hr. simpl in Hc, Hr.
    repeat (destruct Hc as [<-|Hc]; [|try contradiction]);
      repeat (destruct Hr as [<-|Hr]; [|try contradiction]); discriminate E.
  - vm_compute. repeat split; reflexivity.
Qed.

(** Counterexample to C10 as stated: after a promotion the registry has
    four entries; reloading the snapshot of the start, as undo does, leaves
    three, and the promoted queen is gone. *)
Lemma reload_shrinks_registry :
  let s0 := new_game promotion_roster in
  let s1 := state_of (starting s0 (play [click 1%nat "A8"; click_promotion 5 "Queen"])) in
  let s2 := state_of (starting s1
              (match s0 with Ok s => load_states (save_state s) | Raise e => raise e end)) in
  query s1 (fun s => map short_name (pieces s)) = Ok ["K_W"; "P_W1"; "K_B"; "Q_W1"] /\
  query s1 (fun s => map is_alive (pieces s)) = Ok [true; false; true; true] /\
  query s2 (fun s => map short_name (pieces s)) = Ok ["K_W"; "P_W1"; "K_B"].
Proof. vm_compute. repeat split; reflexivity. Qed.

(** ** Lists with an updated element *)

Lemma list_set_length {A} (l : list A) (n : nat) (a : A) :
  List.length (list_set l n a) = List.length l.
Proof.
  revert n. induction l as [|h t IH]; intros [|n]; simpl; auto.
Qed.

Lemma nth_error_list_set_eq {A} (l : list A) (n : nat) (a : A) :
  (n < List.length l)%nat -> nth_error (list_set l n a) n = Some a.
Proof.
  revert n. induction l as [|h t IH]; intros [|n] H; simpl in *; try lia; auto.
  apply IH. lia.
Qed.

Lemma nth_error_list_set_neq {A} (l : list A) (n m : nat) (a : A) :
  n <> m -> nth_error (list_set l n a) m = nth_error l m.
Proof.
  revert n m. induction l as [|h t IH]; intros [|n] [|m] H; simpl; auto.
  contradiction.
Qed.

Lemma list_set_same {A} (l : list A) (n : nat) (a : A) :
  nth_error l n = Some a -> list_set l n a = l.
Proof.
  revert n. induction l as [|h t IH]; intros [|n] H; simpl in *; try discriminate.
  - injection H as ->. reflexivity.
  - f_equal. auto.
Qed.

Lemma map_list_set {A B} (f : A -> B) (l : list A) (n : nat) (a : A) :
  map f (list_set l n a) = list_set (map f l) n (f a).
Proof.
  revert n. induction l as [|h t IH]; intros [|n]; simpl; auto.
  f_equal. auto.
Qed.

Lemma map_list_set_same {A B} (f : A -> B) (l : list A) (n : nat) (a b : A) :
  nth_error l n = Some a -> f b = f a -> map f (list_set l n b) = map f l.
Proof.
  intros H E. rewrite map_list_set, E. apply list_set_same.
  rewrite nth_error_map, H. reflexivity.
Qed.

Lemma Forall_list_set {A} (P : A -> Prop) (l : list A) (n : nat) (a : A) :
  P a -> Forall P l -> Forall P (list_set l n a).
Proof.
  intros Ha. revert n. induction l as [|h t IH]; intros [|n] H; simpl; auto.
  - inversion H; subst. constructor; auto.
  - inversion H; subst. constructor; auto.
Qed.

Lemma nth_error_Forall {A} (P : A -> Prop) (l : list A) (n : nat) (a : A) :
  Forall P l -> nth_error l n = Some a -> P a.
Proof.
  intros H E. rewrite Forall_forall in H. apply H. eapply nth_error_In; eauto.
Qed.

(** ** Inversion of monadic computations *)

Lemma bind_ok {A B} (m : M A) (k : A -> M B) (s : Game) (b : B) (s'' : Game) :
  bind m k s = Ok (b, s'') ->
  exists a s', m s = Ok (a, s') /\ k a s' = Ok (b, s'').
Proof.
  unfold bind. destruct (m s) as [[a s']|e]; [eauto | discriminate].
Qed.

Lemma ret_ok {A} (a b : A) (s s' : Game) : ret a s = Ok (b, s') -> b = a /\ s' = s.
Proof. unfold ret. intros H. injection H as <- <-. auto. Qed.

Lemma gets_ok {A} (f : Game -> A) (b : A) (s s' : Game) :
  gets f s = Ok (b, s') -> b = f s /\ s' = s.
Proof. unfold gets. intros H. injection H as <- <-. auto. Qed.

Lemma modify_ok (f : Game -> Game) (u : unit) (s s' : Game) :
  modify f s = Ok (u, s') -> s' = f s.
Proof. unfold modify. intros H. injection H as <-. auto. Qed.

Lemma lift_ok {A} (r : Res A) (b : A) (s s' : Game) :
  lift r s = Ok (b, s') -> r = Ok b /\ s' = s.
Proof. unfold lift. destruct r; intros H; [injection H as <- <-; auto | discriminate]. Qed.

Lemma piece_of_ok (r : Ref) (p : Piece) (s s' : Game) :
  piece_of r s = Ok (p, s') -> nth_error (pieces s) r = Some p /\ s' = s.
Proof.
  unfold piece_of. destruct (nth_error (pieces s) r); intros H;
    [injection H as <- <-; auto | discriminate].
Qed.

Lemma upd_piece_ok (r : Ref) (f : Piece -> Piece) (u : unit) (s s' : Game) :
  upd_piece r f s = Ok (u, s') ->
  exists p, nth_error (pieces s) r = Some p /\
            s' = set_pieces (list_set (pieces s) r (f p)) s.
Proof.
  unfold upd_piece. destruct (nth_error (pieces s) r) as [p|]; intros H;
    [injection H as <-; eauto | discriminate].
Qed.

(** Splits a hypothesis [m s = Ok (a, s')] along the binds of [m]. *)
Ltac inv_ok H :=
  let a := fresh "a" in
  let s := fresh "s" in
  let H1 := fresh "H" in
  lazymatch type of H with
  | bind _ _ _ = Ok _ => apply bind_ok in H; destruct H as [a [s [H1 H]]]
  | ret _ _ = Ok _ => apply ret_ok in H; destruct H as [? ?]; subst
  | gets _ _ = Ok _ => apply gets_ok in H; destruct H as [? ?]; subst
  | modify _ _ = Ok _ => apply modify_ok in H; subst
  | lift _ _ = Ok _ => apply lift_ok in H; destruct H as [H ?]; subst
  | piece_of _ _ = Ok _ => apply piece_of_ok in H; destruct H as [H ?]; subst
  | upd_piece _ _ _ = Ok _ =>
      apply upd_piece_ok in H; destruct H as [? [H ?]]; subst
  | raise _ _ = Ok _ => discriminate H
  | Raise _ = Ok _ => discriminate H
  end.

(** The same on every hypothesis, as far as it goes. *)
Ltac inv_all :=
  repeat match goal with
         | H : upd_piece _ _ _ = Ok _ |- _ => inv_ok H
         | H : bind _ _ _ = Ok _ |- _ => inv_ok H
         | H : ret _ _ = Ok _ |- _ => inv_ok H
         | H : gets _ _ = Ok _ |- _ => inv_ok H
         | H : modify _ _ = Ok _ |- _ => inv_ok H
         | H : lift _ _ = Ok _ |- _ => inv_ok H
         | H : piece_of _ _ = Ok _ |- _ => inv_ok H
         | H : raise _ _ = Ok _ |- _ => inv_ok H
         | H : Raise _ = Ok _ |- _ => inv_ok H
         end.

(** ** A unary program logic for registry invariants

    [Inv] is a property of the registry that survives the update of any
    field but [possible_moves] and the storing of a candidate list without a
    zero vector.  Every method of the engine that returns, returns in a state
    whose registry satisfies [Inv] if it did before. *)

Lemma no_zero_straight (v : Vec) : is_straight v = true -> no_zero [v].
Proof.
  intros H [E|[]]. subst v. discriminate H.
Qed.

Lemma no_zero_diagonal (v : Vec) : is_diagonal v = true -> no_zero [v].
Proof.
  intros H [E|[]]. subst v. discriminate H.
Qed.

Lemma no_zero_queen (v : Vec) : is_diagonal v || is_straight v = true -> no_zero [v].
Proof.
  intros H [E|[]]. subst v. discriminate H.
Qed.

Lemma no_zero_rochade (v : Vec) :
  vec_in v KingMoves.rochade = true -> no_zero (KingMoves.normal_moves ++ [v]).
Proof.
  intros H. unfold no_zero. rewrite in_app_iff. intros [E|[E|[]]].
  - unfold KingMoves.normal_moves in E. simpl in E.
    repeat (destruct E as [E|E]; [discriminate E|]). exact E.
  - subst v. discriminate H.
Qed.

Ltac no_zero_tac :=
  first
    [ apply no_zero_straight; assumption
    | apply no_zero_diagonal; assumption
    | apply no_zero_queen; assumption
    | apply no_zero_rochade; assumption
    | let E := fresh in
      repeat match goal with |- context [if ?b then _ else _] => destruct b end;
      unfold no_zero; cbn; intros E;
      repeat (destruct E as [E|E]; [discriminate E|]); exact E ].

Ltac benign_tac := let p := fresh in intros p; split; reflexivity.

(** [check_rochade] only says yes to one of the two castling vectors. *)
Lemma check_rochade_offers (self : Ref) (v : Vec) (t : bool) (s s' : Game) (rook : option Ref) :
  check_rochade self v t s = Ok ((true, rook), s') ->
  vec_in v KingMoves.rochade = true.
Proof.
  unfold check_rochade. intros H.
  destruct (vec_in v KingMoves.rochade); [reflexivity|].
  inv_all. discriminate.
Qed.

Lemma check_move_S (f : nat) :
  check_move (S f)
  = check_move_body (check_through_check_body (check_check_body (check_move f))).
Proof. reflexivity. Qed.

Lemma execute_move_S (f : nat) :
  execute_move (S f)
  = execute_move_body (check_move (S f)) (check_check (S f))
      (check_checkmate_body (check_check (S f)) (execute_move f)).
Proof. reflexivity. Qed.

Section Preservation.

Variable Inv : list Piece -> Board -> Prop.

Hypothesis Inv_benign : forall ps b r p f,
  nth_error ps r = Some p -> benign f -> Inv ps b -> Inv (list_set ps r (f p)) b.

Hypothesis Inv_moves : forall ps b r p l,
  nth_error ps r = Some p -> no_zero l -> Inv ps b ->
  Inv (list_set ps r (set_possible_moves l p)) b.

Hypothesis Inv_board : forall ps b idx v b',
  board_set b idx v = Ok b' -> Inv ps b -> Inv ps b'.

Local Abbreviation pres := (preserves Inv).

Lemma pres_ret {A} (a : A) : pres (ret a).
Proof. intros s b s' H HI. inv_ok H. exact HI. Qed.

Lemma pres_raise {A} (e : exn) : pres (@raise A e).
Proof. intros s b s' H HI. discriminate H. Qed.

Lemma pres_lift {A} (r : Res A) : pres (lift r).
Proof. intros s b s' H HI. inv_ok H. exact HI. Qed.

Lemma pres_gets {A} (f : Game -> A) : pres (gets f).
Proof. intros s b s' H HI. inv_ok H. exact HI. Qed.

Lemma pres_modify (f : Game -> Game) :
  (forall s, pieces (f s) = pieces s /\ board_objects (f s) = board_objects s) ->
  pres (modify f).
Proof.
  intros Hf s b s' H HI. inv_ok H. destruct (Hf s) as [-> ->]. exact HI.
Qed.

Lemma pres_bind {A B} (m : M A) (k : A -> M B) :
  pres m -> (forall a, pres (k a)) -> pres (bind m k).
Proof.
  intros Hm Hk s b s' H HI. inv_ok H. eapply Hk; eauto.
Qed.

Lemma pres_piece_of (r : Ref) : pres (piece_of r).
Proof. intros s b s' H HI. inv_ok H. exact HI. Qed.

Lemma pres_upd_benign (r : Ref) (f : Piece -> Piece) :
  benign f -> pres (upd_piece r f).
Proof.
  intros Hf s b s' H HI. apply upd_piece_ok in H. destruct H as [p [Hp ->]].
  simpl. eapply Inv_benign; eauto.
Qed.

Lemma pres_upd_moves (r : Ref) (l : list Vec) :
  no_zero l -> pres (upd_piece r (set_possible_moves l)).
Proof.
  intros Hl s b s' H HI. apply upd_piece_ok in H. destruct H as [p [Hp ->]].
  simpl. eapply Inv_moves; eauto.
Qed.

(** One step of the proof that a method preserves the invariant. *)
Ltac pres_step :=
  match goal with
  | |- preserves _ (let _ := _ in _) => cbv zeta
  | |- preserves _ (bind _ _) => apply pres_bind; [| intros ?]
  | |- preserves _ (ret _) => apply pres_ret
  | |- preserves _ (raise _) => apply pres_raise
  | |- preserves _ (lift _) => apply pres_lift
  | |- preserves _ (gets _) => apply pres_gets
  | |- preserves _ (piece_of _) => apply pres_piece_of
  | |- preserves _ (modify _) => apply pres_modify; intros ?; split; reflexivity
  | |- preserves _ (upd_piece _ (set_possible_moves _)) =>
      apply pres_upd_moves; no_zero_tac
  | |- preserves _ (upd_piece _ _) => apply pres_upd_benign; benign_tac
  | |- preserves _ (if ?b then _ else _) => destruct b eqn:?
  | |- preserves _ (match ?x with _ => _ end) => destruct x eqn:?
  | |- preserves _ _ => solve [eauto]
  end.

Ltac pres_go := repeat pres_step.

Lemma pres_attr {A} (o : option Ref) (f : Piece -> A) : pres (attr o f).
Proof. unfold attr. pres_go. Qed.

Lemma pres_set_board (idx : option Idx) (v : option Ref) : pres (set_board idx v).
Proof.
  unfold set_board. intros s u s' H HI. inv_all. simpl. eapply Inv_board; eauto.
Qed.

Lemma pres_get_board (idx : option Idx) : pres (get_board idx).
Proof. unfold get_board. pres_go. Qed.

Hint Resolve pres_attr pres_set_board pres_get_board : core.

Lemma pres_get_move_step (self : Ref) (move_to : string) :
  pres (get_move_step self move_to).
Proof. unfold get_move_step. pres_go. Qed.

Hint Resolve pres_get_move_step : core.

Lemma pres_get_intermediate_field_names (self : Ref) (move_to : string) :
  pres (get_intermediate_field_names self move_to).
Proof. unfold get_intermediate_field_names. pres_go. Qed.

Lemma pres_invalid_request (self : Ref) (move_to : string) :
  pres (invalid_request self move_to).
Proof. unfold invalid_request. pres_go. Qed.

Lemma pres_check_field (self : Ref) (l : string) (c : Z) (b : Board) (t : bool) :
  pres (check_field self l c b t).
Proof. unfold check_field. pres_go. Qed.

Lemma pres_Pawn_move_types (self : Ref) (move_to : string) (t : bool) :
  pres (Pawn_move_types self move_to t).
Proof. unfold Pawn_move_types. pres_go. Qed.

Lemma pres_Rook_move_types (self : Ref) (move_to : string) (t : bool) :
  pres (Rook_move_types self move_to t).
Proof. unfold Rook_move_types. pres_go. Qed.

Lemma pres_Knight_move_types (self : Ref) (move_to : string) (t : bool) :
  pres (Knight_move_types self move_to t).
Proof. unfold Knight_move_types. pres_go. Qed.

Lemma pres_Bishop_move_types (self : Ref) (move_to : string) (t : bool) :
  pres (Bishop_move_types self move_to t).
Proof. unfold Bishop_move_types. pres_go. Qed.

Lemma pres_Queen_move_types (self : Ref) (move_to : string) (t : bool) :
  pres (Queen_move_types self move_to t).
Proof. unfold Queen_move_types. pres_go. Qed.

Lemma pres_check_rochade (self : Ref) (v : Vec) (t : bool) :
  pres (check_rochade self v t).
Proof. unfold check_rochade. pres_go. Qed.

Lemma pres_set_rochade (self : Ref) (v : Vec) (rook : option Ref) :
  pres (set_rochade self v rook).
Proof. unfold set_rochade. pres_go. Qed.

Hint Resolve pres_check_rochade pres_set_rochade : core.

Lemma pres_King_move_types (self : Ref) (move_to : string) (t : bool) :
  pres (King_move_types self move_to t).
Proof.
  unfold King_move_types.
  apply pres_bind; [pres_go|intros _].
  apply pres_bind; [pres_go|intros p].
  destruct (move_idx p =? 0); [|pres_go].
  apply pres_bind; [pres_go|intros v].
  intros s a s' H HI.
  inv_ok H. destruct a0 as [is_roch rook].
  assert (HI0 : Inv (pieces s0) (board_objects s0)) by (eapply pres_check_rochade; eauto).
  destruct is_roch.
  - assert (Hv : vec_in v KingMoves.rochade = true)
      by (eapply check_rochade_offers; eauto).
    revert H HI0. generalize s0 a s'. change (pres
      (upd_piece self (set_possible_moves (KingMoves.normal_moves ++ [v])) ;;
       set_rochade self v rook)).
    pres_go.
  - inv_ok H. exact HI0.
Qed.

Lemma pres_move_types (self : Ref) (move_to : string) (t : bool) :
  pres (move_types self move_to t).
Proof.
  unfold move_types. apply pres_bind; [pres_go|intros p].
  destruct (cls p); auto using pres_Pawn_move_types, pres_Rook_move_types,
    pres_Knight_move_types, pres_Bishop_move_types, pres_Queen_move_types,
    pres_King_move_types.
Qed.

Lemma pres_kill_piece (self : Ref) (enemy : option Ref) (replace : bool) :
  pres (kill_piece self enemy replace).
Proof. unfold kill_piece. pres_go. Qed.

Lemma pres_resurrect_piece (self : Ref) (enemy : option Ref) :
  pres (resurrect_piece self enemy).
Proof. unfold resurrect_piece. pres_go. Qed.

Lemma pres_check_pawn2x (self : Ref) : pres (check_pawn2x self).
Proof. unfold check_pawn2x. pres_go. Qed.

Hint Resolve pres_kill_piece pres_resurrect_piece pres_check_pawn2x pres_move_types
  pres_check_field pres_get_intermediate_field_names pres_invalid_request : core.

Lemma pres_move_piece_body (rook_move : M unit) (self : Ref) (move_to : string)
    (v : Z) (do_rochade : bool) :
  pres rook_move -> pres (move_piece_body rook_move self move_to v do_rochade).
Proof. intros Hr. unfold move_piece_body. pres_go. Qed.

Lemma pres_move_piece (self : Ref) (move_to : string) (v : Z) (do_rochade : bool) :
  pres (move_piece self move_to v do_rochade).
Proof.
  unfold move_piece. apply pres_move_piece_body. pres_go.
  apply pres_move_piece_body. pres_go.
Qed.

Lemma pres_restore_loop (idxs : list Idx) (mate_board : Board) :
  pres (restore_loop idxs mate_board).
Proof. induction idxs as [|i rest IH]; simpl; pres_go. Qed.

Hint Resolve pres_move_piece pres_restore_loop : core.

Lemma pres_redo_move (self : Ref) (mate_board : Board) (v : Z) (t reset : bool) :
  pres (redo_move self mate_board v t reset).
Proof. unfold redo_move. pres_go. Qed.

Lemma pres_reset_en_passant_loop (refs : list Ref) (self : Ref) :
  pres (reset_en_passant_loop refs self).
Proof. induction refs as [|r rest IH]; simpl; pres_go. Qed.

Hint Resolve pres_redo_move pres_reset_en_passant_loop : core.

Lemma pres_reset_en_passant (self : Ref) : pres (reset_en_passant self).
Proof. unfold reset_en_passant. pres_go. Qed.

Lemma pres_move_counter (self : Ref) : pres (move_counter self).
Proof. unfold move_counter. pres_go. Qed.

Hint Resolve pres_reset_en_passant pres_move_counter : core.

Section Bodies.

Variable check_move' : Ref -> string -> Z -> bool -> M (Z * string).
Hypothesis pres_check_move' : forall r l c t, pres (check_move' r l c t).

Lemma pres_check_check_loop (refs : list Ref) (c : Z) (move_to : option string) :
  pres (check_check_loop check_move' refs c move_to).
Proof. induction refs as [|r rest IH]; simpl; pres_go. Qed.

Hint Resolve pres_check_check_loop : core.

Lemma pres_check_check_body (c : Z) (t : bool) :
  pres (check_check_body check_move' c t).
Proof. unfold check_check_body. pres_go. Qed.

Lemma pres_check_through_check_body (self : Ref) (steps : list string) :
  pres (check_through_check_body (check_check_body check_move') self steps).
Proof.
  induction steps as [|l rest IH]; simpl; pres_go.
  apply pres_check_check_body.
Qed.

Lemma pres_intermediate_ok (self : Ref) (steps : list string) (c : Z) (t : bool) :
  pres (intermediate_ok self steps c t).
Proof. induction steps as [|l rest IH]; simpl; pres_go. Qed.

Hint Resolve pres_check_through_check_body pres_intermediate_ok : core.

Lemma pres_check_move_body (self : Ref) (move_to : string) (c : Z) (t : bool) :
  pres (check_move_body
          (check_through_check_body (check_check_body check_move'))
          self move_to c t).
Proof. unfold check_move_body. pres_go. Qed.

End Bodies.

Lemma pres_check_move (fuel : nat) (self : Ref) (move_to : string) (c : Z) (t : bool) :
  pres (check_move fuel self move_to c t).
Proof.
  revert self move_to c t. induction fuel as [|f IH]; intros.
  - apply pres_raise.
  - rewrite check_move_S. apply pres_check_move_body. exact IH.
Qed.

Lemma pres_check_check (fuel : nat) (c : Z) (t : bool) :
  pres (check_check fuel c t).
Proof. apply pres_check_check_body. apply pres_check_move. Qed.

Hint Resolve pres_check_move pres_check_check : core.

Section Orchestrator.

Variable execute_move' : Ref -> string -> bool -> M bool.
Hypothesis pres_execute_move' : forall r l t, pres (execute_move' r l t).

Lemma pres_escape_loop_fields (piece : Ref) (fields : list string) :
  pres (escape_loop_fields execute_move' piece fields).
Proof. induction fields as [|l rest IH]; simpl; pres_go. Qed.

Hint Resolve pres_escape_loop_fields : core.

Lemma pres_escape_loop_pieces (refs : list Ref) (c : Z) :
  pres (escape_loop_pieces execute_move' refs c).
Proof. induction refs as [|r rest IH]; simpl; pres_go. Qed.

Hint Resolve pres_escape_loop_pieces : core.

Lemma pres_check_checkmate_body (fuel : nat) (self : Ref) (c : Z) :
  pres (check_checkmate_body (check_check fuel) execute_move' self c).
Proof. unfold check_checkmate_body. pres_go. Qed.

Hint Resolve pres_check_checkmate_body : core.

Lemma pres_execute_move_body (fuel : nat) (self : Ref) (move_to : string) (t : bool) :
  pres (execute_move_body (check_move fuel) (check_check fuel)
          (check_checkmate_body (check_check fuel) execute_move') self move_to t).
Proof. unfold execute_move_body. pres_go. Qed.

End Orchestrator.

Lemma pres_execute_move (fuel : nat) (self : Ref) (move_to : string) (t : bool) :
  pres (execute_move fuel self move_to t).
Proof.
  revert self move_to t. induction fuel as [|f IH]; intros.
  - apply pres_raise.
  - rewrite execute_move_S. apply pres_execute_move_body. exact IH.
Qed.

Lemma pres_check_checkmate (fuel : nat) (self : Ref) (c : Z) :
  pres (check_checkmate fuel self c).
Proof. apply pres_check_checkmate_body. apply pres_execute_move. Qed.

Hint Resolve pres_execute_move pres_check_checkmate : core.

Lemma pres_move (fuel : nat) (self : Ref) (move_to : string) :
  pres (move fuel self move_to).
Proof. unfold move. pres_go. Qed.

Lemma pres_after_move : pres after_move.
Proof. unfold after_move. pres_go. Qed.

(** Creation of a piece, for invariants that survive it *)
Hypothesis Inv_append : forall ps b p,
  possible_moves p = [] -> Inv ps b -> Inv (ps ++ [p]) b.

Lemma pres_init_piece (c : PieceClass) (n sn : string) (col : Z) (field : string) :
  pres (init_piece c n sn col field).
Proof.
  unfold init_piece. intros s r s' H HI.
  inv_all. simpl. apply Inv_append; auto.
Qed.

Hint Resolve pres_init_piece : core.

Lemma pres_obj_from_string (class_name : string) (params : string * string * Z * string) :
  pres (obj_from_string class_name params).
Proof.
  unfold obj_from_string. destruct params as [[[n sn] col] field]. pres_go.
Qed.

Hint Resolve pres_obj_from_string : core.

Lemma pres_instantiate_pieces (specs : list (string * string * Z * string)) :
  pres (instantiate_pieces specs).
Proof. induction specs as [|x rest IH]; simpl; pres_go. Qed.

Lemma pres_promote_pawn (fuel : nat) (pawn : option Ref) (to_class : string) :
  pres (promote_pawn fuel pawn to_class).
Proof. unfold promote_pawn, promote_pawn_body. pres_go. Qed.

Hint Resolve pres_promote_pawn : core.

Lemma pres_click_promotion (fuel : nat) (piece_type : string) :
  pres (click_promotion fuel piece_type).
Proof. unfold click_promotion. pres_go. Qed.

End Preservation.

(** ** Total correctness: the computation returns, in a state with [Q] *)

Lemma wp_intro {A} (m : M A) (Q : A -> Game -> Prop) (s : Game) (a : A) (s' : Game) :
  m s = Ok (a, s') -> Q a s' -> wp m Q s.
Proof. intros H HQ. exists a, s'. auto. Qed.

Lemma wp_bind {A B} (m : M A) (k : A -> M B) (Q : B -> Game -> Prop) (s : Game) :
  wp m (fun a s' => wp (k a) Q s') s -> wp (bind m k) Q s.
Proof.
  intros [a [s' [Hm [b [s'' [Hk HQ]]]]]]. exists b, s''. split; [|exact HQ].
  unfold bind. rewrite Hm. exact Hk.
Qed.

Lemma wp_ret {A} (a : A) (Q : A -> Game -> Prop) (s : Game) :
  Q a s -> wp (ret a) Q s.
Proof. intros H. exists a, s. auto. Qed.

Lemma wp_gets {A} (f : Game -> A) (Q : A -> Game -> Prop) (s : Game) :
  Q (f s) s -> wp (gets f) Q s.
Proof. intros H. exists (f s), s. auto. Qed.

Lemma wp_modify (f : Game -> Game) (Q : unit -> Game -> Prop) (s : Game) :
  Q tt (f s) -> wp (modify f) Q s.
Proof. intros H. exists tt, (f s). auto. Qed.

Lemma wp_lift {A} (r : Res A) (a : A) (Q : A -> Game -> Prop) (s : Game) :
  r = Ok a -> Q a s -> wp (lift r) Q s.
Proof. intros -> H. exists a, s. auto. Qed.

Lemma wp_piece_of (r : Ref) (p : Piece) (Q : Piece -> Game -> Prop) (s : Game) :
  nth_error (pieces s) r = Some p -> Q p s -> wp (piece_of r) Q s.
Proof.
  intros Hp H. exists p, s. split; [|exact H]. unfold piece_of. rewrite Hp. reflexivity.
Qed.

Lemma wp_upd_piece (r : Ref) (f : Piece -> Piece) (p : Piece)
    (Q : unit -> Game -> Prop) (s : Game) :
  nth_error (pieces s) r = Some p ->
  Q tt (set_pieces (list_set (pieces s) r (f p)) s) ->
  wp (upd_piece r f) Q s.
Proof.
  intros Hp H. eexists tt, _. split; [|exact H]. unfold upd_piece. rewrite Hp. reflexivity.
Qed.

Lemma wp_mono {A} (m : M A) (Q Q' : A -> Game -> Prop) (s : Game) :
  wp m Q s -> (forall a s', Q a s' -> Q' a s') -> wp m Q' s.
Proof. intros [a [s' [H HQ]]] HQQ. exists a, s'. auto. Qed.

Lemma wp_ok_inv {A} (m : M A) (Q : A -> Game -> Prop) (s : Game) (a : A) (s' : Game) :
  wp m Q s -> m s = Ok (a, s') -> Q a s'.
Proof.
  intros [a0 [s0 [H HQ]]] E. rewrite E in H. injection H as <- <-. exact HQ.
Qed.

(** ** Lookups in an updated registry and on a well-shaped board *)

Lemma nth_error_list_set {A} (l : list A) (n m : nat) (a x : A) :
  nth_error l n = Some x ->
  nth_error (list_set l n a) m = if Nat.eqb n m then Some a else nth_error l m.
Proof.
  intros H. destruct (Nat.eqb_spec n m) as [<-|Hne].
  - apply nth_error_list_set_eq. apply nth_error_Some. congruence.
  - apply nth_error_list_set_neq. exact Hne.
Qed.

Lemma py_index_valid (len i : Z) :
  0 <= i < len -> py_index len i = Ok (Z.to_nat i).
Proof.
  intros H. unfold py_index.
  destruct (Z.leb_spec 0 i); [|lia]. destruct (Z.ltb_spec i len); [|lia]. reflexivity.
Qed.

Lemma py_nth_valid {A} (l : list A) (i : Z) :
  0 <= i < Z.of_nat (List.length l) ->
  exists a, py_nth l i = Ok a /\ nth_error l (Z.to_nat i) = Some a.
Proof.
  intros H. unfold py_nth. rewrite py_index_valid by exact H. simpl.
  destruct (nth_error l (Z.to_nat i)) as [a|] eqn:E; [eauto|].
  apply nth_error_None in E. lia.
Qed.

Lemma np_get_valid {A} (arr : list (list A)) (idx : Idx) :
  List.length arr = 8%nat -> Forall (fun row => List.length row = 8%nat) arr ->
  valid_index idx ->
  exists a, np_get arr idx = Ok a.
Proof.
  intros Hl Hr [Hi Hj]. unfold np_get.
  destruct (py_nth_valid arr (fst idx)) as [row [E1 E2]]; [rewrite Hl; simpl; lia|].
  rewrite E1. simpl.
  assert (Hrow : List.length row = 8%nat)
    by (eapply nth_error_Forall with (P := fun row => List.length row = 8%nat); eauto).
  destruct (py_nth_valid row (snd idx)) as [a [E3 _]]; [rewrite Hrow; simpl; lia|].
  eauto.
Qed.

Lemma board_get_valid (b : Board) (idx : Idx) :
  board_shape b -> valid_index idx -> exists cell, np_get b idx = Ok cell.
Proof. intros [Hl Hr] Hi. apply np_get_valid; auto. Qed.

Lemma label2index_valid (l : string) (ij : Idx) :
  label2index l = Ok ij ->
  valid_index ij /\ index2label ij = Ok (np_str l) /\ valid_label (np_str l).
Proof.
  intros H.
  assert (Hv : valid_label (np_str l)).
  { destruct (np_where field_names l) eqn:E.
    - unfold label2index in H. rewrite E in H. discriminate.
    - destruct (in_dec string_dec (np_str l) (List.concat field_names)) as [Hin|n];
        [apply in_field_names; exact Hin|].
      exfalso. rewrite <- np_str_field_names in n.
      apply where_rows_nil with (i := 0) in n. unfold np_where in E. congruence. }
  destruct (valid_label_cases _ Hv) as [ij' [H1 [H2 H3]]].
  rewrite label2index_np_str, H in H1. injection H1 as <-. auto.
Qed.

(** ** The invariants of the reachable states *)

Lemma py_nth_ok {A} (l : list A) (i : Z) (a : A) :
  py_nth l i = Ok a -> exists n, nth_error l n = Some a.
Proof.
  unfold py_nth. destruct (py_index _ i) as [n|]; simpl; [|discriminate].
  destruct (nth_error l n) eqn:E; intros H; [injection H as <-; eauto | discriminate].
Qed.

Lemma py_set_ok {A} (l : list A) (i : Z) (a : A) (l' : list A) :
  py_set l i a = Ok l' -> exists n, l' = list_set l n a.
Proof.
  unfold py_set. destruct (py_index _ i) as [n|]; simpl; [|discriminate].
  intros H. injection H as <-. eauto.
Qed.

Lemma board_set_shape (b : Board) (idx : option Idx) (v : option Ref) (b' : Board) :
  board_set b idx v = Ok b' -> board_shape b -> board_shape b'.
Proof.
  intros H [Hl Hr]. destruct idx as [ij|]; simpl in H.
  - unfold np_set in H.
    destruct (py_nth b (fst ij)) as [row|] eqn:E1; simpl in H; [|discriminate].
    destruct (py_set row (snd ij) v) as [row'|] eqn:E2; simpl in H; [|discriminate].
    apply py_nth_ok in E1. destruct E1 as [n E1].
    apply py_set_ok in E2. destruct E2 as [m ->].
    apply py_set_ok in H. destruct H as [k ->].
    split.
    + rewrite list_set_length. exact Hl.
    + apply Forall_list_set; [|exact Hr].
      rewrite list_set_length.
      eapply nth_error_Forall with (P := fun row => List.length row = 8%nat); eauto.
  - injection H as <-. split.
    + rewrite length_map. exact Hl.
    + rewrite Forall_map. eapply Forall_impl; [|exact Hr].
      intros row Hrow. simpl. rewrite length_map. exact Hrow.
Qed.

Lemma sound_benign (ps : list Piece) (b : Board) (r : nat) (p : Piece) (f : Piece -> Piece) :
  nth_error ps r = Some p -> benign f -> sound ps b -> sound (list_set ps r (f p)) b.
Proof.
  intros Hp Hf [Hm Hb]. split; [|exact Hb].
  apply Forall_list_set; [|exact Hm].
  destruct (Hf p) as [_ ->].
  eapply nth_error_Forall with (P := fun p => no_zero (possible_moves p)); eauto.
Qed.

Lemma sound_moves (ps : list Piece) (b : Board) (r : nat) (p : Piece) (l : list Vec) :
  nth_error ps r = Some p -> no_zero l -> sound ps b ->
  sound (list_set ps r (set_possible_moves l p)) b.
Proof.
  intros Hp Hl [Hm Hb]. split; [|exact Hb].
  apply Forall_list_set; [exact Hl | exact Hm].
Qed.

Lemma sound_board (ps : list Piece) (b : Board) (idx : option Idx) (v : option Ref) (b' : Board) :
  board_set b idx v = Ok b' -> sound ps b -> sound ps b'.
Proof.
  intros H [Hm Hb]. split; [exact Hm | eapply board_set_shape; eauto].
Qed.

Lemma sound_append (ps : list Piece) (b : Board) (p : Piece) :
  possible_moves p = [] -> sound ps b -> sound (ps ++ [p]) b.
Proof.
  intros Hp [Hm Hb]. split; [|exact Hb].
  apply Forall_app. split; [exact Hm|].
  constructor; [|constructor]. rewrite Hp. intros [].
Qed.

Lemma initialize_board_loop_shape (ps : list Piece) (i : Ref) (b b' : Board) :
  initialize_board_loop ps i b = Ok b' -> board_shape b -> board_shape b'.
Proof.
  revert i b. induction ps as [|p rest IH]; intros i b H Hb; simpl in H.
  - injection H as <-. exact Hb.
  - destruct (board_set b (field_idx p) (Some i)) as [b1|] eqn:E; simpl in H; [|discriminate].
    eapply IH; eauto. eapply board_set_shape; eauto.
Qed.

Lemma blank_board_shape : board_shape (repeat (repeat None 8%nat) 8%nat).
Proof. split; [reflexivity|]. simpl. repeat constructor. Qed.

Lemma new_game_sound (roster : list (string * string * Z * string)) (s : Game) :
  new_game roster = Ok s -> sound (pieces s) (board_objects s).
Proof.
  unfold new_game. intros H.
  destruct (instantiate_pieces roster blank_game) as [[u s1]|] eqn:E; [|discriminate].
  destruct (initialize_board (pieces s1)) as [b|] eqn:Eb; simpl in H; [|discriminate].
  injection H as <-. simpl.
  assert (Hs : sound (pieces s1) (board_objects s1)).
  { eapply (pres_instantiate_pieces sound sound_append); eauto.
    split; [constructor | exact blank_board_shape]. }
  split; [apply Hs|].
  eapply initialize_board_loop_shape; [exact Eb | exact blank_board_shape].
Qed.

Lemma reachable_sound (s : Game) :
  reachable s -> sound (pieces s) (board_objects s).
Proof.
  induction 1 as [roster s H | s s' fuel self l _ IH H | s s' _ IH H
                  | s s' fuel l _ IH H | s t s' _ IHs _ IHt H].
  - eapply new_game_sound; eauto.
  - eapply (pres_move sound sound_benign sound_moves sound_board); eauto.
  - eapply (pres_after_move sound); eauto.
  - eapply (pres_click_promotion sound sound_benign sound_moves sound_board sound_append); eauto.
  - unfold load_states, set_global_vars in H. inv_all. simpl. exact IHt.
Qed.

(** ** The registry under the operations of the game *)

Lemma continues_refl (ps : list Piece) : continues ps ps.
Proof. exists []. rewrite app_nil_r. reflexivity. Qed.

Lemma set_possible_moves_benign_ident (l : list Vec) (p : Piece) :
  ident (set_possible_moves l p) = ident p.
Proof. reflexivity. Qed.

Section Continues.

Variable ps0 : list Piece.

Let Inv (ps : list Piece) (b : Board) : Prop := continues ps0 ps.

Lemma continues_benign (ps : list Piece) (b : Board) (r : nat) (p : Piece)
    (f : Piece -> Piece) :
  nth_error ps r = Some p -> benign f -> Inv ps b -> Inv (list_set ps r (f p)) b.
Proof.
  intros Hp Hf [extra H]. exists extra.
  rewrite (map_list_set_same ident ps r p (f p)); auto. apply Hf.
Qed.

Lemma continues_moves (ps : list Piece) (b : Board) (r : nat) (p : Piece) (l : list Vec) :
  nth_error ps r = Some p -> no_zero l -> Inv ps b ->
  Inv (list_set ps r (set_possible_moves l p)) b.
Proof.
  intros Hp _ [extra H]. exists extra.
  rewrite (map_list_set_same ident ps r p (set_possible_moves l p)); auto.
Qed.

Lemma continues_board (ps : list Piece) (b : Board) (idx : option Idx) (v : option Ref)
    (b' : Board) :
  board_set b idx v = Ok b' -> Inv ps b -> Inv ps b'.
Proof. intros _ H. exact H. Qed.

Lemma continues_append (ps : list Piece) (b : Board) (p : Piece) :
  possible_moves p = [] -> Inv ps b -> Inv (ps ++ [p]) b.
Proof.
  intros _ [extra H]. exists (extra ++ [ident p]).
  rewrite map_app, H, app_assoc. reflexivity.
Qed.

Lemma run_op_continues (op : GameOp) : preserves Inv (run_op op).
Proof.
  pose proof continues_benign as Hb. pose proof continues_moves as Hm.
  pose proof continues_board as Hd. pose proof continues_append as Ha.
  destruct op; simpl.
  - apply pres_bind; [apply pres_obj_from_string; assumption | intros; apply pres_ret].
  - apply pres_move; assumption.
  - apply pres_after_move.
  - apply pres_promote_pawn; assumption.
  - apply pres_kill_piece; assumption.
  - apply pres_resurrect_piece; assumption.
  - apply pres_bind; [apply pres_move_piece; assumption | intros; apply pres_ret].
  - apply pres_redo_move; assumption.
  - apply pres_bind; [apply pres_execute_move; assumption | intros; apply pres_ret].
  - apply pres_check_checkmate; assumption.
Qed.

Lemma play_continues (ops : list GameOp) : preserves Inv (play (map run_op ops)).
Proof.
  induction ops as [|op rest IH]; simpl.
  - apply pres_ret.
  - apply pres_bind; [apply run_op_continues | intros; exact IH].
Qed.

End Continues.

Section LengthKept.

Variable n : nat.

Let Inv (ps : list Piece) (b : Board) : Prop := List.length ps = n.

Lemma length_benign (ps : list Piece) (b : Board) (r : nat) (p : Piece)
    (f : Piece -> Piece) :
  nth_error ps r = Some p -> benign f -> Inv ps b -> Inv (list_set ps r (f p)) b.
Proof. intros _ _ H. unfold Inv. rewrite list_set_length. exact H. Qed.

Lemma length_moves (ps : list Piece) (b : Board) (r : nat) (p : Piece) (l : list Vec) :
  nth_error ps r = Some p -> no_zero l -> Inv ps b ->
  Inv (list_set ps r (set_possible_moves l p)) b.
Proof. intros _ _ H. unfold Inv. rewrite list_set_length. exact H. Qed.

Lemma length_board (ps : list Piece) (b : Board) (idx : option Idx) (v : option Ref)
    (b' : Board) :
  board_set b idx v = Ok b' -> Inv ps b -> Inv ps b'.
Proof. intros _ H. exact H. Qed.

End LengthKept.

Lemma kill_piece_effect (self e : Ref) (replace : bool) (s s' : Game) :
  kill_piece self (Some e) replace s = Ok (tt, s') ->
  exists p p', piece_at s e = Some p /\ piece_at s' e = Some p' /\
               ident p' = ident p /\
               placement p' = (false, "Out of field", None) /\
               map ident (pieces s') = map ident (pieces s).
Proof.
  unfold kill_piece. intros H. inv_ok H.
  assert (Hs : pieces s0 = pieces s).
  { destruct (negb replace).
    - unfold attr, set_board in H0. inv_all. reflexivity.
    - inv_all. reflexivity. }
  clear H0. inv_all. simpl in *.
  rewrite Hs in *.
  assert (Hlen : (e < List.length (pieces s))%nat)
    by (apply nth_error_Some; congruence).
  rewrite nth_error_list_set_eq in H1 by exact Hlen. injection H1 as <-.
  rewrite nth_error_list_set_eq in H by (rewrite list_set_length; exact Hlen).
  injection H as <-.
  eexists. eexists. unfold piece_at. simpl. split; [eassumption|]. split.
  - apply nth_error_list_set_eq. rewrite !list_set_length. exact Hlen.
  - split; [reflexivity|]. split; [reflexivity|].
    rewrite !map_list_set. unfold ident. simpl.
    repeat (rewrite (list_set_same (map ident (pieces s)) e);
            [| rewrite nth_error_map, H0; reflexivity]).
    reflexivity.
Qed.

Ltac bind_step H :=
  cbv zeta in H;
  let a := fresh "a" in
  let s := fresh "s" in
  let H1 := fresh "H" in
  apply bind_ok in H; destruct H as [a [s [H1 H]]].

Lemma promote_pawn_grows (fuel : nat) (pawn : option Ref) (to_class : string) (s s' : Game) :
  promote_pawn fuel pawn to_class s = Ok (tt, s') ->
  List.length (pieces s') = S (List.length (pieces s)).
Proof.
  unfold promote_pawn, promote_pawn_body. intros H.
  do 10 bind_step H.
  destruct pawn as [pw|]; [|discriminate].
  bind_step H.
  unfold attr, set_board in *. inv_all.
  match goal with
  | Hc : obj_from_string _ _ _ = Ok (_, ?s1),
    Hk : kill_piece _ _ _ _ = Ok (_, ?s2) |- _ =>
      assert (L1 : List.length (pieces s1) = S (List.length (pieces s)));
      [ unfold obj_from_string, init_piece in Hc; inv_all; simpl;
        rewrite length_app; simpl; lia |];
      assert (L2 : List.length (pieces s2) = S (List.length (pieces s)));
      [ eapply (pres_kill_piece (fun ps _ => List.length ps = S (List.length (pieces s))));
        eauto using length_benign, length_board |]
  end.
  eapply (pres_check_checkmate (fun ps _ => List.length ps = S (List.length (pieces s))));
    eauto using length_benign, length_moves, length_board.
Qed.

(** C10 (amended): no operation of the game removes a piece from the
    registry.  Over any sequence of constructor calls, moves, trials,
    reverts, captures, promotions and checkmate searches the registry keeps
    every entry at its place, with its class, names and color, and only grows
    at its end; [kill_piece] leaves the captured piece registered with
    [is_alive = False] and without a position; [promote_pawn] adds exactly one
    entry.  (Reloading a snapshot with [set_global_vars] is not among these
    operations: it replaces the registry by the saved one.) *)
Theorem registry_kept_by_game_operations :
  (forall (ops : list GameOp) (s s' : Game),
     play (map run_op ops) s = Ok (tt, s') ->
     continues (pieces s) (pieces s')) /\
  (forall (self e : Ref) (replace : bool) (s s' : Game),
     kill_piece self (Some e) replace s = Ok (tt, s') ->
     exists p p', piece_at s e = Some p /\ piece_at s' e = Some p' /\
                  ident p' = ident p /\
                  placement p' = (false, "Out of field", None) /\
                  map ident (pieces s') = map ident (pieces s)) /\
  (forall (fuel : nat) (pawn : option Ref) (to_class : string) (s s' : Game),
     promote_pawn fuel pawn to_class s = Ok (tt, s') ->
     List.length (pieces s') = S (List.length (pieces s))).
Proof.
  split; [|split].
  - intros ops s s' H.
    eapply (play_continues (pieces s) ops); [exact H | apply continues_refl].
  - exact kill_piece_effect.
  - exact promote_pawn_grows.
Qed.

Lemma registry_kept_by_game_operations_witness :
  continues (pieces promotion_start) (pieces promotion_end) /\
  (exists p p', piece_at promotion_reply 2%nat = Some p /\
                piece_at promotion_end 2%nat = Some p' /\
                ident p' = ident p /\
                placement p' = (false, "Out of field", None) /\
                map ident (pieces promotion_end) = map ident (pieces promotion_reply)) /\
  List.length (pieces promotion_done) = S (List.length (pieces promotion_pending)).
Proof.
  destruct registry_kept_by_game_operations as [H1 [H2 H3]].
  split; [|split].
  - apply (H1 promotion_game). vm_compute. reflexivity.
  - apply (H2 3%nat 2%nat false). vm_compute. reflexivity.
  - apply (H3 5%nat (Some 1%nat) "Queen"). vm_compute. reflexivity.
Defined.

(** ** Requests with the zero vector *)

Ltac wp_step :=
  lazymatch goal with
  | |- wp (bind _ _) _ _ => apply wp_bind
  | |- wp (ret _) _ _ => apply wp_ret
  | |- wp (gets _) _ _ => apply wp_gets
  | |- wp (modify _) _ _ => apply wp_modify
  | |- wp (let _ := _ in _) _ _ => cbv zeta
  | |- wp (if true then _ else _) _ _ => cbv iota
  | |- wp (if false then _ else _) _ _ => cbv iota
  | |- wp (match (_, _) with _ => _ end) _ _ => cbv iota
  | |- wp (match Some _ with _ => _ end) _ _ => cbv iota
  | |- wp (match None with _ => _ end) _ _ => cbv iota
  end; cbv beta.

Lemma piece_at_upd (s : Game) (r : Ref) (p q : Piece) :
  nth_error (pieces s) r = Some p ->
  nth_error (pieces (set_pieces (list_set (pieces s) r q) s)) r = Some q.
Proof.
  intros H. simpl. apply nth_error_list_set_eq. apply nth_error_Some. congruence.
Qed.

Ltac solve_lookup := first [eassumption | (eapply piece_at_upd; solve_lookup)].

Ltac wp_prim :=
  lazymatch goal with
  | |- wp (piece_of _) _ _ => eapply wp_piece_of; [solve [solve_lookup]|]
  | |- wp (upd_piece _ _) _ _ => eapply wp_upd_piece; [solve [solve_lookup]|]
  | |- wp (lift (label2index _)) _ _ => eapply wp_lift; [eassumption|]
  end; cbv beta.

Ltac wp_go := repeat first [wp_step | wp_prim].

Lemma get_move_step_inv (self : Ref) (l : string) (s s' : Game) (v : Vec) :
  get_move_step self l s = Ok (v, s') ->
  s' = s /\
  exists p idx f, nth_error (pieces s) self = Some p /\ label2index l = Ok idx /\
                  field_idx p = Some f /\ v = (fst idx - fst f, snd idx - snd f).
Proof.
  unfold get_move_step. intros H. inv_all.
  destruct (field_idx a0) as [f|] eqn:E; inv_all.
  split; [reflexivity|]. exists a0, a, f. auto.
Qed.

Lemma wp_get_move_step (self : Ref) (l : string) (s : Game) (p : Piece) (idx f : Idx)
    (Q : Vec -> Game -> Prop) :
  nth_error (pieces s) self = Some p -> label2index l = Ok idx -> field_idx p = Some f ->
  Q (fst idx - fst f, snd idx - snd f) s ->
  wp (get_move_step self l) Q s.
Proof.
  intros Hp Hl Hf HQ. unfold get_move_step. wp_go.
  rewrite Hf. apply wp_ret. exact HQ.
Qed.

Lemma wp_get_board (idx : Idx) (s : Game) (Q : option Ref -> Game -> Prop) :
  board_shape (board_objects s) -> valid_index idx ->
  (forall cell, np_get (board_objects s) idx = Ok cell -> Q cell s) ->
  wp (get_board (Some idx)) Q s.
Proof.
  intros Hb Hi HQ. unfold get_board. wp_go.
  destruct (board_get_valid _ _ Hb Hi) as [cell Hc].
  eapply wp_lift; [exact Hc|]. apply HQ. exact Hc.
Qed.

Lemma pawn_zero_not_kill (p : Piece) :
  vec_in (0, 0)
    (last_two
       (if color p =? 2
        then map (fun m : Z * Z => (- fst m, - snd m))
               (if move_idx p =? 0
                then PawnMoves.normal_moves ++ PawnMoves.special_moves ++ PawnMoves.kill_moves
                else PawnMoves.normal_moves ++ PawnMoves.kill_moves)
        else if move_idx p =? 0
             then PawnMoves.normal_moves ++ PawnMoves.special_moves ++ PawnMoves.kill_moves
             else PawnMoves.normal_moves ++ PawnMoves.kill_moves)) = false.
Proof. destruct (color p =? 2), (move_idx p =? 0); reflexivity. Qed.

Ltac wp_move_step Hl Hf Hz :=
  eapply wp_get_move_step; [solve [solve_lookup] | exact Hl | exact Hf |]; rewrite Hz.

Ltac keeps_place Hf :=
  eexists; split; [solve [solve_lookup] | simpl; split; [exact Hf | reflexivity]].

(** On a request with the zero vector [move_types] returns and leaves the
    position and the names of the piece alone. *)
Lemma wp_move_types_zero (self : Ref) (l : string) (t : bool) (s : Game) (p : Piece)
    (idx : Idx) :
  nth_error (pieces s) self = Some p ->
  label2index l = Ok idx -> field_idx p = Some idx ->
  board_shape (board_objects s) ->
  wp (move_types self l t)
     (fun _ s' => exists p', nth_error (pieces s') self = Some p' /\
                             field_idx p' = Some idx /\ short_name p' = short_name p) s.
Proof.
  intros Hp Hl Hf Hb.
  assert (Hz : (fst idx - fst idx, snd idx - snd idx) = (0, 0)) by (f_equal; lia).
  destruct (label2index_valid _ _ Hl) as [Hvi _].
  unfold move_types. wp_go.
  destruct (cls p).
  - (* Pawn *)
    unfold Pawn_move_types. wp_go.
    wp_move_step Hl Hf Hz. wp_go.
    simpl (Z.abs (fst (0, 0)) =? 2). simpl andb. wp_go.
    rewrite pawn_zero_not_kill. wp_go.
    apply wp_get_board; [exact Hb | exact Hvi |].
    intros cell _. destruct cell; wp_go; simpl negb; cbv iota; wp_go; keeps_place Hf.
  - (* Rook *)
    unfold Rook_move_types. wp_go. wp_move_step Hl Hf Hz. simpl. wp_go. keeps_place Hf.
  - (* Knight *)
    unfold Knight_move_types. wp_go. keeps_place Hf.
  - (* Bishop *)
    unfold Bishop_move_types. wp_go. wp_move_step Hl Hf Hz. simpl. wp_go. keeps_place Hf.
  - (* Queen *)
    unfold Queen_move_types. wp_go. wp_move_step Hl Hf Hz. simpl. wp_go. keeps_place Hf.
  - (* King *)
    unfold King_move_types. wp_go. simpl (move_idx _).
    destruct (move_idx p =? 0); [|wp_go; keeps_place Hf].
    wp_go. wp_move_step Hl Hf Hz. wp_go.
    unfold check_rochade. wp_go.
    simpl (vec_in _ _). wp_go. keeps_place Hf.
Qed.

Lemma wp_preserves {A} (Inv : list Piece -> Board -> Prop) (m : M A)
    (Q : A -> Game -> Prop) (s : Game) :
  wp m Q s -> preserves Inv m -> Inv (pieces s) (board_objects s) ->
  wp m (fun a s' => Q a s' /\ Inv (pieces s') (board_objects s')) s.
Proof.
  intros [a [s' [H HQ]]] Hp HI. exists a, s'. split; [exact H|].
  split; [exact HQ | eapply Hp; eauto].
Qed.

Lemma vec_in_In (v : Vec) (l : list Vec) : vec_in v l = true -> In v l.
Proof.
  unfold vec_in. rewrite existsb_exists. intros [x [Hx E]].
  unfold Vec_eqb in E. apply andb_prop in E. destruct E as [E1 E2].
  apply Z.eqb_eq in E1. apply Z.eqb_eq in E2.
  destruct v, x. simpl in *. subst. exact Hx.
Qed.

Lemma wp_result {A} (m : M A) (Q : A -> Game -> Prop) (s : Game) (r : A) :
  wp m (fun a _ => a = r) s -> result_of (m s) = Ok r.
Proof. intros [a [s' [H ->]]]. rewrite H. reflexivity. Qed.

(** C6: in every reachable state a request whose vector is zero is
    rejected by [check_move] with code 0 and the [MoveError] message, for every
    class of piece, stale candidate lists of rook, bishop and queen
    included. *)
Theorem zero_vector_is_rejected :
  forall (s : Game) (fuel : nat) (self : Ref) (move_to : string) (c : Z) (is_test : bool)
         (p : Piece),
    reachable s ->
    piece_at s self = Some p ->
    result_of (get_move_step self move_to s) = Ok (0, 0) ->
    result_of (check_move (S fuel) self move_to c is_test s)
    = Ok (code_invalid,
          String.append "MoveError: "
            (String.append (short_name p) (String.append " cannot move to " move_to))).
Proof.
  intros s fuel self move_to c is_test p Hr Hp Hv.
  destruct (reachable_sound s Hr) as [Hm Hb].
  destruct (get_move_step self move_to s) as [[v s0]|] eqn:E; [|discriminate].
  simpl in Hv. injection Hv as ->.
  apply get_move_step_inv in E. destruct E as [-> [p0 [idx [f [Hp0 [Hl [Hf Hz]]]]]]].
  unfold piece_at in Hp. rewrite Hp in Hp0. injection Hp0 as <-.
  assert (f = idx) by (destruct f, idx; simpl in *; injection Hz as ? ?; f_equal; lia).
  subst f. clear Hz.
  apply wp_result with (Q := fun _ _ => True).
  rewrite check_move_S. unfold check_move_body.
  apply wp_bind.
  eapply wp_mono.
  { apply (wp_preserves sound).
    - apply (wp_move_types_zero self move_to is_test s p idx); assumption.
    - apply pres_move_types;
        first [exact sound_benign | exact sound_moves | exact sound_board].
    - split; assumption. }
  cbv beta. intros _ s1 [[p1 [Hp1 [Hf1 Hn1]]] [Hm1 Hb1]].
  apply wp_bind. eapply wp_get_move_step; [exact Hp1 | exact Hl | exact Hf1 |].
  replace (fst idx - fst idx, snd idx - snd idx) with (0, 0) by (f_equal; lia).
  apply wp_bind. eapply wp_piece_of; [exact Hp1|].
  assert (Hz : vec_in (0, 0) (possible_moves p1) = false).
  { destruct (vec_in (0, 0) (possible_moves p1)) eqn:E; [|reflexivity].
    exfalso. apply vec_in_In in E.
    eapply nth_error_Forall with (P := fun p => no_zero (possible_moves p)) in Hp1;
      [|exact Hm1]. exact (Hp1 E). }
  rewrite Hz. simpl negb. cbv iota. apply wp_ret. rewrite Hn1. reflexivity.
Qed.

Lemma standard_start_reachable : reachable standard_start.
Proof. apply (reach_new standard_roster). vm_compute. reflexivity. Qed.

Lemma zero_vector_is_rejected_witness :
  result_of (check_move 1 P_W5 "E2" 1 false standard_start)
  = Ok (code_invalid, "MoveError: P_W5 cannot move to E2").
Proof.
  apply (zero_vector_is_rejected standard_start 0 P_W5 "E2" 1 false
           (mkPiece Pawn "Pawn White 5" "P_W5" 1 true "E2" "E2" (Some (1, 4)) []
              false false None 0)).
  - exact standard_start_reachable.
  - vm_compute. reflexivity.
  - vm_compute. reflexivity.
Defined.

(** ** Requests with a malformed label *)

Lemma invalid_request_field_error (self : Ref) (move_to : string) (s : Game) (p : Piece) :
  piece_at s self = Some p -> ~ valid_label (np_str move_to) ->
  invalid_request self move_to s
  = Ok (ErrorTuple "FieldError: The Field does not exist! Try another value", s).
Proof.
  intros Hp Hl. unfold invalid_request, bind, piece_of, gets, ret.
  unfold piece_at in Hp. rewrite Hp.
  apply np_where_nil in Hl. rewrite Hl. reflexivity.
Qed.

(** C8 (amended): numpy compares a label with the labels of the board up to
    trailing NUL characters.  [label2index] raises ([IndexError]) exactly on
    the labels that, read up to their trailing NUL characters, are not a file
    in A-H followed by a rank in 1-8, and returns a position of the board on
    every other label; a label that is a file and a rank is read as it
    stands.  [move] puts the requested label in upper case first, and a
    request whose upper-cased label is malformed in this sense is answered by
    [invalid_request] with the [FieldError] message and changes nothing. *)
Theorem malformed_label_is_rejected :
  forall (fuel : nat) (self : Ref) (move_to label : string) (s : Game) (p : Piece),
    (label2index label = Raise IndexError <-> ~ valid_label (np_str label)) /\
    (valid_label (np_str label) ->
     exists ij, label2index label = Ok ij /\ valid_index ij) /\
    (valid_label label -> np_str label = label) /\
    (piece_at s self = Some p -> ~ valid_label (np_str (upper move_to)) ->
     invalid_request self (upper move_to) s
     = Ok (ErrorTuple "FieldError: The Field does not exist! Try another value", s) /\
     move fuel self move_to s = Ok (tt, s)).
Proof.
  intros fuel self move_to label s p. split; [|split; [|split]].
  - apply label2index_raises.
  - intros H. destruct (valid_label_cases _ H) as [ij [H1 [_ H3]]].
    rewrite label2index_np_str in H1. eauto.
  - apply np_str_valid.
  - intros Hp Hl. split; [eapply invalid_request_field_error; eauto|].
    unfold move. unfold bind at 1.
    rewrite (invalid_request_field_error self (upper move_to) s p Hp Hl).
    reflexivity.
Qed.

Lemma malformed_label_is_rejected_witness :
  (exists ij, label2index "E4" = Ok ij /\ valid_index ij) /\
  invalid_request P_W5 (upper "e9") standard_start
  = Ok (ErrorTuple "FieldError: The Field does not exist! Try another value", standard_start) /\
  move 5 P_W5 "e9" standard_start = Ok (tt, standard_start).
Proof.
  destruct (malformed_label_is_rejected 5 P_W5 "e9" "E4" standard_start
              (mkPiece Pawn "Pawn White 5" "P_W5" 1 true "E2" "E2" (Some (1, 4)) []
                 false false None 0)) as [_ [H2 [_ H3]]].
  split.
  - apply H2. exact valid_label_E4.
  - apply H3.
    + vm_compute. reflexivity.
    + apply label2index_raises. vm_compute. reflexivity.
Defined.

(** * The check detector writes scratch fields only *)

(** ** The path of a move stays on the board *)

Lemma int_step_cases (f v sc : Z) :
  0 <= f -> 0 < sc -> - sc <= v <= sc ->
  (v = sc /\ int_step f v sc = f + 1) \/
  (v = - sc /\ int_step f v sc = f - 1) \/
  (- sc < v < sc /\ Z.max 0 (f - 1) <= int_step f v sc <= f).
Proof.
  intros Hf Hsc Hv. unfold int_step.
  destruct (Z.eq_dec v sc) as [->|N1].
  { left. split; [reflexivity|].
    replace (f * sc + sc) with ((f + 1) * sc) by ring.
    apply Z.quot_mul. lia. }
  destruct (Z.eq_dec v (- sc)) as [->|N2].
  { right. left. split; [reflexivity|].
    replace (f * sc + - sc) with ((f - 1) * sc) by ring.
    apply Z.quot_mul. lia. }
  right. right. split; [lia|].
  destruct (Z_le_gt_dec 0 (f * sc + v)) as [Hp|Hn].
  - rewrite Z.quot_div_nonneg by lia.
    assert (H1 : (f * sc + v) / sc < f + 1).
    { apply Z.div_lt_upper_bound; [lia|]. nia. }
    assert (H2 : Z.max 0 (f - 1) <= (f * sc + v) / sc).
    { apply Z.max_lub.
      - apply Z.div_pos; lia.
      - apply Z.div_le_lower_bound; [lia|]. nia. }
    lia.
  - assert (f = 0) by nia. subst f. simpl.
    assert (E : Z.quot v sc = 0).
    { replace v with (- (- v)) by lia. rewrite Z.quot_opp_l by lia.
      rewrite Z.quot_small; lia. }
    rewrite E. simpl. lia.
Qed.


Lemma int_step_valid (f v sc : Z) :
  0 <= f <= 7 -> 0 < sc -> - sc <= v <= sc ->
  (v = sc -> f + 1 <= 7) -> (v = - sc -> 0 <= f - 1) ->
  0 <= int_step f v sc <= 7.
Proof.
  intros Hf Hsc Hv Hu Hd.
  destruct (int_step_cases f v sc) as [[E1 E2]|[[E1 E2]|[E1 E2]]]; lia.
Qed.

(** The walk of [get_intermediate_field_names] from a field of the board
    toward a field of the board never leaves the board. *)
Lemma intermediate_loop_total (n : nat) (sc : Z) (v : Vec) :
  0 < sc -> - sc <= fst v <= sc -> - sc <= snd v <= sc ->
  forall cur : Idx,
    valid_index cur ->
    (fst v = sc -> fst cur + Z.of_nat n <= 7) ->
    (fst v = - sc -> 0 <= fst cur - Z.of_nat n) ->
    (snd v = sc -> snd cur + Z.of_nat n <= 7) ->
    (snd v = - sc -> 0 <= snd cur - Z.of_nat n) ->
    exists ls, intermediate_loop n cur v sc = Ok ls /\
               List.length ls = n /\ Forall valid_label ls.
Proof.
  intros Hsc Hv1 Hv2. induction n as [|n IH]; intros cur [Hc1 Hc2] H1 H2 H3 H4.
  - exists []. simpl. auto.
  - cbn [intermediate_loop]. cbv zeta.
    set (i := int_step (fst cur) (fst v) sc).
    set (j := int_step (snd cur) (snd v) sc).
    assert (Hi : 0 <= i <= 7) by (apply int_step_valid; lia).
    assert (Hj : 0 <= j <= 7) by (apply int_step_valid; lia).
    destruct (valid_index_cases i j Hi Hj) as [L [EL [_ HL]]].
    rewrite EL. cbn [res_bind].
    destruct (IH (i, j)) as [ls [Els [Hlen Hall]]].
    + split; assumption.
    + intros E. cbn [fst]. subst i.
      destruct (int_step_cases (fst cur) (fst v) sc) as [[E1 E2]|[[E1 E2]|[E1 E2]]]; lia.
    + intros E. cbn [fst]. subst i.
      destruct (int_step_cases (fst cur) (fst v) sc) as [[E1 E2]|[[E1 E2]|[E1 E2]]]; lia.
    + intros E. cbn [snd]. subst j.
      destruct (int_step_cases (snd cur) (snd v) sc) as [[E1 E2]|[[E1 E2]|[E1 E2]]]; lia.
    + intros E. cbn [snd]. subst j.
      destruct (int_step_cases (snd cur) (snd v) sc) as [[E1 E2]|[[E1 E2]|[E1 E2]]]; lia.
    + rewrite Els. cbn [res_bind]. exists (L :: ls). repeat split.
      * simpl. congruence.
      * constructor; assumption.
Qed.

(** ** States that differ in scratch fields only *)

Lemma touches_refl (self : Ref) (s : Game) : touches_scratch self s s.
Proof. repeat split. Qed.

Lemma touches_upd (self : Ref) (s0 s : Game) (p q : Piece) :
  touches_scratch self s0 s ->
  nth_error (pieces s) self = Some p ->
  without_scratch q = without_scratch p ->
  touches_scratch self s0 (set_pieces (list_set (pieces s) self q) s).
Proof.
  intros [H1 [H2 H3]] Hp Hq. split; [|split].
  - intros r Hr. simpl. rewrite nth_error_list_set_neq by congruence. apply H1. exact Hr.
  - simpl. rewrite nth_error_list_set_eq by (apply nth_error_Some; congruence).
    rewrite <- H2, Hp. simpl. congruence.
  - rewrite <- H3. reflexivity.
Qed.

Lemma touches_gui (self : Ref) (s0 s : Game) (g : bool) :
  touches_scratch self s0 s -> touches_scratch self s0 (set_gui_valid_move g s).
Proof.
  intros [H1 [H2 H3]]. split; [|split].
  - exact H1.
  - exact H2.
  - rewrite <- H3. reflexivity.
Qed.

Lemma touches_trans (self : Ref) (s0 s1 s2 : Game) :
  touches_scratch self s0 s1 -> touches_scratch self s1 s2 -> touches_scratch self s0 s2.
Proof.
  intros [H1 [H2 H3]] [K1 [K2 K3]]. split; [|split].
  - intros r Hr. rewrite K1, H1; auto.
  - congruence.
  - congruence.
Qed.

Lemma touches_globals (self : Ref) (s s' : Game) :
  touches_scratch self s s' ->
  board_objects s' = board_objects s /\ is_rochade s' = is_rochade s /\
  was_checked s' = was_checked s.
Proof.
  intros [_ [_ H]].
  split; [|split].
  - apply (f_equal board_objects) in H. exact H.
  - apply (f_equal is_rochade) in H. exact H.
  - apply (f_equal was_checked) in H. exact H.
Qed.

Lemma touches_self (self : Ref) (s s' : Game) (p' : Piece) :
  touches_scratch self s s' -> nth_error (pieces s') self = Some p' ->
  exists p, nth_error (pieces s) self = Some p /\ without_scratch p' = without_scratch p.
Proof.
  intros [_ [H _]] Hp. rewrite Hp in H. simpl in H.
  destruct (nth_error (pieces s) self) as [p|]; [|discriminate].
  exists p. split; [reflexivity|]. simpl in H. congruence.
Qed.

Lemma without_scratch_fields (p q : Piece) :
  without_scratch q = without_scratch p ->
  cls q = cls p /\ name q = name p /\ short_name q = short_name p /\ color q = color p /\
  is_alive q = is_alive p /\ field_idx q = field_idx p.
Proof.
  intros H.
  repeat split.
  - apply (f_equal cls) in H. exact H.
  - apply (f_equal name) in H. exact H.
  - apply (f_equal short_name) in H. exact H.
  - apply (f_equal color) in H. exact H.
  - apply (f_equal is_alive) in H. exact H.
  - apply (f_equal field_idx) in H. exact H.
Qed.

Lemma touches_scratch_only (self : Ref) (s s' : Game) :
  touches_scratch self s s' -> scratch_only s s'.
Proof.
  intros [H1 [H2 H3]]. split; [|exact H3].
  apply nth_error_ext. intros n. rewrite !nth_error_map.
  destruct (Nat.eq_dec n self) as [->|Hn].
  - exact H2.
  - rewrite H1 by exact Hn. reflexivity.
Qed.

Lemma scratch_only_refl (s : Game) : scratch_only s s.
Proof. split; reflexivity. Qed.

Lemma scratch_only_trans (s0 s1 s2 : Game) :
  scratch_only s0 s1 -> scratch_only s1 s2 -> scratch_only s0 s2.
Proof. intros [H1 H2] [K1 K2]. split; congruence. Qed.

(** Closes a goal [touches_scratch self s s'] where [s'] is [s] under the
    updates a computation made. *)
Ltac touches_tac :=
  lazymatch goal with
  | |- touches_scratch _ ?s ?s => apply touches_refl
  | |- touches_scratch _ _ (set_gui_valid_move _ _) => apply touches_gui; touches_tac
  | |- touches_scratch _ _ (set_pieces (list_set _ _ _) _) =>
      eapply touches_upd; [touches_tac | solve [solve_lookup] | reflexivity]
  | |- touches_scratch _ _ _ => eassumption
  end.

Lemma np_get_in {A} (arr : list (list A)) (idx : Idx) (a : A) :
  np_get arr idx = Ok a -> exists row, In row arr /\ In a row.
Proof.
  unfold np_get. intros H.
  destruct (py_nth arr (fst idx)) as [row|] eqn:E1; [|discriminate]. simpl in H.
  exists row. split.
  - unfold py_nth in E1. destruct (py_index _ _) as [n|]; [|discriminate]. simpl in E1.
    destruct (nth_error arr n) eqn:E; [|discriminate]. injection E1 as <-.
    eapply nth_error_In; eauto.
  - unfold py_nth in H. destruct (py_index _ _) as [n|]; [|discriminate]. simpl in H.
    destruct (nth_error row n) eqn:E; [|discriminate]. injection H as <-.
    eapply nth_error_In; eauto.
Qed.

Lemma wp_check_rochade_test (self : Ref) (v : Vec) (s : Game) (p : Piece)
    (Q : bool * option Ref -> Game -> Prop) :
  nth_error (pieces s) self = Some p ->
  List.length (was_checked s) = 2%nat -> (color p = 1 \/ color p = 2) ->
  Q (false, None) s ->
  wp (check_rochade self v true) Q s.
Proof.
  intros Hp Hw Hc HQ. unfold check_rochade. wp_go.
  destruct (vec_in v KingMoves.rochade).
  - wp_go.
    destruct (py_nth_valid (was_checked s) (color p - 1)) as [a [E _]];
      [rewrite Hw; simpl; lia|].
    eapply wp_lift; [exact E|]. wp_go. rewrite andb_false_r. wp_go. exact HQ.
  - wp_go. exact HQ.
Qed.

Ltac leaf_tac Hnz Hperf :=
  split;
  [ touches_tac
  | eexists; split;
    [ solve [solve_lookup]
    | split;
      [ first [exact Hnz | no_zero_tac]
      | let E := fresh in
        simpl; intros E; first [discriminate E | rewrite Hperf in E; discriminate E] ] ] ].

Lemma lookup_after_upd {A} (l : list A) (q r : nat) (x a : A) :
  nth_error l q = Some a -> exists a', nth_error (list_set l r x) q = Some a'.
Proof.
  intros H. destruct (Nat.eq_dec r q) as [->|Hn].
  - exists x. apply nth_error_list_set_eq. apply nth_error_Some. congruence.
  - exists a. rewrite nth_error_list_set_neq by exact Hn. exact H.
Qed.

Ltac pawn_leaf :=
  split;
  [ touches_tac
  | eexists; split;
    [ solve [solve_lookup]
    | split;
      [ assumption
      | let E := fresh in simpl; intros E; discriminate E ] ] ].

Lemma wp_move_types_test (self : Ref) (l : string) (s : Game) (p : Piece) (idx f : Idx) :
  nth_error (pieces s) self = Some p ->
  label2index l = Ok idx -> field_idx p = Some f -> valid_index f ->
  board_shape (board_objects s) -> board_refs_ok s ->
  List.length (was_checked s) = 2%nat -> (color p = 1 \/ color p = 2) ->
  no_zero (possible_moves p) ->
  (cls p <> Pawn -> perform_en_passant p = false) ->
  wp (move_types self l true)
     (fun _ s' => touches_scratch self s s' /\
        exists p', nth_error (pieces s') self = Some p' /\
          no_zero (possible_moves p') /\
          (perform_en_passant p' = true ->
             exists ep q, en_passant_idx p' = Some ep /\
                          np_get (board_objects s) ep = Ok (Some q))) s.
Proof.
  intros Hp Hl Hf Hvf Hb Hrefs Hw Hc Hnz Hnp.
  destruct (label2index_valid _ _ Hl) as [Hvi _].
  unfold move_types. wp_go.
  destruct (cls p) eqn:Ec.
  - (* Pawn *)
    unfold Pawn_move_types. wp_go.
    set (moves := if color p =? 2 then _ else _).
    assert (Hmoves : no_zero moves) by (subst moves; no_zero_tac).
    assert (Hnil : no_zero []) by (intros []).
    eapply wp_get_move_step; [solve [solve_lookup] | exact Hl | exact Hf |].
    wp_go. simpl negb. rewrite andb_false_r. wp_go.
    match goal with |- context [vec_in ?v ?k] => destruct (vec_in v k) eqn:Ek end.
    + wp_go. apply wp_get_board; [exact Hb | exact Hvi |].
      intros [t|] Ht.
      * wp_go. simpl negb. wp_go. pawn_leaf.
      * wp_go. rewrite Hf. wp_go.
        apply wp_get_board;
          [exact Hb | destruct Hvf, Hvi; split; simpl; lia |].
        intros [q|] Hq.
        -- wp_go. destruct (Hrefs _ _ Hq) as [qp Hqp].
           destruct (lookup_after_upd _ q self (set_possible_moves moves p) _ Hqp)
             as [qp1 Hqp1].
           destruct (lookup_after_upd _ q self
                       (set_perform_en_passant false (set_possible_moves moves p)) _ Hqp1)
             as [qp2 Hqp2].
           eapply wp_piece_of; [exact Hqp2|].
           destruct (PieceClass_eqb (cls qp2) Pawn);
             [destruct (receive_en_passant qp2 && negb (color qp2 =? color p))|].
           ++ wp_go. simpl negb. wp_go.
              split; [touches_tac|].
              eexists; split; [solve [solve_lookup]|].
              split; [exact Hmoves|]. intros _. eexists _, q.
              split; [reflexivity | exact Hq].
           ++ wp_go. simpl negb. wp_go. pawn_leaf.
           ++ wp_go. simpl negb. wp_go. pawn_leaf.
        -- wp_go. simpl negb. wp_go. pawn_leaf.
    + wp_go. apply wp_get_board; [exact Hb | exact Hvi |].
      intros [t|] Ht; wp_go; simpl negb; wp_go; pawn_leaf.
  - (* Rook *)
    assert (Hperf : perform_en_passant p = false) by (apply Hnp; discriminate).
    unfold Rook_move_types. wp_go.
    eapply wp_get_move_step; [solve [solve_lookup] | exact Hl | exact Hf |].
    match goal with |- context [is_straight ?v] => destruct (is_straight v) eqn:Es end;
      wp_go; leaf_tac Hnz Hperf.
  - (* Knight *)
    assert (Hperf : perform_en_passant p = false) by (apply Hnp; discriminate).
    unfold Knight_move_types. wp_go. leaf_tac Hnz Hperf.
  - (* Bishop *)
    assert (Hperf : perform_en_passant p = false) by (apply Hnp; discriminate).
    unfold Bishop_move_types. wp_go.
    eapply wp_get_move_step; [solve [solve_lookup] | exact Hl | exact Hf |].
    match goal with |- context [is_diagonal ?v] => destruct (is_diagonal v) eqn:Es end;
      wp_go; leaf_tac Hnz Hperf.
  - (* Queen *)
    assert (Hperf : perform_en_passant p = false) by (apply Hnp; discriminate).
    unfold Queen_move_types. wp_go.
    eapply wp_get_move_step; [solve [solve_lookup] | exact Hl | exact Hf |].
    match goal with |- context [is_diagonal ?v || is_straight ?v] =>
      destruct (is_diagonal v || is_straight v) eqn:Es end;
      wp_go; leaf_tac Hnz Hperf.
  - (* King *)
    assert (Hperf : perform_en_passant p = false) by (apply Hnp; discriminate).
    unfold King_move_types. wp_go. simpl (move_idx _).
    destruct (move_idx p =? 0); [|wp_go; leaf_tac Hnz Hperf].
    wp_go.
    eapply wp_get_move_step; [solve [solve_lookup] | exact Hl | exact Hf |].
    wp_go.
    eapply wp_check_rochade_test; [solve [solve_lookup] | exact Hw | exact Hc |].
    wp_go. leaf_tac Hnz Hperf.
Qed.

Lemma touches_refs_ok (self : Ref) (s s' : Game) :
  touches_scratch self s s' -> board_refs_ok s -> board_refs_ok s'.
Proof.
  intros Ht Hr idx r Hg.
  destruct (touches_globals _ _ _ Ht) as [Hb _]. rewrite Hb in Hg.
  destruct (Hr _ _ Hg) as [q Hq].
  destruct Ht as [H1 [H2 _]].
  destruct (Nat.eq_dec r self) as [->|Hn].
  - rewrite Hq in H2. destruct (nth_error (pieces s') self); [eauto | discriminate].
  - rewrite <- H1 in Hq by exact Hn. eauto.
Qed.

Lemma wp_check_field (self : Ref) (l : string) (c : Z) (b : Board) (t : bool) (s : Game)
    (p : Piece) (idx : Idx) (Q : Z -> Game -> Prop) :
  label2index l = Ok idx -> board_shape b ->
  (forall r, np_get b idx = Ok (Some r) -> exists q, nth_error (pieces s) r = Some q) ->
  nth_error (pieces s) self = Some p ->
  (forall v, (v = code_invalid \/ v = code_empty \/ v = code_opponent) ->
             (v = code_opponent ->
              (exists r, np_get b idx = Ok (Some r)) \/ perform_en_passant p = true) ->
             Q v s) ->
  wp (check_field self l c b t) Q s.
Proof.
  intros Hl Hb Hr Hp HQ.
  destruct (label2index_valid _ _ Hl) as [Hvi _].
  destruct (board_get_valid _ _ Hb Hvi) as [cell Hc].
  unfold check_field. wp_go.
  eapply wp_lift; [exact Hc|].
  destruct cell as [q|].
  - destruct (Hr _ Hc) as [qp Hqp].
    unfold attr. wp_go.
    destruct (c =? color qp); wp_go; apply HQ; auto.
    + intros E. discriminate E.
    + intros _. left. eauto.
  - wp_go. destruct (perform_en_passant p) eqn:Ep; wp_go; apply HQ; auto.
    intros E. discriminate E.
Qed.

Lemma wp_intermediate_ok (self : Ref) (steps : list string) (c : Z) (t : bool) (s : Game)
    (p : Piece) (Q : option string -> Game -> Prop) :
  Forall np_label steps -> board_shape (board_objects s) -> board_refs_ok s ->
  nth_error (pieces s) self = Some p ->
  (forall r, Q r s) ->
  wp (intermediate_ok self steps c t) Q s.
Proof.
  intros Hall Hb Hr Hp HQ. induction steps as [|x rest IH].
  - simpl. wp_go. apply HQ.
  - inversion Hall as [|? ? Hx Hrest]; subst.
    destruct (np_label_cases _ Hx) as [idx [Hl _]].
    cbn [intermediate_ok]. wp_go.
    eapply wp_check_field; [exact Hl | exact Hb | intros r; apply Hr | exact Hp |].
    intros v _ _. destruct (negb (v =? code_empty)).
    + wp_go. apply HQ.
    + apply IH. exact Hrest.
Qed.

Lemma wp_get_intermediate_field_names (self : Ref) (l : string) (s : Game) (p : Piece)
    (idx f : Idx) (Q : list string -> Game -> Prop) :
  nth_error (pieces s) self = Some p ->
  label2index l = Ok idx -> field_idx p = Some f -> valid_index f ->
  (fst idx - fst f, snd idx - snd f) <> (0, 0) ->
  (forall steps, steps <> [] -> Forall np_label steps -> Q steps s) ->
  wp (get_intermediate_field_names self l) Q s.
Proof.
  intros Hp Hl Hf Hvf Hnz HQ.
  destruct (label2index_valid _ _ Hl) as [[Hi1 Hi2] [_ Hvl]].
  destruct Hvf as [Hf1 Hf2].
  unfold get_intermediate_field_names. wp_go.
  eapply wp_get_move_step; [exact Hp | exact Hl | exact Hf |].
  wp_go. rewrite Hf. wp_go.
  set (v := (fst idx - fst f, snd idx - snd f)) in *.
  set (sc := Z.max (Z.abs (fst v)) (Z.abs (snd v))).
  assert (Hsc : 0 < sc).
  { subst sc. destruct (Z.eq_dec (fst v) 0) as [E1|E1];
      [destruct (Z.eq_dec (snd v) 0) as [E2|E2]|]; try lia.
    exfalso. apply Hnz. subst v. simpl in *. f_equal; lia. }
  destruct (intermediate_loop_total (Z.to_nat sc) sc v) with (cur := f)
    as [ls [Els [Hlen Hall]]]; try (subst sc v; simpl in *; lia).
  { split; assumption. }
  eapply wp_lift; [exact Els|].
  destruct (str_in "Knight" (name p)); wp_go; apply HQ.
  - discriminate.
  - constructor; [exact Hvl | constructor].
  - intros ->. simpl in Hlen. lia.
  - eapply Forall_impl; [|exact Hall]. intros x Hx. apply valid_np_label. exact Hx.
Qed.

Lemma Forall_but_last {A} (P : A -> Prop) (l : list A) :
  Forall P l -> Forall P (but_last l).
Proof.
  unfold but_last. induction l as [|x [|y t] IH]; intros H; simpl.
  - constructor.
  - constructor.
  - inversion H; subst. constructor; [assumption|]. apply IH. assumption.
Qed.

Lemma last_elt_total {A} (P : A -> Prop) (l : list A) :
  l <> [] -> Forall P l -> exists x, last_elt l = Ok x /\ P x.
Proof.
  intros Hn Hall. unfold last_elt. destruct (rev l) as [|x t] eqn:E.
  - exfalso. apply Hn. apply (f_equal (@rev A)) in E. rewrite rev_involutive in E. exact E.
  - exists x. split; [reflexivity|].
    rewrite Forall_forall in Hall. apply Hall. apply in_rev. rewrite E. left. reflexivity.
Qed.

(** In the state in which [check_check] asks, [check_move] of an opposing
    piece returns and writes scratch fields of that piece only. *)
Lemma wp_check_move_test (fuel : nat) (self : Ref) (l : string) (s : Game) (p : Piece)
    (idx : Idx) :
  is_rochade s = false -> board_shape (board_objects s) -> board_refs_ok s ->
  List.length (was_checked s) = 2%nat ->
  nth_error (pieces s) self = Some p -> attacker_ready p ->
  label2index l = Ok idx ->
  wp (check_move (S fuel) self l (color p) true)
     (fun _ s' => touches_scratch self s s') s.
Proof.
  intros Hroch Hb Hrefs Hw Hp [[f [Hf Hvf]] [Hnz [Hc Hnp]]] Hl.
  rewrite check_move_S. unfold check_move_body.
  apply wp_bind. eapply wp_mono; [eapply wp_move_types_test; eassumption|]. cbv beta.
  intros _ s1 [Ht [p1 [Hp1 [Hnz1 Hep]]]].
  destruct (touches_globals _ _ _ Ht) as [Eb [Er Ew]].
  destruct (touches_self _ _ _ _ Ht Hp1) as [p0 [Hp0 Hws]].
  rewrite Hp in Hp0. injection Hp0 as <-.
  destruct (without_scratch_fields _ _ Hws) as [Ecls [En [Esn [Ecol [Eal Efi]]]]].
  assert (Hb1 : board_shape (board_objects s1)) by (rewrite Eb; assumption).
  assert (Hr1 := touches_refs_ok _ _ _ Ht Hrefs).
  assert (Hf1 : field_idx p1 = Some f) by congruence.
  apply wp_bind. eapply wp_get_move_step; [exact Hp1 | exact Hl | exact Hf1 |].
  apply wp_bind. eapply wp_piece_of; [exact Hp1|]. cbv beta.
  destruct (vec_in (fst idx - fst f, snd idx - snd f) (possible_moves p1)) eqn:Ein;
    simpl negb; cbv iota; [|apply wp_ret; exact Ht].
  assert (Hv : (fst idx - fst f, snd idx - snd f) <> (0, 0)).
  { intros E. apply Hnz1. rewrite <- E. apply vec_in_In. exact Ein. }
  apply wp_bind.
  eapply wp_get_intermediate_field_names;
    [exact Hp1 | exact Hl | exact Hf1 | exact Hvf | exact Hv |].
  intros steps Hne Hall. cbv beta.
  apply wp_bind.
  eapply wp_intermediate_ok;
    [apply Forall_but_last; exact Hall | exact Hb1 | exact Hr1 | exact Hp1 |].
  intros [blocked|]; cbv beta iota.
  - apply wp_ret. exact Ht.
  - apply wp_bind. apply wp_gets. rewrite Er, Hroch. cbv beta iota. wp_go.
    simpl andb. wp_go.
    destruct (last_elt_total np_label steps Hne Hall) as [dest [Ed Hvd]].
    destruct (np_label_cases _ Hvd) as [didx [Hdl Hdv]].
    eapply wp_lift; [exact Ed|]. wp_go.
    eapply wp_check_field; [exact Hdl | exact Hb1 | intros r; apply Hr1 | exact Hp1 |].
    intros end_code [ -> | [ -> | -> ] ] Hopp.
    + change (code_invalid =? code_invalid) with true. wp_go. exact Ht.
    + change (code_empty =? code_invalid) with false.
      change (code_empty =? code_empty) with true. wp_go. touches_tac.
    + change (code_opponent =? code_invalid) with false.
      change (code_opponent =? code_empty) with false.
      change (code_opponent =? code_opponent) with true. wp_go.
      destruct (perform_en_passant p1) eqn:Ep.
      * destruct (Hep eq_refl) as [ep [q [Eep Hq]]]. rewrite <- Eb in Hq.
        destruct (Hr1 _ _ Hq) as [qp Hqp].
        wp_go. rewrite Eep. unfold get_board. wp_go.
        eapply wp_lift; [exact Hq|]. unfold attr. wp_go.
        simpl negb. wp_go. touches_tac.
      * destruct (Hopp eq_refl) as [[r Hq]|E]; [|discriminate E].
        destruct (Hr1 _ _ Hq) as [qp Hqp].
        wp_go. unfold get_board. wp_go.
        eapply wp_lift; [exact Hq|]. unfold attr. wp_go.
        simpl negb. wp_go. touches_tac.
Qed.

(** ** The readiness test, read as propositions *)

Lemma attacker_readyb_ok (p : Piece) : attacker_readyb p = true -> attacker_ready p.
Proof.
  unfold attacker_readyb, attacker_ready. intros H.
  apply andb_prop in H. destruct H as [H H4].
  apply andb_prop in H. destruct H as [H H3].
  apply andb_prop in H. destruct H as [H1 H2].
  repeat split.
  - destruct (field_idx p) as [idx|]; [|discriminate]. exists idx. split; [reflexivity|].
    unfold valid_indexb in H1.
    apply andb_prop in H1. destruct H1 as [H1 Hd].
    apply andb_prop in H1. destruct H1 as [H1 Hc].
    apply andb_prop in H1. destruct H1 as [Ha Hb].
    unfold valid_index. lia.
  - intros Hin. apply negb_true_iff in H2.
    assert (E : vec_in (0, 0) (possible_moves p) = true).
    { unfold vec_in. apply existsb_exists. exists (0, 0). split; [exact Hin | reflexivity]. }
    congruence.
  - apply orb_prop in H3. destruct H3 as [E|E]; apply Z.eqb_eq in E; auto.
  - intros Hn. apply orb_prop in H4. destruct H4 as [E|E].
    + exfalso. apply Hn. destruct (cls p); try discriminate E. reflexivity.
    + apply negb_true_iff in E. exact E.
Qed.

Lemma check_ready_ok (c : Z) (s : Game) :
  check_ready c s = true ->
  is_rochade s = false /\ board_shape (board_objects s) /\ board_refs_ok s /\
  List.length (was_checked s) = 2%nat /\
  (exists kf kidx, find_king (pieces s) c = Some kf /\ label2index kf = Ok kidx) /\
  (forall r p, nth_error (pieces s) r = Some p -> color p <> c -> is_alive p = true ->
               attacker_ready p).
Proof.
  unfold check_ready. intros H.
  apply andb_prop in H. destruct H as [H H6].
  apply andb_prop in H. destruct H as [H H5].
  apply andb_prop in H. destruct H as [H H4].
  apply andb_prop in H. destruct H as [H H3].
  apply andb_prop in H. destruct H as [H1 H2].
  split; [apply negb_true_iff in H1; exact H1|].
  split.
  { unfold board_shapeb in H2. apply andb_prop in H2. destruct H2 as [Ha Hb].
    split; [apply Nat.eqb_eq; exact Ha|].
    apply Forall_forall. intros row Hrow.
    rewrite forallb_forall in Hb. apply Nat.eqb_eq. apply Hb. exact Hrow. }
  split.
  { intros idx r Hg. apply np_get_in in Hg. destruct Hg as [row [Hrow Hcell]].
    unfold board_refs_okb in H3. rewrite forallb_forall in H3.
    specialize (H3 _ Hrow). rewrite forallb_forall in H3. specialize (H3 _ Hcell).
    simpl in H3. apply Nat.ltb_lt in H3.
    destruct (nth_error (pieces s) r) as [q|] eqn:E; [eauto|].
    apply nth_error_None in E. lia. }
  split; [apply Nat.eqb_eq; exact H4|].
  split.
  { destruct (find_king (pieces s) c) as [kf|]; [|discriminate].
    unfold valid_labelb in H5. destruct (label2index kf) as [kidx|] eqn:E; [|discriminate].
    eauto. }
  intros r p Hp Hc Ha. rewrite forallb_forall in H6.
  specialize (H6 p (nth_error_In _ _ Hp)).
  apply orb_prop in H6. destruct H6 as [H6|H6].
  - apply orb_prop in H6. destruct H6 as [E|E].
    + apply Z.eqb_eq in E. contradiction.
    + rewrite Ha in E. discriminate E.
  - apply attacker_readyb_ok. exact H6.
Qed.

(** ** The loop of [check_check] *)

Lemma wp_check_check_loop (fuel : nat) (c : Z) (kf : string) (kidx : Idx) :
  label2index kf = Ok kidx ->
  forall (refs : list Ref) (s : Game),
    NoDup refs ->
    is_rochade s = false -> board_shape (board_objects s) -> board_refs_ok s ->
    List.length (was_checked s) = 2%nat ->
    (forall r, In r refs ->
       exists p, nth_error (pieces s) r = Some p /\
                 (color p <> c -> is_alive p = true -> attacker_ready p)) ->
    wp (check_check_loop (check_move (S fuel)) refs c (Some kf))
       (fun _ s' => scratch_only s s') s.
Proof.
  intros Hk. induction refs as [|r rest IH]; intros s Hnd Hroch Hb Hrefs Hw Hall.
  - simpl. wp_go. apply scratch_only_refl.
  - inversion Hnd as [|? ? Hnin Hnd']; subst.
    destruct (Hall r (or_introl eq_refl)) as [p [Hp Hready]].
    cbn [check_check_loop]. wp_go.
    assert (Hrest : wp (check_check_loop (check_move (S fuel)) rest c (Some kf))
                       (fun _ s' => scratch_only s s') s).
    { apply IH; try assumption. intros r' Hr'. apply Hall. right. exact Hr'. }
    destruct (negb (color p =? c) && is_alive p) eqn:E; [|exact Hrest].
    apply andb_prop in E. destruct E as [E1 E2].
    apply negb_true_iff in E1. apply Z.eqb_neq in E1.
    apply wp_bind. eapply wp_mono.
    { eapply wp_check_move_test; try eassumption. apply Hready; assumption. }
    cbv beta. intros [v msg] s1 Ht.
    destruct (negb (v =? code_invalid)).
    + wp_go. eapply touches_scratch_only. exact Ht.
    + destruct (touches_globals _ _ _ Ht) as [Eb [Er Ew]].
      eapply wp_mono.
      * apply IH.
        -- exact Hnd'.
        -- congruence.
        -- rewrite Eb. exact Hb.
        -- eapply touches_refs_ok; eassumption.
        -- congruence.
        -- intros r' Hr'.
           assert (Hne : r' <> r) by (intros ->; contradiction).
           destruct Ht as [H1 _]. rewrite (H1 _ Hne).
           apply Hall. right. exact Hr'.
      * cbv beta. intros _ s2 H2. eapply scratch_only_trans; [|exact H2].
        eapply touches_scratch_only. exact Ht.
Qed.

(** C7 (amended): when no castling is pending and the position is well
    formed (board of shape 8x8 that refers to registered pieces, the king of
    the color on a field, every living piece of the other color on the
    board), [check_check] returns, and the state it returns differs from the
    state it was called in at most in the scratch fields [possible_moves],
    [perform_en_passant] and [en_passant_idx] of pieces and in the GUI flag
    [valid_move]: the board, the liveness and position of every piece, the
    move counters and all other globals are as before. *)
Theorem check_check_keeps_position :
  forall (s : Game) (fuel : nat) (c : Z) (is_test : bool),
    check_ready c s = true ->
    exists (b : bool) (s' : Game),
      check_check (S fuel) c is_test s = Ok (b, s') /\ scratch_only s s'.
Proof.
  intros s fuel c is_test H.
  destruct (check_ready_ok _ _ H) as [Hroch [Hb [Hrefs [Hw [[kf [kidx [Hk Hl]]] Hall]]]]].
  change (wp (check_check (S fuel) c is_test) (fun _ s' => scratch_only s s') s).
  unfold check_check, check_check_body. wp_go. rewrite Hk.
  eapply wp_check_check_loop; try eassumption.
  - apply seq_NoDup.
  - intros r Hr. apply in_seq in Hr.
    destruct (nth_error (pieces s) r) as [p|] eqn:E.
    + exists p. split; [reflexivity|]. intros Hc Ha. eapply Hall; eassumption.
    + apply nth_error_None in E. lia.
Qed.

Lemma check_check_keeps_position_witness :
  exists (b : bool) (s' : Game),
    check_check 1 1 false standard_start = Ok (b, s') /\ scratch_only standard_start s'.
Proof.
  apply (check_check_keeps_position standard_start 0 1 false).
  vm_compute. reflexivity.
Defined.

(** * Trial and revert *)

(** ** Cells of a well-shaped board *)

Lemma nth_error_list_set_gen {A} (l : list A) (n m : nat) (a : A) :
  nth_error (list_set l n a) m
  = if Nat.eqb n m then option_map (fun _ => a) (nth_error l m) else nth_error l m.
Proof.
  destruct (Nat.eqb_spec n m) as [<-|Hne].
  - destruct (nth_error l n) as [x|] eqn:E; simpl.
    + apply nth_error_list_set_eq. apply nth_error_Some. congruence.
    + apply nth_error_None. rewrite list_set_length. apply nth_error_None. exact E.
  - apply nth_error_list_set_neq. exact Hne.
Qed.

Lemma np_get_spec {A} (b : list (list A)) (idx : Idx) :
  List.length b = 8%nat -> Forall (fun row => List.length row = 8%nat) b ->
  valid_index idx ->
  exists row c, nth_error b (Z.to_nat (fst idx)) = Some row /\
                List.length row = 8%nat /\
                nth_error row (Z.to_nat (snd idx)) = Some c /\
                np_get b idx = Ok c.
Proof.
  intros Hl Hr [Hi Hj]. unfold np_get.
  destruct (py_nth_valid b (fst idx)) as [row [E1 E2]]; [rewrite Hl; simpl; lia|].
  assert (Hrow : List.length row = 8%nat)
    by (eapply nth_error_Forall with (P := fun row => List.length row = 8%nat); eauto).
  destruct (py_nth_valid row (snd idx)) as [c [E3 E4]]; [rewrite Hrow; simpl; lia|].
  exists row, c. rewrite E1. simpl. auto.
Qed.

Lemma np_set_valid (b : Board) (idx : Idx) (v : option Ref) :
  board_shape b -> valid_index idx ->
  exists b', np_set b idx v = Ok b' /\ board_shape b' /\
             np_get b' idx = Ok v /\
             (forall idx', valid_index idx' -> idx' <> idx -> np_get b' idx' = np_get b idx').
Proof.
  intros [Hl Hr] Hv.
  destruct (np_get_spec b idx Hl Hr Hv) as [row [c [Erow [Hrl [Ec _]]]]].
  destruct Hv as [Hi Hj].
  set (ni := Z.to_nat (fst idx)) in *. set (nj := Z.to_nat (snd idx)) in *.
  set (row' := list_set row nj v).
  set (b' := list_set b ni row').
  assert (Eset : np_set b idx v = Ok b').
  { unfold np_set.
    destruct (py_nth_valid b (fst idx)) as [row0 [E1 E2]]; [rewrite Hl; simpl; lia|].
    fold ni in E2. rewrite Erow in E2. injection E2 as <-.
    rewrite E1. simpl. unfold py_set.
    rewrite py_index_valid by (rewrite Hrl; simpl; lia). simpl.
    rewrite py_index_valid by (rewrite Hl; simpl; lia). simpl. reflexivity. }
  assert (Hs' : board_shape b').
  { split.
    - subst b'. rewrite list_set_length. exact Hl.
    - subst b'. apply Forall_list_set; [|exact Hr].
      subst row'. rewrite list_set_length. exact Hrl. }
  exists b'. split; [exact Eset|]. split; [exact Hs'|].
  destruct Hs' as [Hl' Hr'].
  split.
  - destruct (np_get_spec b' idx Hl' Hr') as [r1 [c1 [Er1 [_ [Ec1 Eg]]]]]; [split; assumption|].
    rewrite Eg. f_equal. fold ni in Er1. fold nj in Ec1.
    subst b'. rewrite nth_error_list_set_gen, Nat.eqb_refl, Erow in Er1. simpl in Er1.
    injection Er1 as <-. subst row'.
    rewrite nth_error_list_set_gen, Nat.eqb_refl, Ec in Ec1. simpl in Ec1. congruence.
  - intros idx' Hv' Hne.
    destruct (np_get_spec b' idx' Hl' Hr' Hv') as [r1 [c1 [Er1 [_ [Ec1 Eg1]]]]].
    destruct (np_get_spec b idx' Hl Hr Hv') as [r0 [c0 [Er0 [_ [Ec0 Eg0]]]]].
    rewrite Eg1, Eg0. f_equal.
    subst b'. rewrite nth_error_list_set_gen in Er1.
    destruct (Nat.eqb_spec ni (Z.to_nat (fst idx'))) as [E|E].
    + rewrite Er0 in Er1. simpl in Er1. injection Er1 as <-.
      rewrite <- E in Er0. rewrite Erow in Er0. injection Er0 as <-.
      subst row'. rewrite nth_error_list_set_gen in Ec1.
      destruct (Nat.eqb_spec nj (Z.to_nat (snd idx'))) as [E'|E'].
      * exfalso. apply Hne. destruct Hv' as [Hi' Hj']. destruct idx, idx'; simpl in *.
        subst ni nj. f_equal; lia.
      * congruence.
    + congruence.
Qed.

Lemma board_ext (b b' : Board) :
  board_shape b -> board_shape b' ->
  (forall idx, valid_index idx -> np_get b idx = np_get b' idx) -> b = b'.
Proof.
  intros [Hl Hr] [Hl' Hr'] H.
  apply nth_error_ext. intros n.
  destruct (Nat.lt_ge_cases n 8) as [Hn|Hn].
  - assert (Hv0 : valid_index (Z.of_nat n, 0)) by (split; simpl; lia).
    destruct (np_get_spec b _ Hl Hr Hv0) as [row [_ [Er [Hrl _]]]].
    destruct (np_get_spec b' _ Hl' Hr' Hv0) as [row' [_ [Er' [Hrl' _]]]].
    simpl in Er, Er'. rewrite Nat2Z.id in Er, Er'. rewrite Er, Er'. f_equal.
    apply nth_error_ext. intros m.
    destruct (Nat.lt_ge_cases m 8) as [Hm|Hm].
    + assert (Hv : valid_index (Z.of_nat n, Z.of_nat m)) by (split; simpl; lia).
      specialize (H _ Hv).
      destruct (np_get_spec b _ Hl Hr Hv) as [r1 [c1 [E1 [_ [E2 E3]]]]].
      destruct (np_get_spec b' _ Hl' Hr' Hv) as [r2 [c2 [E4 [_ [E5 E6]]]]].
      simpl in E1, E2, E4, E5. rewrite Nat2Z.id in E1, E2, E4, E5.
      rewrite Er in E1. injection E1 as <-. rewrite Er' in E4. injection E4 as <-.
      rewrite E2, E5. congruence.
    + transitivity (@None (option Ref)); [|symmetry]; apply nth_error_None; lia.
  - transitivity (@None (list (option Ref))); [|symmetry]; apply nth_error_None; lia.
Qed.

Lemma in_all_indices (idx : Idx) : valid_index idx -> In idx all_indices.
Proof.
  destruct idx as [i j]. intros [Hi Hj]. simpl in Hi, Hj.
  unfold all_indices. apply in_flat_map. exists (Z.to_nat i). split.
  - apply in_seq. lia.
  - apply in_map_iff. exists (Z.to_nat j). split.
    + f_equal; lia.
    + apply in_seq. lia.
Qed.

Lemma valid_indexb_ok (idx : Idx) : valid_indexb idx = true -> valid_index idx.
Proof.
  unfold valid_indexb. intros H.
  apply andb_prop in H. destruct H as [H Hd].
  apply andb_prop in H. destruct H as [H Hc].
  apply andb_prop in H. destruct H as [Ha Hb].
  unfold valid_index. lia.
Qed.

Lemma all_indices_valid : Forall valid_index all_indices.
Proof.
  apply Forall_forall. intros idx H. apply valid_indexb_ok.
  assert (E : forallb valid_indexb all_indices = true) by reflexivity.
  rewrite forallb_forall in E. apply E. exact H.
Qed.

Lemma Idx_eq_dec (a b : Idx) : {a = b} + {a <> b}.
Proof. unfold Idx in *. decide equality; apply Z.eq_dec. Qed.

(** ** The restoring loop of [redo_move] *)

Lemma upd_piece_same (r : Ref) (f : Piece -> Piece) (q : Piece) (t : Game) :
  nth_error (pieces t) r = Some q -> f q = q -> upd_piece r f t = Ok (tt, t).
Proof.
  intros Hq Hf. unfold upd_piece. rewrite Hq, Hf.
  rewrite (list_set_same _ _ _ Hq). destruct t. reflexivity.
Qed.

Lemma set_field_idx_same (q : Piece) (i : option Idx) :
  field_idx q = i -> set_field_idx i q = q.
Proof. intros <-. destruct q. reflexivity. Qed.

Lemma set_current_field_same (q : Piece) (l : string) :
  current_field q = l -> set_current_field l q = q.
Proof. intros <-. destruct q. reflexivity. Qed.

(** When every piece of the old board stands where the old board has it,
    the loop writes the old board back and changes nothing else. *)
Lemma wp_restore_loop (mb : Board) :
  board_shape mb ->
  forall (idxs : list Idx) (t : Game),
    Forall valid_index idxs -> board_shape (board_objects t) ->
    (forall idx r, In idx idxs -> np_get mb idx = Ok (Some r) ->
       exists q, nth_error (pieces t) r = Some q /\ field_idx q = Some idx /\
                 index2label idx = Ok (current_field q)) ->
    wp (restore_loop idxs mb)
       (fun _ t' => exists b', t' = set_board_objects b' t /\ board_shape b' /\
          (forall idx, In idx idxs -> np_get b' idx = np_get mb idx) /\
          (forall idx, valid_index idx -> ~ In idx idxs ->
                       np_get b' idx = np_get (board_objects t) idx)) t.
Proof.
  intros Hmb. induction idxs as [|index rest IH]; intros t Hall Hb Hplace.
  - simpl. wp_go. exists (board_objects t). split; [destruct t; reflexivity|].
    split; [exact Hb|]. split; [intros idx []|reflexivity].
  - inversion Hall as [|? ? Hvi Hrest]; subst.
    destruct (board_get_valid _ _ Hmb Hvi) as [cell Hcell].
    destruct (np_set_valid (board_objects t) index cell Hb Hvi) as [b1 [Eset [Hb1 [Eg1 Ho1]]]].
    cbn [restore_loop]. wp_go.
    eapply wp_lift; [exact Hcell|]. unfold set_board. wp_go.
    eapply wp_lift; [exact Eset|]. wp_go. unfold get_board. wp_go.
    eapply wp_lift; [exact Eg1|]. cbv beta.
    set (t1 := set_board_objects b1 t).
    assert (Hstep : wp (restore_loop rest mb)
              (fun _ t' => exists b', t' = set_board_objects b' t /\ board_shape b' /\
                 (forall idx, In idx (index :: rest) -> np_get b' idx = np_get mb idx) /\
                 (forall idx, valid_index idx -> ~ In idx (index :: rest) ->
                              np_get b' idx = np_get (board_objects t) idx)) t1).
    { eapply wp_mono.
      - apply (IH t1); [exact Hrest | exact Hb1 |].
        intros idx r Hin Hg. apply (Hplace idx r); [right; exact Hin | exact Hg].
      - cbv beta. intros _ t' [b' [Et [Hb' [Hin Hout]]]].
        exists b'. split; [exact Et|]. split; [exact Hb'|]. split.
        + intros idx [<-|Hi]; [|apply Hin; exact Hi].
          destruct (in_dec Idx_eq_dec index rest) as [Hi|Hi].
          * apply Hin. exact Hi.
          * rewrite (Hout _ Hvi Hi). simpl. rewrite Eg1. symmetry. exact Hcell.
        + intros idx Hv Hn. rewrite Hout.
          * simpl. apply Ho1; [exact Hv|]. intros ->. apply Hn. left. reflexivity.
          * exact Hv.
          * intros Hi. apply Hn. right. exact Hi. }
    destruct cell as [q|]; [|wp_go; exact Hstep].
    destruct (Hplace index q (or_introl eq_refl) Hcell) as [qp [Hq [Hf Hl]]].
    apply wp_bind. apply wp_bind.
    eapply wp_intro;
      [apply (upd_piece_same q _ qp); [exact Hq | apply set_field_idx_same; exact Hf]|].
    cbv beta. apply wp_bind. eapply wp_lift; [exact Hl|]. cbv beta.
    eapply wp_intro;
      [apply (upd_piece_same q _ qp); [exact Hq | apply set_current_field_same; reflexivity]|].
    cbv beta. exact Hstep.
Qed.

Lemma wp_restore_all (mb : Board) (t : Game) (Q : unit -> Game -> Prop) :
  board_shape mb -> board_shape (board_objects t) ->
  (forall idx r, valid_index idx -> np_get mb idx = Ok (Some r) ->
     exists q, nth_error (pieces t) r = Some q /\ field_idx q = Some idx /\
               index2label idx = Ok (current_field q)) ->
  Q tt (set_board_objects mb t) ->
  wp (restore_loop all_indices mb) Q t.
Proof.
  intros Hmb Hb Hplace HQ.
  eapply wp_mono.
  - apply (wp_restore_loop mb Hmb all_indices t all_indices_valid Hb).
    intros idx r Hin. apply Hplace.
    pose proof all_indices_valid as Hall. rewrite Forall_forall in Hall.
    apply Hall. exact Hin.
  - cbv beta. intros [] t' [b' [-> [Hb' [Hin _]]]].
    replace b' with mb; [exact HQ|].
    apply board_ext; [exact Hmb | exact Hb' |].
    intros idx Hv. symmetry. apply Hin. apply in_all_indices. exact Hv.
Qed.

Lemma lk_same {A} (l : list A) (r : nat) (x q : A) :
  nth_error l r = Some x -> nth_error (list_set l r q) r = Some q.
Proof. intros H. apply nth_error_list_set_eq. apply nth_error_Some. congruence. Qed.

Lemma lk_other {A} (l : list A) (r r' : nat) (x q : A) :
  r <> r' -> nth_error l r' = Some x -> nth_error (list_set l r q) r' = Some x.
Proof. intros Hn H. rewrite nth_error_list_set_neq by exact Hn. exact H. Qed.

Ltac lk_rec :=
  first [ eassumption
        | eapply lk_same; lk_rec
        | eapply lk_other; [solve [auto] | lk_rec] ].

Ltac lk := simpl; lk_rec.

Lemma list_set_twice {A} (l : list A) (n : nat) (a b : A) :
  list_set (list_set l n a) n b = list_set l n b.
Proof.
  revert n. induction l as [|h t IH]; intros [|n]; simpl; auto. f_equal. apply IH.
Qed.

(** Brings a state under updates into the form of a record of fields. *)
Ltac norm_state :=
  cbn [pieces board_objects move_count current_color was_checked is_rochade
       is_rochade_gui rochade_rook rochade_rook_move_to promotion_counter
       promote_piece is_checkmate gui_valid_move gui_kill
       set_pieces set_board_objects set_move_count set_current_color set_was_checked
       set_is_rochade set_is_rochade_gui set_rochade_rook set_rochade_rook_move_to
       set_promotion_counter set_promote_piece set_is_checkmate set_gui_valid_move
       set_gui_kill].

(** The loop in general: it writes the old board back and puts every piece
    of the old board on the label of its field. *)
Lemma wp_relabel_loop (mb : Board) :
  board_shape mb ->
  forall (idxs : list Idx) (t : Game),
    Forall valid_index idxs -> board_shape (board_objects t) ->
    (forall idx r, In idx idxs -> np_get mb idx = Ok (Some r) ->
       exists q, nth_error (pieces t) r = Some q /\ field_idx q = Some idx) ->
    wp (restore_loop idxs mb)
       (fun _ t' => exists b' ps', t' = set_board_objects b' (set_pieces ps' t) /\
          board_shape b' /\
          (forall idx, In idx idxs -> np_get b' idx = np_get mb idx) /\
          (forall idx, valid_index idx -> ~ In idx idxs ->
                       np_get b' idx = np_get (board_objects t) idx) /\
          (forall r q, nth_error (pieces t) r = Some q ->
             exists q', nth_error ps' r = Some q' /\
               (q' = q \/
                exists idx L, In idx idxs /\ np_get mb idx = Ok (Some r) /\
                              index2label idx = Ok L /\ q' = set_current_field L q) /\
               (forall idx, In idx idxs -> np_get mb idx = Ok (Some r) ->
                  exists L, index2label idx = Ok L /\ q' = set_current_field L q)) /\
          (forall r, nth_error (pieces t) r = None -> nth_error ps' r = None)) t.
Proof.
  intros Hmb. induction idxs as [|index rest IH]; intros t Hall Hb Hplace.
  - simpl. wp_go. exists (board_objects t), (pieces t).
    split; [destruct t; reflexivity|]. split; [exact Hb|].
    split; [intros idx []|]. split; [reflexivity|]. split; [|auto].
    intros r q Hq. exists q. split; [exact Hq|]. split; [left; reflexivity|].
    intros idx [].
  - inversion Hall as [|? ? Hvi Hrest]; subst.
    destruct (board_get_valid _ _ Hmb Hvi) as [cell Hcell].
    destruct (np_set_valid (board_objects t) index cell Hb Hvi) as [b1 [Eset [Hb1 [Eg1 Ho1]]]].
    cbn [restore_loop]. wp_go.
    eapply wp_lift; [exact Hcell|]. unfold set_board. wp_go.
    eapply wp_lift; [exact Eset|]. wp_go. unfold get_board. wp_go.
    eapply wp_lift; [exact Eg1|]. cbv beta.
    assert (Hboard : forall b' : Board,
              (forall idx, In idx rest -> np_get b' idx = np_get mb idx) ->
              (forall idx, valid_index idx -> ~ In idx rest -> np_get b' idx = np_get b1 idx) ->
              (forall idx, In idx (index :: rest) -> np_get b' idx = np_get mb idx) /\
              (forall idx, valid_index idx -> ~ In idx (index :: rest) ->
                           np_get b' idx = np_get (board_objects t) idx)).
    { intros b' Hin Hout. split.
      - intros idx [<-|Hi]; [|apply Hin; exact Hi].
        destruct (in_dec Idx_eq_dec index rest) as [Hi|Hi].
        + apply Hin. exact Hi.
        + rewrite (Hout _ Hvi Hi). rewrite Eg1. symmetry. exact Hcell.
      - intros idx Hv Hn. rewrite Hout.
        + apply Ho1; [exact Hv|]. intros ->. apply Hn. left. reflexivity.
        + exact Hv.
        + intros Hi. apply Hn. right. exact Hi. }
    destruct cell as [r0|].
    + destruct (Hplace index r0 (or_introl eq_refl) Hcell) as [q0 [Hq0 Hf0]].
      destruct (valid_index_cases (fst index) (snd index) (proj1 Hvi) (proj2 Hvi))
        as [L0 [HL0 _]].
      replace (fst index, snd index) with index in HL0 by (destruct index; reflexivity).
      apply wp_bind. apply wp_bind.
      eapply wp_intro;
        [apply (upd_piece_same r0 _ q0); [exact Hq0 | apply set_field_idx_same; exact Hf0]|].
      cbv beta. apply wp_bind. eapply wp_lift; [exact HL0|]. cbv beta.
      eapply wp_upd_piece; [exact Hq0|].
      set (t3 := set_pieces _ _).
      assert (Hsame : forall idx, np_get mb idx = Ok (Some r0) -> In idx (index :: rest) ->
                                  idx = index).
      { intros idx Hg Hin. destruct (Hplace idx r0 Hin Hg) as [q [Hq Hf]].
        rewrite Hq0 in Hq. injection Hq as <-. congruence. }
      eapply wp_mono.
      * apply (IH t3); [exact Hrest | exact Hb1 |].
        intros idx r Hin Hg. destruct (Hplace idx r (or_intror Hin) Hg) as [q [Hq Hf]].
        subst t3. norm_state. destruct (Nat.eq_dec r0 r) as [<-|Hne].
        -- rewrite Hq0 in Hq. injection Hq as <-.
           eexists. split; [exact (lk_same _ _ _ _ Hq0)|]. destruct q0; exact Hf.
        -- exists q. split; [exact (lk_other _ _ _ _ _ Hne Hq) | exact Hf].
      * cbv beta. intros _ t' [b' [ps' [Et [Hb' [Hin [Hout [Hps Hnone]]]]]]].
        exists b', ps'. split; [rewrite Et; subst t3; destruct t; reflexivity|].
        split; [exact Hb'|].
        destruct (Hboard b' Hin Hout) as [Hin' Hout'].
        split; [exact Hin'|]. split; [exact Hout'|]. split.
        2:{ intros r Hr. apply Hnone. subst t3. norm_state.
            rewrite nth_error_list_set_gen, Hr. destruct (Nat.eqb r0 r); reflexivity. }
        intros r q Hq. destruct (Nat.eq_dec r0 r) as [<-|Hne].
        -- rewrite Hq0 in Hq. injection Hq as <-.
           destruct (Hps r0 (set_current_field L0 q0)) as [q' [Hq' [Ha Hbb]]];
             [subst t3; norm_state; exact (lk_same _ _ _ _ Hq0)|].
           assert (Eq' : q' = set_current_field L0 q0).
           { destruct Ha as [->|[idx [L [Hi [Hg [HL ->]]]]]]; [reflexivity|].
             rewrite (Hsame idx Hg (or_intror Hi)) in HL. rewrite HL0 in HL.
             injection HL as <-. destruct q0; reflexivity. }
           exists q'. split; [exact Hq'|]. split.
           ++ right. exists index, L0. split; [left; reflexivity|]. auto.
           ++ intros idx Hi Hg. rewrite (Hsame idx Hg Hi). exists L0. auto.
        -- destruct (Hps r q) as [q' [Hq' [Ha Hbb]]];
             [subst t3; norm_state; exact (lk_other _ _ _ _ _ Hne Hq)|].
           exists q'. split; [exact Hq'|]. split.
           ++ destruct Ha as [->|[idx [L [Hi [Hg [HL ->]]]]]]; [left; reflexivity|].
              right. exists idx, L. split; [right; exact Hi|]. auto.
           ++ intros idx [<-|Hi] Hg; [|exact (Hbb idx Hi Hg)].
              rewrite Hcell in Hg. injection Hg as E. contradiction.
    + wp_go. set (t1 := set_board_objects b1 t).
      eapply wp_mono.
      * apply (IH t1); [exact Hrest | exact Hb1 |].
        intros idx r Hin Hg. exact (Hplace idx r (or_intror Hin) Hg).
      * cbv beta. intros _ t' [b' [ps' [Et [Hb' [Hin [Hout [Hps Hnone]]]]]]].
        exists b', ps'. split; [rewrite Et; subst t1; destruct t; reflexivity|].
        split; [exact Hb'|].
        destruct (Hboard b' Hin Hout) as [Hin' Hout'].
        split; [exact Hin'|]. split; [exact Hout'|]. split; [|exact Hnone].
        intros r q Hq. destruct (Hps r q Hq) as [q' [Hq' [Ha Hbb]]].
        exists q'. split; [exact Hq'|]. split.
        -- destruct Ha as [->|[idx [L [Hi [Hg [HL ->]]]]]]; [left; reflexivity|].
           right. exists idx, L. split; [right; exact Hi|]. auto.
        -- intros idx [<-|Hi] Hg; [|exact (Hbb idx Hi Hg)].
           rewrite Hcell in Hg. discriminate Hg.
Qed.

Lemma wp_relabel_all (mb : Board) (t : Game) (Q : unit -> Game -> Prop) :
  board_shape mb -> board_shape (board_objects t) ->
  (forall idx r, valid_index idx -> np_get mb idx = Ok (Some r) ->
     exists q, nth_error (pieces t) r = Some q /\ field_idx q = Some idx) ->
  (forall ps' : list Piece,
     (forall r q, nth_error (pieces t) r = Some q ->
        exists q', nth_error ps' r = Some q' /\
          (q' = q \/
           exists idx L, valid_index idx /\ np_get mb idx = Ok (Some r) /\
                         index2label idx = Ok L /\ q' = set_current_field L q) /\
          (forall idx, valid_index idx -> np_get mb idx = Ok (Some r) ->
             exists L, index2label idx = Ok L /\ q' = set_current_field L q)) ->
     (forall r, nth_error (pieces t) r = None -> nth_error ps' r = None) ->
     Q tt (set_board_objects mb (set_pieces ps' t))) ->
  wp (restore_loop all_indices mb) Q t.
Proof.
  intros Hmb Hb Hplace HQ.
  pose proof all_indices_valid as Hall. rewrite Forall_forall in Hall.
  eapply wp_mono.
  - apply (wp_relabel_loop mb Hmb all_indices t all_indices_valid Hb).
    intros idx r Hin. apply Hplace. apply Hall. exact Hin.
  - cbv beta. intros [] t' [b' [ps' [-> [Hb' [Hin [_ [Hps Hnone]]]]]]].
    replace b' with mb.
    + apply HQ; [|exact Hnone]. intros r q Hq.
      destruct (Hps r q Hq) as [q' [Hq' [Ha Hbb]]].
      exists q'. split; [exact Hq'|]. split.
      * destruct Ha as [->|[idx [L [Hi [Hg [HL ->]]]]]]; [left; reflexivity|].
        right. exists idx, L. split; [apply Hall; exact Hi|]. auto.
      * intros idx Hv Hg. apply (Hbb idx); [apply in_all_indices; exact Hv | exact Hg].
    + apply board_ext; [exact Hmb | exact Hb' |].
      intros idx Hv. symmetry. apply Hin. apply in_all_indices. exact Hv.
Qed.

Ltac wp_exec :=
  repeat first
    [ wp_step
    | lazymatch goal with
      | |- wp (piece_of _) _ _ => eapply wp_piece_of; [solve [lk]|]
      | |- wp (upd_piece _ _) _ _ => eapply wp_upd_piece; [solve [lk]|]
      | |- wp (lift (label2index _)) _ _ => eapply wp_lift; [eassumption|]
      end; cbv beta; norm_state ].

Lemma wp_set_board (idx : Idx) (v : option Ref) (s : Game) (Q : unit -> Game -> Prop) :
  board_shape (board_objects s) -> valid_index idx ->
  (forall b', board_shape b' -> np_get b' idx = Ok v ->
              (forall idx', valid_index idx' -> idx' <> idx ->
                            np_get b' idx' = np_get (board_objects s) idx') ->
              Q tt (set_board_objects b' s)) ->
  wp (set_board (Some idx) v) Q s.
Proof.
  intros Hb Hv HQ.
  destruct (np_set_valid (board_objects s) idx v Hb Hv) as [b' [E [Hb' [Eg Ho]]]].
  unfold set_board. wp_go. eapply wp_lift; [exact E|]. wp_go. apply HQ; assumption.
Qed.

Lemma wp_get_board_at (idx : Idx) (cell : option Ref) (s : Game)
    (Q : option Ref -> Game -> Prop) :
  np_get (board_objects s) idx = Ok cell -> Q cell s -> wp (get_board (Some idx)) Q s.
Proof.
  intros H HQ. unfold get_board. wp_go. eapply wp_lift; [exact H | exact HQ].
Qed.

Lemma label_of_index (src : Idx) (l : string) :
  valid_index src -> index2label src = Ok l -> label2index l = Ok src.
Proof.
  destruct src as [i j]. intros [Hi Hj] E.
  destruct (valid_index_cases i j Hi Hj) as [L [E1 [E2 _]]].
  rewrite E in E1. injection E1 as ->. exact E2.
Qed.

Lemma trial_revert_empty (s : Game) (self : Ref) (move_to : string) (v : Z)
    (is_test reset_rochade : bool) (p : Piece) (src idx : Idx) :
  board_shape (board_objects s) -> board_consistent s ->
  nth_error (pieces s) self = Some p -> field_idx p = Some src -> valid_index src ->
  index2label src = Ok (current_field p) ->
  label2index move_to = Ok idx ->
  v <> code_opponent ->
  wp (move_piece self move_to v false)
     (fun mb s1 => mb = board_objects s /\
        wp (redo_move self mb v is_test reset_rochade)
           (fun _ s2 =>
              board_objects s2 = board_objects s /\
              pieces s2 = list_set (pieces s) self (set_last_field (current_field p) p) /\
              rule_globals s2 = rule_globals s /\
              is_rochade s2 = (if reset_rochade then false else is_rochade s) /\
              is_rochade_gui s2 = (if reset_rochade then false else is_rochade_gui s) /\
              promote_piece s2 = promote_piece s1 /\
              gui_valid_move s2 = (if is_test then gui_valid_move s else false) /\
              gui_kill s2 = (if is_test then gui_kill s else None)) s1) s.
Proof.
  intros Hb Hcons Hp Hf Hvs Hls Hl Hv.
  destruct (label2index_valid _ _ Hl) as [Hvi [Hil _]].
  assert (Hlsrc := label_of_index _ _ Hvs Hls).
  apply Z.eqb_neq in Hv.
  unfold move_piece, move_piece_body. wp_exec. rewrite Hf.
  apply wp_set_board; [exact Hb | exact Hvs |]. intros b1 Hb1 _ _.
  wp_exec. rewrite Hv. wp_exec. simpl (field_idx _).
  apply wp_set_board; [exact Hb1 | exact Hvi |]. intros b2 Hb2 _ _.
  wp_exec. unfold check_pawn2x. wp_exec.
  match goal with |- wp (if ?c then _ else _) _ _ => destruct c end;
    wp_exec; (split; [reflexivity|]); unfold redo_move; rewrite Hv; wp_exec;
    (apply wp_restore_all;
     [ exact Hb
     | exact Hb2
     | intros idx0 r Hv0 Hg;
       destruct (Hcons idx0 r Hv0 Hg) as [q0 [Hq0 [Ha0 [Hf0 Hl0]]]];
       unfold piece_at in Hq0;
       destruct (Nat.eq_dec self r) as [<-|Hne];
       [ rewrite Hp in Hq0; injection Hq0 as <-;
         rewrite Hf in Hf0; injection Hf0 as <-;
         eexists; split; [solve [lk]|]; split; [reflexivity | exact Hl0]
       | exists q0; split; [solve [lk]|]; split; assumption ]
     | ]);
    destruct reset_rochade, is_test; simpl negb; wp_exec;
    (split; [reflexivity|]);
    (split; [rewrite !list_set_twice; f_equal;
             destruct p; simpl in *; subst; reflexivity|]);
    repeat split.
Qed.

Lemma trial_revert_capture (s : Game) (self e : Ref) (move_to : string)
    (is_test reset_rochade : bool) (p : Piece) (src idx : Idx) :
  board_shape (board_objects s) -> board_consistent s ->
  nth_error (pieces s) self = Some p -> field_idx p = Some src -> valid_index src ->
  index2label src = Ok (current_field p) ->
  label2index move_to = Ok idx ->
  perform_en_passant p = false -> idx <> src ->
  np_get (board_objects s) idx = Ok (Some e) ->
  wp (move_piece self move_to code_opponent false)
     (fun mb s1 => mb = board_objects s /\
        wp (redo_move self mb code_opponent is_test reset_rochade)
           (fun _ s2 =>
              board_objects s2 = board_objects s /\
              pieces s2 = list_set (pieces s) self (set_last_field (current_field p) p) /\
              rule_globals s2 = rule_globals s /\
              is_rochade s2 = (if reset_rochade then false else is_rochade s) /\
              is_rochade_gui s2 = (if reset_rochade then false else is_rochade_gui s) /\
              promote_piece s2 = promote_piece s1 /\
              gui_valid_move s2 = (if is_test then gui_valid_move s else false) /\
              gui_kill s2 = (if is_test then gui_kill s else None)) s1) s.
Proof.
  intros Hb Hcons Hp Hf Hvs Hls Hl Hperf Hdiff Hcell.
  destruct (label2index_valid _ _ Hl) as [Hvi [Hil _]].
  assert (Hlsrc := label_of_index _ _ Hvs Hls).
  destruct (Hcons idx e Hvi Hcell) as [pe [He [Hae [Hfe Hle]]]]. unfold piece_at in He.
  assert (Hne : self <> e) by (intros ->; congruence).
  assert (Hne' : e <> self) by congruence.
  unfold move_piece, move_piece_body. wp_exec. rewrite Hf.
  apply wp_set_board; [exact Hb | exact Hvs |]. intros b1 Hb1 _ Ho1.
  wp_exec. change (code_opponent =? code_opponent) with true. wp_exec.
  rewrite Hperf. wp_exec.
  apply (wp_get_board_at idx (Some e)); [norm_state; rewrite Ho1; assumption|].
  unfold kill_piece. simpl negb. wp_exec. unfold attr. wp_exec. rewrite Hfe.
  apply wp_set_board; [exact Hb1 | exact Hvi |]. intros b2 Hb2 _ _.
  wp_exec. simpl (field_idx _).
  apply wp_set_board; [exact Hb2 | exact Hvi |]. intros b3 Hb3 _ _.
  wp_exec. unfold check_pawn2x. wp_exec.
  match goal with |- wp (if ?c then _ else _) _ _ => destruct c end;
    wp_exec; (split; [reflexivity|]); unfold redo_move;
    change (code_opponent =? code_opponent) with true; wp_exec;
    simpl (field_idx _); unfold board_get;
    (eapply wp_lift; [exact Hcell|]); unfold resurrect_piece; wp_exec;
    (apply wp_relabel_all;
     [ exact Hb
     | exact Hb3
     | intros idx0 r Hv0 Hg;
       destruct (Hcons idx0 r Hv0 Hg) as [q0 [Hq0 [Ha0 [Hf0 Hl0]]]];
       unfold piece_at in Hq0;
       destruct (Nat.eq_dec self r) as [<-|Hns];
       [ rewrite Hp in Hq0; injection Hq0 as <-;
         rewrite Hf in Hf0; injection Hf0 as <-;
         eexists; split; [solve [lk]|]; reflexivity
       | destruct (Nat.eq_dec e r) as [<-|Hnr];
         [ rewrite He in Hq0; injection Hq0 as <-;
           rewrite Hfe in Hf0; injection Hf0 as <-;
           eexists; split; [solve [lk]|]; reflexivity
         | exists q0; split; [solve [lk]|]; assumption ] ]
     | intros ps' Hps Hnone ]).
  all: assert (Eps : ps' = list_set (pieces s) self (set_last_field (current_field p) p));
    [ apply nth_error_ext; intros n;
      destruct (nth_error (pieces s) n) as [q|] eqn:En;
      [ destruct (Nat.eq_dec self n) as [<-|Hsn];
        [ rewrite Hp in En; injection En as <-;
          match type of Hps with
          | forall r q, nth_error ?ps r = Some q -> _ =>
              destruct (nth_error ps self) as [x|] eqn:Ex;
              [|exfalso; revert Ex; norm_state; rewrite !nth_error_list_set_gen, Hp;
                repeat match goal with |- context [Nat.eqb ?a ?b] => destruct (Nat.eqb a b) end;
                discriminate]
          end;
          destruct (Hps self x Ex) as [q' [Hq' [Ha _]]];
          rewrite Hq', (lk_same _ _ _ _ Hp); f_equal;
          assert (Ex' : x = set_last_field (current_field p) p)
            by (revert Ex; norm_state; rewrite !nth_error_list_set_gen, Hp;
                rewrite ?Nat.eqb_refl, ?(proj2 (Nat.eqb_neq e self) Hne'); simpl;
                intros E; injection E as <-; destruct p; simpl in *; subst; reflexivity);
          subst x;
          destruct Ha as [->|[i0 [L [Hv0 [Hg0 [HL ->]]]]]]; [reflexivity|];
          destruct (Hcons i0 self Hv0 Hg0) as [q0 [Hq0 [_ [Hf0 Hl0]]]];
          unfold piece_at in Hq0; rewrite Hp in Hq0; injection Hq0 as <-;
          rewrite HL in Hl0; injection Hl0 as ->; destruct p; reflexivity
        | destruct (Nat.eq_dec e n) as [<-|Hen];
          [ rewrite He in En; injection En as <-;
            match type of Hps with
            | forall r q, nth_error ?ps r = Some q -> _ =>
                destruct (nth_error ps e) as [x|] eqn:Ex;
                [|exfalso; revert Ex; norm_state; rewrite !nth_error_list_set_gen, He;
                  repeat match goal with |- context [Nat.eqb ?a ?b] => destruct (Nat.eqb a b) end;
                  discriminate]
            end;
            destruct (Hps e x Ex) as [q' [Hq' [_ Hbb]]];
            rewrite Hq', (lk_other _ _ _ _ _ Hne He); f_equal;
            destruct (Hbb idx Hvi Hcell) as [L [HL ->]];
            rewrite HL in Hle; injection Hle as ->;
            revert Ex; norm_state; rewrite !nth_error_list_set_gen, He;
            rewrite ?Nat.eqb_refl, ?(proj2 (Nat.eqb_neq self e) Hne); simpl;
            intros E; injection E as <-; destruct pe; simpl in *; subst; reflexivity
          | match type of Hps with
            | forall r q, nth_error ?ps r = Some q -> _ =>
                assert (Ex : nth_error ps n = Some q)
                  by (norm_state; rewrite !nth_error_list_set_gen;
                      rewrite ?(proj2 (Nat.eqb_neq self n) Hsn),
                              ?(proj2 (Nat.eqb_neq e n) Hen); exact En)
            end;
            destruct (Hps n q Ex) as [q' [Hq' [Ha _]]];
            rewrite Hq', (lk_other _ _ _ _ _ Hsn En); f_equal;
            destruct Ha as [->|[i0 [L [Hv0 [Hg0 [HL ->]]]]]]; [reflexivity|];
            destruct (Hcons i0 n Hv0 Hg0) as [q0 [Hq0 [_ [Hf0 Hl0]]]];
            unfold piece_at in Hq0; rewrite En in Hq0; injection Hq0 as <-;
            rewrite HL in Hl0; injection Hl0 as ->; destruct q; reflexivity ] ]
      | rewrite nth_error_list_set_gen, En;
        replace (if Nat.eqb self n then option_map _ None else None) with (@None Piece)
          by (destruct (Nat.eqb self n); reflexivity);
        apply Hnone; norm_state; rewrite !nth_error_list_set_gen, En;
        repeat match goal with |- context [Nat.eqb ?a ?b] => destruct (Nat.eqb a b) end;
        reflexivity ]
    | subst ps' ].
  all: destruct reset_rochade, is_test; simpl negb; wp_exec; norm_state;
    repeat split; reflexivity.
Qed.

Lemma board_shapeb_ok (b : Board) : board_shapeb b = true -> board_shape b.
Proof.
  unfold board_shapeb. intros H. apply andb_prop in H. destruct H as [Ha Hb].
  split; [apply Nat.eqb_eq; exact Ha|].
  apply Forall_forall. intros row Hrow.
  rewrite forallb_forall in Hb. apply Nat.eqb_eq. apply Hb. exact Hrow.
Qed.

Lemma board_consistentb_ok (s : Game) : board_consistentb s = true -> board_consistent s.
Proof.
  unfold board_consistentb, board_consistent. intros H idx r Hv Hg.
  rewrite forallb_forall in H. specialize (H idx (in_all_indices idx Hv)).
  rewrite Hg in H. unfold cell_consistentb in H. unfold piece_at.
  destruct (nth_error (pieces s) r) as [q|]; [|discriminate].
  apply andb_prop in H. destruct H as [H H3].
  apply andb_prop in H. destruct H as [H1 H2].
  exists q. split; [reflexivity|]. split; [exact H1|].
  split.
  - destruct (field_idx q) as [f|]; [|discriminate].
    unfold Vec_eqb in H2. apply andb_prop in H2. destruct H2 as [Ea Eb].
    apply Z.eqb_eq in Ea. apply Z.eqb_eq in Eb.
    destruct f, idx. simpl in *. subst. reflexivity.
  - destruct (index2label idx) as [l|]; [|discriminate].
    apply String.eqb_eq in H3. subst. reflexivity.
Qed.

(** C2 (amended): on a well-shaped board whose occupants are the living
    pieces standing where the registry says, a trial by [move_piece] (without
    the castling rook move) of a piece that stands on the board, to an
    existing field, classified as a move to an empty field or as a normal
    capture of the piece on that field, followed by [redo_move] with the
    returned board, returns and restores the board, the liveness and position
    of every piece and the counters and color to move: the registry differs
    from the old one only in [last_field] of the mover.  The castling flags
    are cleared when [reset_rochade] is set, the promotion marker stays as the
    trial set it, and the GUI flags are reset unless [is_test] is set. *)
Theorem trial_revert_restores_position :
  forall (s : Game) (self : Ref) (move_to : string) (v : Z) (is_test reset_rochade : bool)
         (p : Piece) (src idx : Idx),
    board_shape (board_objects s) -> board_consistent s ->
    piece_at s self = Some p ->
    valid_index src -> np_get (board_objects s) src = Ok (Some self) ->
    label2index move_to = Ok idx ->
    (v = code_opponent ->
       perform_en_passant p = false /\ idx <> src /\
       exists e, np_get (board_objects s) idx = Ok (Some e)) ->
    exists (s1 s2 : Game),
      move_piece self move_to v false s = Ok (board_objects s, s1) /\
      redo_move self (board_objects s) v is_test reset_rochade s1 = Ok (tt, s2) /\
      board_objects s2 = board_objects s /\
      pieces s2 = list_set (pieces s) self (set_last_field (current_field p) p) /\
      map placement (pieces s2) = map placement (pieces s) /\
      map without_last_field (pieces s2) = map without_last_field (pieces s) /\
      rule_globals s2 = rule_globals s /\
      is_rochade s2 = (if reset_rochade then false else is_rochade s) /\
      is_rochade_gui s2 = (if reset_rochade then false else is_rochade_gui s) /\
      promote_piece s2 = promote_piece s1 /\
      gui_valid_move s2 = (if is_test then gui_valid_move s else false) /\
      gui_kill s2 = (if is_test then gui_kill s else None).
Proof.
  intros s self move_to v is_test reset_rochade p src idx
         Hb Hcons Hp Hvs Hsrc Hl Hcap.
  destruct (Hcons src self Hvs Hsrc) as [p0 [Hp0 [_ [Hf Hls]]]].
  rewrite Hp in Hp0. injection Hp0 as <-. unfold piece_at in Hp.
  assert (H : wp (move_piece self move_to v false)
     (fun mb s1 => mb = board_objects s /\
        wp (redo_move self mb v is_test reset_rochade)
           (fun _ s2 =>
              board_objects s2 = board_objects s /\
              pieces s2 = list_set (pieces s) self (set_last_field (current_field p) p) /\
              rule_globals s2 = rule_globals s /\
              is_rochade s2 = (if reset_rochade then false else is_rochade s) /\
              is_rochade_gui s2 = (if reset_rochade then false else is_rochade_gui s) /\
              promote_piece s2 = promote_piece s1 /\
              gui_valid_move s2 = (if is_test then gui_valid_move s else false) /\
              gui_kill s2 = (if is_test then gui_kill s else None)) s1) s).
  { destruct (Z.eq_dec v code_opponent) as [->|Hv].
    - destruct (Hcap eq_refl) as [Hperf [Hdiff [e He]]].
      eapply trial_revert_capture; eassumption.
    - eapply trial_revert_empty; eassumption. }
  destruct H as [mb [s1 [E1 [-> [[] [s2 [E2 [H1 [H2 H3]]]]]]]]].
  exists s1, s2. split; [exact E1|]. split; [exact E2|]. split; [exact H1|].
  split; [exact H2|].
  split; [rewrite H2; apply map_list_set_same with (a := p); [exact Hp | reflexivity]|].
  split; [rewrite H2; apply map_list_set_same with (a := p); [exact Hp | reflexivity]|].
  exact H3.
Qed.

Lemma trial_revert_restores_position_witness :
  exists (s1 s2 : Game),
    move_piece 1%nat "A8" code_opponent false rook_duel_start
      = Ok (board_objects rook_duel_start, s1) /\
    redo_move 1%nat (board_objects rook_duel_start) code_opponent true true s1
      = Ok (tt, s2) /\
    board_objects s2 = board_objects rook_duel_start /\
    pieces s2 = list_set (pieces rook_duel_start) 1%nat
                  (set_last_field "A1"
                     (mkPiece Rook "Rook White 1" "R_W1" 1 true "A1" "A1" (Some (0, 0)) []
                        false false None 0)) /\
    map placement (pieces s2) = map placement (pieces rook_duel_start) /\
    map without_last_field (pieces s2) = map without_last_field (pieces rook_duel_start) /\
    rule_globals s2 = rule_globals rook_duel_start /\
    is_rochade s2 = false /\
    is_rochade_gui s2 = false /\
    promote_piece s2 = promote_piece s1 /\
    gui_valid_move s2 = gui_valid_move rook_duel_start /\
    gui_kill s2 = gui_kill rook_duel_start.
Proof.
  apply (trial_revert_restores_position rook_duel_start 1%nat "A8" code_opponent
           true true
           (mkPiece Rook "Rook White 1" "R_W1" 1 true "A1" "A1" (Some (0, 0)) []
              false false None 0)
           (0, 0) (7, 0)).
  - apply board_shapeb_ok. vm_compute. reflexivity.
  - apply board_consistentb_ok. vm_compute. reflexivity.
  - vm_compute. reflexivity.
  - unfold valid_index. simpl. lia.
  - vm_compute. reflexivity.
  - vm_compute. reflexivity.
  - intros _. split; [reflexivity|]. split; [discriminate|].
    exists 3%nat. vm_compute. reflexivity.
Defined.

(** * Further properties of the engine *)

(** ** Directions *)

(** X1: a vector is straight exactly when it is vertical or horizontal, it
    is never both, no vector is straight and diagonal at once, the zero vector
    is neither, and the tests do not depend on the direction of travel. *)
Theorem directions_are_exclusive :
  forall v : Vec,
    is_straight v = is_vertical v || is_horizontal v /\
    is_vertical v && is_horizontal v = false /\
    is_diagonal v && is_straight v = false /\
    is_straight (0, 0) = false /\ is_diagonal (0, 0) = false /\
    is_straight (- fst v, - snd v) = is_straight v /\
    is_diagonal (- fst v, - snd v) = is_diagonal v.
Proof.
  intros [a b]. unfold is_straight, is_vertical, is_horizontal, is_diagonal. simpl.
  repeat split.
  - destruct (Z.eqb_spec a 0), (Z.eqb_spec b 0); reflexivity.
  - destruct (Z.eqb_spec a 0), (Z.eqb_spec b 0); reflexivity.
  - destruct (Z.eqb_spec a 0), (Z.eqb_spec b 0), (Z.eqb_spec (Z.abs a) (Z.abs b));
      simpl; try reflexivity; lia.
  - destruct (Z.eqb_spec a 0), (Z.eqb_spec b 0), (Z.eqb_spec (- a) 0), (Z.eqb_spec (- b) 0);
      simpl; try reflexivity; lia.
  - rewrite !Z.abs_opp.
    destruct (Z.eqb_spec a 0), (Z.eqb_spec (- a) 0); try reflexivity; lia.
Qed.

(** ** Whose turn it is *)

(** X2: for every move count exactly one of the two colors is to move, white
    on the even counts; the strings ['w'] and ['white'] stand for white and
    every other string, ['black'] or not, counts as black. *)
Theorem check_color_move_alternates :
  forall (move_count : Z) (c : string),
    check_color_move_arg (ColorNum 1) move_count = Z.even move_count /\
    check_color_move_arg (ColorNum 2) move_count = negb (Z.even move_count) /\
    check_color_move_arg (ColorStr "white") move_count = Z.even move_count /\
    check_color_move_arg (ColorStr "w") move_count = Z.even move_count /\
    check_color_move_arg (ColorStr c) move_count
    = (if String.eqb c "w" || String.eqb c "white"
       then Z.even move_count else negb (Z.even move_count)).
Proof.
  intros mc c.
  assert (H : mc mod 2 = if Z.even mc then 0 else 1).
  { rewrite Zmod_even. reflexivity. }
  unfold check_color_move_arg, check_color_move.
  repeat split.
  - simpl. rewrite H. destruct (Z.even mc); reflexivity.
  - simpl. rewrite H. destruct (Z.even mc); reflexivity.
  - simpl. rewrite H. destruct (Z.even mc); reflexivity.
  - simpl. rewrite H. destruct (Z.even mc); reflexivity.
  - destruct (String.eqb c "w" || String.eqb c "white"); simpl; rewrite H;
      destruct (Z.even mc); reflexivity.
Qed.

(** X3: [move_counter] returns when no castling is pending, counts the move
    of the piece and of the game, and leaves [current_color] on the color that
    [check_color_move] lets move next. *)
Theorem move_counter_passes_the_turn :
  forall (s : Game) (self : Ref) (p : Piece),
    piece_at s self = Some p ->
    is_rochade s = false ->
    exists s' : Game,
      move_counter self s = Ok (tt, s') /\
      move_count s' = move_count s + 1 /\
      pieces s' = list_set (pieces s) self (set_move_idx (move_idx p + 1) p) /\
      check_color_move (current_color s') (move_count s') = true /\
      current_color s' = (if Z.even (move_count s) then 2 else 1) /\
      board_objects s' = board_objects s.
Proof.
  intros s self p Hp Hr. unfold piece_at in Hp.
  assert (E : (move_count s + 1) mod 2 = if Z.even (move_count s) then 1 else 0).
  { rewrite Zmod_even, Z.even_add. simpl.
    destruct (Z.even (move_count s)); reflexivity. }
  match goal with
  | |- exists s', ?m s = Ok (tt, s') /\ @?Q s' =>
      cut (wp m (fun _ s' => Q s') s);
      [ intros [[] [s' [H1 H2]]]; exists s'; split; [exact H1 | exact H2] |]
  end.
  unfold move_counter. wp_exec. norm_state. rewrite Hr. wp_exec.
  unfold check_color_move. norm_state. rewrite E.
  destruct (Z.even (move_count s)); simpl (_ =? _); cbv iota;
    (eapply wp_lift; [reflexivity|]); wp_exec; norm_state; unfold check_color_move;
    rewrite E; repeat split.
Qed.

Lemma move_counter_passes_the_turn_witness :
  exists s' : Game,
    move_counter P_W5 standard_start = Ok (tt, s') /\
    move_count s' = move_count standard_start + 1 /\
    pieces s' = list_set (pieces standard_start) P_W5
                  (set_move_idx (0 + 1)
                     (mkPiece Pawn "Pawn White 5" "P_W5" 1 true "E2" "E2" (Some (1, 4)) []
                        false false None 0)) /\
    check_color_move (current_color s') (move_count s') = true /\
    current_color s' = (if Z.even (move_count standard_start) then 2 else 1) /\
    board_objects s' = board_objects standard_start.
Proof.
  apply (move_counter_passes_the_turn standard_start P_W5
           (mkPiece Pawn "Pawn White 5" "P_W5" 1 true "E2" "E2" (Some (1, 4)) []
              false false None 0)).
  - vm_compute. reflexivity.
  - vm_compute. reflexivity.
Defined.

(** ** Requests that are turned down *)

(** X4: a request for a piece whose color is not to move, or for a captured
    piece, is turned down by [move] before anything is tried: the call
    returns and the state is the one it was called in, whatever the
    destination is. *)
Theorem request_out_of_turn_changes_nothing :
  forall (s : Game) (fuel : nat) (self : Ref) (move_to : string) (p : Piece),
    piece_at s self = Some p ->
    move_count s mod 2 <> color p - 1 \/ is_alive p = false ->
    move fuel self move_to s = Ok (tt, s).
Proof.
  intros s fuel self move_to p Hp H. unfold piece_at in Hp.
  assert (T : exists e, invalid_request self (upper move_to) s = Ok (e, s) /\ truthy e = true).
  { unfold invalid_request, bind, piece_of, gets, ret. rewrite Hp.
    eexists. split; [reflexivity|].
    destruct (np_where field_names (upper move_to)); [reflexivity|].
    destruct H as [H|H].
    - apply Z.eqb_neq in H. rewrite H. simpl.
      destruct (negb (is_alive p)); reflexivity.
    - rewrite H. reflexivity. }
  destruct T as [e [E1 E2]].
  unfold move, bind. rewrite E1, E2. reflexivity.
Qed.

Lemma request_out_of_turn_changes_nothing_witness :
  move 5 P_B4 "D5" standard_start = Ok (tt, standard_start).
Proof.
  apply (request_out_of_turn_changes_nothing standard_start 5 P_B4 "D5"
           (mkPiece Pawn "Pawn Black 4" "P_B4" 2 true "D7" "D7" (Some (6, 3)) []
              false false None 0)).
  - vm_compute. reflexivity.
  - left. vm_compute. discriminate.
Defined.

(** ** The path of a move *)

Lemma get_move_step_value (self : Ref) (l : string) (s : Game) (p : Piece) (idx f : Idx) :
  nth_error (pieces s) self = Some p -> label2index l = Ok idx -> field_idx p = Some f ->
  get_move_step self l s = Ok ((fst idx - fst f, snd idx - snd f), s).
Proof.
  intros Hp Hl Hf. unfold get_move_step, bind, lift, piece_of, ret.
  rewrite Hl, Hp, Hf. reflexivity.
Qed.

(** X5: for a piece on the board and a destination that [label2index] finds,
    [get_intermediate_field_names] never raises, whatever the vector is: the
    truncation keeps every step on the board.  For a piece with Knight in its
    name it returns the destination label alone, as it was passed; for any
    other piece it returns labels of the board only, as many as the longer
    side of the vector.  Every label it returns is one that [label2index]
    finds, and all are labels of the board when the destination label is
    one. *)
Theorem path_stays_on_the_board :
  forall (s : Game) (self : Ref) (move_to : string) (p : Piece) (f idx : Idx),
    piece_at s self = Some p -> field_idx p = Some f -> valid_index f ->
    label2index move_to = Ok idx ->
    exists steps : list string,
      get_intermediate_field_names self move_to s = Ok (steps, s) /\
      Forall np_label steps /\
      (valid_label move_to -> Forall valid_label steps) /\
      (if str_in "Knight" (name p) then steps = [move_to]
       else Forall valid_label steps /\
            List.length steps
            = Z.to_nat (Z.max (Z.abs (fst idx - fst f)) (Z.abs (snd idx - snd f)))).
Proof.
  intros s self move_to p f idx Hp Hf Hvf Hl. unfold piece_at in Hp.
  destruct (label2index_valid _ _ Hl) as [[Hi1 Hi2] [_ Hvl]].
  destruct Hvf as [Hf1 Hf2].
  set (v := (fst idx - fst f, snd idx - snd f)).
  set (sc := Z.max (Z.abs (fst v)) (Z.abs (snd v))).
  assert (Hloop : exists ls, intermediate_loop (Z.to_nat sc) f v sc = Ok ls /\
                             List.length ls = Z.to_nat sc /\ Forall valid_label ls).
  { destruct (Z.eq_dec sc 0) as [E|E].
    - rewrite E. exists []. simpl. auto.
    - apply intermediate_loop_total; try (subst sc v; simpl in *; lia).
      split; assumption. }
  destruct Hloop as [ls [Els [Hlen Hall]]].
  unfold get_intermediate_field_names, bind, piece_of. rewrite Hp.
  rewrite (get_move_step_value self move_to s p idx f Hp Hl Hf). rewrite Hf.
  fold v. fold sc. unfold lift. rewrite Els.
  destruct (str_in "Knight" (name p)); unfold ret.
  - exists [move_to]. split; [reflexivity|].
    split; [constructor; [exact Hvl | constructor]|].
    split; [|reflexivity]. intros Hv. constructor; [exact Hv | constructor].
  - exists ls. split; [reflexivity|].
    split; [eapply Forall_impl; [|exact Hall]; intros x Hx; apply valid_np_label; exact Hx|].
    split; [intros _; exact Hall | split; assumption].
Qed.

Lemma path_stays_on_the_board_witness :
  exists steps : list string,
    get_intermediate_field_names N_B1 "E4" standard_start = Ok (steps, standard_start) /\
    Forall np_label steps /\
    (valid_label "E4" -> Forall valid_label steps) /\
    steps = [ "E4" ].
Proof.
  apply (path_stays_on_the_board standard_start N_B1 "E4"
           (mkPiece Knight "Knight Black 1" "N_B1" 2 true "B8" "B8" (Some (7, 1)) []
              false false None 0) (7, 1) (3, 4)).
  - vm_compute. reflexivity.
  - reflexivity.
  - unfold valid_index. simpl. lia.
  - vm_compute. reflexivity.
Defined.

Lemma int_step_regular (f v sc : Z) :
  0 < sc -> v = sc \/ v = - sc \/ v = 0 -> int_step f v sc = f + Z.sgn v.
Proof.
  intros Hsc [ -> | [ -> | -> ] ]; unfold int_step.
  - replace (f * sc + sc) with ((f + 1) * sc) by ring.
    rewrite Z.quot_mul by lia. rewrite Z.sgn_pos by lia. reflexivity.
  - replace (f * sc + - sc) with ((f - 1) * sc) by ring.
    rewrite Z.quot_mul by lia. rewrite Z.sgn_neg by lia. lia.
  - rewrite Z.add_0_r, Z.quot_mul by lia. simpl. lia.
Qed.

Lemma intermediate_loop_regular (sc : Z) (v : Vec) :
  0 < sc ->
  fst v = sc \/ fst v = - sc \/ fst v = 0 ->
  snd v = sc \/ snd v = - sc \/ snd v = 0 ->
  forall (n : nat) (cur : Idx),
    (forall k, 1 <= k <= Z.of_nat n ->
               valid_index (fst cur + k * Z.sgn (fst v), snd cur + k * Z.sgn (snd v))) ->
    exists ls, intermediate_loop n cur v sc = Ok ls /\
      List.length ls = n /\
      forall k, (k < n)%nat ->
        exists L, nth_error ls k = Some L /\
                  index2label (fst cur + Z.of_nat (S k) * Z.sgn (fst v),
                               snd cur + Z.of_nat (S k) * Z.sgn (snd v)) = Ok L.
Proof.
  intros Hsc H1 H2. induction n as [|n IH]; intros cur Hv.
  - exists []. simpl. repeat split. intros k Hk. lia.
  - cbn [intermediate_loop]. cbv zeta.
    rewrite (int_step_regular _ _ _ Hsc H1), (int_step_regular _ _ _ Hsc H2).
    assert (Hv1 := Hv 1 ltac:(lia)). rewrite !Z.mul_1_l in Hv1.
    destruct Hv1 as [Ha Hb]. simpl in Ha, Hb.
    destruct (valid_index_cases _ _ Ha Hb) as [L [EL _]].
    rewrite EL. cbn [res_bind].
    destruct (IH (fst cur + Z.sgn (fst v), snd cur + Z.sgn (snd v))) as [ls [Els [Hlen Hnth]]].
    { intros k Hk. cbn [fst snd].
      replace (fst cur + Z.sgn (fst v) + k * Z.sgn (fst v))
        with (fst cur + (k + 1) * Z.sgn (fst v)) by ring.
      replace (snd cur + Z.sgn (snd v) + k * Z.sgn (snd v))
        with (snd cur + (k + 1) * Z.sgn (snd v)) by ring.
      apply Hv. lia. }
    rewrite Els. cbn [res_bind]. exists (L :: ls). split; [reflexivity|].
    split; [simpl; congruence|].
    intros [|k] Hk.
    + exists L. split; [reflexivity|].
      change (Z.of_nat 1) with 1. rewrite !Z.mul_1_l. exact EL.
    + destruct (Hnth k ltac:(lia)) as [L' [E1 E2]]. exists L'. split; [exact E1|].
      cbn [fst snd] in E2.
      replace (fst cur + Z.of_nat (S (S k)) * Z.sgn (fst v))
        with (fst cur + Z.sgn (fst v) + Z.of_nat (S k) * Z.sgn (fst v)) by lia.
      replace (snd cur + Z.of_nat (S (S k)) * Z.sgn (snd v))
        with (snd cur + Z.sgn (snd v) + Z.of_nat (S k) * Z.sgn (snd v)) by lia.
      exact E2.
Qed.

(** The path of a move along a line, entry by entry. *)
Lemma line_path :
  forall (s : Game) (self : Ref) (move_to : string) (p : Piece) (f idx : Idx),
    piece_at s self = Some p -> field_idx p = Some f -> valid_index f ->
    label2index move_to = Ok idx ->
    str_in "Knight" (name p) = false ->
    is_straight (fst idx - fst f, snd idx - snd f)
    || is_diagonal (fst idx - fst f, snd idx - snd f) = true ->
    exists steps : list string,
      get_intermediate_field_names self move_to s = Ok (steps, s) /\
      List.length steps
      = Z.to_nat (Z.max (Z.abs (fst idx - fst f)) (Z.abs (snd idx - snd f))) /\
      (forall k, (k < List.length steps)%nat ->
         exists L, nth_error steps k = Some L /\
                   index2label (fst f + Z.of_nat (S k) * Z.sgn (fst idx - fst f),
                                snd f + Z.of_nat (S k) * Z.sgn (snd idx - snd f)) = Ok L) /\
      last_elt steps = Ok (np_str move_to).
Proof.
  intros s self move_to p f idx Hp Hf Hvf Hl Hk Hline. unfold piece_at in Hp.
  destruct (label2index_valid _ _ Hl) as [[Hi1 Hi2] [Hil _]].
  destruct Hvf as [Hf1 Hf2].
  set (v := (fst idx - fst f, snd idx - snd f)) in *.
  set (sc := Z.max (Z.abs (fst v)) (Z.abs (snd v))).
  assert (Hreg : 0 < sc /\ (fst v = sc \/ fst v = - sc \/ fst v = 0) /\
                 (snd v = sc \/ snd v = - sc \/ snd v = 0)).
  { unfold is_straight, is_diagonal in Hline. subst sc.
    destruct (Z.eqb_spec (fst v) 0), (Z.eqb_spec (snd v) 0),
             (Z.eqb_spec (Z.abs (fst v)) (Z.abs (snd v)));
      simpl in Hline; try discriminate Hline; lia. }
  destruct Hreg as [Hsc [H1 H2]].
  destruct (intermediate_loop_regular sc v Hsc H1 H2 (Z.to_nat sc) f)
    as [ls [Els [Hlen Hnth]]].
  { intros k Hk'. rewrite Z2Nat.id in Hk' by lia. subst sc v. simpl in *.
    split; simpl; nia. }
  unfold get_intermediate_field_names, bind, piece_of. rewrite Hp.
  rewrite (get_move_step_value self move_to s p idx f Hp Hl Hf). rewrite Hf.
  fold v. fold sc. unfold lift. rewrite Els, Hk. unfold ret.
  exists ls. split; [reflexivity|]. split; [exact Hlen|].
  split; [rewrite Hlen; exact Hnth|].
  assert (Hpos : (0 < Z.to_nat sc)%nat) by lia.
  destruct (Hnth (Z.to_nat sc - 1)%nat ltac:(lia)) as [L [E1 E2]].
  replace (Z.of_nat (S (Z.to_nat sc - 1))) with sc in E2 by lia.
  assert (Eidx : (fst f + sc * Z.sgn (fst v), snd f + sc * Z.sgn (snd v)) = idx).
  { destruct idx as [i j]. subst v. simpl in *. f_equal; nia. }
  rewrite Eidx, Hil in E2. injection E2 as <-.
  unfold last_elt.
  assert (Hlast : exists pre, ls = pre ++ [np_str move_to]).
  { destruct (exists_last (l := ls)) as [pre [x Ex]].
    - intros ->. simpl in Hlen. lia.
    - exists pre. subst ls. rewrite length_app in Hlen. simpl in Hlen.
      replace (Z.to_nat sc - 1)%nat with (List.length pre) in E1 by lia.
      rewrite nth_error_app2 in E1 by lia. rewrite Nat.sub_diag in E1. simpl in E1.
      congruence. }
  destruct Hlast as [pre ->]. rewrite rev_app_distr. reflexivity.
Qed.

(** X6: for a rook, bishop or queen move (a straight or diagonal vector)
    between two fields of the board, the path is the run of fields from the
    one next to the source up to the destination: its [k]-th entry is the
    field [k+1] steps from the source in the direction of the vector, and its
    last entry is the label of the destination field, that is the destination
    label read up to its trailing NUL characters. *)
Theorem path_of_a_line_move :
  forall (s : Game) (self : Ref) (move_to : string) (p : Piece) (f idx : Idx),
    piece_at s self = Some p -> field_idx p = Some f -> valid_index f ->
    label2index move_to = Ok idx ->
    str_in "Knight" (name p) = false ->
    is_straight (fst idx - fst f, snd idx - snd f)
    || is_diagonal (fst idx - fst f, snd idx - snd f) = true ->
    exists steps : list string,
      get_intermediate_field_names self move_to s = Ok (steps, s) /\
      List.length steps
      = Z.to_nat (Z.max (Z.abs (fst idx - fst f)) (Z.abs (snd idx - snd f))) /\
      (forall k, (k < List.length steps)%nat ->
         exists L, nth_error steps k = Some L /\
                   index2label (fst f + Z.of_nat (S k) * Z.sgn (fst idx - fst f),
                                snd f + Z.of_nat (S k) * Z.sgn (snd idx - snd f)) = Ok L) /\
      last_elt steps = Ok (np_str move_to) /\
      (valid_label move_to -> last_elt steps = Ok move_to).
Proof.
  intros s self move_to p f idx Hp Hf Hvf Hl Hk Hline.
  destruct (line_path s self move_to p f idx Hp Hf Hvf Hl Hk Hline)
    as [steps [H1 [H2 [H3 H4]]]].
  exists steps. split; [exact H1|]. split; [exact H2|]. split; [exact H3|].
  split; [exact H4|]. intros Hv. rewrite (np_str_valid _ Hv) in H4. exact H4.
Qed.

Lemma path_of_a_line_move_witness :
  exists steps : list string,
    get_intermediate_field_names 1%nat "A8" rook_duel_start = Ok (steps, rook_duel_start) /\
    List.length steps = Z.to_nat (Z.max (Z.abs (7 - 0)) (Z.abs (0 - 0))) /\
    (forall k, (k < List.length steps)%nat ->
       exists L, nth_error steps k = Some L /\
                 index2label (0 + Z.of_nat (S k) * Z.sgn (7 - 0),
                              0 + Z.of_nat (S k) * Z.sgn (0 - 0)) = Ok L) /\
    last_elt steps = Ok "A8" /\
    (valid_label "A8" -> last_elt steps = Ok "A8").
Proof.
  apply (path_of_a_line_move rook_duel_start 1%nat "A8"
           (mkPiece Rook "Rook White 1" "R_W1" 1 true "A1" "A1" (Some (0, 0)) []
              false false None 0) (0, 0) (7, 0)).
  - vm_compute. reflexivity.
  - reflexivity.
  - unfold valid_index. simpl. lia.
  - vm_compute. reflexivity.
  - vm_compute. reflexivity.
  - vm_compute. reflexivity.
Defined.

(** ** Promotion *)

(** X7: the test of [check_pawn2x] on the label of the field, a ['1'] or an
    ['8'] in it, is the test for the first or the last row of the board: for a
    piece on an existing field the method answers yes exactly when the piece
    is a pawn and stands in row 0 or row 7. *)
Theorem check_pawn2x_is_the_rank_test :
  forall (s : Game) (self : Ref) (p : Piece) (idx : Idx),
    piece_at s self = Some p ->
    label2index (current_field p) = Ok idx ->
    check_pawn2x self s
    = Ok (PieceClass_eqb (cls p) Pawn && ((fst idx =? 0) || (fst idx =? 7)), s).
Proof.
  intros s self p idx Hp Hl. unfold piece_at in Hp.
  unfold check_pawn2x, bind, piece_of, ret. rewrite Hp. do 3 f_equal.
  destruct (label2index_valid _ _ Hl) as [_ [_ Hv]].
  rewrite <- label2index_np_str in Hl.
  rewrite <- (str_in_np_str "1" (current_field p)), <- (str_in_np_str "8" (current_field p))
    by discriminate.
  destruct Hv as [c [r [Hc [Hr E]]]]. rewrite E in *. clear E.
  unfold column_chars in Hc. unfold row_chars in Hr. simpl in Hc, Hr.
  repeat (destruct Hc as [<-|Hc]; [|try contradiction]);
    repeat (destruct Hr as [<-|Hr]; [|try contradiction]);
    vm_compute in Hl; injection Hl as <-; reflexivity.
Qed.

Lemma check_pawn2x_is_the_rank_test_witness :
  check_pawn2x 1%nat promotion_start
  = Ok (PieceClass_eqb Pawn Pawn && ((6 =? 0) || (6 =? 7)), promotion_start).
Proof.
  apply (check_pawn2x_is_the_rank_test promotion_start 1%nat
           (mkPiece Pawn "Pawn White 1" "P_W1" 1 true "A7" "A7" (Some (6, 0)) []
              false false None 0) (6, 0)).
  - vm_compute. reflexivity.
  - vm_compute. reflexivity.
Defined.

(** ** The en-passant window *)

Lemma reset_en_passant_loop_spec (self : Ref) (refs : list Ref) :
  forall s : Game,
    (forall r, In r refs -> (r < List.length (pieces s))%nat) ->
    exists ps' : list Piece,
      reset_en_passant_loop refs self s = Ok (tt, set_pieces ps' s) /\
      List.length ps' = List.length (pieces s) /\
      forall r p, nth_error (pieces s) r = Some p ->
        nth_error ps' r
        = Some (if negb (Nat.eqb r self) && existsb (Nat.eqb r) refs
                then set_receive_en_passant false p else p).
Proof.
  induction refs as [|r0 rest IH]; intros s Hin.
  - exists (pieces s). simpl. split; [destruct s; reflexivity|]. split; [reflexivity|].
    intros r p Hp. rewrite andb_false_r. exact Hp.
  - cbn [reset_en_passant_loop].
    assert (Hr0 : (r0 < List.length (pieces s))%nat) by (apply Hin; left; reflexivity).
    destruct (nth_error (pieces s) r0) as [p0|] eqn:Ep0;
      [|apply nth_error_None in Ep0; lia].
    destruct (Nat.eqb_spec r0 self) as [E|E]; simpl negb; cbv iota.
    + destruct (IH s) as [ps' [H1 [H2 H3]]]; [intros r Hr; apply Hin; right; exact Hr|].
      exists ps'. unfold bind at 1. unfold ret at 1. split; [exact H1|].
      split; [exact H2|].
      intros r p Hp. rewrite (H3 r p Hp). f_equal. cbn [existsb].
      destruct (Nat.eqb_spec r self) as [Er|Er]; [reflexivity|].
      destruct (Nat.eqb_spec r r0) as [Er0|Er0]; [congruence|]. reflexivity.
    + set (s1 := set_pieces (list_set (pieces s) r0 (set_receive_en_passant false p0)) s).
      destruct (IH s1) as [ps' [H1 [H2 H3]]].
      { intros r Hr. subst s1. simpl. rewrite list_set_length. apply Hin. right. exact Hr. }
      exists ps'. unfold bind at 1. unfold upd_piece. rewrite Ep0. fold s1.
      split; [rewrite H1; reflexivity|].
      split; [rewrite H2; subst s1; simpl; apply list_set_length|].
      intros r p Hp. cbn [existsb].
      destruct (Nat.eqb_spec r r0) as [Er0|Er0].
      * subst r0. rewrite Ep0 in Hp. injection Hp as <-.
        rewrite (H3 r (set_receive_en_passant false p0)).
        -- f_equal. destruct (Nat.eqb_spec r self) as [Er|Er]; [congruence|].
           simpl. destruct (existsb (Nat.eqb r) rest); reflexivity.
        -- subst s1. simpl. apply nth_error_list_set_eq. exact Hr0.
      * rewrite (H3 r p); [reflexivity|].
        subst s1. simpl. rewrite nth_error_list_set_neq by congruence. exact Hp.
Qed.

(** X8: [reset_en_passant] always returns; it clears [receive_en_passant] of
    every registered piece but the caller, living or captured, pawn or not,
    and changes nothing else: the caller's own flag, every other field of
    every piece, the board and the globals stay. *)
Theorem reset_en_passant_spares_only_the_caller :
  forall (s : Game) (self : Ref),
    exists ps' : list Piece,
      reset_en_passant self s = Ok (tt, set_pieces ps' s) /\
      List.length ps' = List.length (pieces s) /\
      forall (r : Ref) (p : Piece),
        piece_at s r = Some p ->
        nth_error ps' r
        = Some (if Nat.eqb r self then p else set_receive_en_passant false p).
Proof.
  intros s self. unfold reset_en_passant, bind, gets.
  destruct (reset_en_passant_loop_spec self (seq 0 (List.length (pieces s))) s)
    as [ps' [H1 [H2 H3]]].
  { intros r Hr. apply in_seq in Hr. lia. }
  exists ps'. split; [exact H1|]. split; [exact H2|].
  intros r p Hp. unfold piece_at in Hp. rewrite (H3 r p Hp). f_equal.
  assert (Hin : existsb (Nat.eqb r) (seq 0 (List.length (pieces s))) = true).
  { apply existsb_exists. exists r. split; [|apply Nat.eqb_refl].
    apply in_seq. assert (r < List.length (pieces s))%nat; [|lia].
    apply nth_error_Some. congruence. }
  rewrite Hin, andb_true_r. destruct (Nat.eqb r self); reflexivity.
Qed.

(** ** The start of a game *)

Lemma instantiate_pieces_spec (roster : list (string * string * Z * string)) :
  forall (ps : list Piece) (s0 : Game),
    map make_piece roster = map Ok ps ->
    instantiate_pieces roster s0 = Ok (tt, set_pieces (pieces s0 ++ ps) s0).
Proof.
  induction roster as [|row rest IH]; intros ps s0 H.
  - destruct ps; [|discriminate]. simpl. unfold ret. rewrite app_nil_r.
    destruct s0. reflexivity.
  - destruct ps as [|p ps]; [discriminate|]. simpl in H. injection H as Hrow Hrest.
    destruct row as [[[nl ns] col] fld]. unfold make_piece in Hrow.
    destruct (first_word nl) as [w|] eqn:Ew; [|discriminate]. cbn [res_bind] in Hrow.
    destruct (class_of_name w) as [c|] eqn:Ec; [|discriminate]. cbn [res_bind] in Hrow.
    destruct (label2index fld) as [idx|] eqn:El; [|discriminate]. cbn [res_bind] in Hrow.
    injection Hrow as <-.
    cbn [instantiate_pieces fst]. unfold bind at 1. unfold lift at 1. rewrite Ew.
    unfold bind at 1. unfold obj_from_string, init_piece.
    unfold bind, lift, gets, modify, ret. rewrite Ec, El.
    rewrite (fun st => IH ps st Hrest). simpl. rewrite <- app_assoc. reflexivity.
Qed.

Lemma initialize_board_loop_spec (ps : list Piece) :
  forall (i : Ref) (b : Board),
    board_shape b ->
    Forall (fun p => exists idx, field_idx p = Some idx /\ valid_index idx) ps ->
    exists b' : Board,
      initialize_board_loop ps i b = Ok b' /\ board_shape b' /\
      (forall idx, valid_index idx -> (forall p, In p ps -> field_idx p <> Some idx) ->
                   np_get b' idx = np_get b idx) /\
      (NoDup (map field_idx ps) ->
       forall k p idx, nth_error ps k = Some p -> field_idx p = Some idx ->
                       np_get b' idx = Ok (Some (i + k)%nat)).
Proof.
  induction ps as [|p0 rest IH]; intros i b Hb Hall.
  - exists b. simpl. split; [reflexivity|]. split; [exact Hb|]. split; [reflexivity|].
    intros _ [|k] p idx H; discriminate H.
  - inversion Hall as [|? ? [idx0 [Hf0 Hv0]] Hrest]; subst.
    destruct (np_set_valid b idx0 (Some i) Hb Hv0) as [b1 [Eset [Hb1 [Eg1 Ho1]]]].
    destruct (IH (S i) b1 Hb1 Hrest) as [b' [E' [Hb' [Hout Hin]]]].
    exists b'. cbn [initialize_board_loop]. rewrite Hf0. cbn [board_set].
    rewrite Eset. cbn [res_bind]. split; [exact E'|]. split; [exact Hb'|]. split.
    + intros idx Hv Hno. rewrite Hout.
      * apply Ho1; [exact Hv|]. intros ->. apply (Hno p0); [left; reflexivity | exact Hf0].
      * exact Hv.
      * intros p Hp. apply Hno. right. exact Hp.
    + intros Hnd [|k] p idx Hp Hf.
      * simpl in Hp. injection Hp as <-. rewrite Hf0 in Hf. injection Hf as <-.
        rewrite Nat.add_0_r. rewrite Hout; [exact Eg1 | exact Hv0 |].
        intros p Hp Hf. simpl in Hnd. inversion Hnd as [|? ? Hnot _]; subst.
        apply Hnot. rewrite Hf0, <- Hf. apply in_map. exact Hp.
      * simpl in Hp. simpl in Hnd. inversion Hnd as [|? ? _ Hnd']; subst.
        replace (i + S k)%nat with (S i + k)%nat by lia.
        eapply Hin; eassumption.
Qed.

Lemma make_piece_inv (row : string * string * Z * string) (p : Piece) :
  make_piece row = Ok p ->
  exists idx, label2index (snd row) = Ok idx /\ field_idx p = Some idx /\
              current_field p = snd row /\ is_alive p = true /\
              name p = fst (fst (fst row)) /\ short_name p = snd (fst (fst row)) /\
              color p = snd (fst row).
Proof.
  destruct row as [[[nl ns] col] fld]. unfold make_piece.
  destruct (first_word nl) as [w|]; [|discriminate]. cbn [res_bind].
  destruct (class_of_name w) as [c|]; [|discriminate]. cbn [res_bind].
  destruct (label2index fld) as [idx|] eqn:El; [|discriminate]. cbn [res_bind].
  intros H. injection H as <-. exists idx. simpl. repeat split. exact El.
Qed.

Lemma made_pieces_on_board (roster : list (string * string * Z * string)) :
  forall ps : list Piece,
    map make_piece roster = map Ok ps ->
    Forall (fun p => exists idx, field_idx p = Some idx /\ valid_index idx) ps.
Proof.
  induction roster as [|row rest IH]; intros [|p ps] H; try discriminate; constructor.
  - simpl in H. injection H as Hrow _.
    destruct (make_piece_inv _ _ Hrow) as [idx [Hl [Hf _]]].
    exists idx. split; [exact Hf|]. apply (label2index_valid _ _ Hl).
  - simpl in H. injection H as _ Hrest. apply IH. exact Hrest.
Qed.

(** X10: [instantiate_pieces] and [initialize_board] start a game from every
    roster whose rows name a class of the module and an existing field: the
    registry then holds one piece per row, in the order of the rows, each as
    its constructor call makes it (alive, on its start field, no move made),
    the board has its 8x8 shape, and the class attributes have their initial
    values. *)
Theorem new_game_registers_the_roster :
  forall (roster : list (string * string * Z * string)) (ps : list Piece),
    map make_piece roster = map Ok ps ->
    exists s : Game,
      new_game roster = Ok s /\
      pieces s = ps /\
      board_shape (board_objects s) /\
      set_board_objects [] (set_pieces [] s) = set_board_objects [] blank_game.
Proof.
  intros roster ps H. unfold new_game.
  rewrite (instantiate_pieces_spec roster ps blank_game H).
  destruct (initialize_board_loop_spec ps 0%nat (repeat (repeat None 8%nat) 8%nat))
    as [b [Eb [Hb _]]].
  - apply blank_board_shape.
  - eapply made_pieces_on_board. exact H.
  - unfold initialize_board. simpl (pieces _). rewrite Eb. cbn [res_bind].
    eexists. split; [reflexivity|]. repeat split; apply Hb.
Qed.

Lemma new_game_registers_the_roster_witness :
  exists s : Game,
    new_game rook_duel_roster = Ok s /\
    pieces s = pieces rook_duel_start /\
    board_shape (board_objects s) /\
    set_board_objects [] (set_pieces [] s) = set_board_objects [] blank_game.
Proof.
  apply (new_game_registers_the_roster rook_duel_roster (pieces rook_duel_start)).
  vm_compute. reflexivity.
Defined.

Lemma instantiate_pieces_inv (roster : list (string * string * Z * string)) :
  forall (s0 s1 : Game),
    instantiate_pieces roster s0 = Ok (tt, s1) ->
    exists ps, map make_piece roster = map Ok ps.
Proof.
  induction roster as [|row rest IH]; intros s0 s1 H.
  - exists []. reflexivity.
  - destruct row as [[[nl ns] col] fld].
    cbn [instantiate_pieces fst] in H.
    unfold obj_from_string, init_piece in H. inv_all.
    match goal with
    | Hr : instantiate_pieces rest _ = Ok _ |- _ => destruct (IH _ _ Hr) as [ps Hps]
    end.
    eexists (_ :: ps). simpl.
    repeat match goal with
           | E : _ = Ok _ |- _ => rewrite E; cbn [res_bind]; clear E
           end.
    rewrite Hps. reflexivity.
Qed.

Lemma blank_cell (idx : Idx) :
  valid_index idx -> np_get (repeat (repeat (@None Ref) 8%nat) 8%nat) idx = Ok None.
Proof.
  intros Hv. destruct blank_board_shape as [Hl Hr].
  destruct (np_get_spec _ idx Hl Hr Hv) as [row [c [E1 [_ [E2 E3]]]]].
  rewrite E3. f_equal.
  apply nth_error_In in E1. apply repeat_spec in E1. subst row.
  apply nth_error_In in E2. apply repeat_spec in E2. exact E2.
Qed.

Lemma label2index_injective (a b : string) (idx : Idx) :
  valid_label a -> valid_label b ->
  label2index a = Ok idx -> label2index b = Ok idx -> a = b.
Proof.
  intros Va Vb Ha Hb.
  destruct (label2index_valid _ _ Ha) as [_ [Ea _]].
  destruct (label2index_valid _ _ Hb) as [_ [Eb _]].
  rewrite (np_str_valid _ Va) in Ea. rewrite (np_str_valid _ Vb) in Eb. congruence.
Qed.

Lemma made_pieces_rows (roster : list (string * string * Z * string)) (ps : list Piece) :
  map make_piece roster = map Ok ps ->
  forall k p, nth_error ps k = Some p ->
    exists row, nth_error roster k = Some row /\ make_piece row = Ok p.
Proof.
  intros H k p Hp.
  assert (E : nth_error (map make_piece roster) k = Some (Ok p)).
  { rewrite H, nth_error_map, Hp. reflexivity. }
  rewrite nth_error_map in E.
  destruct (nth_error roster k) as [row|]; [|discriminate].
  exists row. split; [reflexivity|]. simpl in E. congruence.
Qed.

Lemma made_pieces_distinct (roster : list (string * string * Z * string)) :
  forall ps : list Piece,
    map make_piece roster = map Ok ps ->
    Forall valid_label (map snd roster) ->
    NoDup (map snd roster) -> NoDup (map field_idx ps).
Proof.
  induction roster as [|row rest IH]; intros [|p ps] H Hval Hnd; try discriminate.
  - constructor.
  - simpl in H. injection H as Hrow Hrest. simpl in Hnd, Hval.
    inversion Hval as [|? ? Hv0 Hval']; subst.
    inversion Hnd as [|? ? Hnot Hnd']; subst. simpl. constructor.
    + intros Hin. apply Hnot. apply in_map_iff in Hin. destruct Hin as [q [Eq Hq]].
      apply In_nth_error in Hq. destruct Hq as [k Hk].
      destruct (made_pieces_rows rest ps Hrest k q Hk) as [row' [Hr' Hm']].
      destruct (make_piece_inv _ _ Hrow) as [idx [Hl [Hf _]]].
      destruct (make_piece_inv _ _ Hm') as [idx' [Hl' [Hf' _]]].
      assert (idx' = idx) by congruence. subst idx'.
      assert (Hv' : valid_label (snd row')).
      { rewrite Forall_forall in Hval'. apply Hval'. apply in_map.
        eapply nth_error_In. exact Hr'. }
      rewrite (label2index_injective _ _ _ Hv0 Hv' Hl Hl').
      apply in_map. eapply nth_error_In. exact Hr'.
    + apply IH; assumption.
Qed.

Lemma option_Idx_eq_dec (a b : option Idx) : {a = b} + {a <> b}.
Proof. decide equality. apply Idx_eq_dec. Qed.

(** X11: when the start fields of the roster are labels of the board and
    distinct, the game starts with board and registry in agreement: every
    piece stands on the cell of its start field, and every occupied cell holds
    a living piece whose position and field label are those of the cell. *)
Theorem new_game_board_is_consistent :
  forall (roster : list (string * string * Z * string)) (s : Game),
    new_game roster = Ok s ->
    Forall valid_label (map snd roster) ->
    NoDup (map snd roster) ->
    board_consistent s /\
    forall (i : Ref) (p : Piece),
      piece_at s i = Some p ->
      exists idx, field_idx p = Some idx /\ valid_index idx /\
                  np_get (board_objects s) idx = Ok (Some i).
Proof.
  intros roster s H Hval Hnd. unfold new_game in H.
  destruct (instantiate_pieces roster blank_game) as [[[] s1]|] eqn:E1; [|discriminate].
  destruct (instantiate_pieces_inv _ _ _ E1) as [ps Hps].
  rewrite (instantiate_pieces_spec roster ps blank_game Hps) in E1.
  injection E1 as <-. simpl (pieces _) in H.
  pose proof (made_pieces_on_board roster ps Hps) as Hon.
  destruct (initialize_board_loop_spec ps 0%nat _ blank_board_shape Hon)
    as [b [Eb [Hb [Hout Hin]]]].
  unfold initialize_board in H. rewrite Eb in H. cbn [res_bind] in H. injection H as <-.
  specialize (Hin (made_pieces_distinct roster ps Hps Hval Hnd)).
  split.
  - intros idx r Hv Hg. simpl in Hg. unfold piece_at. simpl (pieces _).
    destruct (in_dec option_Idx_eq_dec (Some idx) (map field_idx ps)) as [Hi|Hi].
    + apply in_map_iff in Hi. destruct Hi as [p [Hf Hp]].
      apply In_nth_error in Hp. destruct Hp as [k Hk].
      rewrite (Hin k p idx Hk Hf) in Hg. injection Hg as <-. simpl.
      exists p. split; [exact Hk|].
      destruct (made_pieces_rows roster ps Hps k p Hk) as [row [Hrow Hm]].
      destruct (make_piece_inv _ _ Hm) as [idx' [Hl [Hf' [Hc [Ha _]]]]].
      assert (idx' = idx) by congruence. subst idx'.
      split; [exact Ha|]. split; [exact Hf|].
      assert (Hv' : valid_label (snd row)).
      { rewrite Forall_forall in Hval. apply Hval. apply in_map.
        eapply nth_error_In. exact Hrow. }
      rewrite Hc, <- (np_str_valid _ Hv') at 1. apply (label2index_valid _ _ Hl).
    + rewrite Hout in Hg; [rewrite blank_cell in Hg by exact Hv; discriminate | exact Hv |].
      intros p Hp Hf. apply Hi. rewrite <- Hf. apply in_map. exact Hp.
  - intros i p Hp. unfold piece_at in Hp. simpl (pieces _) in Hp.
    rewrite Forall_forall in Hon.
    destruct (Hon p (nth_error_In _ _ Hp)) as [idx [Hf Hv]].
    exists idx. split; [exact Hf|]. split; [exact Hv|].
    simpl. apply (Hin i p idx Hp Hf).
Qed.

Lemma new_game_board_is_consistent_witness :
  board_consistent standard_start /\
  forall (i : Ref) (p : Piece),
    piece_at standard_start i = Some p ->
    exists idx, field_idx p = Some idx /\ valid_index idx /\
                np_get (board_objects standard_start) idx = Ok (Some i).
Proof.
  apply (new_game_board_is_consistent standard_roster standard_start).
  - vm_compute. reflexivity.
  - unfold standard_roster. cbn [map snd].
    repeat (constructor; [apply in_field_names; vm_compute; tauto|]). constructor.
  - vm_compute. repeat (constructor; [intros H; repeat (destruct H as [H|H]; [discriminate H|]); exact H|]). constructor.
Defined.

(** ** Castling *)

Lemma find_rochade_rook_spec (ps : list Piece) :
  forall (i r : Ref) (c h : Z),
    find_rochade_rook ps i c h = Some r ->
    exists q, (i <= r)%nat /\ nth_error ps (r - i) = Some q /\
              str_in "Rook" (name q) = true /\ color q = c /\ is_alive q = true /\
              rochade_rook_ok h q = true.
Proof.
  induction ps as [|p t IH]; intros i r c h H; [discriminate|].
  cbn [find_rochade_rook] in H.
  destruct ((str_in "Rook" (name p) && (color p =? c) && is_alive p) && rochade_rook_ok h p)
    eqn:E.
  - injection H as <-. exists p. rewrite Nat.sub_diag.
    apply andb_prop in E. destruct E as [E E4].
    apply andb_prop in E. destruct E as [E E3].
    apply andb_prop in E. destruct E as [E1 E2]. apply Z.eqb_eq in E2.
    repeat split; auto.
  - destruct (IH _ _ _ _ H) as [q [Hle [Hq Hrest]]].
    exists q. split; [lia|]. split; [|exact Hrest].
    replace (r - i)%nat with (S (r - S i)) by lia. exact Hq.
Qed.

(** X12: [check_rochade] reads the state and never writes it.  It offers
    castling only outside test mode, for one of the two castling vectors, to a
    king whose color has not been noted in [was_checked], and the rook it
    names is a registered living piece of the king's color with [Rook] in its
    name; when it refuses, it names no rook. *)
Theorem castling_is_offered_only_when_allowed :
  forall (s s' : Game) (self : Ref) (v : Vec) (is_test b : bool) (rook : option Ref)
         (p : Piece),
    piece_at s self = Some p ->
    check_rochade self v is_test s = Ok ((b, rook), s') ->
    s' = s /\
    (if b
     then is_test = false /\ vec_in v KingMoves.rochade = true /\
          py_nth (was_checked s) (color p - 1) = Ok false /\
          exists r q, rook = Some r /\ piece_at s r = Some q /\
                      str_in "Rook" (name q) = true /\ color q = color p /\
                      is_alive q = true
     else rook = None).
Proof.
  intros s s' self v t b rook p Hp H. unfold piece_at in Hp.
  unfold check_rochade in H. inv_ok H. inv_ok H0. rewrite Hp in H0. injection H0 as <-.
  inv_ok H.
  assert (Hc : s0 = s /\
               (a = true -> t = false /\ vec_in v KingMoves.rochade = true /\
                            py_nth (was_checked s) (color p - 1) = Ok false)).
  { destruct (vec_in v KingMoves.rochade).
    - inv_all. split; [reflexivity|]. intros E.
      apply andb_prop in E. destruct E as [E1 E2].
      apply negb_true_iff in E1. apply negb_true_iff in E2. subst.
      repeat split; assumption.
    - inv_all. split; [reflexivity|]. intros E. discriminate E. }
  destruct Hc as [-> Hc]. clear H0.
  assert (Hinj : forall (x : bool * option Ref) (u : Game),
            ret x s = Ok (b, rook, u) -> u = s /\ b = fst x /\ rook = snd x).
  { intros x u E. unfold ret in E. injection E as E1 E2. subst x u. auto. }
  destruct a.
  - destruct (Hc eq_refl) as [Ht [Hv Hw]]. inv_all.
    destruct (find_rochade_rook (pieces s) 0%nat (color p) (snd v)) as [r|] eqn:Er.
    + destruct (Hinj _ _ H) as [-> [-> ->]]. split; [reflexivity|].
      destruct (find_rochade_rook_spec _ _ _ _ _ Er) as [q [_ [Hq [H1 [H2 [H3 _]]]]]].
      rewrite Nat.sub_0_r in Hq. cbn [fst snd].
      split; [reflexivity|]. split; [exact Hv|]. split; [exact Hw|].
      exists r, q. unfold piece_at. repeat split; assumption.
    + destruct (Hinj _ _ H) as [-> [-> ->]]. split; reflexivity.
  - destruct (Hinj _ _ H) as [-> [-> ->]]. split; reflexivity.
Qed.


Lemma castling_is_offered_only_when_allowed_witness :
  rook_duel_start = rook_duel_start /\
  false = false /\ vec_in (0, -2) KingMoves.rochade = true /\
  py_nth (was_checked rook_duel_start) (1 - 1) = Ok false /\
  exists r q, Some 1%nat = Some r /\ piece_at rook_duel_start r = Some q /\
              str_in "Rook" (name q) = true /\ color q = 1 /\ is_alive q = true.
Proof.
  apply (castling_is_offered_only_when_allowed rook_duel_start rook_duel_start 0%nat
           (0, -2) false true (Some 1%nat)
           (mkPiece King "King White" "K_W" 1 true "E1" "E1" (Some (0, 4)) []
              false false None 0)).
  - vm_compute. reflexivity.
  - vm_compute. reflexivity.
Defined.

(** ** A move on the board *)

(** X13: [move_piece] for a move that is no capture, of a piece that stands
    on the board, to an existing field returns the board as it was before and
    puts the piece on the destination: the source cell is emptied, the
    destination cell holds the piece, no other cell changes, the piece gets
    the new position and remembers the old field in [last_field], and the
    promotion marker is set exactly for a pawn that lands on a field with a
    [1] or an [8] in its label and cleared otherwise.  No other piece and no
    other global changes. *)
Theorem move_piece_places_the_piece :
  forall (s : Game) (self : Ref) (move_to : string) (v : Z) (p : Piece) (src idx : Idx),
    board_shape (board_objects s) ->
    piece_at s self = Some p -> field_idx p = Some src -> valid_index src ->
    label2index move_to = Ok idx ->
    v <> code_opponent ->
    exists s' : Game,
      move_piece self move_to v false s = Ok (board_objects s, s') /\
      pieces s' = list_set (pieces s) self
                    (set_field_idx (Some idx)
                       (set_current_field move_to (set_last_field (current_field p) p))) /\
      np_get (board_objects s') idx = Ok (Some self) /\
      (src <> idx -> np_get (board_objects s') src = Ok None) /\
      (forall c, valid_index c -> c <> src -> c <> idx ->
                 np_get (board_objects s') c = np_get (board_objects s) c) /\
      promote_piece s'
      = (if PieceClass_eqb (cls p) Pawn && (str_in "1" move_to || str_in "8" move_to)
         then Some self else None) /\
      set_promote_piece None (set_board_objects [] (set_pieces [] s'))
      = set_promote_piece None (set_board_objects [] (set_pieces [] s)).
Proof.
  intros s self move_to v p src idx Hb Hp Hf Hvs Hl Hv. unfold piece_at in Hp.
  destruct (label2index_valid _ _ Hl) as [Hvi _].
  apply Z.eqb_neq in Hv.
  match goal with
  | |- exists s', ?m s = Ok (?a, s') /\ @?Q s' =>
      cut (wp m (fun x s' => x = a /\ Q s') s);
      [ intros [x [s' [H1 [-> H2]]]]; exists s'; split; [exact H1 | exact H2] |]
  end.
  unfold move_piece, move_piece_body. wp_exec. rewrite Hf.
  apply wp_set_board; [exact Hb | exact Hvs |]. intros b1 Hb1 Eb1 Ho1.
  wp_exec. rewrite Hv. wp_exec. simpl (field_idx _).
  apply wp_set_board; [exact Hb1 | exact Hvi |]. intros b2 Hb2 Eb2 Ho2.
  wp_exec. unfold check_pawn2x. wp_exec. simpl (cls _). simpl (current_field _).
  norm_state.
  assert (Hcells : np_get b2 idx = Ok (Some self) /\
                   (src <> idx -> np_get b2 src = Ok None) /\
                   (forall c, valid_index c -> c <> src -> c <> idx ->
                              np_get b2 c = np_get (board_objects s) c)).
  { split; [exact Eb2|]. split.
    - intros Hne. rewrite (Ho2 src Hvs Hne). exact Eb1.
    - intros c Hc H1 H2. rewrite (Ho2 c Hc H2). apply (Ho1 c Hc H1). }
  destruct Hcells as [C1 [C2 C3]].
  destruct (PieceClass_eqb (cls p) Pawn && (str_in "1" move_to || str_in "8" move_to));
    wp_exec; (split; [reflexivity|]); norm_state;
    (split; [rewrite !list_set_twice; reflexivity|]);
    (split; [exact C1|]); (split; [exact C2|]); (split; [exact C3|]);
    split; reflexivity.
Qed.

Lemma move_piece_places_the_piece_witness :
  exists s' : Game,
    move_piece P_W5 "E4" code_empty false standard_start
      = Ok (board_objects standard_start, s') /\
    pieces s' = list_set (pieces standard_start) P_W5
                  (set_field_idx (Some (3, 4))
                     (set_current_field "E4"
                        (set_last_field "E2"
                           (mkPiece Pawn "Pawn White 5" "P_W5" 1 true "E2" "E2"
                              (Some (1, 4)) [] false false None 0)))) /\
    np_get (board_objects s') (3, 4) = Ok (Some P_W5) /\
    ((1, 4) <> (3, 4) -> np_get (board_objects s') (1, 4) = Ok None) /\
    (forall c, valid_index c -> c <> (1, 4) -> c <> (3, 4) ->
               np_get (board_objects s') c = np_get (board_objects standard_start) c) /\
    promote_piece s' = None /\
    set_promote_piece None (set_board_objects [] (set_pieces [] s'))
    = set_promote_piece None (set_board_objects [] (set_pieces [] standard_start)).
Proof.
  apply (move_piece_places_the_piece standard_start P_W5 "E4" code_empty
           (mkPiece Pawn "Pawn White 5" "P_W5" 1 true "E2" "E2" (Some (1, 4)) []
              false false None 0) (1, 4) (3, 4)).
  - apply board_shapeb_ok. vm_compute. reflexivity.
  - vm_compute. reflexivity.
  - reflexivity.
  - unfold valid_index. simpl. lia.
  - vm_compute. reflexivity.
  - discriminate.
Defined.

(** ** The check detector without a king *)

Lemma check_check_loop_no_target (cm : Ref -> string -> Z -> bool -> M (Z * string))
    (c : Z) (s : Game) :
  forall (l : list Piece) (a : nat),
    skipn a (pieces s) = l ->
    check_check_loop cm (seq a (List.length l)) c None s
    = if existsb (fun p => negb (color p =? c) && is_alive p) l
      then Raise UnboundLocalError else Ok (false, s).
Proof.
  induction l as [|p t IH]; intros a Hl.
  - reflexivity.
  - assert (Hp : nth_error (pieces s) a = Some p).
    { rewrite <- (firstn_skipn a (pieces s)) at 1. rewrite Hl.
      assert (Hlen : (a <= List.length (pieces s))%nat).
      { destruct (Nat.le_gt_cases a (List.length (pieces s))) as [H|H]; [exact H|].
        rewrite skipn_all2 in Hl by lia. discriminate. }
      rewrite nth_error_app2 by (rewrite length_firstn; lia).
      rewrite length_firstn. replace (a - Nat.min a (List.length (pieces s)))%nat with 0%nat by lia.
      reflexivity. }
    assert (Ht : skipn (S a) (pieces s) = t).
    { replace (S a) with (1 + a)%nat by lia. rewrite <- skipn_skipn, Hl. reflexivity. }
    cbn [List.length seq check_check_loop existsb].
    unfold bind at 1. unfold piece_of. rewrite Hp.
    destruct (negb (color p =? c) && is_alive p).
    + reflexivity.
    + simpl orb. apply IH. exact Ht.
Qed.

(** X14: when the registry holds no king of the color asked about,
    [check_check] raises [UnboundLocalError] as soon as a living piece of
    another color is registered (the field of the king was never assigned),
    and otherwise answers no and leaves the state alone. *)
Theorem check_check_without_king :
  forall (s : Game) (fuel : nat) (c : Z) (is_test : bool),
    find_king (pieces s) c = None ->
    check_check fuel c is_test s
    = if existsb (fun p => negb (color p =? c) && is_alive p) (pieces s)
      then Raise UnboundLocalError else Ok (false, s).
Proof.
  intros s fuel c is_test Hk.
  unfold check_check, check_check_body, bind, gets. rewrite Hk.
  apply check_check_loop_no_target. reflexivity.
Qed.

Lemma check_check_without_king_witness :
  check_check 5 3 false standard_start = Raise UnboundLocalError.
Proof.
  apply (check_check_without_king standard_start 5 3 false). reflexivity.
Defined.

(** ** The board array *)

(** X15: the board keeps its shape.  In every state the game reaches from a
    roster, by moves, the clean-up of the GUI, promotions and reloads of
    snapshots of reached states, the board has 8 rows of 8 cells, also after
    the writes with the position [None] of a captured piece. *)
Theorem board_keeps_its_shape :
  forall s : Game, reachable s -> board_shape (board_objects s).
Proof.
  intros s H. destruct (reachable_sound s H) as [_ Hb]. exact Hb.
Qed.

Lemma board_keeps_its_shape_witness : board_shape (board_objects standard_start).
Proof.
  apply (board_keeps_its_shape standard_start).
  apply (reach_new standard_roster). vm_compute. reflexivity.
Defined.

(** ** Promotion to a class without a counter *)

Lemma dict_get_missing (d : list (string * Z)) (k : string) :
  ~ In k (map fst d) -> dict_get d k = Raise KeyError.
Proof.
  induction d as [|[k' v] t IH]; intros H; [reflexivity|].
  simpl. destruct (String.eqb_spec k' k) as [E|E].
  - exfalso. apply H. left. exact E.
  - apply IH. intros Hin. apply H. right. exact Hin.
Qed.

(** X16: [promote_pawn] raises [KeyError] for every class name that has no
    entry in [promotion_counter], whatever the pawn is: with the counters of
    the class statement a pawn cannot be promoted to a king or a pawn, nor to
    a misspelt class. *)
Theorem promotion_needs_a_counter :
  forall (s : Game) (fuel : nat) (pawn : option Ref) (to_class : string),
    ~ In to_class (map fst (promotion_counter s)) ->
    promote_pawn fuel pawn to_class s = Raise KeyError.
Proof.
  intros s fuel pawn to_class H.
  unfold promote_pawn, promote_pawn_body, bind, gets, lift.
  rewrite (dict_get_missing _ _ H). reflexivity.
Qed.

Lemma promotion_needs_a_counter_witness :
  promote_pawn 5 (Some 1%nat) "King" promotion_start = Raise KeyError.
Proof.
  apply (promotion_needs_a_counter promotion_start 5 (Some 1%nat) "King").
  vm_compute. intros H. repeat (destruct H as [H|H]; [discriminate H|]). exact H.
Defined.

(** ** The names of a promoted piece *)

Section IdentKept.

Variable L : list (PieceClass * string * string * Z).

Let Inv (ps : list Piece) (b : Board) : Prop := map ident ps = L.

Lemma ident_benign (ps : list Piece) (b : Board) (r : nat) (p : Piece)
    (f : Piece -> Piece) :
  nth_error ps r = Some p -> benign f -> Inv ps b -> Inv (list_set ps r (f p)) b.
Proof.
  intros Hp Hf H. unfold Inv.
  rewrite (map_list_set_same ident ps r p (f p)); auto. apply Hf.
Qed.

Lemma ident_moves (ps : list Piece) (b : Board) (r : nat) (p : Piece) (l : list Vec) :
  nth_error ps r = Some p -> no_zero l -> Inv ps b ->
  Inv (list_set ps r (set_possible_moves l p)) b.
Proof.
  intros Hp _ H. unfold Inv.
  rewrite (map_list_set_same ident ps r p (set_possible_moves l p)); auto.
Qed.

Lemma ident_board (ps : list Piece) (b : Board) (idx : option Idx) (v : option Ref)
    (b' : Board) :
  board_set b idx v = Ok b' -> Inv ps b -> Inv ps b'.
Proof. intros _ H. exact H. Qed.

End IdentKept.

Lemma dict_get_set (d : list (string * Z)) (k : string) (n v : Z) :
  dict_get d k = Ok n -> dict_get (dict_set d k v) k = Ok v.
Proof.
  induction d as [|[k' v'] t IH]; intros H; [discriminate|].
  simpl in *. destruct (String.eqb k' k) eqn:E.
  - simpl. rewrite E. reflexivity.
  - simpl. rewrite E. apply IH. exact H.
Qed.

(** X17: a promotion that returns has added one piece at the end of the
    registry and changed the class, names and color of no other: the new
    piece has the chosen class and the color of the pawn, its long name is the
    class name and [White] or [Black], and its short name is the first letter
    of the class ([N] for a knight), the first letter of the color and the
    counter of the class after its increment. *)
Theorem promotion_names_the_new_piece :
  forall (s s' : Game) (fuel : nat) (pw : Ref) (to_class : string),
    promote_pawn fuel (Some pw) to_class s = Ok (tt, s') ->
    exists (pp : Piece) (c : PieceClass) (n : Z),
      piece_at s pw = Some pp /\
      class_of_name to_class = Ok c /\
      dict_get (promotion_counter s) to_class = Ok n /\
      map ident (pieces s')
      = map ident (pieces s) ++
        [(c,
          String.append to_class
            (String.append " " (if color pp =? 1 then "White" else "Black")),
          String.append (if negb (String.eqb to_class "Knight")
                         then first_char to_class else "N")
            (String.append "_"
               (String.append (first_char (if color pp =? 1 then "White" else "Black"))
                  (str_of_Z (n + 1)))),
          color pp)].
Proof.
  intros s s' fuel pw to_class H.
  unfold promote_pawn, promote_pawn_body in H.
  do 10 bind_step H. bind_step H.
  unfold attr, set_board in *. inv_all.
  match goal with
  | Hc : obj_from_string _ _ _ = Ok _ |- _ =>
      unfold obj_from_string, init_piece in Hc; inv_all
  end.
  simpl in *.
  match goal with
  | Hp : nth_error (pieces s) pw = Some ?x |- _ =>
      repeat match goal with
             | Hq : nth_error (pieces s) pw = Some ?y |- _ =>
                 lazymatch y with
                 | x => fail
                 | _ => assert (y = x) by congruence; subst y
                 end
             end
  end.
  match goal with
  | Hd : dict_get (promotion_counter s) to_class = Ok ?n,
    Hd' : dict_get (dict_set _ _ _) to_class = Ok ?n' |- _ =>
      rewrite (dict_get_set _ _ _ _ Hd) in Hd'; injection Hd' as <-
  end.
  match goal with
  | Hp : nth_error (pieces s) pw = Some ?pp,
    Hc : class_of_name to_class = Ok ?c,
    Hd : dict_get (promotion_counter s) to_class = Ok ?n |- _ =>
      exists pp, c, n; split; [exact Hp|]; split; [exact Hc|]; split; [exact Hd|]
  end.
  match goal with
  | Hk : kill_piece _ _ _ ?s1 = Ok (_, ?s2), Hm : check_checkmate _ _ _ ?s2 = Ok _ |- _ =>
      match goal with
      | |- _ = ?L =>
          assert (I1 : map ident (pieces s1) = L)
            by (simpl; rewrite map_app; reflexivity);
          assert (I2 : map ident (pieces s2) = L)
            by (eapply (pres_kill_piece (fun ps _ => map ident ps = L));
                eauto using ident_benign, ident_board);
          eapply (pres_check_checkmate (fun ps _ => map ident ps = L));
            eauto using ident_benign, ident_moves, ident_board
      end
  end.
Qed.

Lemma promotion_names_the_new_piece_witness :
  exists (pp : Piece) (c : PieceClass) (n : Z),
    piece_at promotion_pending 1%nat = Some pp /\
    class_of_name "Queen" = Ok c /\
    dict_get (promotion_counter promotion_pending) "Queen" = Ok n /\
    map ident (pieces promotion_done)
    = map ident (pieces promotion_pending) ++
      [(c,
        String.append "Queen"
          (String.append " " (if color pp =? 1 then "White" else "Black")),
        String.append (if negb (String.eqb "Queen" "Knight")
                       then first_char "Queen" else "N")
          (String.append "_"
             (String.append (first_char (if color pp =? 1 then "White" else "Black"))
                (str_of_Z (n + 1)))),
        color pp)].
Proof.
  apply (promotion_names_the_new_piece promotion_pending promotion_done 5 1%nat "Queen").
  vm_compute. reflexivity.
Defined.

(** ** Candidate lists fit the class of their piece *)

Lemma moves_fit_benign (ps : list Piece) (r : nat) (p : Piece) (f : Piece -> Piece) :
  nth_error ps r = Some p -> benign f -> moves_fit ps -> moves_fit (list_set ps r (f p)).
Proof.
  intros Hp Hf H. apply Forall_list_set; [|exact H].
  destruct (Hf p) as [Hi Hm]. rewrite Hm.
  unfold class_vector. unfold ident in Hi.
  assert (Ec : cls (f p) = cls p) by congruence.
  assert (Eo : color (f p) = color p) by congruence.
  rewrite Ec, Eo.
  exact (nth_error_Forall _ _ _ _ H Hp).
Qed.

Lemma moves_fit_append (ps : list Piece) (p : Piece) :
  possible_moves p = [] -> moves_fit ps -> moves_fit (ps ++ [p]).
Proof.
  intros Hp H. apply Forall_app. split; [exact H|].
  constructor; [rewrite Hp; reflexivity | constructor].
Qed.

Section ClassOfSelf.

Variable self : Ref.
Variable C : PieceClass.
Variable col : Z.
Variable F : option Idx.
Variable N : string.
Variable B : Board.

(** The lists fit, the board is [B], and [self] is a piece of class [C],
    color [col] and name [N] that stands on [F]. *)
Let J (ps : list Piece) (b : Board) : Prop :=
  moves_fit ps /\ b = B /\
  exists p, nth_error ps self = Some p /\ cls p = C /\ color p = col /\
            field_idx p = F /\ name p = N.

Local Abbreviation presJ := (preserves J).

Lemma presJ_upd_keep (r : Ref) (f : Piece -> Piece) :
  (forall p, ident (f p) = ident p /\ possible_moves (f p) = possible_moves p /\
             field_idx (f p) = field_idx p) ->
  presJ (upd_piece r f).
Proof.
  intros Hf s u s' H [HG [HB [q [Hq [Hc [Ho [Hi Hn]]]]]]].
  apply upd_piece_ok in H. destruct H as [p [Hp ->]]. simpl.
  destruct (Hf p) as [Hid [Hm Hfi]].
  split; [|split; [exact HB|]].
  - apply moves_fit_benign; [exact Hp | | exact HG].
    intros p0. destruct (Hf p0) as [H1 [H2 _]]. split; assumption.
  - destruct (Nat.eq_dec r self) as [->|Hne].
    + exists (f p). split; [eapply lk_same; exact Hp|].
      rewrite Hp in Hq. injection Hq as <-.
      unfold ident in Hid. repeat split; congruence.
    + exists q. split; [eapply lk_other; [exact Hne | exact Hq]|]. auto.
Qed.

Lemma presJ_upd_moves (l : list Vec) :
  forallb (class_vector_of C col) l = true ->
  presJ (upd_piece self (set_possible_moves l)).
Proof.
  intros Hl s u s' H [HG [HB [q [Hq [Hc [Ho [Hi Hn]]]]]]].
  apply upd_piece_ok in H. destruct H as [p [Hp ->]]. simpl.
  rewrite Hp in Hq. injection Hq as <-.
  split; [|split; [exact HB|]].
  - apply Forall_list_set; [|exact HG]. unfold class_vector. simpl. rewrite Hc, Ho.
    exact Hl.
  - exists (set_possible_moves l p). split; [eapply lk_same; exact Hp|]. auto.
Qed.

(** What [piece_of self] yields is a piece of class [C] and color [col]. *)
Lemma presJ_bind_self {T} (k : Piece -> M T) :
  (forall p, cls p = C -> color p = col -> presJ (k p)) ->
  presJ (bind (piece_of self) k).
Proof.
  intros Hk s b s' H HJ.
  apply bind_ok in H. destruct H as [p [s0 [Hp H]]].
  apply piece_of_ok in Hp. destruct Hp as [Hp ->].
  destruct HJ as [HG [HB [q [Hq [Hc [Ho [Hi Hn]]]]]]].
  rewrite Hp in Hq. injection Hq as <-.
  eapply (Hk p Hc Ho); [exact H|]. split; [exact HG|]. split; [exact HB|].
  exists p. auto.
Qed.

Ltac pj_step :=
  match goal with
  | |- preserves _ (let _ := _ in _) => cbv zeta
  | |- preserves _ (bind (piece_of self) _) =>
      apply presJ_bind_self; intros ? ? ?
  | |- preserves _ (bind _ _) => apply pres_bind; [| intros ?]
  | |- preserves _ (ret _) => apply pres_ret
  | |- preserves _ (raise _) => apply pres_raise
  | |- preserves _ (lift _) => apply pres_lift
  | |- preserves _ (gets _) => apply pres_gets
  | |- preserves _ (piece_of _) => apply pres_piece_of
  | |- preserves _ (get_board _) => apply pres_get_board
  | |- preserves _ (get_move_step _ _) => apply pres_get_move_step
  | |- preserves _ (set_rochade _ _ _) => apply pres_set_rochade
  | |- preserves _ (modify _) => apply pres_modify; intros ?; split; reflexivity
  | |- preserves _ (upd_piece _ (set_possible_moves _)) => apply presJ_upd_moves
  | |- preserves _ (upd_piece _ _) =>
      apply presJ_upd_keep; intros ?; repeat split
  | |- preserves _ (if ?b then _ else _) => destruct b eqn:?
  | |- preserves _ (match ?x with _ => _ end) => destruct x eqn:?
  end.

Ltac pj_go := repeat pj_step.

Lemma presJ_Rook_move_types (l : string) (t : bool) :
  C = Rook -> presJ (Rook_move_types self l t).
Proof.
  intros HC. unfold Rook_move_types. pj_go.
  rewrite HC. cbn [forallb class_vector_of]. rewrite andb_true_r. assumption.
Qed.

Lemma presJ_Bishop_move_types (l : string) (t : bool) :
  C = Bishop -> presJ (Bishop_move_types self l t).
Proof.
  intros HC. unfold Bishop_move_types. pj_go.
  rewrite HC. cbn [forallb class_vector_of]. rewrite andb_true_r. assumption.
Qed.

Lemma presJ_Queen_move_types (l : string) (t : bool) :
  C = Queen -> presJ (Queen_move_types self l t).
Proof.
  intros HC. unfold Queen_move_types. pj_go.
  rewrite HC. cbn [forallb class_vector_of]. rewrite andb_true_r. assumption.
Qed.

Lemma presJ_Knight_move_types (l : string) (t : bool) :
  C = Knight -> presJ (Knight_move_types self l t).
Proof.
  intros HC. unfold Knight_move_types. pj_go. rewrite HC. reflexivity.
Qed.

Lemma presJ_King_move_types (l : string) (t : bool) :
  C = King -> presJ (King_move_types self l t).
Proof.
  intros HC. unfold King_move_types.
  apply pres_bind; [pj_go; rewrite HC; reflexivity | intros _].
  apply pres_bind; [pj_go | intros p].
  destruct (move_idx p =? 0); [|pj_go].
  apply pres_bind; [pj_go | intros v].
  intros s a s' H HI.
  inv_ok H. destruct a0 as [is_roch rook].
  assert (HI0 : J (pieces s0) (board_objects s0)) by (eapply pres_check_rochade; eauto).
  destruct is_roch.
  - assert (Hv : vec_in v KingMoves.rochade = true)
      by (eapply check_rochade_offers; eauto).
    revert H HI0. generalize s0 a s'. change (presJ
      (upd_piece self (set_possible_moves (KingMoves.normal_moves ++ [v])) ;;
       set_rochade self v rook)).
    pj_go. rewrite HC, forallb_app. cbn [forallb class_vector_of].
    rewrite Hv, orb_true_r. reflexivity.
  - inv_ok H. exact HI0.
Qed.

Lemma presJ_Pawn_move_types (l : string) (t : bool) :
  C = Pawn -> presJ (Pawn_move_types self l t).
Proof.
  intros HC. unfold Pawn_move_types. pj_go;
    try reflexivity;
    rewrite HC; unfold class_vector_of;
    match goal with H : color _ = col |- _ => rewrite H end;
    destruct (col =? 2);
    match goal with |- context [move_idx ?p =? 0] => destruct (move_idx p =? 0) end;
    reflexivity.
Qed.

End ClassOfSelf.

(** [move_types] keeps the lists fitting, whatever the class of the piece,
    and leaves the board and the class, color, name and position of the piece
    alone. *)
Lemma move_types_keeps_fit (self : Ref) (l : string) (t : bool) (s s' : Game) (u : unit)
    (p : Piece) :
  move_types self l t s = Ok (u, s') ->
  moves_fit (pieces s) -> nth_error (pieces s) self = Some p ->
  moves_fit (pieces s') /\ board_objects s' = board_objects s /\
  exists q, nth_error (pieces s') self = Some q /\ cls q = cls p /\
            color q = color p /\ field_idx q = field_idx p /\ name q = name p.
Proof.
  intros H HG Hp0. unfold move_types in H.
  apply bind_ok in H. destruct H as [p1 [s0 [Hp H]]].
  apply piece_of_ok in Hp. destruct Hp as [Hp ->].
  rewrite Hp0 in Hp. injection Hp as <-.
  assert (HJ : moves_fit (pieces s) /\ board_objects s = board_objects s /\
               exists q, nth_error (pieces s) self = Some q /\ cls q = cls p /\
                         color q = color p /\ field_idx q = field_idx p /\
                         name q = name p)
    by (split; [exact HG | split; [reflexivity | exists p; auto]]).
  destruct (cls p) eqn:Ec.
  - exact (presJ_Pawn_move_types self Pawn (color p) (field_idx p) (name p)
             (board_objects s) l t eq_refl _ _ _ H HJ).
  - exact (presJ_Rook_move_types self Rook (color p) (field_idx p) (name p)
             (board_objects s) l t eq_refl _ _ _ H HJ).
  - exact (presJ_Knight_move_types self Knight (color p) (field_idx p) (name p)
             (board_objects s) l t eq_refl _ _ _ H HJ).
  - exact (presJ_Bishop_move_types self Bishop (color p) (field_idx p) (name p)
             (board_objects s) l t eq_refl _ _ _ H HJ).
  - exact (presJ_Queen_move_types self Queen (color p) (field_idx p) (name p)
             (board_objects s) l t eq_refl _ _ _ H HJ).
  - exact (presJ_King_move_types self King (color p) (field_idx p) (name p)
             (board_objects s) l t eq_refl _ _ _ H HJ).
Qed.

Lemma moves_fit_move_types (self : Ref) (l : string) (t : bool) :
  preserves (fun ps _ => moves_fit ps) (move_types self l t).
Proof.
  intros s u s' H HG.
  destruct (nth_error (pieces s) self) as [p|] eqn:Hp.
  - exact (proj1 (move_types_keeps_fit self l t s s' u p H HG Hp)).
  - unfold move_types in H. apply bind_ok in H. destruct H as [p1 [s0 [Hp1 _]]].
    apply piece_of_ok in Hp1. destruct Hp1 as [Hp1 _]. congruence.
Qed.

(** ** Invariants that [move_types] keeps

    What the methods above [move_types] keep, for an invariant of registry
    and board that survives the update of a field other than
    [possible_moves], a write to the board and a call of [move_types]. *)

Section AboveMoveTypes.

Variable Inv : list Piece -> Board -> Prop.

Hypothesis Inv_benign : forall ps b r p f,
  nth_error ps r = Some p -> benign f -> Inv ps b -> Inv (list_set ps r (f p)) b.

Hypothesis Inv_board : forall ps b idx v b',
  board_set b idx v = Ok b' -> Inv ps b -> Inv ps b'.

Hypothesis Inv_move_types : forall self l t, preserves Inv (move_types self l t).

Ltac mt_step :=
  match goal with
  | |- preserves _ (let _ := _ in _) => cbv zeta
  | |- preserves _ (bind _ _) => apply pres_bind; [| intros ?]
  | |- preserves _ (ret _) => apply pres_ret
  | |- preserves _ (raise _) => apply pres_raise
  | |- preserves _ (lift _) => apply pres_lift
  | |- preserves _ (gets _) => apply pres_gets
  | |- preserves _ (piece_of _) => apply pres_piece_of
  | |- preserves _ (attr _ _) => apply pres_attr
  | |- preserves _ (get_board _) => apply pres_get_board
  | |- preserves _ (set_board _ _) => apply (pres_set_board Inv Inv_board)
  | |- preserves _ (get_move_step _ _) => apply pres_get_move_step
  | |- preserves _ (get_intermediate_field_names _ _) =>
      apply pres_get_intermediate_field_names
  | |- preserves _ (invalid_request _ _) => apply pres_invalid_request
  | |- preserves _ (check_field _ _ _ _ _) => apply pres_check_field
  | |- preserves _ (intermediate_ok _ _ _ _) => apply pres_intermediate_ok
  | |- preserves _ (check_pawn2x _) => apply pres_check_pawn2x
  | |- preserves _ (move_types _ _ _) => apply Inv_move_types
  | |- preserves _ (kill_piece _ _ _) => apply (pres_kill_piece Inv Inv_benign Inv_board)
  | |- preserves _ (move_piece _ _ _ _) =>
      apply (pres_move_piece Inv Inv_benign Inv_board)
  | |- preserves _ (redo_move _ _ _ _ _) =>
      apply (pres_redo_move Inv Inv_benign Inv_board)
  | |- preserves _ (reset_en_passant _) => apply (pres_reset_en_passant Inv Inv_benign)
  | |- preserves _ (move_counter _) => apply (pres_move_counter Inv Inv_benign)
  | |- preserves _ (modify _) => apply pres_modify; intros ?; split; reflexivity
  | |- preserves _ (upd_piece _ _) => apply (pres_upd_benign Inv Inv_benign); benign_tac
  | |- preserves _ (if ?b then _ else _) => destruct b eqn:?
  | |- preserves _ (match ?x with _ => _ end) => destruct x eqn:?
  | |- preserves _ _ => solve [eauto]
  end.

Ltac mt_go := repeat mt_step.

Section Bodies.

Variable check_move' : Ref -> string -> Z -> bool -> M (Z * string).
Hypothesis pres_check_move' : forall r l c t, preserves Inv (check_move' r l c t).

Lemma mt_check_check_body (c : Z) (t : bool) :
  preserves Inv (check_check_body check_move' c t).
Proof.
  unfold check_check_body. mt_go. apply pres_check_check_loop. exact pres_check_move'.
Qed.

Lemma mt_check_through_check_body (self : Ref) (steps : list string) :
  preserves Inv (check_through_check_body (check_check_body check_move') self steps).
Proof.
  induction steps as [|l rest IH]; simpl; mt_go.
  apply mt_check_check_body.
Qed.

Lemma mt_check_move_body (self : Ref) (move_to : string) (c : Z) (t : bool) :
  preserves Inv (check_move_body
                   (check_through_check_body (check_check_body check_move'))
                   self move_to c t).
Proof.
  pose proof mt_check_through_check_body as Hct.
  unfold check_move_body. mt_go.
Qed.

End Bodies.

Lemma mt_check_move (fuel : nat) (self : Ref) (move_to : string) (c : Z) (t : bool) :
  preserves Inv (check_move fuel self move_to c t).
Proof.
  revert self move_to c t. induction fuel as [|f IH]; intros.
  - apply pres_raise.
  - rewrite check_move_S. apply mt_check_move_body. exact IH.
Qed.

Lemma mt_check_check (fuel : nat) (c : Z) (t : bool) :
  preserves Inv (check_check fuel c t).
Proof. apply mt_check_check_body. apply mt_check_move. Qed.

Section Orchestrator.

Variable execute_move' : Ref -> string -> bool -> M bool.
Hypothesis pres_execute_move' : forall r l t, preserves Inv (execute_move' r l t).

Lemma mt_check_checkmate_body (fuel : nat) (self : Ref) (c : Z) :
  preserves Inv (check_checkmate_body (check_check fuel) execute_move' self c).
Proof.
  pose proof mt_check_check as Hcc.
  pose proof (pres_escape_loop_pieces Inv execute_move' pres_execute_move') as Hel.
  unfold check_checkmate_body. mt_go.
Qed.

Lemma mt_execute_move_body (fuel : nat) (self : Ref) (move_to : string) (t : bool) :
  preserves Inv (execute_move_body (check_move fuel) (check_check fuel)
                   (check_checkmate_body (check_check fuel) execute_move')
                   self move_to t).
Proof.
  pose proof mt_check_check as Hcc. pose proof mt_check_move as Hcm.
  pose proof mt_check_checkmate_body as Hck.
  unfold execute_move_body. mt_go.
Qed.

End Orchestrator.

Lemma mt_execute_move (fuel : nat) (self : Ref) (move_to : string) (t : bool) :
  preserves Inv (execute_move fuel self move_to t).
Proof.
  revert self move_to t. induction fuel as [|f IH]; intros.
  - apply pres_raise.
  - rewrite execute_move_S. apply mt_execute_move_body. exact IH.
Qed.

Lemma mt_check_checkmate (fuel : nat) (self : Ref) (c : Z) :
  preserves Inv (check_checkmate fuel self c).
Proof. apply mt_check_checkmate_body. apply mt_execute_move. Qed.

Lemma mt_move (fuel : nat) (self : Ref) (move_to : string) :
  preserves Inv (move fuel self move_to).
Proof. pose proof mt_execute_move as He. unfold move. mt_go. Qed.

Hypothesis Inv_append : forall ps b p,
  possible_moves p = [] -> Inv ps b -> Inv (ps ++ [p]) b.

Lemma mt_promote_pawn (fuel : nat) (pawn : option Ref) (to_class : string) :
  preserves Inv (promote_pawn fuel pawn to_class).
Proof.
  pose proof mt_check_checkmate as Hck.
  pose proof (pres_obj_from_string Inv Inv_append) as Hob.
  unfold promote_pawn, promote_pawn_body. mt_go.
Qed.

Lemma mt_click_promotion (fuel : nat) (piece_type : string) :
  preserves Inv (click_promotion fuel piece_type).
Proof. pose proof mt_promote_pawn as Hp. unfold click_promotion. mt_go. Qed.

End AboveMoveTypes.

Lemma fit_benign (ps : list Piece) (b : Board) (r : nat) (p : Piece) (f : Piece -> Piece) :
  nth_error ps r = Some p -> benign f -> moves_fit ps -> moves_fit (list_set ps r (f p)).
Proof. apply moves_fit_benign. Qed.

Lemma fit_board (ps : list Piece) (b : Board) (idx : option Idx) (v : option Ref)
    (b' : Board) :
  board_set b idx v = Ok b' -> moves_fit ps -> moves_fit ps.
Proof. intros _ H. exact H. Qed.

Lemma fit_append (ps : list Piece) (b : Board) (p : Piece) :
  possible_moves p = [] -> moves_fit ps -> moves_fit (ps ++ [p]).
Proof. apply moves_fit_append. Qed.

Lemma reachable_fit (s : Game) : reachable s -> moves_fit (pieces s).
Proof.
  induction 1 as [roster s H | s s' fuel self l _ IH H | s s' _ IH H
                  | s s' fuel l _ IH H | s t s' _ IHs _ IHt H].
  - unfold new_game in H.
    destruct (instantiate_pieces roster blank_game) as [[u s1]|] eqn:E; [|discriminate].
    destruct (initialize_board (pieces s1)) as [b|] eqn:Eb; simpl in H; [|discriminate].
    injection H as <-. simpl.
    eapply (pres_instantiate_pieces (fun ps _ => moves_fit ps) fit_append); eauto.
    constructor.
  - eapply (mt_move (fun ps _ => moves_fit ps) fit_benign fit_board moves_fit_move_types);
      eauto.
  - eapply (pres_after_move (fun ps _ => moves_fit ps)); eauto.
  - eapply (mt_click_promotion (fun ps _ => moves_fit ps) fit_benign fit_board
              moves_fit_move_types fit_append); eauto.
  - unfold load_states, set_global_vars in H. inv_all. simpl. exact IHt.
Qed.

(** X18: no piece is let through on a vector that is not of its class.  In
    every state the game reaches, when [check_move] answers with a code other
    than invalid, the vector from the field of the piece to the destination is
    a straight one for a rook, a diagonal one for a bishop, either for a
    queen, one of the eight jumps for a knight, one of the eight steps or a
    castling vector for a king, and for a pawn a step of its color: the lists
    a rook, bishop or queen keeps from earlier requests never let another kind
    of vector pass. *)
Theorem validated_moves_fit_the_class :
  forall (s s' : Game) (fuel : nat) (self : Ref) (move_to : string) (c : Z) (is_test : bool)
         (code : Z) (info : string) (p : Piece),
    reachable s ->
    piece_at s self = Some p ->
    check_move fuel self move_to c is_test s = Ok ((code, info), s') ->
    code <> code_invalid ->
    exists (idx f : Idx),
      label2index move_to = Ok idx /\ field_idx p = Some f /\
      class_vector p (fst idx - fst f, snd idx - snd f) = true.
Proof.
  intros s s' fuel self move_to c is_test code info p Hr Hp H Hcode.
  unfold piece_at in Hp. pose proof (reachable_fit s Hr) as HG.
  destruct fuel as [|fuel]; [discriminate H|].
  rewrite check_move_S in H. unfold check_move_body in H.
  apply bind_ok in H. destruct H as [u [s1 [Hmt H]]].
  destruct (move_types_keeps_fit _ _ _ _ _ _ p Hmt HG Hp)
    as [HG1 [_ [q [Hq [Hc [Ho [Hf _]]]]]]].
  apply bind_ok in H. destruct H as [step [s2 [Hstep H]]].
  apply get_move_step_inv in Hstep.
  destruct Hstep as [-> [q0 [idx [f [Hq0 [Hl [Hf0 ->]]]]]]].
  rewrite Hq in Hq0. injection Hq0 as <-.
  apply bind_ok in H. destruct H as [q1 [s3 [Hq1 H]]].
  apply piece_of_ok in Hq1. destruct Hq1 as [Hq1 ->].
  rewrite Hq in Hq1. injection Hq1 as <-.
  destruct (vec_in (fst idx - fst f, snd idx - snd f) (possible_moves q)) eqn:Ein.
  - exists idx, f. split; [exact Hl|]. split; [congruence|].
    apply vec_in_In in Ein.
    pose proof (nth_error_Forall _ _ _ _ HG1 Hq) as Hfit. simpl in Hfit.
    rewrite forallb_forall in Hfit. specialize (Hfit _ Ein).
    unfold class_vector in *. rewrite <- Hc, <- Ho. exact Hfit.
  - simpl in H. unfold ret in H. injection H as E _ _. exfalso. apply Hcode.
    symmetry. exact E.
Qed.

Lemma validated_moves_fit_the_class_witness :
  exists (idx f : Idx),
    label2index "A8" = Ok idx /\
    field_idx (mkPiece Rook "Rook White 1" "R_W1" 1 true "A1" "A1" (Some (0, 0)) []
                 false false None 0) = Some f /\
    class_vector (mkPiece Rook "Rook White 1" "R_W1" 1 true "A1" "A1" (Some (0, 0)) []
                    false false None 0) (fst idx - fst f, snd idx - snd f) = true.
Proof.
  apply (validated_moves_fit_the_class rook_duel_start
           (final_state (state_of (check_move 5 1%nat "A8" 1 false rook_duel_start)))
           5 1%nat "A8" 1 false code_opponent "R_W1 kills R_B1 on A8").
  - apply (reach_new rook_duel_roster). vm_compute. reflexivity.
  - vm_compute. reflexivity.
  - vm_compute. reflexivity.
  - discriminate.
Defined.

(** ** Pieces in the way *)

(** [check_field] reads only, and never calls an occupied field empty. *)
Lemma check_field_inv (self : Ref) (l : string) (c : Z) (b : Board) (t : bool)
    (s s' : Game) (v : Z) :
  check_field self l c b t s = Ok (v, s') ->
  s' = s /\
  forall i r, label2index l = Ok i -> np_get b i = Ok (Some r) -> v <> code_empty.
Proof.
  unfold check_field. intros H.
  apply bind_ok in H. destruct H as [i0 [s0 [Hl H]]].
  apply lift_ok in Hl. destruct Hl as [Hl ->].
  apply bind_ok in H. destruct H as [cell [s1 [Hc H]]].
  apply lift_ok in Hc. destruct Hc as [Hc ->].
  destruct cell as [q|].
  - apply bind_ok in H. destruct H as [fc [s2 [Ha H]]].
    unfold attr in Ha. apply bind_ok in Ha. destruct Ha as [pq [s3 [Hpq Ha]]].
    apply piece_of_ok in Hpq. destruct Hpq as [_ ->].
    apply ret_ok in Ha. destruct Ha as [_ ->].
    destruct (c =? fc); apply ret_ok in H; destruct H as [-> ->];
      (split; [reflexivity | intros; discriminate]).
  - apply bind_ok in H. destruct H as [p [s2 [Hp H]]].
    apply piece_of_ok in Hp. destruct Hp as [_ ->].
    assert (Hs : s' = s).
    { destruct (perform_en_passant p); apply ret_ok in H; destruct H as [_ ->];
        reflexivity. }
    split; [exact Hs|]. intros i r Hi Hr. rewrite Hl in Hi. injection Hi as <-.
    rewrite Hc in Hr. discriminate Hr.
Qed.

(** The scan of the path reads only, and stops at the latest on the first
    occupied field of the path. *)
Lemma intermediate_ok_blocked (self : Ref) (c : Z) (t : bool) (L : string) (i : Idx)
    (r : Ref) :
  label2index L = Ok i ->
  forall (steps : list string) (s s' : Game) (o : option string),
    In L steps -> np_get (board_objects s) i = Ok (Some r) ->
    intermediate_ok self steps c t s = Ok (o, s') ->
    s' = s /\ o <> None.
Proof.
  intros HL. induction steps as [|step rest IH]; intros s s' o Hin Hr H.
  - destruct Hin.
  - cbn [intermediate_ok] in H.
    apply bind_ok in H. destruct H as [b [s0 [Hb H]]].
    apply gets_ok in Hb. destruct Hb as [-> ->].
    apply bind_ok in H. destruct H as [v [s1 [Hv H]]].
    apply check_field_inv in Hv. destruct Hv as [-> Hv].
    destruct (Z.eqb_spec v code_empty) as [Ev|Ev]; cbn [negb] in H.
    + destruct Hin as [->|Hin].
      * exfalso. exact (Hv i r HL Hr Ev).
      * exact (IH s s' o Hin Hr H).
    + apply ret_ok in H. destruct H as [-> ->]. split; [reflexivity | discriminate].
Qed.

Lemma nth_error_but_last {A} (l : list A) (k : nat) :
  (S k < List.length l)%nat -> nth_error (but_last l) k = nth_error l k.
Proof.
  unfold but_last. revert k. induction l as [|x l IH]; intros k Hk; [simpl in Hk; lia|].
  destruct l as [|y l]; [simpl in Hk; lia|].
  destruct k as [|k]; [reflexivity|].
  cbn [removelast nth_error]. apply IH. simpl in *. lia.
Qed.

(** The scan of the path of a line move stops when a field strictly between
    source and destination is occupied. *)
Lemma line_scan_blocked (s : Game) (self : Ref) (move_to : string) (c : Z) (t : bool)
    (p : Piece) (f idx : Idx) (k : Z) (r : Ref) :
  nth_error (pieces s) self = Some p -> field_idx p = Some f -> valid_index f ->
  label2index move_to = Ok idx ->
  str_in "Knight" (name p) = false ->
  is_straight (fst idx - fst f, snd idx - snd f)
  || is_diagonal (fst idx - fst f, snd idx - snd f) = true ->
  1 <= k < Z.max (Z.abs (fst idx - fst f)) (Z.abs (snd idx - snd f)) ->
  np_get (board_objects s)
    (fst f + k * Z.sgn (fst idx - fst f), snd f + k * Z.sgn (snd idx - snd f))
  = Ok (Some r) ->
  exists steps : list string,
    get_intermediate_field_names self move_to s = Ok (steps, s) /\
    forall (o : option string) (s' : Game),
      intermediate_ok self (but_last steps) c t s = Ok (o, s') -> s' = s /\ o <> None.
Proof.
  intros Hp Hf Hvf Hl Hk Hline Hbetween Hcell.
  destruct (line_path s self move_to p f idx Hp Hf Hvf Hl Hk Hline)
    as [steps [Hsteps [Hlen [Hnth _]]]].
  exists steps. split; [exact Hsteps|]. intros o s' Hblk.
  set (sc := Z.max (Z.abs (fst idx - fst f)) (Z.abs (snd idx - snd f))) in *.
  assert (Hk1 : (Z.to_nat k - 1 < List.length steps)%nat) by lia.
  destruct (Hnth _ Hk1) as [L [HnL HiL]].
  replace (Z.of_nat (S (Z.to_nat k - 1))) with k in HiL by lia.
  assert (Hvalid : valid_index (fst f + k * Z.sgn (fst idx - fst f),
                                snd f + k * Z.sgn (snd idx - snd f))).
  { destruct (label2index_valid _ _ Hl) as [[Hi1 Hi2] _]. destruct Hvf as [Hf1 Hf2].
    assert (Hreg : (fst idx - fst f = sc \/ fst idx - fst f = - sc \/ fst idx - fst f = 0) /\
                   (snd idx - snd f = sc \/ snd idx - snd f = - sc \/ snd idx - snd f = 0)).
    { unfold is_straight, is_diagonal in Hline. cbn [fst snd] in Hline. subst sc.
      destruct (Z.eqb_spec (fst idx - fst f) 0), (Z.eqb_spec (snd idx - snd f) 0),
               (Z.eqb_spec (Z.abs (fst idx - fst f)) (Z.abs (snd idx - snd f)));
        simpl in Hline; try discriminate Hline; lia. }
    clearbody sc. destruct Hreg as [H1 H2].
    split; cbn [fst snd].
    - destruct H1 as [E | [E | E]]; rewrite E;
        [rewrite Z.sgn_pos by lia | rewrite Z.sgn_neg by lia | simpl Z.sgn]; lia.
    - destruct H2 as [E | [E | E]]; rewrite E;
        [rewrite Z.sgn_pos by lia | rewrite Z.sgn_neg by lia | simpl Z.sgn]; lia. }
  pose proof (label_of_index _ _ Hvalid HiL) as HLi.
  assert (HinL : In L (but_last steps)).
  { apply nth_error_In with (n := (Z.to_nat k - 1)%nat).
    rewrite nth_error_but_last by lia. exact HnL. }
  exact (intermediate_ok_blocked self c t L _ r HLi _ _ _ _ HinL Hcell Hblk).
Qed.

(** X19: a move along a line does not pass a piece.  In every state the game
    reaches, when a piece other than a knight is asked to go along a rank, a
    file or a diagonal and some field strictly between its own and the
    destination is occupied, an answer of [check_move] is always the invalid
    code, and the board is left as it was. *)
Theorem line_move_does_not_pass_a_piece :
  forall (s s' : Game) (fuel : nat) (self : Ref) (move_to : string) (c : Z) (is_test : bool)
         (code : Z) (info : string) (p : Piece) (f idx : Idx) (k : Z) (r : Ref),
    reachable s ->
    piece_at s self = Some p -> field_idx p = Some f -> valid_index f ->
    label2index move_to = Ok idx ->
    str_in "Knight" (name p) = false ->
    is_straight (fst idx - fst f, snd idx - snd f)
    || is_diagonal (fst idx - fst f, snd idx - snd f) = true ->
    1 <= k < Z.max (Z.abs (fst idx - fst f)) (Z.abs (snd idx - snd f)) ->
    np_get (board_objects s)
      (fst f + k * Z.sgn (fst idx - fst f), snd f + k * Z.sgn (snd idx - snd f))
    = Ok (Some r) ->
    check_move fuel self move_to c is_test s = Ok ((code, info), s') ->
    code = code_invalid /\ board_objects s' = board_objects s.
Proof.
  intros s s' fuel self move_to c is_test code info p f idx k r
         Hr Hp Hf Hvf Hl Hk Hline Hbetween Hcell H.
  unfold piece_at in Hp. pose proof (reachable_fit s Hr) as HG.
  destruct fuel as [|fuel]; [discriminate H|].
  rewrite check_move_S in H. unfold check_move_body in H.
  apply bind_ok in H. destruct H as [u [s1 [Hmt H]]].
  destruct (move_types_keeps_fit _ _ _ _ _ _ p Hmt HG Hp)
    as [_ [Hb1 [q [Hq [_ [_ [Hfq Hnq]]]]]]].
  rewrite Hf in Hfq. rewrite <- Hnq in Hk.
  apply bind_ok in H. destruct H as [step [s2 [Hstep H]]].
  rewrite (get_move_step_value self move_to s1 q idx f Hq Hl Hfq) in Hstep.
  injection Hstep as <- <-.
  apply bind_ok in H. destruct H as [q1 [s3 [Hq1 H]]].
  apply piece_of_ok in Hq1. destruct Hq1 as [Hq1 ->].
  rewrite Hq in Hq1. injection Hq1 as <-.
  destruct (vec_in (fst idx - fst f, snd idx - snd f) (possible_moves q)).
  2:{ cbn [negb] in H. apply ret_ok in H. destruct H as [E ->].
      injection E as -> _. split; [reflexivity | exact Hb1]. }
  cbn [negb] in H. rewrite <- Hb1 in Hcell.
  destruct (line_scan_blocked s1 self move_to c is_test q f idx k r
              Hq Hfq Hvf Hl Hk Hline Hbetween Hcell) as [steps [Hsteps Hscan]].
  apply bind_ok in H. destruct H as [steps0 [s4 [Hs0 H]]].
  rewrite Hsteps in Hs0. injection Hs0 as <- <-.
  apply bind_ok in H. destruct H as [blocked [s5 [Hblk H]]].
  destruct (Hscan _ _ Hblk) as [-> Hsome].
  destruct blocked as [st|]; [|contradiction Hsome; reflexivity].
  apply ret_ok in H. destruct H as [E ->]. injection E as -> _.
  split; [reflexivity | exact Hb1].
Qed.

Lemma line_move_does_not_pass_a_piece_witness :
  code_invalid = code_invalid /\
  board_objects (final_state (state_of (check_move 5 0%nat "A3" 1 false standard_start)))
  = board_objects standard_start.
Proof.
  apply (line_move_does_not_pass_a_piece standard_start
           (final_state (state_of (check_move 5 0%nat "A3" 1 false standard_start)))
           5 0%nat "A3" 1 false code_invalid "Intermediate step to A2 is invalid"
           (mkPiece Rook "Rook White 1" "R_W1" 1 true "A1" "A1" (Some (0, 0)) []
              false false None 0) (0, 0) (2, 0) 1 8%nat).
  - apply (reach_new standard_roster). vm_compute. reflexivity.
  - vm_compute. reflexivity.
  - reflexivity.
  - unfold valid_index. simpl. lia.
  - vm_compute. reflexivity.
  - vm_compute. reflexivity.
  - vm_compute. reflexivity.
  - simpl. lia.
  - vm_compute. reflexivity.
  - vm_compute. reflexivity.
Defined.

(** ** Methods that write to the registry only *)

Lemma set_pieces_same (s : Game) : s = set_pieces (pieces s) s.
Proof. destruct s; reflexivity. Qed.

Lemma ro_reads {A} (m : M A) :
  (forall s a s', m s = Ok (a, s') -> s' = s) -> registry_only m.
Proof. intros Hm s a s' H. rewrite (Hm _ _ _ H). apply set_pieces_same. Qed.

Lemma ro_ret {A} (a : A) : registry_only (ret a).
Proof. apply ro_reads. intros s b s' H. apply ret_ok in H. tauto. Qed.

Lemma ro_raise {A} (e : exn) : registry_only (@raise A e).
Proof. intros s a s' H. discriminate H. Qed.

Lemma ro_lift {A} (r : Res A) : registry_only (lift r).
Proof. apply ro_reads. intros s b s' H. apply lift_ok in H. tauto. Qed.

Lemma ro_gets {A} (f : Game -> A) : registry_only (gets f).
Proof. apply ro_reads. intros s b s' H. apply gets_ok in H. tauto. Qed.

Lemma ro_piece_of (r : Ref) : registry_only (piece_of r).
Proof. apply ro_reads. intros s b s' H. apply piece_of_ok in H. tauto. Qed.

Lemma ro_upd_piece (r : Ref) (f : Piece -> Piece) : registry_only (upd_piece r f).
Proof.
  intros s u s' H. apply upd_piece_ok in H. destruct H as [p [_ ->]]. reflexivity.
Qed.

Lemma ro_bind {A B} (m : M A) (k : A -> M B) :
  registry_only m -> (forall a, registry_only (k a)) -> registry_only (bind m k).
Proof.
  intros Hm Hk s b s' H. apply bind_ok in H. destruct H as [a [s1 [H1 H2]]].
  rewrite (Hk _ _ _ _ H2). rewrite (Hm _ _ _ H1) at 1. reflexivity.
Qed.

Ltac ro_step :=
  match goal with
  | |- registry_only (let _ := _ in _) => cbv zeta
  | |- registry_only (bind _ _) => apply ro_bind; [| intros ?]
  | |- registry_only (ret _) => apply ro_ret
  | |- registry_only (raise _) => apply ro_raise
  | |- registry_only (lift _) => apply ro_lift
  | |- registry_only (gets _) => apply ro_gets
  | |- registry_only (piece_of _) => apply ro_piece_of
  | |- registry_only (upd_piece _ _) => apply ro_upd_piece
  | |- registry_only (get_board _) => unfold get_board
  | |- registry_only (get_move_step _ _) => unfold get_move_step
  | |- registry_only (if ?b then _ else _) => destruct b
  | |- registry_only (match ?x with _ => _ end) => destruct x
  end.

Ltac ro_go := repeat ro_step.

Lemma ro_Pawn_move_types (self : Ref) (l : string) (t : bool) :
  registry_only (Pawn_move_types self l t).
Proof. unfold Pawn_move_types. ro_go. Qed.

Lemma ro_Rook_move_types (self : Ref) (l : string) (t : bool) :
  registry_only (Rook_move_types self l t).
Proof. unfold Rook_move_types. ro_go. Qed.

Lemma ro_Knight_move_types (self : Ref) (l : string) (t : bool) :
  registry_only (Knight_move_types self l t).
Proof. unfold Knight_move_types. ro_go. Qed.

Lemma ro_Bishop_move_types (self : Ref) (l : string) (t : bool) :
  registry_only (Bishop_move_types self l t).
Proof. unfold Bishop_move_types. ro_go. Qed.

Lemma ro_Queen_move_types (self : Ref) (l : string) (t : bool) :
  registry_only (Queen_move_types self l t).
Proof. unfold Queen_move_types. ro_go. Qed.

(** A king asked for a vector that is not a castling vector leaves the
    castling flags alone. *)
Lemma King_move_types_plain (self : Ref) (l : string) (t : bool) (s s' : Game) (u : unit)
    (p : Piece) (f idx : Idx) :
  nth_error (pieces s) self = Some p -> field_idx p = Some f ->
  label2index l = Ok idx ->
  vec_in (fst idx - fst f, snd idx - snd f) KingMoves.rochade = false ->
  King_move_types self l t s = Ok (u, s') ->
  s' = set_pieces (pieces s') s.
Proof.
  intros Hp Hf Hl Hv H. unfold King_move_types in H.
  apply bind_ok in H. destruct H as [u0 [s1 [Hu H]]].
  apply upd_piece_ok in Hu. destruct Hu as [p0 [Hp0 ->]].
  rewrite Hp in Hp0. injection Hp0 as <-.
  apply bind_ok in H. destruct H as [p1 [s2 [Hp1 H]]].
  apply piece_of_ok in Hp1. destruct Hp1 as [Hp1 ->].
  cbn [pieces set_pieces] in Hp1.
  rewrite (lk_same _ _ _ (set_possible_moves KingMoves.normal_moves p) Hp) in Hp1.
  injection Hp1 as <-.
  destruct (move_idx (set_possible_moves KingMoves.normal_moves p) =? 0).
  2:{ apply ret_ok in H. destruct H as [_ ->]. reflexivity. }
  apply bind_ok in H. destruct H as [v [s3 [Hstep H]]].
  apply get_move_step_inv in Hstep.
  destruct Hstep as [-> [q [idx' [f' [Hq [Hl' [Hf' ->]]]]]]].
  cbn [pieces set_pieces] in Hq.
  rewrite (lk_same _ _ _ (set_possible_moves KingMoves.normal_moves p) Hp) in Hq.
  injection Hq as <-. cbn in Hf'. rewrite Hf in Hf'. injection Hf' as <-.
  rewrite Hl in Hl'. injection Hl' as <-.
  apply bind_ok in H. destruct H as [[is_roch rook] [s4 [Hc H]]].
  destruct is_roch.
  - apply check_rochade_offers in Hc. rewrite Hv in Hc. discriminate Hc.
  - unfold check_rochade in Hc. rewrite Hv in Hc.
    apply bind_ok in Hc. destruct Hc as [p2 [s5 [Hp2 Hc]]].
    apply piece_of_ok in Hp2. destruct Hp2 as [_ ->].
    apply bind_ok in Hc. destruct Hc as [cond [s6 [Hcond Hc]]].
    apply ret_ok in Hcond. destruct Hcond as [-> ->].
    apply ret_ok in Hc. destruct Hc as [_ ->].
    apply ret_ok in H. destruct H as [_ ->]. reflexivity.
Qed.

(** Unless it offers castling, [move_types] writes to the registry only. *)
Lemma move_types_registry_only (self : Ref) (l : string) (t : bool) (s s' : Game) (u : unit)
    (p : Piece) (f idx : Idx) :
  nth_error (pieces s) self = Some p -> field_idx p = Some f ->
  label2index l = Ok idx ->
  (cls p = King -> vec_in (fst idx - fst f, snd idx - snd f) KingMoves.rochade = false) ->
  move_types self l t s = Ok (u, s') ->
  s' = set_pieces (pieces s') s.
Proof.
  intros Hp Hf Hl Hk H. unfold move_types in H.
  apply bind_ok in H. destruct H as [p0 [s0 [Hp0 H]]].
  apply piece_of_ok in Hp0. destruct Hp0 as [Hp0 ->].
  rewrite Hp in Hp0. injection Hp0 as <-.
  destruct (cls p).
  - exact (ro_Pawn_move_types _ _ _ _ _ _ H).
  - exact (ro_Rook_move_types _ _ _ _ _ _ H).
  - exact (ro_Knight_move_types _ _ _ _ _ _ H).
  - exact (ro_Bishop_move_types _ _ _ _ _ _ H).
  - exact (ro_Queen_move_types _ _ _ _ _ _ H).
  - exact (King_move_types_plain _ _ _ _ _ _ _ _ _ Hp Hf Hl (Hk eq_refl) H).
Qed.

(** [move_types] keeps the color of every piece. *)
Lemma move_types_keeps_color (self r : Ref) (l : string) (t : bool) (s s' : Game) (u : unit)
    (q : Piece) :
  nth_error (pieces s) r = Some q ->
  move_types self l t s = Ok (u, s') ->
  exists q', nth_error (pieces s') r = Some q' /\ color q' = color q.
Proof.
  intros Hq H.
  pose (Inv := fun (ps : list Piece) (_ : Board) =>
                 exists q', nth_error ps r = Some q' /\ color q' = color q).
  assert (Hupd : forall ps b r0 p0 (g : Piece -> Piece),
             nth_error ps r0 = Some p0 -> color (g p0) = color p0 ->
             Inv ps b -> Inv (list_set ps r0 (g p0)) b).
  { intros ps b r0 p0 g Hp0 Hg [q' [Hq' Hc]]. unfold Inv.
    destruct (Nat.eq_dec r0 r) as [->|Hne].
    - exists (g p0). split; [eapply lk_same; exact Hp0|].
      rewrite Hp0 in Hq'. injection Hq' as <-. congruence.
    - exists q'. split; [eapply lk_other; [exact Hne | exact Hq']| exact Hc]. }
  refine (pres_move_types Inv _ _ self l t s u s' H _).
  - intros ps b r0 p0 g Hp0 Hg HI. apply Hupd; [exact Hp0 | | exact HI].
    destruct (Hg p0) as [Hid _]. unfold ident in Hid. congruence.
  - intros ps b r0 p0 m Hp0 _ HI. apply Hupd; [exact Hp0 | | exact HI].
    destruct p0; reflexivity.
  - exists q. auto.
Qed.

(** ** The path ends on the destination *)

Lemma class_vector_line (c : PieceClass) (col : Z) (v : Vec) :
  c <> Knight -> class_vector_of c col v = true ->
  is_straight v || is_diagonal v = true.
Proof.
  intros Hc H. destruct c; cbn [class_vector_of] in H.
  - destruct (col =? 2); apply vec_in_In in H; cbn in H;
      repeat (destruct H as [<- | H]; [reflexivity|]); destruct H.
  - rewrite H. reflexivity.
  - contradiction Hc; reflexivity.
  - rewrite H. apply orb_true_r.
  - rewrite orb_comm. exact H.
  - apply orb_true_iff in H. destruct H as [H|H]; apply vec_in_In in H; cbn in H;
      repeat (destruct H as [<- | H]; [reflexivity|]); destruct H.
Qed.

(** The path of a piece with Knight in its name is the destination alone. *)
Lemma knight_path (self : Ref) (l : string) (s s' : Game) (p : Piece) (steps : list string) :
  nth_error (pieces s) self = Some p -> str_in "Knight" (name p) = true ->
  get_intermediate_field_names self l s = Ok (steps, s') ->
  s' = s /\ steps = [l].
Proof.
  intros Hp Hk H. unfold get_intermediate_field_names in H.
  apply bind_ok in H. destruct H as [p0 [s0 [Hp0 H]]].
  apply piece_of_ok in Hp0. destruct Hp0 as [Hp0 ->].
  rewrite Hp in Hp0. injection Hp0 as <-.
  apply bind_ok in H. destruct H as [v [s1 [Hv H]]].
  apply get_move_step_inv in Hv. destruct Hv as [-> _].
  destruct (field_idx p) as [f|]; [|discriminate H].
  apply bind_ok in H. destruct H as [ls [s2 [Hls H]]].
  apply lift_ok in Hls. destruct Hls as [_ ->].
  rewrite Hk in H. apply ret_ok in H. destruct H as [-> ->]. auto.
Qed.

(** The scan of a path reads only. *)
Lemma intermediate_ok_reads (self : Ref) (c : Z) (t : bool) :
  forall (steps : list string) (s s' : Game) (o : option string),
    intermediate_ok self steps c t s = Ok (o, s') -> s' = s.
Proof.
  induction steps as [|step rest IH]; intros s s' o H.
  - apply ret_ok in H. tauto.
  - cbn [intermediate_ok] in H.
    apply bind_ok in H. destruct H as [b [s0 [Hb H]]].
    apply gets_ok in Hb. destruct Hb as [-> ->].
    apply bind_ok in H. destruct H as [v [s1 [Hv H]]].
    apply check_field_inv in Hv. destruct Hv as [-> _].
    destruct (negb (v =? code_empty)).
    + apply ret_ok in H. tauto.
    + exact (IH _ _ _ H).
Qed.

(** A field held by a piece of the color asked about is invalid. *)
Lemma check_field_own (self r : Ref) (l : string) (c : Z) (b : Board) (t : bool)
    (s s' : Game) (v : Z) (i : Idx) (q : Piece) :
  label2index l = Ok i -> np_get b i = Ok (Some r) ->
  nth_error (pieces s) r = Some q -> color q = c ->
  check_field self l c b t s = Ok (v, s') ->
  v = code_invalid /\ s' = s.
Proof.
  intros Hl Hb Hq Hc H. unfold check_field in H.
  apply bind_ok in H. destruct H as [i0 [s0 [Hl0 H]]].
  apply lift_ok in Hl0. destruct Hl0 as [Hl0 ->].
  rewrite Hl in Hl0. injection Hl0 as <-.
  apply bind_ok in H. destruct H as [cell [s1 [Hcell H]]].
  apply lift_ok in Hcell. destruct Hcell as [Hcell ->].
  rewrite Hb in Hcell. injection Hcell as <-.
  apply bind_ok in H. destruct H as [fc [s2 [Ha H]]].
  unfold attr in Ha. apply bind_ok in Ha. destruct Ha as [pq [s3 [Hpq Ha]]].
  apply piece_of_ok in Hpq. destruct Hpq as [Hpq ->].
  rewrite Hq in Hpq. injection Hpq as <-.
  apply ret_ok in Ha. destruct Ha as [-> ->].
  rewrite Hc, Z.eqb_refl in H. apply ret_ok in H. tauto.
Qed.

(** [check_move] on a destination held by a piece of the color [c]. *)
Lemma check_move_own_piece (s s' : Game) (fuel : nat) (self r : Ref) (move_to : string)
    (c : Z) (is_test : bool) (code : Z) (info : string) (p q : Piece) (f idx : Idx) :
  reachable s ->
  nth_error (pieces s) self = Some p -> field_idx p = Some f -> valid_index f ->
  str_in "Knight" (name p) = PieceClass_eqb (cls p) Knight ->
  is_rochade s = false ->
  label2index move_to = Ok idx ->
  (cls p = King -> vec_in (fst idx - fst f, snd idx - snd f) KingMoves.rochade = false) ->
  np_get (board_objects s) idx = Ok (Some r) ->
  nth_error (pieces s) r = Some q -> color q = c ->
  check_move fuel self move_to c is_test s = Ok ((code, info), s') ->
  code = code_invalid /\ s' = set_pieces (pieces s') s.
Proof.
  intros Hr Hp Hf Hvf Hname Hroch Hl Hking Hcell Hq Hcol H.
  pose proof (reachable_fit s Hr) as HG.
  destruct fuel as [|fuel]; [discriminate H|].
  rewrite check_move_S in H. unfold check_move_body in H.
  apply bind_ok in H. destruct H as [u [s1 [Hmt H]]].
  destruct (move_types_keeps_fit _ _ _ _ _ _ p Hmt HG Hp)
    as [HG1 [_ [p1 [Hp1 [Hc1 [_ [Hf1 Hn1]]]]]]].
  destruct (move_types_keeps_color _ _ _ _ _ _ _ q Hq Hmt) as [q1 [Hq1 Hcq1]].
  pose proof (move_types_registry_only _ _ _ _ _ _ p f idx Hp Hf Hl Hking Hmt) as Hs1.
  rewrite Hf in Hf1. rewrite <- Hn1, <- Hc1 in Hname.
  apply bind_ok in H. destruct H as [step [s2 [Hstep H]]].
  rewrite (get_move_step_value self move_to s1 p1 idx f Hp1 Hl Hf1) in Hstep.
  injection Hstep as <- <-.
  apply bind_ok in H. destruct H as [p2 [s3 [Hp2 H]]].
  apply piece_of_ok in Hp2. destruct Hp2 as [Hp2 ->].
  rewrite Hp1 in Hp2. injection Hp2 as <-.
  destruct (vec_in (fst idx - fst f, snd idx - snd f) (possible_moves p1)) eqn:Ein.
  2:{ cbn [negb] in H. apply ret_ok in H. destruct H as [E ->].
      injection E as -> _. split; [reflexivity | exact Hs1]. }
  cbn [negb] in H.
  apply bind_ok in H. destruct H as [steps [s4 [Hsteps H]]].
  assert (Hpath : s4 = s1 /\ exists d, last_elt steps = Ok d /\ label2index d = Ok idx).
  { destruct (PieceClass_eqb (cls p1) Knight) eqn:Ek.
    - destruct (knight_path _ _ _ _ _ _ Hp1 Hname Hsteps) as [-> ->].
      split; [reflexivity|]. exists move_to. auto.
    - assert (Hline : is_straight (fst idx - fst f, snd idx - snd f)
                      || is_diagonal (fst idx - fst f, snd idx - snd f) = true).
      { apply vec_in_In in Ein.
        pose proof (nth_error_Forall _ _ _ _ HG1 Hp1) as Hfit. simpl in Hfit.
        rewrite forallb_forall in Hfit. specialize (Hfit _ Ein).
        apply (class_vector_line (cls p1) (color p1)); [|exact Hfit].
        intros E. rewrite E in Ek. discriminate Ek. }
      destruct (line_path s1 self move_to p1 f idx Hp1 Hf1 Hvf Hl Hname Hline)
        as [steps' [Hsteps' [_ [_ Hlast]]]].
      rewrite Hsteps' in Hsteps. injection Hsteps as <- <-.
      split; [reflexivity|]. exists (np_str move_to).
      split; [exact Hlast|]. rewrite label2index_np_str. exact Hl. }
  destruct Hpath as [-> [d [Hlast Hld]]].
  apply bind_ok in H. destruct H as [blocked [s5 [Hblk H]]].
  apply intermediate_ok_reads in Hblk. subst s5.
  destruct blocked as [st|].
  { apply ret_ok in H. destruct H as [E ->]. injection E as -> _.
    split; [reflexivity | exact Hs1]. }
  apply bind_ok in H. destruct H as [roch [s6 [Hro H]]].
  apply gets_ok in Hro. destruct Hro as [-> ->].
  assert (Hroch1 : is_rochade s1 = false).
  { rewrite Hs1. cbn. exact Hroch. }
  rewrite Hroch1 in H.
  apply bind_ok in H. destruct H as [through [s7 [Hth H]]].
  apply ret_ok in Hth. destruct Hth as [-> ->]. cbn [andb] in H.
  apply bind_ok in H. destruct H as [dest [s8 [Hd H]]].
  apply lift_ok in Hd. destruct Hd as [Hd ->].
  rewrite Hlast in Hd. injection Hd as <-.
  apply bind_ok in H. destruct H as [b [s9 [Hb H]]].
  apply gets_ok in Hb. destruct Hb as [-> ->].
  apply bind_ok in H. destruct H as [end_code [s10 [Hend H]]].
  assert (Hcell1 : np_get (board_objects s1) idx = Ok (Some r)).
  { rewrite Hs1. cbn. exact Hcell. }
  destruct (check_field_own _ _ _ _ _ _ _ _ _ _ q1 Hld Hcell1 Hq1 (eq_trans Hcq1 Hcol) Hend)
    as [-> ->].
  cbn in H. apply ret_ok in H. destruct H as [E ->]. injection E as -> _.
  split; [reflexivity | exact Hs1].
Qed.

(** X20: no piece takes a piece of its own color.  In every state the game
    reaches, with no castling pending, when the destination of a request is
    held by a piece of the color of the piece that is asked to move (a king
    not being asked for a castling vector), [execute_move] answers [False] if
    it answers, and has written to nothing but the registry of pieces: board,
    move counter and flags are as before. *)
Theorem own_piece_is_never_taken :
  forall (s s' : Game) (fuel : nat) (self r : Ref) (move_to : string) (is_test : bool)
         (done : bool) (p q : Piece) (f idx : Idx),
    reachable s ->
    piece_at s self = Some p -> field_idx p = Some f -> valid_index f ->
    str_in "Knight" (name p) = PieceClass_eqb (cls p) Knight ->
    is_rochade s = false ->
    label2index move_to = Ok idx ->
    (cls p = King -> vec_in (fst idx - fst f, snd idx - snd f) KingMoves.rochade = false) ->
    np_get (board_objects s) idx = Ok (Some r) ->
    piece_at s r = Some q -> color q = color p ->
    execute_move fuel self move_to is_test s = Ok (done, s') ->
    done = false /\ board_objects s' = board_objects s /\ move_count s' = move_count s /\
    s' = set_pieces (pieces s') s.
Proof.
  intros s s' fuel self r move_to is_test done p q f idx
         Hr Hp Hf Hvf Hname Hroch Hl Hking Hcell Hq Hcol H.
  unfold piece_at in Hp, Hq.
  destruct fuel as [|fuel]; [discriminate H|].
  rewrite execute_move_S in H. unfold execute_move_body in H.
  apply bind_ok in H. destruct H as [p0 [s0 [Hp0 H]]].
  apply piece_of_ok in Hp0. destruct Hp0 as [Hp0 ->].
  rewrite Hp in Hp0. injection Hp0 as <-.
  apply bind_ok in H. destruct H as [[code info] [s1 [Hcm H]]].
  destruct (check_move_own_piece _ _ _ _ _ _ _ _ _ _ _ _ _ _
              Hr Hp Hf Hvf Hname Hroch Hl Hking Hcell Hq Hcol Hcm) as [-> Hs1].
  cbn in H. apply ret_ok in H. destruct H as [-> ->].
  split; [reflexivity|]. rewrite Hs1 at 1 2. cbn. auto.
Qed.

Lemma own_piece_is_never_taken_witness :
  false = false /\
  board_objects (final_state (state_of (execute_move 5 0%nat "A2" false standard_start)))
  = board_objects standard_start /\
  move_count (final_state (state_of (execute_move 5 0%nat "A2" false standard_start)))
  = move_count standard_start /\
  final_state (state_of (execute_move 5 0%nat "A2" false standard_start))
  = set_pieces
      (pieces (final_state (state_of (execute_move 5 0%nat "A2" false standard_start))))
      standard_start.
Proof.
  apply (own_piece_is_never_taken standard_start
           (final_state (state_of (execute_move 5 0%nat "A2" false standard_start)))
           5 0%nat 8%nat "A2" false false
           (mkPiece Rook "Rook White 1" "R_W1" 1 true "A1" "A1" (Some (0, 0)) []
              false false None 0)
           (mkPiece Pawn "Pawn White 1" "P_W1" 1 true "A2" "A2" (Some (1, 0)) []
              false false None 0) (0, 0) (1, 0)).
  - apply (reach_new standard_roster). vm_compute. reflexivity.
  - vm_compute. reflexivity.
  - reflexivity.
  - unfold valid_index. simpl. lia.
  - vm_compute. reflexivity.
  - vm_compute. reflexivity.
  - vm_compute. reflexivity.
  - intros E. discriminate E.
  - vm_compute. reflexivity.
  - vm_compute. reflexivity.
  - reflexivity.
  - vm_compute. reflexivity.
Defined.

(** ** Trials leave the course of the game alone *)

Create HintDb kp.

Lemma kp_reads {A} (m : M A) :
  (forall s a s', m s = Ok (a, s') -> s' = s) -> keeps_progress m.
Proof. intros Hm s a s' H. rewrite (Hm _ _ _ H). reflexivity. Qed.

Lemma kp_ret {A} (a : A) : keeps_progress (ret a).
Proof. apply kp_reads. intros s b s' H. apply ret_ok in H. tauto. Qed.

Lemma kp_raise {A} (e : exn) : keeps_progress (@raise A e).
Proof. intros s a s' H. discriminate H. Qed.

Lemma kp_lift {A} (r : Res A) : keeps_progress (lift r).
Proof. apply kp_reads. intros s b s' H. apply lift_ok in H. tauto. Qed.

Lemma kp_gets {A} (f : Game -> A) : keeps_progress (gets f).
Proof. apply kp_reads. intros s b s' H. apply gets_ok in H. tauto. Qed.

Lemma kp_piece_of (r : Ref) : keeps_progress (piece_of r).
Proof. apply kp_reads. intros s b s' H. apply piece_of_ok in H. tauto. Qed.

Lemma kp_upd_piece (r : Ref) (f : Piece -> Piece) : keeps_progress (upd_piece r f).
Proof.
  intros s u s' H. apply upd_piece_ok in H. destruct H as [p [_ ->]]. reflexivity.
Qed.

Lemma kp_modify (f : Game -> Game) :
  (forall s, progress (f s) = progress s) -> keeps_progress (modify f).
Proof. intros Hf s u s' H. apply modify_ok in H. subst s'. apply Hf. Qed.

Lemma kp_bind {A B} (m : M A) (k : A -> M B) :
  keeps_progress m -> (forall a, keeps_progress (k a)) -> keeps_progress (bind m k).
Proof.
  intros Hm Hk s b s' H. apply bind_ok in H. destruct H as [a [s1 [H1 H2]]].
  rewrite (Hk _ _ _ _ H2). exact (Hm _ _ _ H1).
Qed.

Lemma kp_set_board (idx : option Idx) (v : option Ref) : keeps_progress (set_board idx v).
Proof. unfold set_board. intros s u s' H. inv_all. reflexivity. Qed.

#[local] Hint Resolve kp_set_board : kp.

Ltac kp_step :=
  match goal with
  | |- keeps_progress (let _ := _ in _) => cbv zeta
  | |- keeps_progress (bind _ _) => apply kp_bind; [| intros ?]
  | |- keeps_progress (ret _) => apply kp_ret
  | |- keeps_progress (raise _) => apply kp_raise
  | |- keeps_progress (lift _) => apply kp_lift
  | |- keeps_progress (gets _) => apply kp_gets
  | |- keeps_progress (piece_of _) => apply kp_piece_of
  | |- keeps_progress (upd_piece _ _) => apply kp_upd_piece
  | |- keeps_progress (modify _) => apply kp_modify; intros ?; reflexivity
  | |- keeps_progress (if ?b then _ else _) => destruct b
  | |- keeps_progress (match ?x with _ => _ end) => destruct x
  | |- keeps_progress _ => solve [eauto with kp]
  end.

Ltac kp_go := repeat kp_step.

Lemma kp_attr {A} (o : option Ref) (f : Piece -> A) : keeps_progress (attr o f).
Proof. unfold attr. kp_go. Qed.

Lemma kp_get_board (idx : option Idx) : keeps_progress (get_board idx).
Proof. unfold get_board. kp_go. Qed.

#[local] Hint Resolve kp_attr kp_get_board : kp.

Lemma kp_get_move_step (self : Ref) (l : string) : keeps_progress (get_move_step self l).
Proof. unfold get_move_step. kp_go. Qed.

#[local] Hint Resolve kp_get_move_step : kp.

Lemma kp_get_intermediate_field_names (self : Ref) (l : string) :
  keeps_progress (get_intermediate_field_names self l).
Proof. unfold get_intermediate_field_names. kp_go. Qed.

Lemma kp_check_field (self : Ref) (l : string) (c : Z) (b : Board) (t : bool) :
  keeps_progress (check_field self l c b t).
Proof. unfold check_field. kp_go. Qed.

Lemma kp_check_rochade (self : Ref) (v : Vec) (t : bool) :
  keeps_progress (check_rochade self v t).
Proof. unfold check_rochade. kp_go. Qed.

Lemma kp_set_rochade (self : Ref) (v : Vec) (rook : option Ref) :
  keeps_progress (set_rochade self v rook).
Proof. unfold set_rochade. kp_go. Qed.

#[local] Hint Resolve kp_get_intermediate_field_names kp_check_field kp_check_rochade
  kp_set_rochade : kp.

Lemma kp_move_types (self : Ref) (l : string) (t : bool) :
  keeps_progress (move_types self l t).
Proof.
  unfold move_types, Pawn_move_types, Rook_move_types, Knight_move_types,
    Bishop_move_types, Queen_move_types, King_move_types.
  kp_go.
Qed.

Lemma kp_kill_piece (self : Ref) (enemy : option Ref) (replace : bool) :
  keeps_progress (kill_piece self enemy replace).
Proof. unfold kill_piece. kp_go. Qed.

Lemma kp_resurrect_piece (self : Ref) (enemy : option Ref) :
  keeps_progress (resurrect_piece self enemy).
Proof. unfold resurrect_piece. kp_go. Qed.

Lemma kp_check_pawn2x (self : Ref) : keeps_progress (check_pawn2x self).
Proof. unfold check_pawn2x. kp_go. Qed.

#[local] Hint Resolve kp_move_types kp_kill_piece kp_resurrect_piece kp_check_pawn2x : kp.

Lemma kp_move_piece_body (rook_move : M unit) (self : Ref) (l : string) (v : Z)
    (do_rochade : bool) :
  keeps_progress rook_move -> keeps_progress (move_piece_body rook_move self l v do_rochade).
Proof. intros Hr. unfold move_piece_body. kp_go. Qed.

Lemma kp_move_piece (self : Ref) (l : string) (v : Z) (do_rochade : bool) :
  keeps_progress (move_piece self l v do_rochade).
Proof.
  unfold move_piece. apply kp_move_piece_body. kp_go.
  apply kp_move_piece_body. kp_go.
Qed.

Lemma kp_restore_loop (idxs : list Idx) (mate_board : Board) :
  keeps_progress (restore_loop idxs mate_board).
Proof. induction idxs as [|i rest IH]; simpl; kp_go. Qed.

#[local] Hint Resolve kp_move_piece kp_restore_loop : kp.

Lemma kp_redo_move (self : Ref) (mate_board : Board) (v : Z) (t reset : bool) :
  keeps_progress (redo_move self mate_board v t reset).
Proof. unfold redo_move. kp_go. Qed.

Lemma kp_intermediate_ok (self : Ref) (steps : list string) (c : Z) (t : bool) :
  keeps_progress (intermediate_ok self steps c t).
Proof. induction steps as [|l rest IH]; simpl; kp_go. Qed.

#[local] Hint Resolve kp_redo_move kp_intermediate_ok : kp.

Section TrialBodies.

Variable check_move' : Ref -> string -> Z -> bool -> M (Z * string).
Hypothesis kp_check_move' : forall r l c t, keeps_progress (check_move' r l c t).

Lemma kp_check_check_loop (refs : list Ref) (c : Z) (move_to : option string) :
  keeps_progress (check_check_loop check_move' refs c move_to).
Proof. induction refs as [|r rest IH]; simpl; kp_go. Qed.

Lemma kp_check_check_body (c : Z) (t : bool) :
  keeps_progress (check_check_body check_move' c t).
Proof. unfold check_check_body. kp_go. apply kp_check_check_loop. Qed.

Lemma kp_check_through_check_body (self : Ref) (steps : list string) :
  keeps_progress (check_through_check_body (check_check_body check_move') self steps).
Proof.
  induction steps as [|l rest IH]; simpl; kp_go.
  apply kp_check_check_body.
Qed.

Lemma kp_check_move_body (self : Ref) (l : string) (c : Z) (t : bool) :
  keeps_progress (check_move_body
                    (check_through_check_body (check_check_body check_move'))
                    self l c t).
Proof.
  unfold check_move_body. kp_go; apply kp_check_through_check_body.
Qed.

End TrialBodies.

Lemma kp_check_move (fuel : nat) (self : Ref) (l : string) (c : Z) (t : bool) :
  keeps_progress (check_move fuel self l c t).
Proof.
  revert self l c t. induction fuel as [|f IH]; intros.
  - apply kp_raise.
  - rewrite check_move_S. apply kp_check_move_body. exact IH.
Qed.

Lemma kp_check_check (fuel : nat) (c : Z) (t : bool) :
  keeps_progress (check_check fuel c t).
Proof. apply kp_check_check_body. apply kp_check_move. Qed.

#[local] Hint Resolve kp_check_move kp_check_check : kp.

Lemma kp_execute_move_test (fuel : nat) (self : Ref) (l : string) :
  keeps_progress (execute_move fuel self l true).
Proof.
  destruct fuel as [|f]; [apply kp_raise|].
  rewrite execute_move_S. unfold execute_move_body. kp_go.
Qed.

(** ** What a move does to the course of the game *)

Lemma rises_refl (l : list bool) : rises l l.
Proof. induction l; constructor; auto. Qed.

Lemma rises_trans (a b c : list bool) : rises a b -> rises b c -> rises a c.
Proof.
  intros Hab. revert c. induction Hab as [|x y a b Hxy Hab IH]; intros c Hbc.
  - inversion Hbc; subst. constructor.
  - inversion Hbc as [|y' z b' c' Hyz Hbc']; subst.
    constructor; [intros Hx; exact (Hyz (Hxy Hx)) | exact (IH _ Hbc')].
Qed.

Lemma rises_set (l : list bool) (n : nat) : rises l (list_set l n true).
Proof.
  revert n. induction l as [|x l IH]; intros [|n]; simpl; try constructor;
    try reflexivity; try (intros Hx; exact Hx); try apply rises_refl; apply IH.
Qed.

Lemma om_of_kp {A} (m : M A) : keeps_progress m -> only_marks m.
Proof.
  intros Hm s a s' H. specialize (Hm _ _ _ H). unfold progress in Hm.
  injection Hm as E1 E2 E3 E4 E5. rewrite E1, E2, E3, E4, E5.
  repeat split; auto using rises_refl.
Qed.

Lemma om_bind {A B} (m : M A) (k : A -> M B) :
  only_marks m -> (forall a, only_marks (k a)) -> only_marks (bind m k).
Proof.
  intros Hm Hk s b s' H. apply bind_ok in H. destruct H as [a [s1 [H1 H2]]].
  destruct (Hm _ _ _ H1) as [E1 [E2 [E3 [E4 E5]]]].
  destruct (Hk _ _ _ _ H2) as [F1 [F2 [F3 [F4 F5]]]].
  repeat split; try congruence; [eapply rises_trans; eauto | auto].
Qed.

Section Escapes.

Variable execute_move' : Ref -> string -> bool -> M bool.
Hypothesis kp_trial : forall r l, keeps_progress (execute_move' r l true).

Lemma om_escape_loop_fields (piece : Ref) (fields : list string) :
  only_marks (escape_loop_fields execute_move' piece fields).
Proof.
  induction fields as [|l rest IH]; cbn [escape_loop_fields].
  - apply om_of_kp, kp_ret.
  - apply om_bind; [apply om_of_kp, kp_trial | intros esc]. destruct esc; [|exact IH].
    intros s a s' H.
    apply bind_ok in H. destruct H as [p [s0 [Hp H]]].
    apply piece_of_ok in Hp. destruct Hp as [_ ->].
    apply bind_ok in H. destruct H as [wc [s1 [Hwc H]]].
    apply gets_ok in Hwc. destruct Hwc as [-> ->].
    apply bind_ok in H. destruct H as [wc' [s2 [Hset H]]].
    apply lift_ok in Hset. destruct Hset as [Hset ->].
    apply py_set_ok in Hset. destruct Hset as [n ->].
    apply bind_ok in H. destruct H as [u [s3 [Hm H]]].
    apply modify_ok in Hm. subst s3.
    apply ret_ok in H. destruct H as [_ ->]. cbn.
    repeat split; auto using rises_set.
Qed.

Lemma om_escape_loop_pieces (refs : list Ref) (c : Z) :
  only_marks (escape_loop_pieces execute_move' refs c).
Proof.
  induction refs as [|r rest IH]; cbn [escape_loop_pieces].
  - apply om_of_kp, kp_ret.
  - apply om_bind; [apply om_of_kp, kp_piece_of | intros p].
    destruct ((color p =? c) && is_alive p); [|exact IH].
    apply om_bind; [apply om_escape_loop_fields | intros esc].
    destruct esc; [apply om_of_kp, kp_ret | exact IH].
Qed.

Lemma om_check_checkmate_body (fuel : nat) (self : Ref) (c : Z) :
  only_marks (check_checkmate_body (check_check fuel) execute_move' self c).
Proof.
  unfold check_checkmate_body.
  apply om_bind; [apply om_of_kp, kp_check_check | intros in_check].
  destruct (negb in_check); [apply om_of_kp, kp_ret|].
  apply om_bind; [apply om_of_kp, kp_gets | intros ps].
  apply om_bind; [apply om_escape_loop_pieces | intros esc].
  destruct esc; [apply om_of_kp, kp_ret|].
  intros s u s' H. apply modify_ok in H. subst s'. cbn.
  repeat split; auto using rises_refl.
Qed.

End Escapes.

Lemma move_counter_counts (self : Ref) (s s' : Game) (u : unit) :
  move_counter self s = Ok (u, s') ->
  move_count s' = move_count s + 1 /\ promotion_counter s' = promotion_counter s /\
  was_checked s' = was_checked s /\ is_checkmate s' = is_checkmate s.
Proof.
  unfold move_counter. intros H.
  apply bind_ok in H. destruct H as [p [s0 [Hp H]]].
  apply piece_of_ok in Hp. destruct Hp as [_ ->].
  apply bind_ok in H. destruct H as [u0 [s1 [Hu H]]].
  apply upd_piece_ok in Hu. destruct Hu as [p0 [_ ->]].
  apply bind_ok in H. destruct H as [mc [s2 [Hmc H]]].
  apply gets_ok in Hmc. destruct Hmc as [-> ->].
  apply bind_ok in H. destruct H as [u1 [s3 [Hm H]]].
  apply modify_ok in Hm. subst s3.
  apply bind_ok in H. destruct H as [roch [s4 [Hro H]]].
  apply gets_ok in Hro. destruct Hro as [_ ->].
  apply bind_ok in H. destruct H as [u2 [s5 [Hrook H]]].
  assert (Hk : progress s5
               = progress (set_move_count
                             (move_count (set_pieces (list_set (pieces s) self
                                (set_move_idx (move_idx p + 1) p0)) s) + 1)
                             (set_pieces (list_set (pieces s) self
                                (set_move_idx (move_idx p + 1) p0)) s))).
  { revert Hrook. generalize u2. generalize s5.
    generalize (set_move_count
                  (move_count (set_pieces (list_set (pieces s) self
                     (set_move_idx (move_idx p + 1) p0)) s) + 1)
                  (set_pieces (list_set (pieces s) self
                     (set_move_idx (move_idx p + 1) p0)) s)).
    intros g g' v Hg. revert g v g' Hg.
    change (keeps_progress
              (if (roch : bool) then
                 rook <- gets rochade_rook ;;
                 m <- attr rook move_idx ;;
                 match rook with
                 | Some r => upd_piece r (set_move_idx (m + 1))
                 | None => raise AttributeError
                 end
               else ret tt)).
    kp_go. }
  apply bind_ok in H. destruct H as [mc' [s6 [Hmc' H]]].
  apply gets_ok in Hmc'. destruct Hmc' as [-> ->].
  apply bind_ok in H. destruct H as [c [s7 [Hc H]]].
  apply lift_ok in Hc. destruct Hc as [_ ->].
  apply modify_ok in H. subst s'.
  unfold progress in Hk. cbn in Hk. injection Hk as E1 E2 E3 E4 E5. cbn.
  repeat split; assumption.
Qed.

(** X21: the counter counts the moves that are made, and nothing else.  When
    [execute_move] returns, [move_count] has gone up by one if the call was
    not a test and answered [True], and is unchanged otherwise; the promotion
    counters are unchanged, no [was_checked] mark and no checkmate mark has
    been cleared, and a test call has left the whole course of the game
    (counter, color to move, marks, promotion counters) as it was. *)
Theorem execute_move_counts_the_moves_it_makes :
  forall (fuel : nat) (self : Ref) (move_to : string) (is_test : bool) (s s' : Game)
         (done : bool),
    execute_move fuel self move_to is_test s = Ok (done, s') ->
    move_count s' = move_count s + (if done && negb is_test then 1 else 0) /\
    promotion_counter s' = promotion_counter s /\
    rises (was_checked s) (was_checked s') /\
    (is_checkmate s = true -> is_checkmate s' = true) /\
    (is_test = true -> progress s' = progress s).
Proof.
  intros fuel self move_to is_test s s' done H.
  destruct is_test.
  { pose proof (kp_execute_move_test _ _ _ _ _ _ H) as Hk.
    destruct (om_of_kp _ (kp_execute_move_test fuel self move_to) _ _ _ H)
      as [E1 [_ [E3 [E4 E5]]]].
    rewrite andb_false_r, Z.add_0_r. auto. }
  destruct fuel as [|fuel]; [discriminate H|].
  rewrite execute_move_S in H. unfold execute_move_body in H.
  apply bind_ok in H. destruct H as [p [s0 [Hp H]]].
  apply piece_of_ok in Hp. destruct Hp as [_ ->].
  apply bind_ok in H. destruct H as [[code info] [s1 [Hcm H]]].
  destruct (om_of_kp _ (kp_check_move _ _ _ _ _) _ _ _ Hcm) as [A1 [_ [A3 [A4 A5]]]].
  destruct (code =? code_invalid).
  { apply ret_ok in H. destruct H as [-> ->]. cbn. rewrite Z.add_0_r.
    split; [exact A1|]. split; [exact A3|]. split; [exact A4|].
    split; [exact A5 | discriminate]. }
  apply bind_ok in H. destruct H as [roch [s2 [Hro H]]].
  apply gets_ok in Hro. destruct Hro as [_ ->].
  apply bind_ok in H. destruct H as [mate_board [s3 [Hmp H]]].
  destruct (om_of_kp _ (kp_move_piece _ _ _ _) _ _ _ Hmp) as [B1 [_ [B3 [B4 B5]]]].
  apply bind_ok in H. destruct H as [in_check [s4 [Hcc H]]].
  destruct (om_of_kp _ (kp_check_check _ _ _) _ _ _ Hcc) as [C1 [_ [C3 [C4 C5]]]].
  destruct in_check.
  { apply bind_ok in H. destruct H as [u [s5 [Hrd H]]].
    destruct (om_of_kp _ (kp_redo_move _ _ _ _ _) _ _ _ Hrd) as [D1 [_ [D3 [D4 D5]]]].
    apply ret_ok in H. destruct H as [-> ->]. cbn. rewrite Z.add_0_r.
    split; [congruence|]. split; [congruence|]. split; [|split].
    - eapply rises_trans; [exact A4|]. eapply rises_trans; [exact B4|].
      eapply rises_trans; [exact C4 | exact D4].
    - intros Hm. auto.
    - discriminate. }
  apply bind_ok in H. destruct H as [promote [s5 [Hpw H]]].
  destruct (om_of_kp _ (kp_check_pawn2x _) _ _ _ Hpw) as [D1 [_ [D3 [D4 D5]]]].
  apply bind_ok in H. destruct H as [u [s6 [Hmc H]]].
  destruct (move_counter_counts _ _ _ _ Hmc) as [E1 [E3 [E4 E5]]].
  apply bind_ok in H. destruct H as [u' [s7 [Hmate H]]].
  assert (Hom : only_marks (check_checkmate_body (check_check (S fuel)) (execute_move fuel)
                              self (if color p =? 1 then 2 else 1))).
  { apply om_check_checkmate_body. intros r l. apply kp_execute_move_test. }
  destruct (Hom _ _ _ Hmate) as [F1 [_ [F3 [F4 F5]]]].
  apply ret_ok in H. destruct H as [-> ->]. cbn.
  split; [lia|]. split; [congruence|]. split; [|split].
  - eapply rises_trans; [exact A4|]. eapply rises_trans; [exact B4|].
    eapply rises_trans; [exact C4|]. eapply rises_trans; [exact D4|].
    rewrite <- E4. exact F4.
  - intros Hm. apply F5. rewrite E5. auto.
  - discriminate.
Qed.

Lemma execute_move_counts_the_moves_it_makes_witness :
  move_count (final_state (state_of (execute_move 5 P_W5 "E4" false standard_start)))
  = move_count standard_start + (if true && negb false then 1 else 0) /\
  promotion_counter (final_state (state_of (execute_move 5 P_W5 "E4" false standard_start)))
  = promotion_counter standard_start /\
  rises (was_checked standard_start)
    (was_checked (final_state (state_of (execute_move 5 P_W5 "E4" false standard_start)))) /\
  (is_checkmate standard_start = true ->
   is_checkmate (final_state (state_of (execute_move 5 P_W5 "E4" false standard_start)))
   = true) /\
  (false = true ->
   progress (final_state (state_of (execute_move 5 P_W5 "E4" false standard_start)))
   = progress standard_start).
Proof.
  apply (execute_move_counts_the_moves_it_makes 5 P_W5 "E4" false standard_start
           (final_state (state_of (execute_move 5 P_W5 "E4" false standard_start))) true).
  vm_compute. reflexivity.
Defined.

(** ** The steps of a pawn *)

Lemma entry_changed_upd (s s1 s2 : Game) (self : Ref) (p p1 : Piece) (g : Piece -> Piece)
    (u : unit) :
  nth_error (pieces s) self = Some p ->
  entry_changed s self s1 p1 ->
  upd_piece self g s1 = Ok (u, s2) ->
  entry_changed s self s2 (g p1).
Proof.
  intros Hp -> H. apply upd_piece_ok in H. destruct H as [q [Hq ->]].
  cbn [pieces set_pieces] in Hq. rewrite (lk_same _ _ _ p1 Hp) in Hq. injection Hq as <-.
  unfold entry_changed. cbn [pieces set_pieces]. rewrite list_set_twice.
  destruct s; reflexivity.
Qed.

Lemma entry_changed_lookup (s s1 : Game) (self q : Ref) (p p1 qp : Piece) :
  nth_error (pieces s) self = Some p ->
  entry_changed s self s1 p1 ->
  nth_error (pieces s1) q = Some qp ->
  (q = self /\ qp = p1) \/ (q <> self /\ nth_error (pieces s) q = Some qp).
Proof.
  intros Hp -> H. cbn [pieces set_pieces] in H.
  destruct (Nat.eq_dec q self) as [->|Hne].
  - left. rewrite (lk_same _ _ _ p1 Hp) in H. injection H as <-. auto.
  - right. split; [exact Hne|].
    rewrite nth_error_list_set_neq in H by congruence. exact H.
Qed.

Lemma pawn_kill_vector (m0 : bool) (c2 : bool) (v : Vec) :
  vec_in v (last_two
              (if c2
               then map (fun m => (- fst m, - snd m))
                      (if m0
                       then PawnMoves.normal_moves ++ PawnMoves.special_moves
                            ++ PawnMoves.kill_moves
                       else PawnMoves.normal_moves ++ PawnMoves.kill_moves)
               else if m0
                    then PawnMoves.normal_moves ++ PawnMoves.special_moves
                         ++ PawnMoves.kill_moves
                    else PawnMoves.normal_moves ++ PawnMoves.kill_moves)) = true ->
  v = ((if c2 then -1 else 1), -1) \/ v = ((if c2 then -1 else 1), 1).
Proof.
  intros H. apply vec_in_In in H.
  destruct c2, m0; cbn in H; destruct H as [<- | [<- | []]]; auto.
Qed.

Lemma pawn_forward_vector (m0 : bool) (c2 : bool) (v : Vec) :
  vec_in v (if c2
            then map (fun m => (- fst m, - snd m))
                   (if m0
                    then PawnMoves.normal_moves ++ PawnMoves.special_moves
                         ++ PawnMoves.kill_moves
                    else PawnMoves.normal_moves ++ PawnMoves.kill_moves)
            else if m0
                 then PawnMoves.normal_moves ++ PawnMoves.special_moves
                      ++ PawnMoves.kill_moves
                 else PawnMoves.normal_moves ++ PawnMoves.kill_moves) = true ->
  vec_in v (last_two
              (if c2
               then map (fun m => (- fst m, - snd m))
                      (if m0
                       then PawnMoves.normal_moves ++ PawnMoves.special_moves
                            ++ PawnMoves.kill_moves
                       else PawnMoves.normal_moves ++ PawnMoves.kill_moves)
               else if m0
                    then PawnMoves.normal_moves ++ PawnMoves.special_moves
                         ++ PawnMoves.kill_moves
                    else PawnMoves.normal_moves ++ PawnMoves.kill_moves)) = false ->
  v = ((if c2 then -1 else 1), 0) \/ (v = (2 * (if c2 then -1 else 1), 0) /\ m0 = true).
Proof.
  intros H Hk. apply vec_in_In in H.
  destruct c2, m0; cbn in H;
    repeat (destruct H as [<- | H]; [first [discriminate Hk | auto] |]); destruct H.
Qed.

Lemma entry_changed_refl (s : Game) (self : Ref) (p : Piece) :
  nth_error (pieces s) self = Some p -> entry_changed s self s p.
Proof.
  intros Hp. unfold entry_changed. rewrite list_set_same by exact Hp.
  destruct s; reflexivity.
Qed.

(** What [Pawn.move_types] leaves in the candidate list. *)
Lemma Pawn_move_types_allows (self : Ref) (l : string) (t : bool) (s s' : Game) (u : unit)
    (p : Piece) :
  nth_error (pieces s) self = Some p -> cls p = Pawn ->
  Pawn_move_types self l t s = Ok (u, s') ->
  exists (idx f : Idx) (p' : Piece),
    label2index l = Ok idx /\ field_idx p = Some f /\
    entry_changed s self s' p' /\ field_idx p' = Some f /\
    (vec_in (fst idx - fst f, snd idx - snd f) (possible_moves p') = true ->
     pawn_step_allowed s p f idx).
Proof.
  intros Hp Hcls H. unfold Pawn_move_types in H.
  apply bind_ok in H. destruct H as [p0 [s0 [Hp0 H]]].
  apply piece_of_ok in Hp0. destruct Hp0 as [Hp0 ->].
  rewrite Hp in Hp0. injection Hp0 as <-. cbv zeta in H.
  set (moves2 := if color p =? 2 then _ else _) in H.
  apply bind_ok in H. destruct H as [u1 [s1 [Hu1 H]]].
  pose proof (entry_changed_upd _ _ _ _ _ _ _ _ Hp (entry_changed_refl _ _ _ Hp) Hu1) as C1.
  apply bind_ok in H. destruct H as [v [s2 [Hv H]]].
  apply get_move_step_inv in Hv. destruct Hv as [-> [q1 [idx [f [Hq1 [Hl [Hf1 ->]]]]]]].
  assert (Eq1 : q1 = set_possible_moves moves2 p).
  { rewrite C1 in Hq1. cbn [pieces set_pieces] in Hq1.
    rewrite (lk_same _ _ _ (set_possible_moves moves2 p) Hp) in Hq1. congruence. }
  subst q1. cbn in Hf1.
  apply bind_ok in H. destruct H as [idx' [s3 [Hl' H]]].
  apply lift_ok in Hl'. destruct Hl' as [Hl' ->]. rewrite Hl in Hl'. injection Hl' as <-.
  apply bind_ok in H. destruct H as [u2 [s4 [Hu2 H]]].
  pose proof (entry_changed_upd _ _ _ _ _ _ _ _ Hp C1 Hu2) as C2. clear Hu1 Hu2.
  apply bind_ok in H. destruct H as [u3 [s5 [Hu3 H]]].
  assert (C3 : exists p3, entry_changed s self s5 p3 /\
             possible_moves p3 = moves2 /\ field_idx p3 = Some f /\
             cls p3 = Pawn /\ color p3 = color p /\ move_idx p3 = move_idx p /\
             (Z.abs (fst idx - fst f) = 1 -> receive_en_passant p3 = receive_en_passant p)).
  { destruct ((Z.abs (fst (fst idx - fst f, snd idx - snd f)) =? 2) && negb t) eqn:E2.
    - pose proof (entry_changed_upd _ _ _ _ _ _ _ _ Hp C2 Hu3) as C3.
      eexists. split; [exact C3|]. cbn. repeat split; auto.
      intros Habs. apply andb_true_iff in E2. destruct E2 as [E2 _].
      cbn [fst] in E2. apply Z.eqb_eq in E2. lia.
    - apply ret_ok in Hu3. destruct Hu3 as [_ ->].
      eexists. split; [exact C2|]. cbn. repeat split; auto. }
  clear C1 C2 Hu3. destruct C3 as [p3 [C3 [Hm3 [Hf3 [Hc3 [Hcol3 [Hmi3 Hre3]]]]]]].
  apply bind_ok in H. destruct H as [move_valid [s6 [Hmv H]]].
  exists idx, f.
  assert (Hboard5 : board_objects s5 = board_objects s) by (rewrite C3; reflexivity).
  assert (Hmain :
    exists p6, entry_changed s self s6 p6 /\ possible_moves p6 = moves2 /\
               field_idx p6 = Some f /\
               (move_valid = true ->
                vec_in (fst idx - fst f, snd idx - snd f) moves2 = true ->
                pawn_step_allowed s p f idx)).
  { subst moves2.
    match type of Hmv with
    | context [vec_in ?v (last_two ?m)] => destruct (vec_in v (last_two m)) eqn:Ek
    end.
    - apply pawn_kill_vector in Ek.
      apply bind_ok in Hmv. destruct Hmv as [target [s7 [Ht Hmv]]].
      unfold get_board in Ht. apply bind_ok in Ht. destruct Ht as [b [s8 [Hb Ht]]].
      apply gets_ok in Hb. destruct Hb as [-> ->].
      apply lift_ok in Ht. destruct Ht as [Ht ->]. cbn [board_get] in Ht.
      rewrite Hboard5 in Ht.
      destruct target as [r|].
      + apply ret_ok in Hmv. destruct Hmv as [-> ->].
        exists p3. repeat split; auto. intros _ _.
        right. right. split; [exact Ek|]. left. exists r. exact Ht.
      + apply bind_ok in Hmv. destruct Hmv as [f' [s9 [Hf' Hmv]]].
        rewrite Hf1 in Hf'. apply ret_ok in Hf'. destruct Hf' as [-> ->].
        apply bind_ok in Hmv. destruct Hmv as [ep [s10 [Hep Hmv]]].
        unfold get_board in Hep. apply bind_ok in Hep. destruct Hep as [b [s11 [Hb Hep]]].
        apply gets_ok in Hb. destruct Hb as [-> ->].
        apply lift_ok in Hep. destruct Hep as [Hep ->]. cbn [board_get] in Hep.
        rewrite Hboard5 in Hep.
        destruct ep as [q|].
        * apply bind_ok in Hmv. destruct Hmv as [qp [s12 [Hqp Hmv]]].
          apply piece_of_ok in Hqp. destruct Hqp as [Hqp ->].
          destruct (PieceClass_eqb (cls qp) Pawn) eqn:Eqc;
            [destruct (receive_en_passant qp && negb (color qp =? color p)) eqn:Eqr|].
          -- apply bind_ok in Hmv. destruct Hmv as [u4 [s13 [Hu4 Hmv]]].
             pose proof (entry_changed_upd _ _ _ _ _ _ _ _ Hp C3 Hu4) as C4.
             apply bind_ok in Hmv. destruct Hmv as [u5 [s14 [Hu5 Hmv]]].
             pose proof (entry_changed_upd _ _ _ _ _ _ _ _ Hp C4 Hu5) as C5.
             apply ret_ok in Hmv. destruct Hmv as [-> ->].
             eexists. split; [exact C5|]. cbn. repeat split; auto. intros _ _.
             right. right. split; [exact Ek|]. right. split; [exact Ht|].
             apply andb_true_iff in Eqr. destruct Eqr as [Er Ec].
             apply negb_true_iff, Z.eqb_neq in Ec.
             destruct (entry_changed_lookup _ _ _ _ _ _ _ Hp C3 Hqp) as [[-> ->] | [Hne Hq0]].
             ++ exfalso. apply Ec. exact Hcol3.
             ++ exists q, qp. unfold piece_at.
                split; [exact Hep|]. split; [exact Hq0|].
                split; [destruct (cls qp); try discriminate Eqc; reflexivity|].
                split; [exact Er | exact Ec].
          -- apply ret_ok in Hmv. destruct Hmv as [-> ->].
             exists p3. repeat split; auto. intros E. discriminate E.
          -- apply ret_ok in Hmv. destruct Hmv as [-> ->].
             exists p3. repeat split; auto. intros E. discriminate E.
        * apply ret_ok in Hmv. destruct Hmv as [-> ->].
          exists p3. repeat split; auto. intros E. discriminate E.
    - apply bind_ok in Hmv. destruct Hmv as [target [s7 [Ht Hmv]]].
      unfold get_board in Ht. apply bind_ok in Ht. destruct Ht as [b [s8 [Hb Ht]]].
      apply gets_ok in Hb. destruct Hb as [-> ->].
      apply lift_ok in Ht. destruct Ht as [Ht ->]. cbn [board_get] in Ht.
      rewrite Hboard5 in Ht.
      destruct target as [r|]; apply ret_ok in Hmv; destruct Hmv as [-> ->];
        exists p3; repeat split; auto.
      + intros E. discriminate E.
      + intros _ Hin. destruct (pawn_forward_vector _ _ _ Hin Ek) as [Ev | [Ev Em]].
        * left. split; [exact Ev | exact Ht].
        * right. left. split; [exact Ev|]. split; [|exact Ht].
          apply Z.eqb_eq. exact Em. }
  destruct Hmain as [p6 [C6 [Hm6 [Hf6 Hrule]]]].
  destruct move_valid; cbn [negb] in H.
  - apply ret_ok in H. destruct H as [_ ->].
    exists p6. repeat split; auto. rewrite Hm6. intros Hin. apply Hrule; auto.
  - pose proof (entry_changed_upd _ _ _ _ _ _ _ _ Hp C6 H) as C7.
    eexists. repeat split; [exact Hl | exact Hf1 | exact C7 | exact Hf6 |].
    cbn. intros E. discriminate E.
Qed.

(** X22: a pawn is let through only by the rules of its steps.  Whenever
    [check_move] answers for a pawn with a code other than invalid, the
    destination is one step forward (up the rows for a color other than 2,
    down for color 2) and empty; or two steps forward and empty, the pawn not
    having moved before; or one step forward to either side, and then it is
    occupied, or it is empty and beside the pawn, in the column of the
    destination, stands a pawn of another color whose [receive_en_passant] is
    set. *)
Theorem pawn_moves_by_its_rules :
  forall (s s' : Game) (fuel : nat) (self : Ref) (move_to : string) (c : Z) (is_test : bool)
         (code : Z) (info : string) (p : Piece),
    piece_at s self = Some p -> cls p = Pawn ->
    check_move fuel self move_to c is_test s = Ok ((code, info), s') ->
    code <> code_invalid ->
    exists (idx f : Idx),
      label2index move_to = Ok idx /\ field_idx p = Some f /\ pawn_step_allowed s p f idx.
Proof.
  intros s s' fuel self move_to c is_test code info p Hp Hcls H Hcode.
  unfold piece_at in Hp.
  destruct fuel as [|fuel]; [discriminate H|].
  rewrite check_move_S in H. unfold check_move_body in H.
  apply bind_ok in H. destruct H as [u [s1 [Hmt H]]].
  unfold move_types in Hmt.
  apply bind_ok in Hmt. destruct Hmt as [p0 [s0 [Hp0 Hmt]]].
  apply piece_of_ok in Hp0. destruct Hp0 as [Hp0 ->].
  rewrite Hp in Hp0. injection Hp0 as <-. rewrite Hcls in Hmt.
  destruct (Pawn_move_types_allows _ _ _ _ _ _ _ Hp Hcls Hmt)
    as [idx [f [p' [Hl [Hf [C [Hf' Hrule]]]]]]].
  assert (Hp' : nth_error (pieces s1) self = Some p').
  { rewrite C. cbn [pieces set_pieces]. exact (lk_same _ _ _ p' Hp). }
  apply bind_ok in H. destruct H as [step [s2 [Hstep H]]].
  rewrite (get_move_step_value self move_to s1 p' idx f Hp' Hl Hf') in Hstep.
  injection Hstep as <- <-.
  apply bind_ok in H. destruct H as [p2 [s3 [Hp2 H]]].
  apply piece_of_ok in Hp2. destruct Hp2 as [Hp2 ->].
  rewrite Hp' in Hp2. injection Hp2 as <-.
  destruct (vec_in (fst idx - fst f, snd idx - snd f) (possible_moves p')) eqn:Ein.
  - exists idx, f. split; [exact Hl|]. split; [exact Hf|]. apply Hrule. reflexivity.
  - cbn [negb] in H. apply ret_ok in H. destruct H as [E _]. injection E as E _.
    exfalso. apply Hcode. exact E.
Qed.

Lemma pawn_moves_by_its_rules_witness :
  exists (idx f : Idx),
    label2index "E4" = Ok idx /\
    field_idx (mkPiece Pawn "Pawn White 5" "P_W5" 1 true "E2" "E2" (Some (1, 4)) []
                 false false None 0) = Some f /\
    pawn_step_allowed standard_start
      (mkPiece Pawn "Pawn White 5" "P_W5" 1 true "E2" "E2" (Some (1, 4)) []
         false false None 0) f idx.
Proof.
  apply (pawn_moves_by_its_rules standard_start
           (final_state (state_of (check_move 5 P_W5 "E4" 1 false standard_start)))
           5 P_W5 "E4" 1 false code_empty "P_W5 moves to E4").
  - vm_compute. reflexivity.
  - reflexivity.
  - vm_compute. reflexivity.
  - discriminate.
Defined.

(** ** A castling request that is refused *)

(** The search for the castling rook does not read the candidate lists. *)
Lemma find_rochade_rook_upd (g : Piece -> Piece) (c h : Z) :
  (forall p, name (g p) = name p /\ color (g p) = color p /\
             is_alive (g p) = is_alive p /\ move_idx (g p) = move_idx p) ->
  forall (ps : list Piece) (self i : Ref) (p : Piece),
    nth_error ps self = Some p ->
    find_rochade_rook (list_set ps self (g p)) i c h = find_rochade_rook ps i c h.
Proof.
  intros Hg. induction ps as [|x ps IH]; intros self i p Hp; [reflexivity|].
  destruct self as [|self]; cbn [list_set find_rochade_rook].
  - cbn in Hp. injection Hp as ->. destruct (Hg p) as [E1 [E2 [E3 E4]]].
    unfold rochade_rook_ok. rewrite E1, E2, E3, E4. reflexivity.
  - cbn in Hp. rewrite (IH _ _ _ Hp). reflexivity.
Qed.

Lemma vec_in_last (v : Vec) (l : list Vec) : vec_in v (l ++ [v]) = true.
Proof.
  unfold vec_in. rewrite existsb_app. cbn. unfold Vec_eqb.
  rewrite !Z.eqb_refl. cbn. apply orb_true_r.
Qed.

Lemma rochade_vector (v : Vec) :
  vec_in v KingMoves.rochade = true -> fst v = 0 /\ (snd v = 2 \/ snd v = -2).
Proof.
  intros H. apply vec_in_In in H. cbn in H.
  destruct H as [<- | [<- | []]]; cbn; auto.
Qed.

(** [King.move_types] on a castling vector that [check_rochade] accepts. *)
Lemma King_move_types_offers (self : Ref) (l : string) (s s' : Game) (u : unit)
    (p : Piece) (f idx : Idx) (rook : Ref) :
  nth_error (pieces s) self = Some p -> move_idx p = 0 -> field_idx p = Some f ->
  label2index l = Ok idx ->
  vec_in (fst idx - fst f, snd idx - snd f) KingMoves.rochade = true ->
  py_nth (was_checked s) (color p - 1) = Ok false ->
  find_rochade_rook (pieces s) 0%nat (color p) (snd idx - snd f) = Some rook ->
  King_move_types self l false s = Ok (u, s') ->
  exists (L : string),
    s' = set_rochade_rook_move_to (Some L)
           (set_rochade_rook (Some rook)
              (set_is_rochade_gui true
                 (set_is_rochade true
                    (set_pieces
                       (list_set (pieces s) self
                          (set_possible_moves
                             (KingMoves.normal_moves
                              ++ [(fst idx - fst f, snd idx - snd f)]) p)) s)))).
Proof.
  intros Hp Hmi Hf Hl Hv Hwc Hrook H. unfold King_move_types in H.
  apply bind_ok in H. destruct H as [u1 [s1 [Hu1 H]]].
  pose proof (entry_changed_upd _ _ _ _ _ _ _ _ Hp (entry_changed_refl _ _ _ Hp) Hu1) as C1.
  assert (Hp1 : nth_error (pieces s1) self
                = Some (set_possible_moves KingMoves.normal_moves p)).
  { rewrite C1. cbn [pieces set_pieces]. exact (lk_same _ _ _ _ Hp). }
  apply bind_ok in H. destruct H as [p1 [s2 [Hp1' H]]].
  apply piece_of_ok in Hp1'. destruct Hp1' as [Hp1' ->].
  rewrite Hp1 in Hp1'. injection Hp1' as <-.
  cbn [move_idx set_possible_moves] in H. rewrite Hmi in H. cbn [Z.eqb] in H.
  apply bind_ok in H. destruct H as [v [s3 [Hstep H]]].
  rewrite (get_move_step_value self l s1 _ idx f Hp1 Hl Hf) in Hstep.
  injection Hstep as <- <-.
  apply bind_ok in H. destruct H as [[is_roch rook'] [s4 [Hc H]]].
  assert (Hoffer : is_roch = true /\ rook' = Some rook /\ s4 = s1).
  { unfold check_rochade in Hc.
    apply bind_ok in Hc. destruct Hc as [p2 [s5 [Hp2 Hc]]].
    apply piece_of_ok in Hp2. destruct Hp2 as [Hp2 ->].
    rewrite Hp1 in Hp2. injection Hp2 as <-.
    rewrite Hv in Hc.
    apply bind_ok in Hc. destruct Hc as [cond [s6 [Hcond Hc]]].
    apply bind_ok in Hcond. destruct Hcond as [wc [s7 [Hg Hcond]]].
    apply gets_ok in Hg. destruct Hg as [-> ->].
    apply bind_ok in Hcond. destruct Hcond as [checked [s8 [Hch Hcond]]].
    apply lift_ok in Hch. destruct Hch as [Hch ->].
    assert (Ewc : was_checked s1 = was_checked s) by (rewrite C1; reflexivity).
    rewrite Ewc in Hch. cbn [color set_possible_moves] in Hch.
    rewrite Hwc in Hch. injection Hch as <-.
    apply ret_ok in Hcond. destruct Hcond as [-> ->]. cbn [negb andb] in Hc.
    apply bind_ok in Hc. destruct Hc as [ps [s9 [Hps Hc]]].
    apply gets_ok in Hps. destruct Hps as [-> ->].
    assert (Efind : find_rochade_rook (pieces s1) 0%nat
                      (color (set_possible_moves KingMoves.normal_moves p))
                      (snd (fst idx - fst f, snd idx - snd f)) = Some rook).
    { rewrite C1. cbn [pieces set_pieces color set_possible_moves snd].
      rewrite (find_rochade_rook_upd (set_possible_moves KingMoves.normal_moves));
        [exact Hrook | intros q; destruct q; cbn; auto | exact Hp]. }
    rewrite Efind in Hc. apply ret_ok in Hc. destruct Hc as [E ->].
    injection E as -> ->. auto. }
  destruct Hoffer as [-> [-> ->]].
  apply bind_ok in H. destruct H as [u2 [s5 [Hu2 H]]].
  pose proof (entry_changed_upd _ _ _ _ _ _ _ _ Hp C1 Hu2) as C2.
  cbn [set_possible_moves] in C2.
  unfold set_rochade in H.
  apply bind_ok in H. destruct H as [u3 [s6 [Hm1 H]]]. apply modify_ok in Hm1. subst s6.
  apply bind_ok in H. destruct H as [u4 [s7 [Hm2 H]]]. apply modify_ok in Hm2. subst s7.
  apply bind_ok in H. destruct H as [u5 [s8 [Hm3 H]]]. apply modify_ok in Hm3. subst s8.
  apply bind_ok in H. destruct H as [p3 [s9 [Hp3 H]]].
  apply piece_of_ok in Hp3. destruct Hp3 as [Hp3 ->].
  assert (Hf3 : field_idx p3 = Some f).
  { rewrite C2 in Hp3. cbn [pieces set_pieces set_rochade_rook set_is_rochade_gui
      set_is_rochade] in Hp3.
    rewrite (lk_same _ _ _ _ Hp) in Hp3. injection Hp3 as <-. destruct p; exact Hf. }
  rewrite Hf3 in H.
  apply bind_ok in H. destruct H as [L [s10 [HL H]]].
  apply lift_ok in HL. destruct HL as [_ ->].
  apply modify_ok in H. subst s'. exists L. rewrite C2.
  destruct p; reflexivity.
Qed.

(** X23: a castling request that is refused for a piece in the way stays
    pending.  A king that has not moved and whose color has no [was_checked]
    mark is asked outside test mode for a castling vector, a rook is found
    for it, and the field next to the king on the way is occupied:
    [execute_move], when it returns, answers [False] and leaves board and
    move counter as they were, but [is_rochade] and [is_rochade_gui] are left
    set and [rochade_rook] names the rook, as [King.set_rochade] wrote them
    before the path was looked at. *)
Theorem refused_castling_stays_pending :
  forall (s s' : Game) (fuel : nat) (self : Ref) (move_to : string) (done : bool)
         (p : Piece) (f idx : Idx) (rook r : Ref),
    piece_at s self = Some p -> cls p = King -> move_idx p = 0 ->
    field_idx p = Some f -> valid_index f -> str_in "Knight" (name p) = false ->
    label2index move_to = Ok idx ->
    vec_in (fst idx - fst f, snd idx - snd f) KingMoves.rochade = true ->
    py_nth (was_checked s) (color p - 1) = Ok false ->
    find_rochade_rook (pieces s) 0%nat (color p) (snd idx - snd f) = Some rook ->
    np_get (board_objects s) (fst f, snd f + Z.sgn (snd idx - snd f)) = Ok (Some r) ->
    execute_move fuel self move_to false s = Ok (done, s') ->
    done = false /\ is_rochade s' = true /\ is_rochade_gui s' = true /\
    rochade_rook s' = Some rook /\
    board_objects s' = board_objects s /\ move_count s' = move_count s.
Proof.
  intros s s' fuel self move_to done p f idx rook r
         Hp Hcls Hmi Hf Hvf Hname Hl Hv Hwc Hrook Hcell H.
  unfold piece_at in Hp.
  destruct fuel as [|fuel]; [discriminate H|].
  rewrite execute_move_S in H. unfold execute_move_body in H.
  apply bind_ok in H. destruct H as [p0 [s0 [Hp0 H]]].
  apply piece_of_ok in Hp0. destruct Hp0 as [Hp0 ->].
  rewrite Hp in Hp0. injection Hp0 as <-.
  apply bind_ok in H. destruct H as [[code info] [s1 [Hcm H]]].
  rewrite check_move_S in Hcm. unfold check_move_body in Hcm.
  apply bind_ok in Hcm. destruct Hcm as [u [s2 [Hmt Hcm]]].
  unfold move_types in Hmt.
  apply bind_ok in Hmt. destruct Hmt as [p1 [s3 [Hp1 Hmt]]].
  apply piece_of_ok in Hp1. destruct Hp1 as [Hp1 ->].
  rewrite Hp in Hp1. injection Hp1 as <-. rewrite Hcls in Hmt.
  destruct (King_move_types_offers _ _ _ _ _ _ _ _ _ Hp Hmi Hf Hl Hv Hwc Hrook Hmt)
    as [L Es2].
  set (v := (fst idx - fst f, snd idx - snd f)) in *.
  set (p2 := set_possible_moves (KingMoves.normal_moves ++ [v]) p) in *.
  assert (Hp2 : nth_error (pieces s2) self = Some p2).
  { rewrite Es2. norm_state. exact (lk_same _ _ _ _ Hp). }
  assert (Hf2 : field_idx p2 = Some f) by (destruct p; exact Hf).
  assert (Hn2 : str_in "Knight" (name p2) = false) by (destruct p; exact Hname).
  assert (Hb2 : board_objects s2 = board_objects s) by (rewrite Es2; reflexivity).
  apply bind_ok in Hcm. destruct Hcm as [step [s4 [Hstep Hcm]]].
  rewrite (get_move_step_value self move_to s2 p2 idx f Hp2 Hl Hf2) in Hstep.
  injection Hstep as <- <-. fold v in Hcm.
  apply bind_ok in Hcm. destruct Hcm as [p3 [s5 [Hp3 Hcm]]].
  apply piece_of_ok in Hp3. destruct Hp3 as [Hp3 ->].
  rewrite Hp2 in Hp3. injection Hp3 as <-.
  assert (Hin : vec_in v (possible_moves p2) = true)
    by (destruct p; apply vec_in_last).
  rewrite Hin in Hcm. cbn [negb] in Hcm.
  destruct (rochade_vector v Hv) as [Hv1 Hv2]. cbn [fst snd v] in Hv1, Hv2.
  assert (Hline : is_straight v || is_diagonal v = true).
  { unfold is_straight, v. cbn [fst snd]. rewrite Hv1.
    destruct Hv2 as [-> | ->]; reflexivity. }
  assert (Hbetween : 1 <= 1 < Z.max (Z.abs (fst idx - fst f)) (Z.abs (snd idx - snd f)))
    by lia.
  assert (Hcell2 : np_get (board_objects s2)
                     (fst f + 1 * Z.sgn (fst idx - fst f),
                      snd f + 1 * Z.sgn (snd idx - snd f)) = Ok (Some r)).
  { rewrite Hb2, Hv1. cbn [Z.sgn]. rewrite Z.mul_0_r, Z.add_0_r, Z.mul_1_l. exact Hcell. }
  destruct (line_scan_blocked s2 self move_to (color p) false p2 f idx 1 r
              Hp2 Hf2 Hvf Hl Hn2 Hline Hbetween Hcell2) as [steps [Hsteps Hscan]].
  apply bind_ok in Hcm. destruct Hcm as [steps0 [s6 [Hs0 Hcm]]].
  rewrite Hsteps in Hs0. injection Hs0 as <- <-.
  apply bind_ok in Hcm. destruct Hcm as [blocked [s7 [Hblk Hcm]]].
  destruct (Hscan _ _ Hblk) as [-> Hsome].
  destruct blocked as [st|]; [|contradiction Hsome; reflexivity].
  apply ret_ok in Hcm. destruct Hcm as [E ->]. injection E as -> _.
  cbn in H. apply ret_ok in H. destruct H as [-> ->].
  rewrite Es2. norm_state. repeat split; reflexivity.
Qed.

Lemma refused_castling_stays_pending_witness :
  false = false /\
  is_rochade (final_state (state_of (execute_move 5 K_W "G1" false standard_start))) = true /\
  is_rochade_gui (final_state (state_of (execute_move 5 K_W "G1" false standard_start)))
  = true /\
  rochade_rook (final_state (state_of (execute_move 5 K_W "G1" false standard_start)))
  = Some R_W2 /\
  board_objects (final_state (state_of (execute_move 5 K_W "G1" false standard_start)))
  = board_objects standard_start /\
  move_count (final_state (state_of (execute_move 5 K_W "G1" false standard_start)))
  = move_count standard_start.
Proof.
  apply (refused_castling_stays_pending standard_start
           (final_state (state_of (execute_move 5 K_W "G1" false standard_start)))
           5 K_W "G1" false
           (mkPiece King "King White" "K_W" 1 true "E1" "E1" (Some (0, 4)) []
              false false None 0) (0, 4) (0, 6) R_W2 5%nat).
  - vm_compute. reflexivity.
  - reflexivity.
  - reflexivity.
  - reflexivity.
  - unfold valid_index. simpl. lia.
  - vm_compute. reflexivity.
  - vm_compute. reflexivity.
  - vm_compute. reflexivity.
  - vm_compute. reflexivity.
  - vm_compute. reflexivity.
  - vm_compute. reflexivity.
  - vm_compute. reflexivity.
Defined.
